(** * onnxruntime: CPU pooling dispatch, WebGPU layer-norm shader
      generation and the WebAssembly C API, as a shallow embedding.

    Sources embedded:
    - [onnxruntime/core/providers/cpu/nn/pool.cc]
    - [onnxruntime/core/providers/webgpu/nn/layer_norm.cc]
    - [onnxruntime/wasm/api.cc]
    - [onnxruntime/core/providers/js/operators/conv_transpose.h]

    Integers are [Z]; 64-bit wrap-around is written out where the code
    multiplies or casts.  Calls into headers that are not among
    these sources are parameters gathered in a record, or small models whose
    doc comment says so. *)

From Stdlib Require Import String Ascii DecimalString.
From Stdlib Require Import ZArith List Bool Lia Permutation.
Import ListNotations.
Local Open Scope Z_scope.

(* ===================================================================== *)
(** * Machine integers *)
(* ===================================================================== *)

(** Two's-complement reduction of a mathematical integer to [int64_t]. *)
Definition wrap64 (z : Z) : Z := (z + 2^63) mod 2^64 - 2^63.

Definition mul64 (a b : Z) : Z := wrap64 (a * b).
Definition add64 (a b : Z) : Z := wrap64 (a + b).
Definition neg64 (a : Z) : Z := wrap64 (- a).

Definition in_int64 (z : Z) : Prop := - 2^63 <= z < 2^63.

(** Modelled from the spec: [onnxruntime::narrow<size_t>] is declared in
    core/common/narrow.h, which is not among the sources embedded here.  It is the checked
    narrowing conversion: the value is returned when it is representable in
    the unsigned target type of [bits] bits, and the conversion fails
    otherwise. *)
Definition narrow_size_t (bits : Z) (v : Z) : option Z :=
  if (0 <=? v) && (v <? 2 ^ bits) then Some v else None.

(* ===================================================================== *)
(** * pool.cc *)
(* ===================================================================== *)

Module Pool.

(** ** Status values and control flow *)

Inductive StatusCode := OK | FAIL | INVALID_ARGUMENT.

Record Status := MkStatus { code : StatusCode; message : string }.

Definition Status_OK : Status := MkStatus OK "".

Definition IsOK (s : Status) : bool :=
  match code s with OK => true | _ => false end.

(** What a C++ statement can do besides falling through: leave the function
    with a [Status], or leave it abnormally (an exception, or an index
    outside a container, which C++ leaves undefined). *)
Inductive Exn := OutOfRange | NarrowingError | EnforceFailed.

Inductive Flow (A : Type) :=
| Next (a : A)
| Return (s : Status)
| Throw (e : Exn).
Arguments Next {A} a.
Arguments Return {A} s.
Arguments Throw {A} e.

(** ** Data *)

(** The element types the kernels of this file are registered for. *)
Inductive ElemType := Float | Double | Int8 | UInt8.

Inductive PoolType := MaxPool_1 | AveragePool | LpPool.

Inductive MLAS_POOLING_KIND :=
| MlasMaximumPooling
| MlasAveragePoolingExcludePad
| MlasAveragePoolingIncludePad.

(** The fields of [PoolAttributes] that pool.cc reads. *)
Record PoolAttributes := MkPoolAttributes {
  global_pooling : bool;
  count_include_pad : bool;
  storage_order : Z;
  kernel_shape : list Z;
  pads : list Z;
  strides : list Z;
  dilations : list Z
}.

(** The kernel object: its attributes, the [p] of Lp pooling (both as
    [pool_context_] and as [p_]) and the number of output definitions of
    its node. *)
Record Kernel := MkKernel {
  pool_attrs_ : PoolAttributes;
  pool_context_ : Z;
  p_ : Z;
  OutputDefs_size : nat
}.

(** The part of [OpKernelContext] the kernels look at: shape and element
    type of input 0, and whether the optional output 1 exists. *)
Record Context := MkContext {
  X_shape : list Z;
  X_type : ElemType;
  Output1_present : bool
}.

Inductive TaskFamily :=
| PoolTask (pt : PoolType)
| MaxPoolTask
| AveragePoolTask
| LpPoolTask.

(** The aggregate handed to [RunLoop].  One record stands for the twelve
    task structs ([Pool1DTask] ... [LpPool3DTask]): [task_rank] is the 1, 2
    or 3 of the struct's name and the list fields hold the per-axis
    arguments in the order height, width, depth.  [X_data] and [Y_data]
    are always the buffers of input 0 and output 0; [I_data] records
    whether the index buffer is non-null. *)
Record Task := MkTask {
  task_family : TaskFamily;
  task_rank : nat;
  task_elem : ElemType;
  I_data : bool;
  x_step : Z;
  y_step : Z;
  task_dilations : list Z;
  task_pooled : list Z;
  task_strides : list Z;
  task_extent : list Z;
  task_kernel_shape : list Z;
  task_pads : list Z;
  task_storage_order : option Z;
  task_count_include_pad : option bool;
  task_p : option Z;
  task_attrs : option PoolAttributes
}.

(** Observable effects of a [Compute] call. *)
Inductive Event :=
| EvOutput (index : nat) (dims : list Z)
| EvRunLoop (total_channels : Z) (task : Task)
| EvMlasPool (kind : MLAS_POOLING_KIND) (pooling_dims : Z) (input_dims : list Z)
             (KernelShape Padding StrideShape : option (list Z))
             (output_dims : list Z).

(** Helpers of the surrounding framework that are declared in other
    headers; pool.cc is verified against any implementation of them. *)
Record Env := MkEnv {
  (** [PoolAttributes::SetOutputSize(input_shape, output_channel, &pads)]:
      the output dims and the updated pads, or an exception. *)
  SetOutputSize : PoolAttributes -> list Z -> Z -> list Z -> Exn + (list Z * list Z);
  (** [PoolBase::stride_h()], [stride_w()], [stride_d()]. *)
  stride_h : PoolAttributes -> Z;
  stride_w : PoolAttributes -> Z;
  stride_d : PoolAttributes -> Z;
  (** [TensorShape::Size()]. *)
  Size : list Z -> Z;
  (** width of [size_t]. *)
  size_t_bits : Z
}.

(** ** The monad of a [Compute] body: a trace of events and a [Flow]. *)

Definition M (A : Type) : Type := (list Event * Flow A)%type.

Definition ret {A} (a : A) : M A := ([], Next a).

Definition bind {A B} (m : M A) (f : A -> M B) : M B :=
  match snd m with
  | Next a => (fst m ++ fst (f a), snd (f a))
  | Return s => (fst m, Return s)
  | Throw e => (fst m, Throw e)
  end.

Notation "x <- m ;; k" := (bind m (fun x => k))
  (at level 61, m at next level, right associativity).
Notation "m ;;; k" := (bind m (fun _ => k))
  (at level 61, right associativity).

Definition emit (e : Event) : M unit := ([e], Next tt).
Definition return_ {A} (s : Status) : M A := ([], Return s).
Definition throw {A} (e : Exn) : M A := ([], Throw e).

(** Modelled from the spec: the macro [ORT_RETURN_IF_NOT] comes from
    core/common/common.h, which is not among the sources embedded here.  When the
    condition is false the enclosing function returns a failure status; of
    its text the model keeps the message given at the call. *)
Definition ORT_RETURN_IF_NOT (cond : bool) (msg : string) : M unit :=
  if cond then ret tt else return_ (MkStatus FAIL msg).

(** [shape[i]] and [vector[i]]: outside the container C++ promises
    nothing, which the model records as the abnormal exit [OutOfRange]. *)
Definition at_ (l : list Z) (i : nat) : M Z :=
  match nth_error l i with
  | Some v => ret v
  | None => throw OutOfRange
  end.

Definition narrow (bits v : Z) : M Z :=
  match narrow_size_t bits v with
  | Some n => ret n
  | None => throw NarrowingError
  end.

Definition NumDimensions (shape : list Z) : nat := length shape.

(** [for (auto n : dilations) need_dilation |= n > 1;] *)
Definition need_dilation (dil : list Z) : bool :=
  fold_left (fun acc n => acc || (1 <? n)) dil false.

(** What a finished call looks like from outside. *)
Inductive Outcome :=
| Returned (s : Status)
| Threw (e : Exn).

Definition run (m : M Status) : list Event * Outcome :=
  match snd m with
  | Next s => (fst m, Returned s)
  | Return s => (fst m, Returned s)
  | Throw e => (fst m, Threw e)
  end.

Section Kernels.

Variable env : Env.

Definition call_SetOutputSize (a : PoolAttributes) (x_shape : list Z) (c : Z)
    (pads0 : list Z) : M (list Z * list Z) :=
  match SetOutputSize env a x_shape c pads0 with
  | inl e => throw e
  | inr r => ret r
  end.

(** [RunLoop(tp, total_channels, task)]: the parameter is a
    [std::ptrdiff_t], to which the callers' [size_t] argument is converted;
    [ptrdiff_t] is as wide as [size_t], and the conversion keeps the value
    modulo 2^bits. *)
Definition to_ptrdiff_t (bits v : Z) : Z :=
  (v + 2 ^ (bits - 1)) mod 2 ^ bits - 2 ^ (bits - 1).

Definition RunLoop (total_channels : Z) (t : Task) : M unit :=
  emit (EvRunLoop (to_ptrdiff_t (size_t_bits env) total_channels) t).

(** The locals every hand-rolled kernel computes before its [switch]. *)
Record Extents := MkExtents {
  channels : Z; height : Z; width : Z; depth : Z;
  pooled_height : Z; pooled_width : Z; pooled_depth : Z;
  total_channels : Z
}.

Definition main_loop_locals (x_shape output_dims kshape : list Z) : M Extents :=
  channels <- at_ x_shape 1 ;;
  height <- at_ x_shape 2 ;;
  width <- (if (1 <? length kshape)%nat then at_ x_shape 3 else ret 1) ;;
  depth <- (if (2 <? length kshape)%nat then at_ x_shape 4 else ret 1) ;;
  pooled_height <- at_ output_dims 2 ;;
  pooled_width <- (if (1 <? length kshape)%nat then at_ output_dims 3 else ret 1) ;;
  pooled_depth <- (if (2 <? length kshape)%nat then at_ output_dims 4 else ret 1) ;;
  x0 <- at_ x_shape 0 ;;
  ret (MkExtents channels height width depth
                 pooled_height pooled_width pooled_depth (mul64 x0 channels)).

(** [Pool<T, PoolType>::Compute], the primary template. *)
Definition Pool_Compute_generic (T : ElemType) (PT : PoolType)
    (k : Kernel) (ctx : Context) : M Status :=
  let x_shape := X_shape ctx in
  ORT_RETURN_IF_NOT (3 <=? NumDimensions x_shape)%nat
                    "Input dimension cannot be less than 3." ;;;
  let pads0 := pads (pool_attrs_ k) in
  let kernel_shape0 := kernel_shape (pool_attrs_ k) in
  let kshape := if global_pooling (pool_attrs_ k) then skipn 2 x_shape else kernel_shape0 in
  let pads1 := if global_pooling (pool_attrs_ k)
               then repeat 0 (length kshape) else pads0 in
  x1 <- at_ x_shape 1 ;;
  r <- call_SetOutputSize (pool_attrs_ k) x_shape x1 pads1 ;;
  let output_dims := fst r in
  let pads2 := snd r in
  emit (EvOutput 0 output_dims) ;;;
  e <- main_loop_locals x_shape output_dims kshape ;;
  let x_step := mul64 (mul64 (height e) (width e)) (depth e) in
  let y_step := mul64 (mul64 (pooled_height e) (pooled_width e)) (pooled_depth e) in
  let a := pool_attrs_ k in
  let task rank pooled str ext :=
    MkTask (PoolTask PT) rank T false x_step y_step [] pooled str ext kshape pads2
           None None (Some (pool_context_ k)) (Some a) in
  match length kshape with
  | 1%nat =>
      n <- narrow (size_t_bits env) (total_channels e) ;;
      RunLoop n (task 1%nat [pooled_height e] [stride_h env a] [height e]) ;;;
      ret Status_OK
  | 2%nat =>
      n <- narrow (size_t_bits env) (total_channels e) ;;
      RunLoop n (task 2%nat [pooled_height e; pooled_width e]
                      [stride_h env a; stride_w env a] [height e; width e]) ;;;
      ret Status_OK
  | 3%nat =>
      n <- narrow (size_t_bits env) (total_channels e) ;;
      RunLoop n (task 3%nat [pooled_height e; pooled_width e; pooled_depth e]
                      [stride_h env a; stride_w env a; stride_d env a]
                      [height e; width e; depth e]) ;;;
      ret Status_OK
  | _ => return_ (MkStatus INVALID_ARGUMENT "Unsupported pooling size : ")
  end.

(** [PoolBase::Compute], the MLAS path. *)
Definition PoolBase_Compute (k : Kernel) (ctx : Context) (kind : MLAS_POOLING_KIND)
    : M Status :=
  let x_shape := X_shape ctx in
  let input_dims := NumDimensions x_shape in
  ORT_RETURN_IF_NOT (3 <=? input_dims)%nat "Input dimension cannot be less than 3." ;;;
  let pooling_dims := (input_dims - 2)%nat in
  if (3 <? pooling_dims)%nat
  then return_ (MkStatus INVALID_ARGUMENT "Unsupported pooling size.")
  else
    (if negb (global_pooling (pool_attrs_ k))
     then ORT_RETURN_IF_NOT (pooling_dims =? length (kernel_shape (pool_attrs_ k)))%nat
            "kernel_shape num_dims is not compatible with X num_dims."
     else ret tt) ;;;
    let pads0 := pads (pool_attrs_ k) in
    x1 <- at_ x_shape 1 ;;
    r <- call_SetOutputSize (pool_attrs_ k) x_shape x1 pads0 ;;
    let output_dims := fst r in
    let pads1 := snd r in
    emit (EvOutput 0 output_dims) ;;;
    if Size env output_dims =? 0
    then ret Status_OK
    else
      let g := global_pooling (pool_attrs_ k) in
      emit (EvMlasPool kind (Z.of_nat pooling_dims) x_shape
              (if g then None else Some (kernel_shape (pool_attrs_ k)))
              (if g then None else Some pads1)
              (if g then None else Some (strides (pool_attrs_ k)))
              output_dims) ;;;
      ret Status_OK.

(** [Pool<T, PoolType>::Compute] after template resolution: the two
    explicit specialisations for [float] go to [PoolBase::Compute]. *)
Definition Pool_Compute (T : ElemType) (PT : PoolType) (k : Kernel) (ctx : Context)
    : M Status :=
  match T, PT with
  | Float, MaxPool_1 => PoolBase_Compute k ctx MlasMaximumPooling
  | Float, AveragePool =>
      PoolBase_Compute k ctx
        (if count_include_pad (pool_attrs_ k)
         then MlasAveragePoolingIncludePad else MlasAveragePoolingExcludePad)
  | _, _ => Pool_Compute_generic T PT k ctx
  end.

(** The body shared by the three dilation-aware kernels once they are past
    the MLAS test: [fam] selects the task struct, and with it the trailing
    arguments that differ between them. *)
Definition dilated_switch (fam : TaskFamily) (T : ElemType) (k : Kernel)
    (e : Extents) (kshape pads1 : list Z) (has_I : bool) (unsupported : string)
    : M Status :=
  let a := pool_attrs_ k in
  let so := match fam with MaxPoolTask => Some (storage_order a) | _ => None end in
  let cip := match fam with AveragePoolTask => Some (count_include_pad a) | _ => None end in
  let p := match fam with
           | AveragePoolTask | LpPoolTask => Some (p_ k)
           | _ => None end in
  match length kshape with
  | 1%nat =>
      let x_step := height e in
      let y_step := pooled_height e in
      dilation_h <- at_ (dilations a) 0 ;;
      n <- narrow (size_t_bits env) (total_channels e) ;;
      RunLoop n (MkTask fam 1%nat T has_I x_step y_step [dilation_h]
                   [pooled_height e] [stride_h env a] [height e] kshape pads1
                   None cip p None) ;;;
      ret Status_OK
  | 2%nat =>
      let x_step := mul64 (height e) (width e) in
      let y_step := mul64 (pooled_height e) (pooled_width e) in
      dilation_h <- at_ (dilations a) 0 ;;
      dilation_w <- at_ (dilations a) 1 ;;
      n <- narrow (size_t_bits env) (total_channels e) ;;
      RunLoop n (MkTask fam 2%nat T has_I x_step y_step [dilation_h; dilation_w]
                   [pooled_height e; pooled_width e]
                   [stride_h env a; stride_w env a] [height e; width e] kshape pads1
                   so cip p None) ;;;
      ret Status_OK
  | 3%nat =>
      let x_step := mul64 (mul64 (height e) (width e)) (depth e) in
      let y_step := mul64 (mul64 (pooled_height e) (pooled_width e)) (pooled_depth e) in
      dilation_h <- at_ (dilations a) 0 ;;
      dilation_w <- at_ (dilations a) 1 ;;
      dilation_d <- at_ (dilations a) 2 ;;
      n <- narrow (size_t_bits env) (total_channels e) ;;
      RunLoop n (MkTask fam 3%nat T has_I x_step y_step
                   [dilation_h; dilation_w; dilation_d]
                   [pooled_height e; pooled_width e; pooled_depth e]
                   [stride_h env a; stride_w env a; stride_d env a]
                   [height e; width e; depth e] kshape pads1
                   so cip p None) ;;;
      ret Status_OK
  | _ => return_ (MkStatus INVALID_ARGUMENT unsupported)
  end.

(** [std::to_string(kernel_shape.size())]. *)
Definition to_string (n : nat) : string :=
  NilZero.string_of_uint (Nat.to_uint n).

(** The part of [MaxPoolV8::ComputeImpl<T>] after the MLAS test. *)
Definition MaxPoolV8_hand_rolled (T : ElemType) (k : Kernel) (ctx : Context)
    : M Status :=
  let x_shape := X_shape ctx in
  ORT_RETURN_IF_NOT (3 <=? NumDimensions x_shape)%nat
                    "Input dimension cannot be less than 3." ;;;
  let pads0 := pads (pool_attrs_ k) in
  let kshape := kernel_shape (pool_attrs_ k) in
  x1 <- at_ x_shape 1 ;;
  r <- call_SetOutputSize (pool_attrs_ k) x_shape x1 pads0 ;;
  let output_dims := fst r in
  emit (EvOutput 0 output_dims) ;;;
  emit (EvOutput 1 output_dims) ;;;
  e <- main_loop_locals x_shape output_dims kshape ;;
  dilated_switch MaxPoolTask T k e kshape (snd r) (Output1_present ctx)
                 "Unsupported pooling size : ".

(** The test [MaxPoolV8::ComputeImpl<T>] makes before anything else. *)
Definition MaxPoolV8_uses_mlas (T : ElemType) (k : Kernel) : bool :=
  match T with
  | Float =>
      (OutputDefs_size k =? 1)%nat
      && (storage_order (pool_attrs_ k) =? 0)
      && negb (need_dilation (dilations (pool_attrs_ k)))
  | _ => false
  end.

Definition MaxPoolV8_ComputeImpl (T : ElemType) (k : Kernel) (ctx : Context)
    : M Status :=
  if MaxPoolV8_uses_mlas T k
  then PoolBase_Compute k ctx MlasMaximumPooling
  else MaxPoolV8_hand_rolled T k ctx.

(** [MaxPoolV8::Compute]: dispatch on the element type of input 0 over the
    enabled types (float, double, int8_t, uint8_t). *)
Definition MaxPoolV8_Compute (k : Kernel) (ctx : Context) : M Status :=
  MaxPoolV8_ComputeImpl (X_type ctx) k ctx.

(** [AveragePoolV19<T>::Compute] and [LpPoolV18<T>::Compute].  Both compute
    [need_dilation] and never read it. *)
Definition dilated_Compute (fam : TaskFamily) (T : ElemType) (k : Kernel)
    (ctx : Context) : M Status :=
  let _unused := need_dilation (dilations (pool_attrs_ k)) in
  let x_shape := X_shape ctx in
  ORT_RETURN_IF_NOT (3 <=? NumDimensions x_shape)%nat
                    "Input dimension cannot be less than 3." ;;;
  let pads0 := pads (pool_attrs_ k) in
  let kshape := kernel_shape (pool_attrs_ k) in
  x1 <- at_ x_shape 1 ;;
  r <- call_SetOutputSize (pool_attrs_ k) x_shape x1 pads0 ;;
  let output_dims := fst r in
  emit (EvOutput 0 output_dims) ;;;
  e <- main_loop_locals x_shape output_dims kshape ;;
  dilated_switch fam T k e kshape (snd r) false
    (String.append "Unsupported kernel dimension : " (to_string (length kshape))).

Definition AveragePoolV19_Compute := dilated_Compute AveragePoolTask.
Definition LpPoolV18_Compute := dilated_Compute LpPoolTask.

(** The [Compute] entry points of the file. *)
Inductive EntryPoint :=
| EP_Pool (T : ElemType) (PT : PoolType)
| EP_MaxPoolV8
| EP_AveragePoolV19 (T : ElemType)
| EP_LpPoolV18 (T : ElemType).

Definition Compute (ep : EntryPoint) (k : Kernel) (ctx : Context) : list Event * Outcome :=
  run match ep with
      | EP_Pool T PT => Pool_Compute T PT k ctx
      | EP_MaxPoolV8 => MaxPoolV8_Compute k ctx
      | EP_AveragePoolV19 T => AveragePoolV19_Compute T k ctx
      | EP_LpPoolV18 T => LpPoolV18_Compute T k ctx
      end.

(** Which entry points end in [PoolBase::Compute] for a given call. *)
Definition on_mlas_path (ep : EntryPoint) (k : Kernel) (ctx : Context) : bool :=
  match ep with
  | EP_Pool Float MaxPool_1 | EP_Pool Float AveragePool => true
  | EP_Pool _ _ => false
  | EP_MaxPoolV8 => MaxPoolV8_uses_mlas (X_type ctx) k
  | EP_AveragePoolV19 _ | EP_LpPoolV18 _ => false
  end.

End Kernels.

(** ** Reading a trace *)

Definition is_mlas (e : Event) : bool :=
  match e with EvMlasPool _ _ _ _ _ _ _ => true | _ => false end.
Definition is_runloop (e : Event) : bool :=
  match e with EvRunLoop _ _ => true | _ => false end.

Definition mlas_calls (tr : list Event) : list Event := filter is_mlas tr.
Definition runloop_calls (tr : list Event) : list Event := filter is_runloop tr.

(** ** A concrete environment, for running the kernels on inputs *)

(** Modelled from the spec: [PoolAttributes::SetOutputSize] lives in
    pool_attributes.h, which is not among the sources embedded here.  The
    glossary describes pooling as a window "with configurable kernel size,
    stride, padding, and dilation"; this instance places the window with
    explicit padding and floor rounding, and gives every spatial axis the
    size 1 under global pooling.  It never throws and leaves the pads as
    they are. *)
Definition explicit_out_dim (a : PoolAttributes) (pads0 spatial : list Z) (i : nat) : Z :=
  let n := length spatial in
  let window := nth i (dilations a) 1 * (nth i (kernel_shape a) 1 - 1) + 1 in
  (nth i spatial 0 + nth i pads0 0 + nth (n + i) pads0 0 - window)
    / nth i (strides a) 1 + 1.

Definition explicit_SetOutputSize (a : PoolAttributes) (x_shape : list Z) (c : Z)
    (pads0 : list Z) : Exn + (list Z * list Z) :=
  let spatial := skipn 2 x_shape in
  let outs := if global_pooling a
              then repeat 1 (length spatial)
              else map (explicit_out_dim a pads0 spatial) (seq 0 (length spatial)) in
  inr (nth 0 x_shape 0 :: c :: outs, pads0).

(** Modelled from the spec: [stride_h()], [stride_w()] and [stride_d()] are
    inline members of [PoolBase] in pool_base.h; they read the stride of
    their axis, which is 1 under global pooling. *)
Definition explicit_stride (i : nat) (a : PoolAttributes) : Z :=
  if global_pooling a then 1 else nth i (strides a) 1.

(** Modelled from the spec: [TensorShape::Size()] is the number of
    elements, the product of the dims. *)
Definition explicit_Size (dims : list Z) : Z := fold_right Z.mul 1 dims.

Definition explicit_env : Env :=
  MkEnv explicit_SetOutputSize (explicit_stride 0) (explicit_stride 1)
        (explicit_stride 2) explicit_Size 64.

End Pool.

(* ===================================================================== *)
(** * The per-channel fan-out of pool.cc *)
(* ===================================================================== *)

Module Parallel.

(** The offsets [0, 1, ..., n-1]. *)
Definition zrange (n : Z) : list Z := map Z.of_nat (seq 0 (Z.to_nat n)).

Section Tasks.

(** Element type of the tensors. *)
Variable T : Type.

(** A buffer, addressed by element offset from its base pointer. *)
Definition Buffer : Type := Z -> T.

(** Modelled from the spec: the task structs handed to [RunLoop]
    ([Pool1DTask] ... [LpPool3DTask]) are defined in pool_functors.h, which
    is not among the sources embedded here.  Of a task the model keeps its call
    operator for one channel and nothing of its body:
    [operator_c X_data Y_data c] is the output buffer that the task of
    channel [c] leaves, given the input buffer and the output buffer as it
    found it.  What a task reads and writes is not part of the model; it
    is stated where a property needs it. *)
Variable operator_c : Buffer -> Buffer -> Z -> Buffer.

Variable X_data : Buffer.

(** [operator()(begin, end)]: the channels of one block, in order. *)
Definition block (range : Z * Z) : list Z :=
  map (fun i => fst range + i) (zrange (snd range - fst range)).

Definition run_channels (cs : list Z) (Y_data : Buffer) : Buffer :=
  fold_left (operator_c X_data) cs Y_data.

(** Modelled from the spec: [ThreadPool::TryParallelFor(tp, total, cost,
    fn)] is declared in core/platform/threadpool.h.  It cuts [0, total)
    into blocks and calls [fn(begin, end)] once per block, on whichever
    thread and in whichever order; a schedule lists the blocks in the order
    their effects reach memory. *)
Definition Schedule : Type := list (Z * Z).

Definition covers (total : Z) (s : Schedule) : Prop :=
  Permutation (flat_map block s) (zrange total).

Definition TryParallelFor (s : Schedule) (Y_data : Buffer) : Buffer :=
  fold_left (fun Y range => run_channels (block range) Y) s Y_data.

(** One thread, one block: channels [0 .. total) in order. *)
Definition sequential (total : Z) (Y_data : Buffer) : Buffer :=
  run_channels (zrange total) Y_data.

End Tasks.

End Parallel.

(* ===================================================================== *)
(** * layer_norm.cc *)
(* ===================================================================== *)

Module LayerNorm.

(** ** NormalizeAxis *)

(** How a call of [NormalizeAxis] ends: with a value, with the exception
    of [ORT_THROW], or inside [narrow] when the value does not fit. *)
Inductive AxisResult :=
| Axis (n : Z)
| InvalidAxisThrown (msg : string)
| NarrowingFailed.

Definition string_of_Z (z : Z) : string := NilZero.string_of_int (Z.to_int z).

(** The condition of the [if] in [NormalizeAxis]. *)
Definition invalid_axis_guard (axis rank : Z) : bool :=
  (axis <? neg64 rank) && (axis >=? rank).

(** [NormalizeAxis(axis, tensor_rank)]; [size_t] has [size_t_bits] bits and
    [static_cast<int64_t>] reinterprets the rank in two's complement. *)
Definition NormalizeAxis (size_t_bits : Z) (axis tensor_rank : Z) : AxisResult :=
  let rank := wrap64 tensor_rank in
  if invalid_axis_guard axis rank
  then InvalidAxisThrown (String.append "invalid axis: " (string_of_Z axis))
  else match narrow_size_t size_t_bits (if axis <? 0 then add64 axis rank else axis) with
       | Some n => Axis n
       | None => NarrowingFailed
       end.

(** ** GenerateShaderCode *)

Local Open Scope string_scope.

Record LayerNormProgram := MkProgram {
  has_bias_ : bool;
  is_fp16_ : bool;
  simplified_ : bool;
  has_mean_output_ : bool;
  has_inv_std_dev_output_ : bool
}.

Inductive ShaderUsage := UsageNone | UseUniform | UseUniformAndValueTypeAlias.

(** The state of a [ShaderHelper] that [GenerateShaderCode] touches: the
    declared variables, the two text streams, and the component count the
    helper reports for the variable [x]. *)
Record ShaderHelper := MkShader {
  shader_inputs : list (string * ShaderUsage)%type;
  shader_outputs : list (string * ShaderUsage)%type;
  AdditionalImplementation : string;
  MainFunctionBody : string;
  x_NumComponents : Z
}.

(** Text helpers declared in shader_helper.h and webgpu_utils.h. *)
Record ShaderText := MkShaderText {
  GuardAgainstOutOfBoundsWorkgroupSizes : string -> string;
  SumVector : string -> Z -> string
}.

Definition AddInput (name : string) (u : ShaderUsage) (sh : ShaderHelper) : ShaderHelper :=
  MkShader (shader_inputs sh ++ [(name, u)])%list (shader_outputs sh)
           (AdditionalImplementation sh) (MainFunctionBody sh) (x_NumComponents sh).

Definition AddOutput (name : string) (u : ShaderUsage) (sh : ShaderHelper) : ShaderHelper :=
  MkShader (shader_inputs sh) (shader_outputs sh ++ [(name, u)])%list
           (AdditionalImplementation sh) (MainFunctionBody sh) (x_NumComponents sh).

(** [shader.AdditionalImplementation() << text] *)
Definition emit_implementation (text : string) (sh : ShaderHelper) : ShaderHelper :=
  MkShader (shader_inputs sh) (shader_outputs sh)
           (AdditionalImplementation sh ++ text) (MainFunctionBody sh)
           (x_NumComponents sh).

(** [shader.MainFunctionBody() << text] *)
Definition emit_body (text : string) (sh : ShaderHelper) : ShaderHelper :=
  MkShader (shader_inputs sh) (shader_outputs sh)
           (AdditionalImplementation sh) (MainFunctionBody sh ++ text)
           (x_NumComponents sh).

Definition when (b : bool) (f : ShaderHelper -> ShaderHelper) (sh : ShaderHelper)
    : ShaderHelper :=
  if b then f sh else sh.

Section Shader.

Variable txt : ShaderText.

(** The chunks streamed into [AdditionalImplementation()]. *)
Definition implementation_text (p : LayerNormProgram) (components : Z) : string :=
  "alias element_t = " ++ (if is_fp16_ p then "f16;
" else "f32;
")
  ++ "alias f32_val_t = "
  ++ (if (components =? 4)%Z then "vec4<f32>"
      else if (components =? 2)%Z then "vec2<f32>" else "f32")
  ++ ";
".

(** The chunks of the first [MainFunctionBody() << ...] statement. *)
Definition body_text (p : LayerNormProgram) (components : Z) : string :=
  let bias := if has_bias_ p then " + bias[j]" else "" in
  let simpl1 := if simplified_ p then "" else " - mean * mean" in
  let simpl2 := if simplified_ p then "" else " - mean" in
  GuardAgainstOutOfBoundsWorkgroupSizes txt "uniforms.norm_count"
  ++ "let offset = global_idx * uniforms.norm_size_vectorized;
"
  ++ "var mean_vector = f32_val_t(0);
"
  ++ "var mean_square_vector = f32_val_t(0);
"
  ++ "for (var h: u32 = 0u; h < uniforms.norm_size_vectorized; h++) {
"
  ++ "   let value = f32_val_t(x[h + offset]);
"
  ++ "   mean_vector += value;
"
  ++ "   mean_square_vector += value * value;
"
  ++ "}
"
  ++ "let mean = " ++ SumVector txt "mean_vector" components
  ++ " / f32(uniforms.norm_size);
"
  ++ "let inv_std_dev = inverseSqrt(" ++ SumVector txt "mean_square_vector" components
  ++ " / f32(uniforms.norm_size)" ++ simpl1 ++ " + uniforms.epsilon);
"
  ++ "for (var j: u32 = 0; j < uniforms.norm_size_vectorized; j++) {
"
  ++ "   let f32input = f32_val_t(x[j + offset]);
"
  ++ "   let f32scale = f32_val_t(scale[j]);
"
  ++ "   y[j + offset] =  x_value_t((f32input" ++ simpl2
  ++ ") * inv_std_dev * f32scale)" ++ bias ++ ";
"
  ++ "}
".

(** [LayerNormProgram::GenerateShaderCode]; it always returns
    [Status::OK()], so the result is the helper it leaves behind. *)
Definition GenerateShaderCode (p : LayerNormProgram) (shader : ShaderHelper)
    : ShaderHelper :=
  let s1 := AddInput "x" UseUniformAndValueTypeAlias shader in
  let s2 := AddInput "scale" UseUniform s1 in
  let s3 := when (has_bias_ p) (AddInput "bias" UseUniform) s2 in
  let s4 := AddOutput "y" UseUniform s3 in
  let s5 := when (has_mean_output_ p) (AddOutput "mean_output" UsageNone) s4 in
  let s6 := when (has_inv_std_dev_output_ p)
                 (AddOutput "inv_std_dev_output" UsageNone) s5 in
  let components := x_NumComponents s6 in
  let s7 := emit_implementation (implementation_text p components) s6 in
  let s8 := emit_body (body_text p components) s7 in
  let s9 := when (has_mean_output_ p)
                 (emit_body "mean_output[global_idx] = mean;
") s8 in
  when (has_inv_std_dev_output_ p)
       (emit_body "inv_std_dev_output[global_idx] = inv_std_dev;
") s9.

End Shader.

(** Modelled from the spec: [SumVector] and
    [GuardAgainstOutOfBoundsWorkgroupSizes] are declared in webgpu_utils.h
    and shader_helper.h, which are not among the sources embedded here.
    This instance emits the sum of the vector's lanes and an early return
    for invocations beyond the bound; it serves to run the generator. *)
Definition lanes_SumVector (v : string) (components : Z) : string :=
  if (components =? 4)%Z
  then "(" ++ v ++ ".x + " ++ v ++ ".y + " ++ v ++ ".z + " ++ v ++ ".w)"
  else if (components =? 2)%Z then "(" ++ v ++ ".x + " ++ v ++ ".y)"
  else v.

Definition early_return_guard (bound : string) : string :=
  "if (global_idx >= " ++ bound ++ ") { return; }
".

Definition plain_text : ShaderText := MkShaderText early_return_guard lanes_SumVector.

(** ** Reading text *)

Fixpoint has_char (c : ascii) (s : string) : bool :=
  match s with
  | EmptyString => false
  | String d s' => Ascii.eqb c d || has_char c s'
  end.

Definition contains (pat s : string) : Prop :=
  exists pre post, s = pre ++ pat ++ post.

End LayerNorm.

(* ===================================================================== *)
(** * api.cc *)
(* ===================================================================== *)

Module WasmApi.

(** ** The runtime behind [Ort::GetApi()] *)

(** Modelled from the spec: the enumeration [OrtErrorCode] is declared in
    onnxruntime_c_api.h, which is not among the sources embedded here; the
    constructors are its values in order, [ORT_OK] first. *)
Inductive OrtErrorCode :=
| ORT_OK | ORT_FAIL | ORT_INVALID_ARGUMENT | ORT_NO_SUCHFILE | ORT_NO_MODEL
| ORT_ENGINE_ERROR | ORT_RUNTIME_EXCEPTION | ORT_INVALID_PROTOBUF
| ORT_MODEL_LOADED | ORT_NOT_IMPLEMENTED | ORT_INVALID_GRAPH | ORT_EP_FAIL.

Definition is_ORT_OK (c : OrtErrorCode) : bool :=
  match c with ORT_OK => true | _ => false end.

(** An [OrtStatus] object; [OrtStatusPtr] is null on success. *)
Record OrtStatus := MkOrtStatus {
  GetErrorCode : OrtErrorCode;
  GetErrorMessage : string
}.
Definition OrtStatusPtr := option OrtStatus.

(** Pointers and handles are addresses; [nullptr] is 0. *)
Definition nullptr : Z := 0.

Inductive HandleKind :=
| SessionOptions | Session | Value | RunOptions | IoBinding | MemoryInfo.

Definition HandleKind_eqb (a b : HandleKind) : bool :=
  match a, b with
  | SessionOptions, SessionOptions | Session, Session | Value, Value
  | RunOptions, RunOptions | IoBinding, IoBinding | MemoryInfo, MemoryInfo => true
  | _, _ => false
  end.

Definition Handle : Type := (HandleKind * Z)%type.

Definition Handle_eqb (a b : Handle) : bool :=
  HandleKind_eqb (fst a) (fst b) && (snd a =? snd b).

(** The runtime entry points the handle-creating functions call, with
    their input arguments. *)
Inductive ApiCall :=
| CreateSessionOptions
| SetOptimizedModelFilePath (options : Z) (path : string)
| SetSessionGraphOptimizationLevel (options level : Z)
| EnableCpuMemArena (options : Z)
| DisableCpuMemArena (options : Z)
| EnableMemPattern (options : Z)
| DisableMemPattern (options : Z)
| SetSessionExecutionMode (options mode : Z)
| EnableProfiling (options : Z) (prefix : string)
| DisableProfiling (options : Z)
| SetSessionLogId (options : Z) (log_id : string)
| SetSessionLogSeverityLevel (options level : Z)
| SetSessionLogVerbosityLevel (options level : Z)
| EnableOrtCustomOps (options : Z)
| DisablePerSessionThreads (options : Z)
| SetIntraOpNumThreads (options n : Z)
| CreateSessionFromArray (env data data_length options : Z)
| GetAllocatorWithDefaultOptions
| CreateTensorAsOrtValue (allocator : Z) (shape : option (list Z)) (shape_len : Z)
                         (type : Z)
| FillStringTensor (value strings count : Z)
| CreateMemoryInfo (name : string) (alloc_type id mem_type : Z)
| CreateCpuMemoryInfo (alloc_type mem_type : Z)
| CreateTensorWithDataAsOrtValue (info data data_length : Z) (shape : option (list Z))
                                 (shape_len : Z) (type : Z)
| CreateRunOptions
| RunOptionsSetRunLogSeverityLevel (run_options level : Z)
| RunOptionsSetRunLogVerbosityLevel (run_options level : Z)
| RunOptionsSetTerminate (run_options : Z)
| RunOptionsUnsetTerminate (run_options : Z)
| RunOptionsSetRunTag (run_options : Z) (tag : string)
| CreateIoBinding (session : Z).

(** The kind of resource a call hands to its caller through its output
    parameter; the default allocator is not owned by the caller. *)
Definition creates (c : ApiCall) : option HandleKind :=
  match c with
  | CreateSessionOptions => Some SessionOptions
  | CreateSessionFromArray _ _ _ _ => Some Session
  | CreateTensorAsOrtValue _ _ _ _ => Some Value
  | CreateTensorWithDataAsOrtValue _ _ _ _ _ _ => Some Value
  | CreateMemoryInfo _ _ _ _ => Some MemoryInfo
  | CreateCpuMemoryInfo _ _ => Some MemoryInfo
  | CreateRunOptions => Some RunOptions
  | CreateIoBinding _ => Some IoBinding
  | _ => None
  end.

(** What the runtime answers: a status and the value it stores through
    the output parameter. *)
Record ApiReply := MkReply { reply_status : OrtStatusPtr; reply_out : Z }.

(** ** The state of the module and of the world around it *)

Record World := MkWorld {
  g_env : Z;
  g_last_error_code : OrtErrorCode;
  g_last_error_message : string;
  (** the runtime calls issued so far, oldest first *)
  api_log : list ApiCall;
  (** every status that went through [CheckStatus], oldest first *)
  checked : list OrtStatusPtr;
  (** resources created and not yet released *)
  live : list Handle;
  (** the [auto_release_*] wrappers of the running function *)
  auto_release : list Handle
}.

Definition api_calls (w : World) : nat := length (api_log w).

Definition set_last_error (c : OrtErrorCode) (m : string) (s : OrtStatusPtr) (w : World)
    : World :=
  MkWorld (g_env w) c m (api_log w) (checked w ++ [s]) (live w) (auto_release w).

Definition set_live (l : list Handle) (w : World) : World :=
  MkWorld (g_env w) (g_last_error_code w) (g_last_error_message w) (api_log w)
          (checked w) l (auto_release w).

Definition set_auto_release (l : list Handle) (w : World) : World :=
  MkWorld (g_env w) (g_last_error_code w) (g_last_error_message w) (api_log w)
          (checked w) (live w) l.

Definition log_call (c : ApiCall) (w : World) : World :=
  MkWorld (g_env w) (g_last_error_code w) (g_last_error_message w) (api_log w ++ [c])
          (checked w) (live w) (auto_release w).

Fixpoint remove_first (h : Handle) (l : list Handle) : list Handle :=
  match l with
  | [] => []
  | x :: l' => if Handle_eqb h x then l' else x :: remove_first h l'
  end.

(** [Ort::GetApi().Release##T(p)] *)
Definition Release (h : Handle) (w : World) : World :=
  set_live (remove_first h (live w)) w.

(** Modelled from the spec: [Ort::Exception] is declared in
    onnxruntime_cxx_api.h, which is not among the sources embedded here;
    [what()] gives back the message the exception was built from. *)
Definition Exception_what (message : string) (c : OrtErrorCode) : string := message.

(** [Ort::GetApi().CreateStatus(code, msg)] *)
Definition CreateStatus (c : OrtErrorCode) (msg : string) : OrtStatusPtr :=
  Some (MkOrtStatus c msg).

(** [CheckStatus] *)
Definition CheckStatus (status : OrtStatusPtr) (w : World) : OrtErrorCode * World :=
  match status with
  | Some st =>
      let error_message := GetErrorMessage st in
      let c := GetErrorCode st in
      (c, set_last_error c (Exception_what error_message c) status w)
  | None => (ORT_OK, set_last_error ORT_OK "" status w)
  end.

(** [OrtGetLastError]: the return value, [*error_code] and
    [*error_message] (null or the stored text). *)
Definition OrtGetLastError (w : World) : OrtErrorCode * OrtErrorCode * option string :=
  (ORT_OK, g_last_error_code w,
   if (String.length (g_last_error_message w) =? 0)%nat
   then None else Some (g_last_error_message w)).

(** The [DataLocation] enumeration. *)
Definition DATA_LOCATION_NONE : Z := 0.
Definition DATA_LOCATION_CPU : Z := 1.
Definition DATA_LOCATION_CPU_PINNED : Z := 2.
Definition DATA_LOCATION_TEXTURE : Z := 3.
Definition DATA_LOCATION_GPU_BUFFER : Z := 4.
Definition DATA_LOCATION_ML_TENSOR : Z := 5.

(** Constants of the C API headers that api.cc passes along. *)
Record Constants := MkConstants {
  ONNX_TENSOR_ELEMENT_DATA_TYPE_STRING : Z;
  OrtDeviceAllocator : Z;
  OrtMemTypeDefault : Z;
  ORT_SEQUENTIAL : Z;
  (** [sizeof(const char* )] *)
  pointer_size : Z
}.

(** A [size_t] argument handed to an [int] parameter of the runtime. *)
Definition to_c_int (z : Z) : Z := (z + 2 ^ 31) mod 2 ^ 32 - 2 ^ 31.

Section Api.

(** The runtime: its answer to the [n]-th call. *)
Variable runtime : nat -> ApiCall -> ApiReply.
Variable K : Constants.
(** Build configuration: [__EMSCRIPTEN_PTHREADS__] and
    [ENABLE_EXTENSION_CUSTOM_OPS]. *)
Variable EMSCRIPTEN_PTHREADS : bool.
Variable ENABLE_EXTENSION_CUSTOM_OPS : bool.

(** One call [Ort::GetApi().X(args, &out)]. *)
Definition call (c : ApiCall) (w : World) : ApiReply * World :=
  let r := runtime (api_calls w) c in
  let w1 := log_call c w in
  (r, match creates c, reply_status r with
      | Some kind, None => set_live ((kind, reply_out r) :: live w1) w1
      | _, _ => w1
      end).

(** A function body returning [R]: each statement yields a value or
    leaves the function with a result. *)
Definition Body (R A : Type) : Type := World -> (A + R) * World.

Definition pure {R A} (a : A) : Body R A := fun w => (inl a, w).

Definition leave {R A} (r : R) : Body R A := fun w => (inr r, w).

Definition seq {R A B} (m : Body R A) (f : A -> Body R B) : Body R B :=
  fun w => match m w with
           | (inl a, w') => f a w'
           | (inr r, w') => (inr r, w')
           end.

Notation "x <- m ;; k" := (seq m (fun x => k))
  (at level 61, m at next level, right associativity).
Notation "m ;;; k" := (seq m (fun _ => k))
  (at level 61, right associativity).

(** [CHECK_STATUS(X, args)]: the error code, and what the call stored in
    its output parameter. *)
Definition CHECK_STATUS {R} (c : ApiCall) : Body R (OrtErrorCode * Z) :=
  fun w => let (r, w1) := call c w in
           let (e, w2) := CheckStatus (reply_status r) w1 in
           (inl (e, reply_out r), w2).

(** [RETURN_NULLPTR_IF_ERROR(X, args)] *)
Definition RETURN_NULLPTR_IF_ERROR (c : ApiCall) : Body Z Z :=
  r <- CHECK_STATUS c ;;
  if is_ORT_OK (fst r) then pure (snd r) else leave nullptr.

(** [REGISTER_AUTO_RELEASE_HANDLE(T, var)] *)
Definition REGISTER_AUTO_RELEASE_HANDLE {R} (kind : HandleKind) (var : Z) : Body R unit :=
  fun w => (inl tt, set_auto_release ((kind, var) :: auto_release w) w).

(** [UNREGISTER_AUTO_RELEASE(var)]: the wrapper gives its pointer up. *)
Definition UNREGISTER_AUTO_RELEASE {R} (kind : HandleKind) (var : Z) : Body R Z :=
  fun w => (inl var, set_auto_release (remove_first (kind, var) (auto_release w)) w).

(** Leaving the function destroys its wrappers, the latest first; a
    wrapper that still holds a non-null pointer releases it. *)
Fixpoint destroy_wrappers (l : list Handle) (w : World) : World :=
  match l with
  | [] => w
  | h :: l' => destroy_wrappers l' (if snd h =? nullptr then w else Release h w)
  end.

Definition function {R} (body : Body R R) (w : World) : R * World :=
  let caller := auto_release w in
  match body (set_auto_release [] w) with
  | (res, w') =>
      (match res with inl r => r | inr r => r end,
       set_auto_release caller (destroy_wrappers (auto_release w') w'))
  end.

Definition when {R} (b : bool) (m : Body R Z) : Body R unit :=
  if b then (m ;;; pure tt) else pure tt.

Definition OrtCreateSessionOptions
    (graph_optimization_level : Z) (enable_cpu_mem_arena enable_mem_pattern : bool)
    (execution_mode : Z) (enable_profiling : bool) (log_id : option string)
    (log_severity_level log_verbosity_level : Z)
    (optimized_model_filepath : option string) : World -> Z * World :=
  function (
    session_options <- RETURN_NULLPTR_IF_ERROR CreateSessionOptions ;;
    REGISTER_AUTO_RELEASE_HANDLE SessionOptions session_options ;;;
    match optimized_model_filepath with
    | Some path =>
        RETURN_NULLPTR_IF_ERROR (SetOptimizedModelFilePath session_options path) ;;; pure tt
    | None => pure tt
    end ;;;
    RETURN_NULLPTR_IF_ERROR
      (SetSessionGraphOptimizationLevel session_options graph_optimization_level) ;;;
    (if enable_cpu_mem_arena
     then RETURN_NULLPTR_IF_ERROR (EnableCpuMemArena session_options)
     else RETURN_NULLPTR_IF_ERROR (DisableCpuMemArena session_options)) ;;;
    (if enable_mem_pattern
     then RETURN_NULLPTR_IF_ERROR (EnableMemPattern session_options)
     else RETURN_NULLPTR_IF_ERROR (DisableMemPattern session_options)) ;;;
    RETURN_NULLPTR_IF_ERROR (SetSessionExecutionMode session_options execution_mode) ;;;
    (if enable_profiling
     then RETURN_NULLPTR_IF_ERROR (EnableProfiling session_options "")
     else RETURN_NULLPTR_IF_ERROR (DisableProfiling session_options)) ;;;
    match log_id with
    | Some id => RETURN_NULLPTR_IF_ERROR (SetSessionLogId session_options id) ;;; pure tt
    | None => pure tt
    end ;;;
    RETURN_NULLPTR_IF_ERROR
      (SetSessionLogSeverityLevel session_options (to_c_int log_severity_level)) ;;;
    RETURN_NULLPTR_IF_ERROR
      (SetSessionLogVerbosityLevel session_options (to_c_int log_verbosity_level)) ;;;
    when ENABLE_EXTENSION_CUSTOM_OPS
         (RETURN_NULLPTR_IF_ERROR (EnableOrtCustomOps session_options)) ;;;
    UNREGISTER_AUTO_RELEASE SessionOptions session_options).

Definition OrtCreateSession (data data_length session_options : Z)
    : World -> Z * World :=
  function (
    (if EMSCRIPTEN_PTHREADS
     then RETURN_NULLPTR_IF_ERROR (DisablePerSessionThreads session_options)
     else (RETURN_NULLPTR_IF_ERROR (SetIntraOpNumThreads session_options 1) ;;;
           RETURN_NULLPTR_IF_ERROR
             (SetSessionExecutionMode session_options (ORT_SEQUENTIAL K)))) ;;;
    env <- (fun w => (inl (g_env w), w)) ;;
    r <- CHECK_STATUS (CreateSessionFromArray env data data_length session_options) ;;
    let session := snd r in
    pure (if is_ORT_OK (fst r) then session else nullptr)).

(** The condition of the first [if] of [OrtCreateTensor]. *)
Definition unknown_data_location (data_location : Z) : bool :=
  negb (data_location =? DATA_LOCATION_CPU)
  && negb (data_location =? DATA_LOCATION_CPU_PINNED)
  && negb (data_location =? DATA_LOCATION_GPU_BUFFER)
  && negb (data_location =? DATA_LOCATION_ML_TENSOR).

Definition OrtCreateTensor (data_type data data_length : Z) (dims : list Z)
    (data_location : Z) : World -> Z * World :=
  function (
    if unknown_data_location data_location
    then
      (fun w =>
         let msg := String.append "Invalid data location: "
                      (NilZero.string_of_int (Z.to_int data_location)) in
         let (_, w1) := CheckStatus (CreateStatus ORT_INVALID_ARGUMENT msg) w in
         (inr nullptr, w1))
    else
      let dims_length := Z.of_nat (length dims) in
      (* shapes[i] = dims[i]: each size_t entry becomes an int64_t *)
      let shapes := map wrap64 dims in
      let shapes_data := if 0 <? dims_length then Some shapes else None in
      if data_type =? ONNX_TENSOR_ELEMENT_DATA_TYPE_STRING K
      then
        allocator <- RETURN_NULLPTR_IF_ERROR GetAllocatorWithDefaultOptions ;;
        value <- RETURN_NULLPTR_IF_ERROR
                   (CreateTensorAsOrtValue allocator shapes_data dims_length
                      (ONNX_TENSOR_ELEMENT_DATA_TYPE_STRING K)) ;;
        REGISTER_AUTO_RELEASE_HANDLE Value value ;;;
        let strings := data in
        RETURN_NULLPTR_IF_ERROR
          (FillStringTensor value strings (data_length / pointer_size K)) ;;;
        UNREGISTER_AUTO_RELEASE Value value
      else
        memory_info <-
          (if data_location =? DATA_LOCATION_GPU_BUFFER
           then RETURN_NULLPTR_IF_ERROR
                  (CreateMemoryInfo "WebGPU_Buffer" (OrtDeviceAllocator K) 0
                     (OrtMemTypeDefault K))
           else if data_location =? DATA_LOCATION_ML_TENSOR
           then RETURN_NULLPTR_IF_ERROR
                  (CreateMemoryInfo "WebNN_Tensor" (OrtDeviceAllocator K) 0
                     (OrtMemTypeDefault K))
           else RETURN_NULLPTR_IF_ERROR
                  (CreateCpuMemoryInfo (OrtDeviceAllocator K) (OrtMemTypeDefault K))) ;;
        REGISTER_AUTO_RELEASE_HANDLE MemoryInfo memory_info ;;;
        r <- CHECK_STATUS
               (CreateTensorWithDataAsOrtValue memory_info data data_length
                  shapes_data dims_length data_type) ;;
        let value := snd r in
        pure (if is_ORT_OK (fst r) then value else nullptr)).

Definition OrtCreateRunOptions (log_severity_level log_verbosity_level : Z)
    (terminate : bool) (tag : option string) : World -> Z * World :=
  function (
    run_options <- RETURN_NULLPTR_IF_ERROR CreateRunOptions ;;
    REGISTER_AUTO_RELEASE_HANDLE RunOptions run_options ;;;
    RETURN_NULLPTR_IF_ERROR
      (RunOptionsSetRunLogSeverityLevel run_options (to_c_int log_severity_level)) ;;;
    RETURN_NULLPTR_IF_ERROR
      (RunOptionsSetRunLogVerbosityLevel run_options (to_c_int log_verbosity_level)) ;;;
    (if terminate
     then RETURN_NULLPTR_IF_ERROR (RunOptionsSetTerminate run_options)
     else RETURN_NULLPTR_IF_ERROR (RunOptionsUnsetTerminate run_options)) ;;;
    match tag with
    | Some t => RETURN_NULLPTR_IF_ERROR (RunOptionsSetRunTag run_options t) ;;; pure tt
    | None => pure tt
    end ;;;
    UNREGISTER_AUTO_RELEASE RunOptions run_options).

Definition OrtCreateBinding (session : Z) : World -> Z * World :=
  function (
    r <- CHECK_STATUS (CreateIoBinding session) ;;
    let binding := snd r in
    pure (if is_ORT_OK (fst r) then binding else nullptr)).

(** The handle-creating functions with their arguments. *)
Inductive CreateCall :=
| Call_OrtCreateSessionOptions
    (graph_optimization_level : Z) (enable_cpu_mem_arena enable_mem_pattern : bool)
    (execution_mode : Z) (enable_profiling : bool) (log_id : option string)
    (log_severity_level log_verbosity_level : Z)
    (optimized_model_filepath : option string)
| Call_OrtCreateSession (data data_length session_options : Z)
| Call_OrtCreateTensor (data_type data data_length : Z) (dims : list Z)
                       (data_location : Z)
| Call_OrtCreateRunOptions (log_severity_level log_verbosity_level : Z)
                           (terminate : bool) (tag : option string)
| Call_OrtCreateBinding (session : Z).

Definition exec (c : CreateCall) : World -> Z * World :=
  match c with
  | Call_OrtCreateSessionOptions g a m e p l s v o =>
      OrtCreateSessionOptions g a m e p l s v o
  | Call_OrtCreateSession d n o => OrtCreateSession d n o
  | Call_OrtCreateTensor t d n dims loc => OrtCreateTensor t d n dims loc
  | Call_OrtCreateRunOptions s v t tag => OrtCreateRunOptions s v t tag
  | Call_OrtCreateBinding s => OrtCreateBinding s
  end.

Definition returned_kind (c : CreateCall) : HandleKind :=
  match c with
  | Call_OrtCreateSessionOptions _ _ _ _ _ _ _ _ _ => SessionOptions
  | Call_OrtCreateSession _ _ _ => Session
  | Call_OrtCreateTensor _ _ _ _ _ => Value
  | Call_OrtCreateRunOptions _ _ _ _ => RunOptions
  | Call_OrtCreateBinding _ => IoBinding
  end.

End Api.

(** ** A runtime to run the functions against *)

(** Modelled from the spec: the runtime itself is a separate native
    library.  This one answers every call with success and stores the
    address [1000 + n] for the [n]-th call, except that the calls whose
    number is in [failing] fail with ORT_FAIL. *)
Definition scripted_runtime (failing : list nat) (n : nat) (c : ApiCall) : ApiReply :=
  if existsb (Nat.eqb n) failing
  then MkReply (Some (MkOrtStatus ORT_FAIL "scripted failure")) 0
  else MkReply None (1000 + Z.of_nat n).

Definition wasm32 : Constants := MkConstants 8 0 0 0 4.

Definition initial_world : World := MkWorld 1 ORT_OK "" [] [] [] [].

End WasmApi.

(* ===================================================================== *)
(** * layer_norm.cc: the kernel *)
(* ===================================================================== *)

Module LayerNormKernel.
Import LayerNorm.

(** The element types the two kernels are registered for. *)
Inductive ElementType :=
| ONNX_TENSOR_ELEMENT_DATA_TYPE_FLOAT
| ONNX_TENSOR_ELEMENT_DATA_TYPE_FLOAT16.

Record Tensor := MkTensor { Shape : list Z; GetElementType : ElementType }.

(** The part of [ComputeContext] that [ComputeInternal] looks at: inputs 0
    and 1, the optional input 2, and for each output index whether
    [Output] hands back a tensor or [nullptr]. *)
Record ComputeContext := MkComputeContext {
  Input_0 : Tensor;
  Input_1 : Tensor;
  Input_2 : option Tensor;
  Output_present : nat -> bool
}.

(** The tensors of one call, by the name of the local that holds them. *)
Inductive TensorRef := T_x | T_scale | T_bias | T_y | T_mean | T_inv_std_dev.

Inductive ProgramTensorMetadataDependency := Dependency_None | Dependency_Type.

(** A [ProgramInput] or [ProgramOutput] aggregate; [component] is [None]
    where the initializer list leaves the component count out. *)
Record ProgramTensor := MkProgramTensor {
  tensor : TensorRef;
  dependency : ProgramTensorMetadataDependency;
  component : option Z
}.

Inductive Exn := InvalidAxis (msg : string) | NarrowingError | EnforceFailed.

(** How a call ends: with a [Status], with an exception, or in a division
    by zero, which C++ leaves undefined. *)
Inductive Outcome :=
| Returned (s : Pool.Status)
| Threw (e : Exn)
| Undefined.

(** [a / b] on [int64_t]: the quotient is truncated toward zero. *)
Definition div64 (a b : Z) : option Z :=
  if b =? 0 then None else Some (wrap64 (Z.quot a b)).

Definition wrap32 (z : Z) : Z := z mod 2 ^ 32.

(** [a / b] on [uint32_t]. *)
Definition udiv32 (a b : Z) : option Z :=
  if b =? 0 then None else Some (a / b).

(** [onnxruntime::narrow<uint32_t>] *)
Definition narrow_uint32 (v : Z) : option Z := narrow_size_t 32 v.

(** The loop that fills [mean_dim], started at index [i]. *)
Fixpoint mean_dim_from (i : Z) (dims : list Z) (axis : Z) : list Z :=
  match dims with
  | [] => []
  | d :: rest => (if i <? axis then d else 1) :: mean_dim_from (i + 1) rest axis
  end.

Definition mean_dim (x_shape : list Z) (axis : Z) : list Z :=
  mean_dim_from 0 x_shape axis.

Definition mismatch_message (norm_size scale_size bias_size : Z) : string :=
  String.append "Size of X.shape()[axis:] == "
    (String.append (string_of_Z norm_size)
       (String.append
          ". Size of scale and bias (if provided) must match this. Got scale size of "
          (String.append (string_of_Z scale_size)
             (String.append " and bias size of " (string_of_Z bias_size))))).

Section Kernel.

(** The type of [epsilon_]; the kernel only passes it on. *)
Variable float32 : Type.

Inductive UniformValue := U32 (v : Z) | F32 (v : float32).

(** A [LayerNormProgram] as [RunProgram] receives it. *)
Record Program := MkRun {
  flags : LayerNormProgram;
  cache_hint : list bool;
  inputs : list ProgramTensor;
  outputs : list ProgramTensor;
  dispatch_group_size : Z;
  uniform_variables : list UniformValue
}.

Definition CacheHint (b : bool) (p : Program) : Program :=
  MkRun (flags p) (cache_hint p ++ [b]) (inputs p) (outputs p)
        (dispatch_group_size p) (uniform_variables p).

Definition AddInputs (ts : list ProgramTensor) (p : Program) : Program :=
  MkRun (flags p) (cache_hint p) (inputs p ++ ts) (outputs p)
        (dispatch_group_size p) (uniform_variables p).

Definition AddOutputs (ts : list ProgramTensor) (p : Program) : Program :=
  MkRun (flags p) (cache_hint p) (inputs p) (outputs p ++ ts)
        (dispatch_group_size p) (uniform_variables p).

Definition SetDispatchGroupSize (n : Z) (p : Program) : Program :=
  MkRun (flags p) (cache_hint p) (inputs p) (outputs p) n (uniform_variables p).

Definition AddUniformVariables (us : list UniformValue) (p : Program) : Program :=
  MkRun (flags p) (cache_hint p) (inputs p) (outputs p)
        (dispatch_group_size p) (uniform_variables p ++ us).

Definition provided (b : bool) (f : Program -> Program) (p : Program) : Program :=
  if b then f p else p.

(** What a call does to its context, in order. *)
Inductive Event :=
| EvOutput (index : nat) (shape : list Z)
| EvRunProgram (p : Program).

(** What [ComputeInternal] calls and the sources embedded here do not
    define: the shape products of [TensorShape] (the two partial ones
    check their argument and may throw), [GetMaxComponents], the constant
    [WORKGROUP_SIZE], [ComputeContext::RunProgram] and the width of
    [size_t]. *)
Record Helpers := MkHelpers {
  size_t_bits : Z;
  SizeToDimension : list Z -> Z -> option Z;
  SizeFromDimension : list Z -> Z -> option Z;
  Size : list Z -> Z;
  GetMaxComponents : Z -> Z;
  WORKGROUP_SIZE : Z;
  RunProgram : Program -> Pool.Status
}.

Record LayerNorm := MkLayerNorm { axis_ : Z; epsilon_ : float32 }.

Variable h : Helpers.

(** The three [context.Output] calls. *)
Definition output_calls (x_shape mean_shape : list Z) : list Event :=
  [EvOutput 0 x_shape; EvOutput 1 mean_shape; EvOutput 2 mean_shape].

(** The program as it stands when [RunProgram] is called. *)
Definition build_program (simplified : bool) (k : LayerNorm) (context : ComputeContext)
    (is_fp16 : bool) (components norm_count norm_size norm_size_vectorized groups : Z)
    : Program :=
  let bias := Input_2 context in
  let has_bias := match bias with Some _ => true | None => false end in
  let mean := Output_present context 1 in
  let inv_std_dev := Output_present context 2 in
  let program :=
    MkRun (MkProgram has_bias is_fp16 simplified mean inv_std_dev) [] [] [] 0 [] in
  let program := CacheHint simplified program in
  let program := AddInputs [MkProgramTensor T_x Dependency_Type (Some components)] program in
  let program := AddInputs [MkProgramTensor T_scale Dependency_Type (Some components)] program in
  let program := AddOutputs [MkProgramTensor T_y Dependency_None (Some components)] program in
  let program := SetDispatchGroupSize groups program in
  let program := AddUniformVariables [U32 norm_count] program in
  let program := AddUniformVariables [U32 (wrap32 norm_size)] program in
  let program := AddUniformVariables [U32 norm_size_vectorized] program in
  let program := AddUniformVariables [F32 (epsilon_ k)] program in
  let program :=
    provided has_bias
      (AddInputs [MkProgramTensor T_bias Dependency_Type (Some components)]) program in
  let program :=
    provided mean (AddOutputs [MkProgramTensor T_mean Dependency_None None]) program in
  provided inv_std_dev
    (AddOutputs [MkProgramTensor T_inv_std_dev Dependency_None None]) program.

(** [LayerNorm<simplified>::ComputeInternal] *)
Definition ComputeInternal (simplified : bool) (k : LayerNorm) (context : ComputeContext)
    : list Event * Outcome :=
  let x := Input_0 context in
  let scale := Input_1 context in
  let bias := Input_2 context in
  let x_shape := Shape x in
  let is_fp16 := match GetElementType x with
                 | ONNX_TENSOR_ELEMENT_DATA_TYPE_FLOAT16 => true
                 | _ => false
                 end in
  match NormalizeAxis (size_t_bits h) (axis_ k) (Z.of_nat (length x_shape)) with
  | InvalidAxisThrown msg => ([], Threw (InvalidAxis msg))
  | NarrowingFailed => ([], Threw NarrowingError)
  | Axis axis =>
  match SizeToDimension h x_shape axis with
  | None => ([], Threw EnforceFailed)
  | Some to_axis =>
  match narrow_uint32 to_axis with
  | None => ([], Threw NarrowingError)
  | Some norm_count =>
  match SizeFromDimension h x_shape axis with
  | None => ([], Threw EnforceFailed)
  | Some norm_size =>
  let components := GetMaxComponents h norm_size in
  match div64 (wrap64 (add64 norm_size components - 1)) components with
  | None => ([], Undefined)
  | Some vectorized =>
  match narrow_uint32 vectorized with
  | None => ([], Threw NarrowingError)
  | Some norm_size_vectorized =>
  let scale_size := Size h (Shape scale) in
  let bias_size := match bias with Some b => Size h (Shape b) | None => 0 end in
  if negb (scale_size =? norm_size)
     || match bias with Some _ => negb (bias_size =? norm_size) | None => false end
  then ([], Returned (Pool.MkStatus Pool.INVALID_ARGUMENT
                        (mismatch_message norm_size scale_size bias_size)))
  else
    let mean_shape := mean_dim x_shape axis in
    let created := output_calls x_shape mean_shape in
    if Size h x_shape =? 0 then (created, Returned Pool.Status_OK)
    else
      match udiv32 (wrap32 (norm_count + WORKGROUP_SIZE h - 1)) (WORKGROUP_SIZE h) with
      | None => (created, Undefined)
      | Some groups =>
          let program :=
            build_program simplified k context is_fp16 components
                          norm_count norm_size norm_size_vectorized groups in
          (created ++ [EvRunProgram program], Returned (RunProgram h program))
      end
  end end end end end end.

End Kernel.

Arguments U32 {float32} v.
Arguments F32 {float32} v.
Arguments EvOutput {float32} index shape.
Arguments EvRunProgram {float32} p.
Arguments flags {float32} p.
Arguments cache_hint {float32} p.
Arguments inputs {float32} p.
Arguments outputs {float32} p.
Arguments dispatch_group_size {float32} p.
Arguments uniform_variables {float32} p.
Arguments size_t_bits {float32} h.
Arguments SizeToDimension {float32} h.
Arguments SizeFromDimension {float32} h.
Arguments Size {float32} h.
Arguments GetMaxComponents {float32} h.
Arguments WORKGROUP_SIZE {float32} h.
Arguments RunProgram {float32} h.
Arguments axis_ {float32} l.
Arguments epsilon_ {float32} l.
Arguments output_calls {float32} x_shape mean_shape.
Arguments build_program {float32} simplified k context is_fp16.
Arguments ComputeInternal {float32} h simplified k context.

(** The element count of a shape. *)
Definition elements (dims : list Z) : Z := fold_right Z.mul 1 dims.

(** Modelled from the spec: [TensorShape] and [GetMaxComponents] are
    declared in core/framework/tensor_shape.h and webgpu_utils.h, which
    are not among the sources embedded here.  The partial products refuse
    a dimension beyond the rank, [GetMaxComponents] picks the widest of 4,
    2 and 1 lanes that divides the size, and a workgroup has 64
    invocations.  This instance, over [Z] for [epsilon_], serves to run
    the kernel; its [RunProgram] accepts every program. *)
Definition product_to (dims : list Z) (d : Z) : option Z :=
  if (0 <=? d) && (d <=? Z.of_nat (length dims))
  then Some (elements (firstn (Z.to_nat d) dims)) else None.

Definition product_from (dims : list Z) (d : Z) : option Z :=
  if (0 <=? d) && (d <=? Z.of_nat (length dims))
  then Some (elements (skipn (Z.to_nat d) dims)) else None.

Definition widest_lanes (size : Z) : Z :=
  if size mod 4 =? 0 then 4 else if size mod 2 =? 0 then 2 else 1.

Definition plain_helpers : Helpers Z :=
  MkHelpers Z 64 product_to product_from elements widest_lanes 64
            (fun _ => Pool.Status_OK).

End LayerNormKernel.

(* ===================================================================== *)
(** * conv_transpose.h *)
(* ===================================================================== *)

Module ConvTranspose.

(** [static_cast<int32_t>] and [gsl::narrow_cast<int32_t>] of an
    [int64_t]: the low 32 bits, read in two's complement. *)
Definition wrap32s (z : Z) : Z := (z + 2 ^ 31) mod 2 ^ 32 - 2 ^ 31.

(** The fields of [ConvTransposeAttributes] the kernel reads. *)
Record ConvTransposeAttributes := MkAttributes {
  auto_pad : Z;
  group : Z;
  kernel_shape_specified : bool;
  strides : list Z;
  pads : list Z;
  dilations : list Z;
  output_padding : list Z;
  output_shape : list Z;
  activation : string
}.

Definition set_activation (s : string) (a : ConvTransposeAttributes)
    : ConvTransposeAttributes :=
  MkAttributes (auto_pad a) (group a) (kernel_shape_specified a) (strides a) (pads a)
               (dilations a) (output_padding a) (output_shape a) s.

(** What the constructor asks [OpKernelInfo] for: the attributes
    "activation", "kernel_shape" and "channels_last" ([None] when the node
    does not have them), and the [ConvTransposeAttributes] built from the
    same node. *)
Record OpKernelInfo := MkInfo {
  attr_activation : option string;
  attr_kernel_shape : option (list Z);
  attr_channels_last : option Z;
  attributes : ConvTransposeAttributes
}.

Inductive Exn := ThrowIfError | EnforceFailed.

(** [HEAP32.subarray(start, start + n)] over the elements of a vector:
    the first [n] of them; a vector with fewer than [n] elements makes the
    read run past its storage, which has no defined content. *)
Definition heap_read (v : list Z) (n : nat) : option (list Z) :=
  if (n <=? length v)%nat then Some (firstn n v) else None.

(** [start ? Array.from(HEAP32.subarray(start, end)) : []] over the
    whole of a vector: its elements (none when it is empty, whatever its
    start index is). *)
Definition heap_range (v : list Z) : list Z := v.

(** The object handed to JavaScript.  Its "wIsConst" member is a function
    that reads [w_is_const_] of the kernel at the time it is called, so it
    is not a field here. *)
Record JsAttribute := MkJsAttribute {
  js_format : string;
  js_autoPad : Z;
  js_dilations : option (list Z);
  js_group : Z;
  js_kernelShape : option (list Z);
  js_pads : option (list Z);
  js_strides : option (list Z);
  js_outputPadding : list Z;
  js_outputShape : list Z;
  js_activation : string
}.

Record Kernel := MkKernel {
  conv_transpose_attrs_ : ConvTransposeAttributes;
  w_is_const_ : bool;
  js_attribute : JsAttribute
}.

(** [v[i] = x] on a vector. *)
Fixpoint assign (i : nat) (x : Z) (v : list Z) : list Z :=
  match v, i with
  | [], _ => []
  | _ :: v', O => x :: v'
  | y :: v', S i' => y :: assign i' x v'
  end.

(** [for (i = 0; i < src.size() && i < vec_size; ++i)
       local[i] = gsl::narrow_cast<int32_t>(src[i]);] *)
Definition copy_leading (src : list Z) (vec_size : nat) (local : list Z) : list Z :=
  fold_left (fun local i => assign i (wrap32s (nth i src 0)) local)
            (seq 0 (Nat.min (length src) vec_size)) local.

(** [for (i = 0; i < src.size() && i < vec_size; ++i)
       local.push_back(gsl::narrow_cast<int32_t>(src[i]));] *)
Definition push_leading (src : list Z) (vec_size : nat) (local : list Z) : list Z :=
  fold_left (fun local i => local ++ [wrap32s (nth i src 0)])
            (seq 0 (Nat.min (length src) vec_size)) local.

(** The test that selects the 1-D branch. *)
Definition one_dimensional (a : ConvTransposeAttributes) (kernel_shape : list Z) : bool :=
  (length (dilations a) =? 1)%nat
  || (kernel_shape_specified a && (length kernel_shape =? 1)%nat)
  || (length (strides a) =? 1)%nat.

Definition format_of (channels_last : Z) : string :=
  if wrap32s channels_last =? 0 then "NCHW" else "NHWC".

(** The constructor of [ConvTranspose<is_channels_last,
    is_fused_convtranspose>]. *)
Definition ConvTranspose (is_channels_last is_fused_convtranspose : bool)
    (info : OpKernelInfo) : Exn + Kernel :=
  let conv_transpose_attrs_ := attributes info in
  let w_is_const_ := false in
  match (if is_fused_convtranspose
         then match attr_activation info with
              | Some s => inr s
              | None => inl ThrowIfError
              end
         else inr (match attr_activation info with Some s => s | None => EmptyString end))
  with
  | inl e => inl e
  | inr act =>
  let conv_transpose_attrs_ := set_activation act conv_transpose_attrs_ in
  match (if kernel_shape_specified conv_transpose_attrs_
         then match attr_kernel_shape info with
              | Some ks => inr ks
              | None => inl EnforceFailed
              end
         else inr [])
  with
  | inl e => inl e
  | inr kernel_shape =>
  let channels_last :=
    if is_channels_last then 1
    else match attr_channels_last info with Some c => c | None => 0 end in
  let local_output_shape := map wrap32s (output_shape conv_transpose_attrs_) in
  let local_output_padding := map wrap32s (output_padding conv_transpose_attrs_) in
  let a := conv_transpose_attrs_ in
  if one_dimensional a kernel_shape
  then
    let dilations0 := if (0 <? length (dilations a))%nat then nth 0 (dilations a) 0 else 0 in
    let kernel_shape_0 :=
      if kernel_shape_specified a && (0 <? length kernel_shape)%nat
      then nth 0 kernel_shape 0 else 0 in
    let pads_0 := if (0 <? length (pads a))%nat then nth 0 (pads a) 0 else 0 in
    let pads_1 := if (1 <? length (pads a))%nat then nth 1 (pads a) 0 else 0 in
    let strides0 := if (0 <? length (strides a))%nat then nth 0 (strides a) 0 else 0 in
    inr (MkKernel a w_is_const_
           (MkJsAttribute (format_of channels_last)
              (wrap32s (auto_pad a))
              (Some [wrap32s dilations0])
              (wrap32s (group a))
              (Some [wrap32s kernel_shape_0])
              (Some [wrap32s pads_0; wrap32s pads_1])
              (Some [wrap32s strides0])
              (heap_range local_output_padding)
              (heap_range local_output_shape)
              (activation a)))
  else
    let pads_vec_size := 4%nat in
    let strides_vec_size := 2%nat in
    let dialations_vec_size := 2%nat in
    let kernel_shape_vec_size := 2%nat in
    let local_pads := repeat 0 pads_vec_size in
    let local_strides := repeat 0 strides_vec_size in
    let local_dilations := repeat 0 dialations_vec_size in
    let local_kernel_shape :=
      if kernel_shape_specified a
      then push_leading kernel_shape kernel_shape_vec_size []
      else repeat 0 kernel_shape_vec_size in
    let local_pads := copy_leading (pads a) pads_vec_size local_pads in
    let local_dilations := copy_leading (dilations a) dialations_vec_size local_dilations in
    let local_strides := copy_leading (strides a) strides_vec_size local_strides in
    inr (MkKernel a w_is_const_
           (MkJsAttribute (format_of channels_last)
              (wrap32s (auto_pad a))
              (heap_read local_dilations 2)
              (wrap32s (group a))
              (heap_read local_kernel_shape 2)
              (heap_read local_pads 4)
              (heap_read local_strides 2)
              (heap_range local_output_padding)
              (heap_range local_output_shape)
              (activation a)))
  end end.

(** What "wIsConst" answers when JavaScript calls it. *)
Definition wIsConst (k : Kernel) : bool := w_is_const_ k.

(** The part of a [Tensor] that [PrePack] looks at. *)
Record Tensor := MkTensor { Shape : list Z; SizeInBytes : Z }.

Definition set_w_is_const (b : bool) (k : Kernel) : Kernel :=
  MkKernel (conv_transpose_attrs_ k) b (js_attribute k).

(** [PrePack]: the status, [is_packed] and the kernel afterwards. *)
Definition PrePack (tensor : Tensor) (input_idx : Z) (k : Kernel)
    : Pool.Status * bool * Kernel :=
  let is_packed := false in
  if input_idx =? 1
  then
    if negb (length (Shape tensor) =? 4)%nat || (SizeInBytes tensor =? 0)
    then (Pool.Status_OK, is_packed, k)
    else (Pool.Status_OK, is_packed, set_w_is_const true k)
  else (Pool.Status_OK, is_packed, k).

(** The kernel after a series of [PrePack] calls, first to last. *)
Definition PrePack_all (calls : list (Tensor * Z)) (k : Kernel) : Kernel :=
  fold_left (fun k c => snd (PrePack (fst c) (snd c) k)) calls k.

End ConvTranspose.

(* ===================================================================== *)
(** * api.cc: the functions that return an error code *)
(* ===================================================================== *)

Module WasmCalls.
Import WasmApi.

(** ** The runtime, the allocator and memory *)

(** The runtime entry points these functions call, with their input
    arguments; [Alloc] is [allocator->Alloc(allocator, size)]. *)
Inductive Call :=
| CreateThreadingOptions
| SetGlobalIntraOpNumThreads (tp_options num_threads : Z)
| SetGlobalInterOpNumThreads (tp_options num_threads : Z)
| CreateEnvWithGlobalThreadPools (logging_level : Z) (logid : string) (tp_options : Z)
| CreateEnv (logging_level : Z) (logid : string)
| SessionOptionsAppendExecutionProvider (session_options : Z) (name : string)
                                        (keys values num_keys : Z)
| AddFreeDimensionOverrideByName (session_options : Z) (dim_param_name : string)
                                 (dim_value : Z)
| AddSessionConfigEntry (session_options : Z) (config_key config_value : string)
| SessionGetInputCount (session : Z)
| SessionGetOutputCount (session : Z)
| GetAllocatorWithDefaultOptions
| SessionGetInputName (session index allocator : Z)
| SessionGetOutputName (session index allocator : Z)
| SessionGetInputTypeInfo (session index : Z)
| SessionGetOutputTypeInfo (session index : Z)
| CastTypeInfoToTensorInfo (type_info : Z)
| GetTensorElementType (info : Z)
| GetDimensionsCount (info : Z)
| GetDimensions (info dim_count : Z)
| GetSymbolicDimensions (info dim_count : Z)
| GetValueType (value : Z)
| GetTensorTypeAndShape (value : Z)
| GetTensorShapeElementCount (info : Z)
| GetStringTensorDataLength (value : Z)
| GetStringTensorContent (value content content_length offsets offsets_length : Z)
| GetTensorMutableData (value : Z)
| AddRunConfigEntry (run_options : Z) (config_key config_value : string)
| BindInput (io_binding : Z) (name : string) (input : Z)
| BindOutput (io_binding : Z) (name : string) (output : Z)
| BindOutputToDevice (io_binding : Z) (name : string) (memory_info : Z)
| CreateCpuMemoryInfo (alloc_type mem_type : Z)
| CreateMemoryInfo (name : string) (alloc_type id mem_type : Z)
| RunWithBinding (session run_options io_binding : Z)
| GetBoundOutputValues (io_binding allocator : Z)
| Run (session run_options input_names inputs input_count
       output_names output_count outputs : Z)
| SessionEndProfiling (session allocator : Z)
| Alloc (allocator size : Z)
(* the entry points of [Ort::GetTrainingApi()] *)
| LoadCheckpointFromBuffer (checkpoint_data_buffer checkpoint_size : Z)
| CreateTrainingSessionFromBuffer (env options checkpoint train_model train_size
                                   eval_model eval_size optimizer_model optimizer_size : Z)
| LazyResetGrad (training_handle : Z)
| TrainStep (training_handle options input_count inputs output_count outputs : Z)
| OptimizerStep (training_handle run_options : Z)
| EvalStep (training_handle options input_count inputs output_count outputs : Z)
| GetParametersSize (training_handle param_size : Z) (trainable_only : bool)
| CopyParametersToBuffer (training_handle parameters_buffer : Z) (trainable_only : bool)
| CopyBufferToParameters (training_handle parameters_buffer : Z) (trainable_only : bool)
| TrainingSessionGetEvalModelInputCount (training_handle input_count : Z)
| TrainingSessionGetEvalModelOutputCount (training_handle output_count : Z)
| TrainingSessionGetTrainingModelInputCount (training_handle input_count : Z)
| TrainingSessionGetTrainingModelOutputCount (training_handle output_count : Z)
| TrainingSessionGetEvalModelInputName (training_handle index allocator : Z)
| TrainingSessionGetEvalModelOutputName (training_handle index allocator : Z)
| TrainingSessionGetTrainingModelInputName (training_handle index allocator : Z)
| TrainingSessionGetTrainingModelOutputName (training_handle index allocator : Z).

(** What the runtime answers: a status and what it stores through the
    output parameters of the call: a scalar ([reply_value]: a handle, a
    pointer, a count or an enumeration value), for [GetBoundOutputValues]
    also the number of entries ([reply_count]), and the entries of the
    array a call fills ([reply_items]: dimension values, string offsets,
    bound values; [reply_names]: the symbolic dimension names, [None] for a
    null pointer). *)
Record Reply := MkReply {
  reply_status : OrtStatusPtr;
  reply_value : Z;
  reply_count : Z;
  reply_items : list Z;
  reply_names : list (option string)
}.

(** What a function holds on to and has to give back. *)
Inductive Resource :=
| Handle (kind : HandleKind) (p : Z)
| TypeInfo (p : Z)
| TensorTypeAndShapeInfo (p : Z)
| Buffer (allocator p : Z).

Definition pointer_of (r : Resource) : Z :=
  match r with
  | Handle _ p | TypeInfo p | TensorTypeAndShapeInfo p | Buffer _ p => p
  end.

(** A value stored in memory, by its C type; [Chars s] is the text [s]
    with its terminating zero. *)
Inductive Cell :=
| I32 (v : Z)
| U32 (v : Z)
| SizeT (v : Z)
| Ptr (v : Z)
| Chars (s : string)
| Char (c : Z).

(** What a function does, in order: runtime calls with their answers,
    [Release...] calls and [allocator->Free], [ClearBoundOutputs], stores
    into a buffer the function allocated ([Wrote], at a byte offset from
    its start) and stores through a pointer parameter of the function
    ([Output], at an element index). *)
Inductive Effect :=
| Called (c : Call) (r : Reply)
| Released (r : Resource)
| ClearedBoundOutputs (io_binding : Z)
| Wrote (buffer offset : Z) (c : Cell)
| Output (parameter index : Z) (c : Cell).

(** The state: the module's globals (in [world], with the log of
    [CheckStatus]), the effects so far, and the [auto_release_*] wrappers
    of the running function, the latest first. *)
Record Machine := MkMachine {
  world : World;
  trace : list Effect;
  wrappers : list Resource
}.

Definition set_world (w : World) (m : Machine) : Machine :=
  MkMachine w (trace m) (wrappers m).

Definition set_wrappers (l : list Resource) (m : Machine) : Machine :=
  MkMachine (world m) (trace m) l.

Definition add_effect (e : Effect) (m : Machine) : Machine :=
  MkMachine (world m) (trace m ++ [e]) (wrappers m).

Definition set_g_env (env : Z) (w : World) : World :=
  MkWorld env (g_last_error_code w) (g_last_error_message w) (api_log w)
          (checked w) (live w) (auto_release w).

Definition Resource_eqb (a b : Resource) : bool :=
  match a, b with
  | Handle k p, Handle k' p' => HandleKind_eqb k k' && (p =? p')
  | TypeInfo p, TypeInfo p' => p =? p'
  | TensorTypeAndShapeInfo p, TensorTypeAndShapeInfo p' => p =? p'
  | Buffer a p, Buffer a' p' => (a =? a') && (p =? p')
  | _, _ => false
  end.

Fixpoint remove_wrapper (r : Resource) (l : list Resource) : list Resource :=
  match l with
  | [] => []
  | x :: l' => if Resource_eqb r x then l' else x :: remove_wrapper r l'
  end.

(** Constants of the C API headers besides those of [Constants]. *)
Record Enumerations := MkEnumerations {
  ONNX_TYPE_TENSOR : Z;
  ONNX_TENSOR_ELEMENT_DATA_TYPE_UNDEFINED : Z
}.

(** [static_cast<int32_t>] of an enumeration value. *)
Definition to_int32 (z : Z) : Z := (z + 2 ^ 31) mod 2 ^ 32 - 2 ^ 31.

(** The double quote of the message of [OrtBindOutput]. *)
Definition quote : string := String (Ascii.ascii_of_nat 34) EmptyString.

Definition text_of (z : Z) : string := NilZero.string_of_int (Z.to_int z).

Section Functions.

(** The runtime: its answer to a call, given the number of effects before
    it. *)
Variable runtime : nat -> Call -> Reply.
Variable K : Constants.
Variable E : Enumerations.
(** Build configuration: [__EMSCRIPTEN_PTHREADS__]. *)
Variable EMSCRIPTEN_PTHREADS : bool.

(** Arithmetic on [size_t]. *)
Definition size_t_bits : Z := 8 * pointer_size K.
Definition to_size_t (z : Z) : Z := z mod 2 ^ size_t_bits.

(** A function body returning [R]: each statement yields a value or
    leaves the function with a result. *)
Definition Code (R A : Type) : Type := Machine -> (A + R) * Machine.

Definition yield {R A} (a : A) : Code R A := fun m => (inl a, m).
Definition leave_with {R A} (r : R) : Code R A := fun m => (inr r, m).

Definition and_then {R A B} (c : Code R A) (f : A -> Code R B) : Code R B :=
  fun m => match c m with
           | (inl a, m') => f a m'
           | (inr r, m') => (inr r, m')
           end.

Notation "x <- c ;; k" := (and_then c (fun x => k))
  (at level 61, c at next level, right associativity).
Notation "c ;;; k" := (and_then c (fun _ => k))
  (at level 61, right associativity).

(** One call [Ort::GetApi().X(args, &out...)] or [allocator->Alloc]. *)
Definition ask {R} (c : Call) : Code R Reply :=
  fun m => let r := runtime (length (trace m)) c in
           (inl r, add_effect (Called c r) m).

Definition effect {R} (e : Effect) : Code R unit :=
  fun m => (inl tt, add_effect e m).

(** [CheckStatus(status)] *)
Definition check {R} (status : OrtStatusPtr) : Code R OrtErrorCode :=
  fun m => let (e, w) := CheckStatus status (world m) in (inl e, set_world w m).

(** [CHECK_STATUS(X, args)] *)
Definition CHECK_STATUS {R} (c : Call) : Code R (OrtErrorCode * Reply) :=
  r <- ask c ;;
  e <- check (reply_status r) ;;
  yield (e, r).

(** [RETURN_ERROR_CODE_IF_ERROR(X, args)] *)
Definition RETURN_ERROR_CODE_IF_ERROR (c : Call) : Code OrtErrorCode Reply :=
  r <- CHECK_STATUS c ;;
  if is_ORT_OK (fst r) then yield (snd r) else leave_with (fst r).

(** [RETURN_NULLPTR_IF_ERROR(X, args)] *)
Definition RETURN_NULLPTR_IF_ERROR (c : Call) : Code Z Reply :=
  r <- CHECK_STATUS c ;;
  if is_ORT_OK (fst r) then yield (snd r) else leave_with nullptr.

(** [return (CHECK_STATUS(X, args, &out) == ORT_OK) ? out : nullptr] *)
Definition value_or_nullptr (c : Call) : Code Z Z :=
  r <- CHECK_STATUS c ;;
  yield (if is_ORT_OK (fst r) then reply_value (snd r) else nullptr).

(** [return CheckStatus(Ort::GetApi().CreateStatus(code, msg))] *)
Definition return_status {A} (c : OrtErrorCode) (msg : string) : Code OrtErrorCode A :=
  e <- check (CreateStatus c msg) ;;
  leave_with e.

(** [REGISTER_AUTO_RELEASE_HANDLE] and [REGISTER_AUTO_RELEASE_BUFFER] *)
Definition REGISTER_AUTO_RELEASE {R} (r : Resource) : Code R unit :=
  fun m => (inl tt, set_wrappers (r :: wrappers m) m).

(** [UNREGISTER_AUTO_RELEASE(var)]: the wrapper gives its pointer up. *)
Definition UNREGISTER_AUTO_RELEASE {R} (r : Resource) : Code R Z :=
  fun m => (inl (pointer_of r), set_wrappers (remove_wrapper r (wrappers m)) m).

(** Leaving the function destroys its wrappers, the latest first; a
    wrapper that still holds a non-null pointer releases it. *)
Fixpoint destroy_wrappers (l : list Resource) (m : Machine) : Machine :=
  match l with
  | [] => m
  | r :: l' =>
      destroy_wrappers l'
        (if pointer_of r =? nullptr then m else add_effect (Released r) m)
  end.

Definition function {R} (body : Code R R) (m : Machine) : R * Machine :=
  let caller := wrappers m in
  match body (set_wrappers [] m) with
  | (res, m') =>
      (match res with inl r => r | inr r => r end,
       set_wrappers caller (destroy_wrappers (wrappers m') m'))
  end.

(** A call of another function of this file. *)
Definition call_function {R A} (f : Machine -> A * Machine) : Code R A :=
  fun m => let (a, m') := f m in (inl a, m').

(** ** The functions *)

Definition OrtInit (num_threads logging_level : Z) : Machine -> OrtErrorCode * Machine :=
  function (
    if EMSCRIPTEN_PTHREADS
    then
      t <- RETURN_ERROR_CODE_IF_ERROR CreateThreadingOptions ;;
      let tp_options := reply_value t in
      RETURN_ERROR_CODE_IF_ERROR (SetGlobalIntraOpNumThreads tp_options num_threads) ;;;
      RETURN_ERROR_CODE_IF_ERROR (SetGlobalInterOpNumThreads tp_options 1) ;;;
      r <- ask (CreateEnvWithGlobalThreadPools logging_level "Default" tp_options) ;;
      (fun m => (inl tt, set_world (set_g_env (reply_value r) (world m)) m)) ;;;
      check (reply_status r)
    else
      r <- ask (CreateEnv logging_level "Default") ;;
      (fun m => (inl tt, set_world (set_g_env (reply_value r) (world m)) m)) ;;;
      check (reply_status r)).

(** The functions that are one checked call. *)
Definition checked_call (c : Call) : Machine -> OrtErrorCode * Machine :=
  function (r <- CHECK_STATUS c ;; yield (fst r)).

Definition OrtAppendExecutionProvider (session_options : Z) (name : string)
    (provider_options_keys provider_options_values num_keys : Z) :=
  checked_call (SessionOptionsAppendExecutionProvider session_options name
                  provider_options_keys provider_options_values num_keys).

Definition OrtAddFreeDimensionOverride (session_options : Z) (dim_param_name : string)
    (dim_value : Z) :=
  checked_call (AddFreeDimensionOverrideByName session_options dim_param_name dim_value).

Definition OrtAddSessionConfigEntry (session_options : Z)
    (config_key config_value : string) :=
  checked_call (AddSessionConfigEntry session_options config_key config_value).

Definition OrtAddRunConfigEntry (run_options : Z) (config_key config_value : string) :=
  checked_call (AddRunConfigEntry run_options config_key config_value).

Definition OrtBindInput (io_binding : Z) (name : string) (input : Z) :=
  checked_call (BindInput io_binding name input).

Definition OrtRun (session input_names inputs input_count output_names output_count
                   outputs run_options : Z) :=
  checked_call (Run session run_options input_names inputs input_count
                    output_names output_count outputs).

(** The functions that look the default allocator up and return the text
    one call allocates with it, or null. *)
Definition text_call (c : Z -> Call) : Machine -> Z * Machine :=
  function (
    a <- RETURN_NULLPTR_IF_ERROR GetAllocatorWithDefaultOptions ;;
    let allocator := reply_value a in
    value_or_nullptr (c allocator)).

Definition OrtGetInputName (session index : Z) :=
  text_call (SessionGetInputName session index).

Definition OrtGetOutputName (session index : Z) :=
  text_call (SessionGetOutputName session index).

Definition OrtEndProfiling (session : Z) := text_call (SessionEndProfiling session).

(** The training functions, compiled with [ENABLE_TRAINING_APIS]:
    [CHECK_TRAINING_STATUS] and [RETURN_TRAINING_ERROR_CODE_IF_ERROR] are
    [CHECK_STATUS] and [RETURN_ERROR_CODE_IF_ERROR] on an entry point of
    [Ort::GetTrainingApi()]. *)
Definition OrtTrainingLoadCheckpoint (checkpoint_data_buffer checkpoint_size : Z)
    : Machine -> Z * Machine :=
  function (value_or_nullptr
              (LoadCheckpointFromBuffer checkpoint_data_buffer checkpoint_size)).

Definition OrtTrainingCreateSession (options training_checkpoint_state_handle
    train_model train_size eval_model eval_size optimizer_model optimizer_size : Z)
    : Machine -> Z * Machine :=
  function (
    env <- (fun m => (inl (g_env (world m)), m)) ;;
    value_or_nullptr
      (CreateTrainingSessionFromBuffer env options training_checkpoint_state_handle
         train_model train_size eval_model eval_size optimizer_model optimizer_size)).

Definition OrtTrainingLazyResetGrad (training_handle : Z) :=
  checked_call (LazyResetGrad training_handle).

Definition OrtTrainingRunTrainStep (training_handle inputs input_count outputs
    output_count options : Z) :=
  checked_call (TrainStep training_handle options input_count inputs output_count outputs).

Definition OrtTrainingOptimizerStep (training_handle run_options : Z) :=
  checked_call (OptimizerStep training_handle run_options).

Definition OrtTrainingEvalStep (training_handle inputs input_count outputs
    output_count options : Z) :=
  checked_call (EvalStep training_handle options input_count inputs output_count outputs).

Definition OrtTrainingGetParametersSize (training_handle param_size : Z)
    (trainable_only : bool) :=
  checked_call (GetParametersSize training_handle param_size trainable_only).

Definition OrtTrainingCopyParametersToBuffer (training_handle parameters_buffer
    parameter_count : Z) (trainable_only : bool) :=
  checked_call (CopyParametersToBuffer training_handle parameters_buffer trainable_only).

Definition OrtTrainingCopyParametersFromBuffer (training_handle parameters_buffer
    parameter_count : Z) (trainable_only : bool) :=
  checked_call (CopyBufferToParameters training_handle parameters_buffer trainable_only).

Definition OrtTrainingGetModelInputOutputCount (training_handle input_count
    output_count : Z) (isEvalModel : bool) : Machine -> OrtErrorCode * Machine :=
  function (
    if isEvalModel
    then
      RETURN_ERROR_CODE_IF_ERROR
        (TrainingSessionGetEvalModelInputCount training_handle input_count) ;;;
      RETURN_ERROR_CODE_IF_ERROR
        (TrainingSessionGetEvalModelOutputCount training_handle output_count) ;;;
      yield ORT_OK
    else
      RETURN_ERROR_CODE_IF_ERROR
        (TrainingSessionGetTrainingModelInputCount training_handle input_count) ;;;
      RETURN_ERROR_CODE_IF_ERROR
        (TrainingSessionGetTrainingModelOutputCount training_handle output_count) ;;;
      yield ORT_OK).

Definition OrtTrainingGetModelInputOutputName (training_handle index : Z)
    (isInput isEvalModel : bool) : Machine -> Z * Machine :=
  function (
    a <- RETURN_NULLPTR_IF_ERROR GetAllocatorWithDefaultOptions ;;
    let allocator := reply_value a in
    if isEvalModel
    then
      if isInput
      then value_or_nullptr
             (TrainingSessionGetEvalModelInputName training_handle index allocator)
      else value_or_nullptr
             (TrainingSessionGetEvalModelOutputName training_handle index allocator)
    else
      if isInput
      then value_or_nullptr
             (TrainingSessionGetTrainingModelInputName training_handle index allocator)
      else value_or_nullptr
             (TrainingSessionGetTrainingModelOutputName training_handle index allocator)).

(** The functions that release a handle. *)
Definition release_call (r : Resource) : Machine -> OrtErrorCode * Machine :=
  function (effect (Released r) ;;; yield ORT_OK).

Definition OrtReleaseSessionOptions (p : Z) := release_call (Handle SessionOptions p).
Definition OrtReleaseSession (p : Z) := release_call (Handle Session p).
Definition OrtReleaseTensor (p : Z) := release_call (Handle Value p).
Definition OrtReleaseRunOptions (p : Z) := release_call (Handle RunOptions p).
Definition OrtReleaseBinding (p : Z) := release_call (Handle IoBinding p).

Definition OrtClearBoundOutputs (io_binding : Z) : Machine -> OrtErrorCode * Machine :=
  function (effect (ClearedBoundOutputs io_binding) ;;; yield ORT_OK).

(** [OrtGetInputOutputCount]: the return value, and what the call leaves
    in [*input_count] and [*output_count]. *)
Definition OrtGetInputOutputCount (session : Z)
    : Machine -> (OrtErrorCode * Z * Z) * Machine :=
  function (
    a <- CHECK_STATUS (SessionGetInputCount session) ;;
    if negb (is_ORT_OK (fst a)) then leave_with (fst a, reply_value (snd a), 0) else
    b <- CHECK_STATUS (SessionGetOutputCount session) ;;
    if negb (is_ORT_OK (fst b))
    then leave_with (fst b, reply_value (snd a), reply_value (snd b))
    else yield (ORT_OK, reply_value (snd a), reply_value (snd b))).

(** [dim_params_str_len[i]]: the bytes copied for a symbolic name. *)
Definition str_len (name : option string) : Z :=
  match name with
  | Some s => if (0 <? String.length s)%nat then Z.of_nat (String.length s) + 1 else 0
  | None => 0
  end.

(** The first loop of [OrtGetInputOutputMetadata]: [str_len_total]. *)
Definition str_len_total (dim_count : Z) (dim_params : list (option string)) : Z :=
  fold_left (fun total i => to_size_t (total + str_len (nth i dim_params None)))
            (List.seq 0 (Z.to_nat dim_count)) 0.

Definition text_of_name (name : option string) : string :=
  match name with Some s => s | None => EmptyString end.

(** The loop that stores the name pointers and copies the names, from
    index [i] on, [p_str_copy_dest] being at [dest] bytes into the
    buffer. *)
Fixpoint copy_names (buffer : Z) (dim_params : list (option string)) (i : Z) (dest : Z)
    (n : nat) : list Effect :=
  match n with
  | O => []
  | S n' =>
      let name := nth (Z.to_nat i) dim_params None in
      if 0 <? str_len name
      then Wrote buffer (8 + i * pointer_size K) (Ptr (buffer + dest))
           :: Wrote buffer dest (Chars (text_of_name name))
           :: copy_names buffer dim_params (i + 1) (dest + str_len name) n'
      else Wrote buffer (8 + i * pointer_size K) (Ptr nullptr)
           :: copy_names buffer dim_params (i + 1) dest n'
  end.

(** The loop that stores the dimension values. *)
Definition copy_dims (buffer dim_count : Z) (dim_values : list Z) : list Effect :=
  map (fun i => Wrote buffer (8 + dim_count * pointer_size K + Z.of_nat i * pointer_size K)
                      (SizeT (to_size_t (nth i dim_values 0))))
      (List.seq 0 (Z.to_nat dim_count)).

(** The stores into [type_info_buffer]. *)
Definition write_type_info (buffer element_type tensor_info dim_count : Z)
    (dim_values : list Z) (dim_params : list (option string)) : list Effect :=
  Wrote buffer 0 (I32 (to_int32 element_type))
  :: (if tensor_info =? nullptr then []
      else
        Wrote buffer 4 (U32 (dim_count mod 2 ^ 32))
        :: (if 0 <? dim_count
            then copy_names buffer dim_params 0 (8 + dim_count * pointer_size K * 2)
                            (Z.to_nat dim_count)
                 ++ copy_dims buffer dim_count dim_values
            else [])).

Definition effects {R} (l : list Effect) : Code R unit :=
  fold_right (fun e rest => effect e ;;; rest) (yield tt) l.

Definition invalid_index_message (index input_count output_count : Z) : string :=
  String.append "Invalid index: "
    (String.append (text_of index)
       (String.append ", input count: "
          (String.append (text_of input_count)
             (String.append ", output count: " (text_of output_count))))).

Definition OrtGetInputOutputMetadata (session index name_cstr_ptr type_info_ptr : Z)
    : Machine -> OrtErrorCode * Machine :=
  function (
    a <- RETURN_ERROR_CODE_IF_ERROR GetAllocatorWithDefaultOptions ;;
    let allocator := reply_value a in
    counts <- call_function (OrtGetInputOutputCount session) ;;
    let error_code := fst (fst counts) in
    let input_count := snd (fst counts) in
    let output_count := snd counts in
    if negb (is_ORT_OK error_code) then leave_with error_code else
    if index >=? to_size_t (input_count + output_count)
    then return_status ORT_INVALID_ARGUMENT
           (invalid_index_message index input_count output_count)
    else
    n <- (if index <? input_count
          then RETURN_ERROR_CODE_IF_ERROR (SessionGetInputName session index allocator)
          else RETURN_ERROR_CODE_IF_ERROR
                 (SessionGetOutputName session (to_size_t (index - input_count))
                                       allocator)) ;;
    let name_cstr := reply_value n in
    REGISTER_AUTO_RELEASE (Buffer allocator name_cstr) ;;;
    t <- (if index <? input_count
          then RETURN_ERROR_CODE_IF_ERROR (SessionGetInputTypeInfo session index)
          else RETURN_ERROR_CODE_IF_ERROR
                 (SessionGetOutputTypeInfo session (to_size_t (index - input_count)))) ;;
    let type_info := reply_value t in
    REGISTER_AUTO_RELEASE (TypeInfo type_info) ;;;
    c <- RETURN_ERROR_CODE_IF_ERROR (CastTypeInfoToTensorInfo type_info) ;;
    let tensor_info := reply_value c in
    ed <- (if negb (tensor_info =? nullptr)
           then
             e <- RETURN_ERROR_CODE_IF_ERROR (GetTensorElementType tensor_info) ;;
             d <- RETURN_ERROR_CODE_IF_ERROR (GetDimensionsCount tensor_info) ;;
             yield (reply_value e, reply_value d,
                    to_size_t (8 + reply_value d * (pointer_size K * 2)))
           else yield (ONNX_TENSOR_ELEMENT_DATA_TYPE_UNDEFINED E, 0, 4)) ;;
    let element_type := fst (fst ed) in
    let dim_count := snd (fst ed) in
    let type_info_size := snd ed in
    vs <- (if 0 <? dim_count
           then
             v <- RETURN_ERROR_CODE_IF_ERROR (GetDimensions tensor_info dim_count) ;;
             s <- RETURN_ERROR_CODE_IF_ERROR
                    (GetSymbolicDimensions tensor_info dim_count) ;;
             yield (reply_items v, reply_names s,
                    to_size_t (type_info_size + str_len_total dim_count (reply_names s)))
           else yield ([], [], type_info_size)) ;;
    let dim_values := fst (fst vs) in
    let dim_params := snd (fst vs) in
    let type_info_size := snd vs in
    b <- ask (Alloc allocator type_info_size) ;;
    let type_info_buffer := reply_value b in
    effects (write_type_info type_info_buffer element_type tensor_info dim_count
                             dim_values dim_params) ;;;
    UNREGISTER_AUTO_RELEASE (Buffer allocator name_cstr) ;;;
    effect (Output name_cstr_ptr 0 (Ptr name_cstr)) ;;;
    effect (Output type_info_ptr 0 (Ptr type_info_buffer)) ;;;
    yield ORT_OK).

Definition OrtFree (ptr : Z) : Machine -> OrtErrorCode * Machine :=
  function (
    a <- CHECK_STATUS GetAllocatorWithDefaultOptions ;;
    let allocator := reply_value (snd a) in
    (if is_ORT_OK (fst a) then effect (Released (Buffer allocator ptr)) else yield tt) ;;;
    yield ORT_OK).

(** The stores of the loop [p_dims[i] = static_cast<size_t>(shape[i])]. *)
Definition store_dims (p_dims dims_len : Z) (shape : list Z) : list Effect :=
  map (fun i => Wrote p_dims (Z.of_nat i * pointer_size K)
                      (SizeT (to_size_t (nth i shape 0))))
      (List.seq 0 (Z.to_nat dims_len)).

(** The stores of the loop that replaces offsets by pointers. *)
Definition store_c_strs (p_string_data string_data_offset num_elements : Z)
    (p_offsets : list Z) : list Effect :=
  map (fun i => Wrote p_string_data (Z.of_nat i * pointer_size K)
                      (Ptr (p_string_data + string_data_offset + nth i p_offsets 0)))
      (List.seq 0 (Z.to_nat num_elements)).

Definition OrtGetTensorData (tensor data_type data dims dims_length : Z)
    : Machine -> OrtErrorCode * Machine :=
  function (
    vt <- RETURN_ERROR_CODE_IF_ERROR (GetValueType tensor) ;;
    let tensor_type := reply_value vt in
    if negb (tensor_type =? ONNX_TYPE_TENSOR E)
    then return_status ORT_NOT_IMPLEMENTED
           "Reading data from non-tensor typed value is not supported."
    else
    i <- RETURN_ERROR_CODE_IF_ERROR (GetTensorTypeAndShape tensor) ;;
    let info := reply_value i in
    REGISTER_AUTO_RELEASE (TensorTypeAndShapeInfo info) ;;;
    d <- RETURN_ERROR_CODE_IF_ERROR (GetDimensionsCount info) ;;
    let dims_len := reply_value d in
    a <- RETURN_ERROR_CODE_IF_ERROR GetAllocatorWithDefaultOptions ;;
    let allocator := reply_value a in
    p <- ask (Alloc allocator (to_size_t (pointer_size K * dims_len))) ;;
    let p_dims := reply_value p in
    REGISTER_AUTO_RELEASE (Buffer allocator p_dims) ;;;
    ty <- RETURN_ERROR_CODE_IF_ERROR (GetTensorElementType info) ;;
    let type := reply_value ty in
    sh <- RETURN_ERROR_CODE_IF_ERROR (GetDimensions info dims_len) ;;
    let shape := reply_items sh in
    effects (store_dims p_dims dims_len shape) ;;;
    (if type =? ONNX_TENSOR_ELEMENT_DATA_TYPE_STRING K
     then
       ne <- RETURN_ERROR_CODE_IF_ERROR (GetTensorShapeElementCount info) ;;
       let num_elements := reply_value ne in
       sl <- RETURN_ERROR_CODE_IF_ERROR (GetStringTensorDataLength tensor) ;;
       let string_data_length := reply_value sl in
       let string_data_offset := to_size_t (num_elements * pointer_size K) in
       let buf_size := to_size_t (string_data_offset + string_data_length) in
       s <- ask (Alloc allocator (to_size_t (buf_size + 1))) ;;
       let p_string_data := reply_value s in
       let p_string_content := p_string_data + string_data_offset in
       REGISTER_AUTO_RELEASE (Buffer allocator p_string_data) ;;;
       let p_offsets := p_string_data in
       o <- RETURN_ERROR_CODE_IF_ERROR
              (GetStringTensorContent tensor p_string_content string_data_length
                                      p_offsets num_elements) ;;
       effects (store_c_strs p_string_data string_data_offset num_elements
                             (reply_items o)) ;;;
       effect (Wrote p_string_data buf_size (Char 0)) ;;;
       v <- UNREGISTER_AUTO_RELEASE (Buffer allocator p_string_data) ;;
       effect (Output data 0 (Ptr v))
     else
       r <- RETURN_ERROR_CODE_IF_ERROR (GetTensorMutableData tensor) ;;
       let p_tensor_raw_data := reply_value r in
       effect (Output data 0 (Ptr p_tensor_raw_data))) ;;;
    effect (Output data_type 0 (SizeT (to_size_t type))) ;;;
    effect (Output dims_length 0 (SizeT dims_len)) ;;;
    v <- UNREGISTER_AUTO_RELEASE (Buffer allocator p_dims) ;;
    effect (Output dims 0 (Ptr v)) ;;;
    yield ORT_OK).

(** The condition of the inner [if] of [OrtBindOutput]. *)
Definition unknown_output_location (output_location : Z) : bool :=
  negb (output_location =? DATA_LOCATION_NONE)
  && negb (output_location =? DATA_LOCATION_CPU)
  && negb (output_location =? DATA_LOCATION_CPU_PINNED)
  && negb (output_location =? DATA_LOCATION_GPU_BUFFER)
  && negb (output_location =? DATA_LOCATION_ML_TENSOR).

Definition invalid_location_message (output_location : Z) (name : string) : string :=
  String.append "Invalid data location ("
    (String.append (text_of output_location)
       (String.append ") for output: "
          (String.append quote (String.append name (String.append quote "."))))).

Definition OrtBindOutput (io_binding : Z) (name : string) (output output_location : Z)
    : Machine -> OrtErrorCode * Machine :=
  function (
    if negb (output =? nullptr)
    then r <- CHECK_STATUS (BindOutput io_binding name output) ;; yield (fst r)
    else
      if unknown_output_location output_location
      then return_status ORT_INVALID_ARGUMENT
             (invalid_location_message output_location name)
      else
        i <- (if negb (output_location =? DATA_LOCATION_GPU_BUFFER)
                 && negb (output_location =? DATA_LOCATION_ML_TENSOR)
              then RETURN_ERROR_CODE_IF_ERROR
                     (CreateCpuMemoryInfo (OrtDeviceAllocator K) (OrtMemTypeDefault K))
              else if output_location =? DATA_LOCATION_ML_TENSOR
              then RETURN_ERROR_CODE_IF_ERROR
                     (CreateMemoryInfo "WebNN_Tensor" (OrtDeviceAllocator K) 0
                                       (OrtMemTypeDefault K))
              else RETURN_ERROR_CODE_IF_ERROR
                     (CreateMemoryInfo "WebGPU_Buffer" (OrtDeviceAllocator K) 0
                                       (OrtMemTypeDefault K))) ;;
        let memory_info := reply_value i in
        REGISTER_AUTO_RELEASE (Handle MemoryInfo memory_info) ;;;
        r <- CHECK_STATUS (BindOutputToDevice io_binding name memory_info) ;;
        yield (fst r)).

(** The stores of the loop [outputs[i] = binding_outputs[i]]. *)
Definition copy_outputs (outputs output_count : Z) (binding_outputs : list Z)
    : list Effect :=
  map (fun i => Output outputs (Z.of_nat i) (Ptr (nth i binding_outputs 0)))
      (List.seq 0 (Z.to_nat output_count)).

Definition OrtRunWithBinding (session io_binding output_count outputs run_options : Z)
    : Machine -> OrtErrorCode * Machine :=
  function (
    RETURN_ERROR_CODE_IF_ERROR (RunWithBinding session run_options io_binding) ;;;
    a <- RETURN_ERROR_CODE_IF_ERROR GetAllocatorWithDefaultOptions ;;
    let allocator := reply_value a in
    b <- RETURN_ERROR_CODE_IF_ERROR (GetBoundOutputValues io_binding allocator) ;;
    let binding_outputs := reply_value b in
    let binding_output_count := reply_count b in
    REGISTER_AUTO_RELEASE (Buffer allocator binding_outputs) ;;;
    if negb (binding_output_count =? output_count)
    then return_status ORT_INVALID_ARGUMENT
           "Output count is inconsistent with IO Binding output data."
    else
      effects (copy_outputs outputs output_count (reply_items b)) ;;;
      yield ORT_OK).

End Functions.

(** ** The functions as data *)

(** The functions that report through an error code. *)
Inductive Function :=
| Call_OrtInit (num_threads logging_level : Z)
| Call_OrtAppendExecutionProvider (session_options : Z) (name : string)
                                  (keys values num_keys : Z)
| Call_OrtAddFreeDimensionOverride (session_options : Z) (dim_param_name : string)
                                   (dim_value : Z)
| Call_OrtAddSessionConfigEntry (session_options : Z) (config_key config_value : string)
| Call_OrtGetInputOutputCount (session : Z)
| Call_OrtGetInputOutputMetadata (session index name_cstr_ptr type_info_ptr : Z)
| Call_OrtGetTensorData (tensor data_type data dims dims_length : Z)
| Call_OrtAddRunConfigEntry (run_options : Z) (config_key config_value : string)
| Call_OrtBindInput (io_binding : Z) (name : string) (input : Z)
| Call_OrtBindOutput (io_binding : Z) (name : string) (output output_location : Z)
| Call_OrtRunWithBinding (session io_binding output_count outputs run_options : Z)
| Call_OrtRun (session input_names inputs input_count output_names output_count
               outputs run_options : Z).

Definition exec (runtime : nat -> Call -> Reply) (K : Constants) (E : Enumerations)
    (pthreads : bool) (f : Function) (m : Machine) : OrtErrorCode * Machine :=
  match f with
  | Call_OrtInit n l => OrtInit runtime pthreads n l m
  | Call_OrtAppendExecutionProvider o n k v c =>
      OrtAppendExecutionProvider runtime o n k v c m
  | Call_OrtAddFreeDimensionOverride o n v => OrtAddFreeDimensionOverride runtime o n v m
  | Call_OrtAddSessionConfigEntry o k v => OrtAddSessionConfigEntry runtime o k v m
  | Call_OrtGetInputOutputCount s =>
      (fst (fst (fst (OrtGetInputOutputCount runtime s m))),
       snd (OrtGetInputOutputCount runtime s m))
  | Call_OrtGetInputOutputMetadata s i n t =>
      OrtGetInputOutputMetadata runtime K E s i n t m
  | Call_OrtGetTensorData t ty d ds dl => OrtGetTensorData runtime K E t ty d ds dl m
  | Call_OrtAddRunConfigEntry o k v => OrtAddRunConfigEntry runtime o k v m
  | Call_OrtBindInput b n i => OrtBindInput runtime b n i m
  | Call_OrtBindOutput b n o l => OrtBindOutput runtime K b n o l m
  | Call_OrtRunWithBinding s b c o r => OrtRunWithBinding runtime s b c o r m
  | Call_OrtRun s ins i ic ons oc o r => OrtRun runtime s ins i ic ons oc o r m
  end.

(** The functions that return a pointer, and [OrtFree] and the training
    functions that return an error code. *)
Inductive OtherFunction :=
| Call_OrtGetInputName (session index : Z)
| Call_OrtGetOutputName (session index : Z)
| Call_OrtFree (ptr : Z)
| Call_OrtEndProfiling (session : Z)
| Call_OrtTrainingLoadCheckpoint (checkpoint_data_buffer checkpoint_size : Z)
| Call_OrtTrainingCreateSession (options training_checkpoint_state_handle
    train_model train_size eval_model eval_size optimizer_model optimizer_size : Z)
| Call_OrtTrainingLazyResetGrad (training_handle : Z)
| Call_OrtTrainingRunTrainStep (training_handle inputs input_count outputs
                                output_count options : Z)
| Call_OrtTrainingOptimizerStep (training_handle run_options : Z)
| Call_OrtTrainingEvalStep (training_handle inputs input_count outputs
                            output_count options : Z)
| Call_OrtTrainingGetParametersSize (training_handle param_size : Z)
                                    (trainable_only : bool)
| Call_OrtTrainingCopyParametersToBuffer (training_handle parameters_buffer
                                          parameter_count : Z) (trainable_only : bool)
| Call_OrtTrainingCopyParametersFromBuffer (training_handle parameters_buffer
                                            parameter_count : Z) (trainable_only : bool)
| Call_OrtTrainingGetModelInputOutputCount (training_handle input_count output_count : Z)
                                           (isEvalModel : bool)
| Call_OrtTrainingGetModelInputOutputName (training_handle index : Z)
                                          (isInput isEvalModel : bool).

(** The machine such a call leaves. *)
Definition exec_other (runtime : nat -> Call -> Reply) (f : OtherFunction) (m : Machine)
    : Machine :=
  match f with
  | Call_OrtGetInputName s i => snd (OrtGetInputName runtime s i m)
  | Call_OrtGetOutputName s i => snd (OrtGetOutputName runtime s i m)
  | Call_OrtFree p => snd (OrtFree runtime p m)
  | Call_OrtEndProfiling s => snd (OrtEndProfiling runtime s m)
  | Call_OrtTrainingLoadCheckpoint b n => snd (OrtTrainingLoadCheckpoint runtime b n m)
  | Call_OrtTrainingCreateSession o c t tn e en p pn =>
      snd (OrtTrainingCreateSession runtime o c t tn e en p pn m)
  | Call_OrtTrainingLazyResetGrad h => snd (OrtTrainingLazyResetGrad runtime h m)
  | Call_OrtTrainingRunTrainStep h i ic o oc opt =>
      snd (OrtTrainingRunTrainStep runtime h i ic o oc opt m)
  | Call_OrtTrainingOptimizerStep h r => snd (OrtTrainingOptimizerStep runtime h r m)
  | Call_OrtTrainingEvalStep h i ic o oc opt =>
      snd (OrtTrainingEvalStep runtime h i ic o oc opt m)
  | Call_OrtTrainingGetParametersSize h p t =>
      snd (OrtTrainingGetParametersSize runtime h p t m)
  | Call_OrtTrainingCopyParametersToBuffer h b c t =>
      snd (OrtTrainingCopyParametersToBuffer runtime h b c t m)
  | Call_OrtTrainingCopyParametersFromBuffer h b c t =>
      snd (OrtTrainingCopyParametersFromBuffer runtime h b c t m)
  | Call_OrtTrainingGetModelInputOutputCount h i o e =>
      snd (OrtTrainingGetModelInputOutputCount runtime h i o e m)
  | Call_OrtTrainingGetModelInputOutputName h i inp e =>
      snd (OrtTrainingGetModelInputOutputName runtime h i inp e m)
  end.


(** ** A runtime to run the functions against *)

(** Modelled from the spec: the runtime itself is a separate native
    library.  This one answers every call with success: a tensor of
    element type [element_type] with the two dimensions 20 and 30, whose
    string content would be two strings at offsets 0 and 3 in 5 bytes; a
    session with one input and one output, with the symbolic dimension
    names "N" and null; two bound values; and the address [1000 + n] for
    whatever else the call made after [n] effects stores.  The calls whose
    number is in [failing] fail with ORT_FAIL. *)
Definition canned_value (element_type : Z) (n : nat) (c : Call) : Z :=
  match c with
  | GetValueType _ => 1
  | GetTensorElementType _ => element_type
  | GetDimensionsCount _ | GetTensorShapeElementCount _ => 2
  | GetStringTensorDataLength _ => 5
  | SessionGetInputCount _ | SessionGetOutputCount _ => 1
  | _ => 1000 + Z.of_nat n
  end.

Definition canned_items (c : Call) : list Z :=
  match c with
  | GetStringTensorContent _ _ _ _ _ => [0; 3]
  | GetBoundOutputValues _ _ => [2001; 2002]
  | _ => [20; 30]
  end.

Definition canned_runtime (failing : list nat) (element_type : Z) (n : nat) (c : Call)
    : Reply :=
  if existsb (Nat.eqb n) failing
  then MkReply (Some (MkOrtStatus ORT_FAIL "scripted failure")) 0 0 [] []
  else MkReply None (canned_value element_type n c) 2 (canned_items c)
               [Some "N"%string; None].

Definition tensor_types : Enumerations := MkEnumerations 1 0.

Definition initial_machine : Machine := MkMachine initial_world [] [].

End WasmCalls.

(* ===================================================================== *)
(** * Properties of pool.cc *)
(* ===================================================================== *)

Module PoolSpec.
Import Pool.

(** ** Traces of monadic code *)

Definition trace_all {A} (P : Event -> bool) (m : M A) : Prop :=
  forallb P (fst m) = true.

Lemma trace_all_bind {A B} P (m : M A) (f : A -> M B) :
  trace_all P m -> (forall a, trace_all P (f a)) -> trace_all P (bind m f).
Proof.
  unfold trace_all, bind. intros Hm Hf.
  destruct (snd m); simpl; auto.
  rewrite forallb_app, Hm. apply Hf.
Qed.

Lemma trace_all_nil {A} P (m : M A) : fst m = [] -> trace_all P m.
Proof. unfold trace_all. now intros ->. Qed.

Lemma trace_all_emit P e : P e = true -> trace_all P (emit e).
Proof. unfold trace_all. simpl. now intros ->. Qed.

Lemma fst_at_ l i : fst (at_ l i) = [].
Proof. unfold at_. now destruct (nth_error l i). Qed.

Lemma fst_narrow b v : fst (narrow b v) = [].
Proof. unfold narrow. now destruct (narrow_size_t b v). Qed.

Lemma fst_ORT_RETURN_IF_NOT c msg : fst (ORT_RETURN_IF_NOT c msg) = [].
Proof. unfold ORT_RETURN_IF_NOT. now destruct c. Qed.

Lemma fst_call_SetOutputSize env a x c p : fst (call_SetOutputSize env a x c p) = [].
Proof. unfold call_SetOutputSize. now destruct (SetOutputSize env a x c p). Qed.

Lemma fst_run m : fst (run m) = fst m.
Proof. unfold run. now destruct (snd m). Qed.

Lemma filter_nil_of_forallb {A} (P : A -> bool) l :
  forallb (fun e => negb (P e)) l = true -> filter P l = [].
Proof.
  induction l as [|x l IH]; simpl; auto.
  intros H. apply andb_true_iff in H as [Hx Hl].
  apply negb_true_iff in Hx. rewrite Hx. auto.
Qed.

(** Break a monadic body into its statements, closing each with the fact
    that it emits nothing or emits an allowed event. *)
Ltac trace_step :=
  match goal with
  | |- trace_all _ (bind _ _) => apply trace_all_bind; [| intros]
  | |- trace_all _ (at_ _ _) => apply trace_all_nil, fst_at_
  | |- trace_all _ (narrow _ _) => apply trace_all_nil, fst_narrow
  | |- trace_all _ (ORT_RETURN_IF_NOT _ _) => apply trace_all_nil, fst_ORT_RETURN_IF_NOT
  | |- trace_all _ (call_SetOutputSize _ _ _ _ _) =>
      apply trace_all_nil, fst_call_SetOutputSize
  | |- trace_all _ (ret _) => apply trace_all_nil; reflexivity
  | |- trace_all _ (return_ _) => apply trace_all_nil; reflexivity
  | |- trace_all _ (throw _) => apply trace_all_nil; reflexivity
  | |- trace_all _ (emit _) => apply trace_all_emit; reflexivity
  | |- trace_all _ (RunLoop _ _ _) => apply trace_all_emit; reflexivity
  | |- trace_all _ (if ?c then _ else _) => destruct c
  | |- trace_all _ (match ?n with O => _ | S _ => _ end) => destruct n
  end.

Ltac trace_solve := repeat trace_step.

Definition not_mlas (e : Event) : bool := negb (is_mlas e).
Definition not_runloop (e : Event) : bool := negb (is_runloop e).

Lemma main_loop_locals_silent P x od ks : trace_all P (main_loop_locals x od ks).
Proof. unfold main_loop_locals. trace_solve. Qed.

Lemma dilated_switch_no_mlas env fam T k e ks p1 hasI msg :
  trace_all not_mlas (dilated_switch env fam T k e ks p1 hasI msg).
Proof. unfold dilated_switch. trace_solve. Qed.

Lemma hand_rolled_no_mlas env T k ctx :
  trace_all not_mlas (MaxPoolV8_hand_rolled env T k ctx).
Proof.
  unfold MaxPoolV8_hand_rolled.
  repeat first [ apply main_loop_locals_silent | apply dilated_switch_no_mlas | trace_step ].
Qed.

Lemma dilated_Compute_no_mlas env fam T k ctx :
  trace_all not_mlas (dilated_Compute env fam T k ctx).
Proof.
  unfold dilated_Compute.
  repeat first [ apply main_loop_locals_silent | apply dilated_switch_no_mlas | trace_step ].
Qed.

Lemma generic_no_mlas env T PT k ctx :
  trace_all not_mlas (Pool_Compute_generic env T PT k ctx).
Proof.
  unfold Pool_Compute_generic.
  repeat first [ apply main_loop_locals_silent | trace_step ].
Qed.

Lemma PoolBase_no_runloop env k ctx kind :
  trace_all not_runloop (PoolBase_Compute env k ctx kind).
Proof. unfold PoolBase_Compute. trace_solve. Qed.

Lemma need_dilation_existsb dil :
  need_dilation dil = existsb (fun n => 1 <? n) dil.
Proof.
  unfold need_dilation.
  assert (G : forall acc, fold_left (fun acc n => acc || (1 <? n)) dil acc
                          = acc || existsb (fun n => 1 <? n) dil).
  { induction dil as [|n dil IH]; intros acc; simpl.
    - now rewrite orb_false_r.
    - rewrite IH. now rewrite orb_assoc. }
  apply G.
Qed.

Lemma need_dilation_false dil :
  need_dilation dil = false <-> Forall (fun n => n <= 1) dil.
Proof.
  rewrite need_dilation_existsb. induction dil as [|n dil IH]; simpl.
  - split; auto.
  - rewrite orb_false_iff, IH, Z.ltb_ge. split.
    + intros [? ?]. now constructor.
    + intros H. inversion H; subst. auto.
Qed.

(** When an entry point hands the work to MLAS: the two [float]
    specialisations of [Pool] always, [MaxPoolV8] behind its test, the
    dilation-aware average and Lp kernels never. *)
Definition delegates_to_mlas (ep : EntryPoint) (k : Kernel) (ctx : Context) : Prop :=
  match ep with
  | EP_Pool T PT => T = Float /\ PT <> LpPool
  | EP_MaxPoolV8 =>
      X_type ctx = Float /\ OutputDefs_size k = 1%nat
      /\ storage_order (pool_attrs_ k) = 0
      /\ Forall (fun n => n <= 1) (dilations (pool_attrs_ k))
  | EP_AveragePoolV19 _ | EP_LpPoolV18 _ => False
  end.

Lemma MaxPoolV8_uses_mlas_iff T k :
  MaxPoolV8_uses_mlas T k = true <->
  T = Float /\ OutputDefs_size k = 1%nat /\ storage_order (pool_attrs_ k) = 0
  /\ Forall (fun n => n <= 1) (dilations (pool_attrs_ k)).
Proof.
  unfold MaxPoolV8_uses_mlas.
  rewrite <- need_dilation_false.
  destruct T; try (split; [discriminate | intros [? _]; discriminate]).
  rewrite !andb_true_iff, Nat.eqb_eq, Z.eqb_eq, negb_true_iff. tauto.
Qed.

Lemma on_mlas_path_iff ep k ctx :
  on_mlas_path ep k ctx = true <-> delegates_to_mlas ep k ctx.
Proof.
  destruct ep as [T PT| |T|T]; simpl.
  - destruct T, PT; split; try discriminate; try tauto;
      try (intros [? ?]; congruence); intros _; split; congruence.
  - apply MaxPoolV8_uses_mlas_iff.
  - split; [discriminate | tauto].
  - split; [discriminate | tauto].
Qed.

Lemma mlas_path_no_runloop env ep k ctx :
  on_mlas_path ep k ctx = true -> runloop_calls (fst (Compute env ep k ctx)) = [].
Proof.
  intros H. unfold Compute. rewrite fst_run.
  apply filter_nil_of_forallb.
  destruct ep as [T PT| |T|T]; simpl in H; try discriminate.
  - destruct T, PT; try discriminate; apply PoolBase_no_runloop.
  - unfold MaxPoolV8_Compute, MaxPoolV8_ComputeImpl. rewrite H.
    apply PoolBase_no_runloop.
Qed.

Lemma hand_rolled_path_no_mlas env ep k ctx :
  on_mlas_path ep k ctx = false -> mlas_calls (fst (Compute env ep k ctx)) = [].
Proof.
  intros H. unfold Compute. rewrite fst_run.
  apply filter_nil_of_forallb.
  destruct ep as [T PT| |T|T]; simpl in H.
  - destruct T, PT; try discriminate; apply generic_no_mlas.
  - unfold MaxPoolV8_Compute, MaxPoolV8_ComputeImpl. rewrite H.
    apply hand_rolled_no_mlas.
  - apply dilated_Compute_no_mlas.
  - apply dilated_Compute_no_mlas.
Qed.

(** ** Running a body whose statements succeed *)

Lemma bind_ret {A B} (a : A) (f : A -> M B) : bind (ret a) f = f a.
Proof. unfold bind, ret. simpl. now destruct (f a). Qed.

Lemma bind_emit {B} e (f : unit -> M B) :
  bind (emit e) f = (e :: fst (f tt), snd (f tt)).
Proof. reflexivity. Qed.

Lemma bind_return {A B} s (f : A -> M B) : bind (return_ s) f = return_ s.
Proof. reflexivity. Qed.

Lemma at_in_range l i :
  (i < length l)%nat -> at_ l i = ret (nth i l 0).
Proof.
  intros H. unfold at_. now rewrite (nth_error_nth' l 0 H).
Qed.

Lemma narrow_in_range bits v :
  0 <= v < 2 ^ bits -> narrow bits v = ret v.
Proof.
  intros [H1 H2]. unfold narrow, narrow_size_t.
  apply Z.leb_le in H1. apply Z.ltb_lt in H2. now rewrite H1, H2.
Qed.

Lemma rank_check_fails x :
  (NumDimensions x < 3)%nat ->
  ORT_RETURN_IF_NOT (3 <=? NumDimensions x)%nat "Input dimension cannot be less than 3."
  = return_ (MkStatus FAIL "Input dimension cannot be less than 3.").
Proof.
  intros H. unfold ORT_RETURN_IF_NOT.
  apply Nat.leb_gt in H. now rewrite H.
Qed.

Lemma rank_check_passes x msg :
  (3 <= NumDimensions x)%nat ->
  ORT_RETURN_IF_NOT (3 <=? NumDimensions x)%nat msg = ret tt.
Proof.
  intros H. unfold ORT_RETURN_IF_NOT.
  apply Nat.leb_le in H. now rewrite H.
Qed.

Definition too_few_dims : list Event * Outcome :=
  ([], Returned (MkStatus FAIL "Input dimension cannot be less than 3.")).

Lemma rank_lt_3_fails env ep k ctx :
  (NumDimensions (X_shape ctx) < 3)%nat -> Compute env ep k ctx = too_few_dims.
Proof.
  intros H. unfold Compute.
  assert (G : Pool_Compute_generic env = fun T PT k ctx => Pool_Compute_generic env T PT k ctx)
    by reflexivity.
  destruct ep as [T PT| |T|T];
    unfold Pool_Compute, MaxPoolV8_Compute, MaxPoolV8_ComputeImpl,
      AveragePoolV19_Compute, LpPoolV18_Compute;
    repeat match goal with
           | |- context [match ?c with Float => _ | _ => _ end] => destruct c
           | |- context [match ?c with MaxPool_1 => _ | _ => _ end] => destruct c
           | |- context [if MaxPoolV8_uses_mlas ?a ?b then _ else _] =>
               destruct (MaxPoolV8_uses_mlas a b)
           end;
    unfold Pool_Compute_generic, PoolBase_Compute, MaxPoolV8_hand_rolled, dilated_Compute;
    rewrite (rank_check_fails _ H); reflexivity.
Qed.

(** The MLAS kind an entry point asks for. *)
Definition mlas_kind (ep : EntryPoint) (k : Kernel) : MLAS_POOLING_KIND :=
  match ep with
  | EP_Pool _ AveragePool =>
      if count_include_pad (pool_attrs_ k)
      then MlasAveragePoolingIncludePad else MlasAveragePoolingExcludePad
  | _ => MlasMaximumPooling
  end.

Lemma mlas_path_is_PoolBase env ep k ctx :
  on_mlas_path ep k ctx = true ->
  Compute env ep k ctx = run (PoolBase_Compute env k ctx (mlas_kind ep k)).
Proof.
  intros H. unfold Compute.
  destruct ep as [T PT| |T|T]; simpl in H; try discriminate.
  - destruct T, PT; try discriminate; reflexivity.
  - unfold MaxPoolV8_Compute, MaxPoolV8_ComputeImpl. now rewrite H.
Qed.

(** ** The MLAS path, case by case *)

Definition unsupported_pooling_size : Status :=
  MkStatus INVALID_ARGUMENT "Unsupported pooling size.".
Definition incompatible_kernel_shape : Status :=
  MkStatus FAIL "kernel_shape num_dims is not compatible with X num_dims.".

Lemma PoolBase_too_many_dims env k ctx kind :
  (3 <= NumDimensions (X_shape ctx))%nat ->
  (3 < NumDimensions (X_shape ctx) - 2)%nat ->
  run (PoolBase_Compute env k ctx kind) = ([], Returned unsupported_pooling_size).
Proof.
  intros H3 H. unfold PoolBase_Compute.
  rewrite (rank_check_passes _ _ H3), bind_ret.
  apply Nat.ltb_lt in H. now rewrite H.
Qed.

Lemma PoolBase_kernel_mismatch env k ctx kind :
  (3 <= NumDimensions (X_shape ctx))%nat ->
  (NumDimensions (X_shape ctx) - 2 <= 3)%nat ->
  global_pooling (pool_attrs_ k) = false ->
  (NumDimensions (X_shape ctx) - 2)%nat <> length (kernel_shape (pool_attrs_ k)) ->
  run (PoolBase_Compute env k ctx kind) = ([], Returned incompatible_kernel_shape).
Proof.
  intros H3 H Hg Hne. unfold PoolBase_Compute.
  rewrite (rank_check_passes _ _ H3), bind_ret.
  apply Nat.ltb_ge in H. rewrite H, Hg. simpl negb. cbv iota.
  apply Nat.eqb_neq in Hne. rewrite Hne. reflexivity.
Qed.

Definition mlas_event (k : Kernel) (ctx : Context) (kind : MLAS_POOLING_KIND)
    (od pads1 : list Z) : Event :=
  let a := pool_attrs_ k in
  let g := global_pooling a in
  EvMlasPool kind (Z.of_nat (NumDimensions (X_shape ctx) - 2)) (X_shape ctx)
    (if g then None else Some (kernel_shape a))
    (if g then None else Some pads1)
    (if g then None else Some (strides a))
    od.

Lemma PoolBase_runs env k ctx kind od pads1 :
  (3 <= NumDimensions (X_shape ctx))%nat ->
  (NumDimensions (X_shape ctx) - 2 <= 3)%nat ->
  global_pooling (pool_attrs_ k) = true
  \/ (NumDimensions (X_shape ctx) - 2)%nat = length (kernel_shape (pool_attrs_ k)) ->
  SetOutputSize env (pool_attrs_ k) (X_shape ctx) (nth 1 (X_shape ctx) 0)
                (pads (pool_attrs_ k)) = inr (od, pads1) ->
  run (PoolBase_Compute env k ctx kind)
  = (EvOutput 0 od :: (if Size env od =? 0 then [] else [mlas_event k ctx kind od pads1]),
     Returned Status_OK).
Proof.
  intros H3 H Hok Hs. unfold PoolBase_Compute.
  rewrite (rank_check_passes _ _ H3), bind_ret.
  apply Nat.ltb_ge in H. rewrite H.
  assert (Hchk : (if negb (global_pooling (pool_attrs_ k))
                  then ORT_RETURN_IF_NOT
                         (NumDimensions (X_shape ctx) - 2
                          =? length (kernel_shape (pool_attrs_ k)))%nat
                         "kernel_shape num_dims is not compatible with X num_dims."
                  else ret tt) = ret tt).
  { destruct (global_pooling (pool_attrs_ k)); simpl; auto.
    destruct Hok as [Hok|Hok]; [discriminate|].
    rewrite Hok, Nat.eqb_refl. reflexivity. }
  rewrite Hchk, bind_ret.
  rewrite at_in_range by (unfold NumDimensions in H3; lia).
  rewrite bind_ret. unfold call_SetOutputSize. rewrite Hs, bind_ret.
  rewrite bind_emit. unfold mlas_event. cbn [fst snd].
  destruct (Size env od =? 0); reflexivity.
Qed.

(** ** The hand-rolled kernels, case by case *)

(** How many spatial axes the locals before the [switch] read. *)
Definition axes_read (ks : nat) : nat := Nat.max 1 (Nat.min ks 3).

Definition locals_of (x od : list Z) (ks : nat) : Extents :=
  MkExtents (nth 1 x 0) (nth 2 x 0)
            (if (1 <? ks)%nat then nth 3 x 0 else 1)
            (if (2 <? ks)%nat then nth 4 x 0 else 1)
            (nth 2 od 0)
            (if (1 <? ks)%nat then nth 3 od 0 else 1)
            (if (2 <? ks)%nat then nth 4 od 0 else 1)
            (mul64 (nth 0 x 0) (nth 1 x 0)).

Lemma main_loop_locals_ok x od ks :
  (2 + axes_read (length ks) <= length x)%nat ->
  (2 + axes_read (length ks) <= length od)%nat ->
  main_loop_locals x od ks = ret (locals_of x od (length ks)).
Proof.
  unfold axes_read, main_loop_locals, locals_of. intros Hx Ho.
  rewrite (at_in_range x 1), bind_ret by lia.
  rewrite (at_in_range x 2), bind_ret by lia.
  destruct (1 <? length ks)%nat eqn:H1;
    destruct (2 <? length ks)%nat eqn:H2;
    try apply Nat.ltb_lt in H1; try apply Nat.ltb_lt in H2;
    repeat first [ rewrite bind_ret
                 | rewrite (at_in_range x 3) by lia
                 | rewrite (at_in_range x 4) by lia
                 | rewrite (at_in_range od 2) by lia
                 | rewrite (at_in_range od 3) by lia
                 | rewrite (at_in_range od 4) by lia
                 | rewrite (at_in_range x 0) by lia ];
    reflexivity.
Qed.

Definition supported (ks : nat) : Prop := ks = 1%nat \/ ks = 2%nat \/ ks = 3%nat.

Lemma dilated_switch_unsupported env fam T k e ks p1 hasI msg :
  ~ supported (length ks) ->
  dilated_switch env fam T k e ks p1 hasI msg = return_ (MkStatus INVALID_ARGUMENT msg).
Proof.
  unfold supported, dilated_switch. intros H.
  destruct (length ks) as [|[|[|[|n]]]]; try reflexivity; exfalso; apply H; auto.
Qed.

Lemma dilated_switch_supported env fam T k e ks p1 hasI msg :
  supported (length ks) ->
  (length ks <= length (dilations (pool_attrs_ k)))%nat ->
  0 <= total_channels e < 2 ^ size_t_bits env ->
  exists t,
    dilated_switch env fam T k e ks p1 hasI msg
    = ([EvRunLoop (to_ptrdiff_t (size_t_bits env) (total_channels e)) t], Next Status_OK)
    /\ task_rank t = length ks /\ task_kernel_shape t = ks /\ task_family t = fam
    /\ task_pads t = p1.
Proof.
  unfold supported, dilated_switch. intros H Hd Hn.
  destruct (length ks) as [|[|[|[|n]]]]; try (exfalso; lia).
  - rewrite (at_in_range _ 0), bind_ret by lia.
    rewrite (narrow_in_range _ _ Hn), bind_ret.
    eexists. split; [reflexivity | repeat split].
  - rewrite (at_in_range _ 0), bind_ret by lia.
    rewrite (at_in_range _ 1), bind_ret by lia.
    rewrite (narrow_in_range _ _ Hn), bind_ret.
    eexists. split; [reflexivity | repeat split].
  - rewrite (at_in_range _ 0), bind_ret by lia.
    rewrite (at_in_range _ 1), bind_ret by lia.
    rewrite (at_in_range _ 2), bind_ret by lia.
    rewrite (narrow_in_range _ _ Hn), bind_ret.
    eexists. split; [reflexivity | repeat split].
Qed.

(** The kernel shape and the pads a hand-rolled kernel works with: the
    attributes, except that the primary [Pool] template replaces them under
    global pooling. *)
Definition hand_rolled_kernel_shape (ep : EntryPoint) (k : Kernel) (ctx : Context)
    : list Z :=
  match ep with
  | EP_Pool _ _ =>
      if global_pooling (pool_attrs_ k)
      then skipn 2 (X_shape ctx) else kernel_shape (pool_attrs_ k)
  | _ => kernel_shape (pool_attrs_ k)
  end.

Definition hand_rolled_pads (ep : EntryPoint) (k : Kernel) (ctx : Context) : list Z :=
  match ep with
  | EP_Pool _ _ =>
      if global_pooling (pool_attrs_ k)
      then repeat 0 (length (hand_rolled_kernel_shape ep k ctx))
      else pads (pool_attrs_ k)
  | _ => pads (pool_attrs_ k)
  end.

Definition hand_rolled_outputs (ep : EntryPoint) (od : list Z) : list Event :=
  match ep with
  | EP_MaxPoolV8 => [EvOutput 0 od; EvOutput 1 od]
  | _ => [EvOutput 0 od]
  end.

Definition unsupported_status (ep : EntryPoint) (ks : nat) : Status :=
  MkStatus INVALID_ARGUMENT
    match ep with
    | EP_Pool _ _ | EP_MaxPoolV8 => "Unsupported pooling size : "
    | _ => String.append "Unsupported kernel dimension : " (to_string ks)
    end.

Definition reads_dilations (ep : EntryPoint) : bool :=
  match ep with EP_Pool _ _ => false | _ => true end.

Definition entry_family (ep : EntryPoint) : TaskFamily :=
  match ep with
  | EP_Pool _ PT => PoolTask PT
  | EP_MaxPoolV8 => MaxPoolTask
  | EP_AveragePoolV19 _ => AveragePoolTask
  | EP_LpPoolV18 _ => LpPoolTask
  end.

Section HandRolled.

Variables (env : Env) (ep : EntryPoint) (k : Kernel) (ctx : Context).
Variables (od pads1 : list Z).

Local Abbreviation x := (X_shape ctx).
Let ks := hand_rolled_kernel_shape ep k ctx.
Let total := mul64 (nth 0 x 0) (nth 1 x 0).

Hypothesis rank_ok : (3 <= NumDimensions x)%nat.
Hypothesis output_size :
  SetOutputSize env (pool_attrs_ k) x (nth 1 x 0) (hand_rolled_pads ep k ctx)
  = inr (od, pads1).
Hypothesis x_read : (2 + axes_read (length ks) <= length x)%nat.
Hypothesis od_read : (2 + axes_read (length ks) <= length od)%nat.

Lemma generic_unsupported T PT :
  ep = EP_Pool T PT ->
  ~ supported (length ks) ->
  run (Pool_Compute_generic env T PT k ctx)
  = ([EvOutput 0 od], Returned (unsupported_status ep (length ks))).
Proof.
  intros -> Hn. unfold Pool_Compute_generic. cbv zeta.
  rewrite (rank_check_passes _ _ rank_ok), bind_ret.
  rewrite at_in_range by (pose proof rank_ok; unfold NumDimensions in *; lia).
  rewrite bind_ret. unfold call_SetOutputSize.
  pose proof output_size as Hos.
  unfold hand_rolled_pads, hand_rolled_kernel_shape in Hos.
  rewrite Hos, bind_ret.
  rewrite bind_emit. cbn [fst snd].
  fold (hand_rolled_kernel_shape (EP_Pool T PT) k ctx). fold ks.
  rewrite (main_loop_locals_ok _ _ _ x_read od_read), bind_ret.
  unfold supported in Hn.
  destruct (length ks) as [|[|[|[|n]]]]; try reflexivity; exfalso; apply Hn; auto.
Qed.

Lemma generic_supported T PT :
  ep = EP_Pool T PT ->
  supported (length ks) ->
  0 <= total < 2 ^ size_t_bits env ->
  exists t,
    run (Pool_Compute_generic env T PT k ctx)
    = ([EvOutput 0 od; EvRunLoop (to_ptrdiff_t (size_t_bits env) total) t], Returned Status_OK)
    /\ task_rank t = length ks /\ task_kernel_shape t = ks
    /\ task_family t = PoolTask PT /\ task_pads t = pads1.
Proof.
  intros -> Hs Hn. unfold Pool_Compute_generic. cbv zeta.
  rewrite (rank_check_passes _ _ rank_ok), bind_ret.
  rewrite at_in_range by (pose proof rank_ok; unfold NumDimensions in *; lia).
  rewrite bind_ret. unfold call_SetOutputSize.
  pose proof output_size as Hos.
  unfold hand_rolled_pads, hand_rolled_kernel_shape in Hos.
  rewrite Hos, bind_ret.
  rewrite bind_emit. cbn [fst snd].
  fold (hand_rolled_kernel_shape (EP_Pool T PT) k ctx). fold ks.
  rewrite (main_loop_locals_ok _ _ _ x_read od_read), bind_ret.
  unfold supported in Hs.
  assert (Hn' : 0 <= total_channels (locals_of (X_shape ctx) od (length ks))
                < 2 ^ size_t_bits env) by exact Hn.
  destruct (length ks) as [|[|[|[|n]]]]; try (exfalso; lia);
    rewrite (narrow_in_range _ _ Hn'), bind_ret;
    eexists; (split; [reflexivity | repeat split]).
Qed.

Lemma dilated_body_unsupported fam T hasI msg :
  ~ supported (length ks) ->
  run (e <- main_loop_locals x od ks ;;
       dilated_switch env fam T k e ks pads1 hasI msg)
  = ([], Returned (MkStatus INVALID_ARGUMENT msg)).
Proof.
  intros Hn.
  rewrite (main_loop_locals_ok _ _ _ x_read od_read), bind_ret.
  now rewrite dilated_switch_unsupported.
Qed.

Lemma dilated_body_supported fam T hasI msg :
  supported (length ks) ->
  (length ks <= length (dilations (pool_attrs_ k)))%nat ->
  0 <= total < 2 ^ size_t_bits env ->
  exists t,
    (e <- main_loop_locals x od ks ;;
     dilated_switch env fam T k e ks pads1 hasI msg)
    = ([EvRunLoop (to_ptrdiff_t (size_t_bits env) total) t], Next Status_OK)
    /\ task_rank t = length ks /\ task_kernel_shape t = ks /\ task_family t = fam
    /\ task_pads t = pads1.
Proof.
  intros Hs Hd Hn.
  rewrite (main_loop_locals_ok _ _ _ x_read od_read), bind_ret.
  now apply dilated_switch_supported.
Qed.

End HandRolled.

Lemma run_emit e (m : M Status) :
  run (emit e ;;; m) = (e :: fst (run m), snd (run m)).
Proof. unfold run, bind. simpl. now destruct (snd m). Qed.

Lemma not_mlas_is_generic env T PT k ctx :
  on_mlas_path (EP_Pool T PT) k ctx = false ->
  Pool_Compute env T PT k ctx = Pool_Compute_generic env T PT k ctx.
Proof. destruct T, PT; simpl; intros H; try discriminate; reflexivity. Qed.

(** The statements every dilation-aware kernel runs before its locals. *)
Lemma dilated_prologue env k ctx od pads1 (rest : list Z * list Z -> M Status) :
  (3 <= NumDimensions (X_shape ctx))%nat ->
  SetOutputSize env (pool_attrs_ k) (X_shape ctx) (nth 1 (X_shape ctx) 0)
                (pads (pool_attrs_ k)) = inr (od, pads1) ->
  (ORT_RETURN_IF_NOT (3 <=? NumDimensions (X_shape ctx))%nat
                     "Input dimension cannot be less than 3." ;;;
   x1 <- at_ (X_shape ctx) 1 ;;
   r <- call_SetOutputSize env (pool_attrs_ k) (X_shape ctx) x1 (pads (pool_attrs_ k)) ;;
   rest r)
  = rest (od, pads1).
Proof.
  intros H3 Hs.
  rewrite (rank_check_passes _ _ H3), bind_ret.
  rewrite at_in_range by (unfold NumDimensions in H3; lia).
  rewrite bind_ret. unfold call_SetOutputSize. now rewrite Hs, bind_ret.
Qed.

Section HandRolledEntry.

Variables (env : Env) (ep : EntryPoint) (k : Kernel) (ctx : Context).
Variables (od pads1 : list Z).

Let ks := hand_rolled_kernel_shape ep k ctx.
Let total := mul64 (nth 0 (X_shape ctx) 0) (nth 1 (X_shape ctx) 0).

Hypothesis rank_ok : (3 <= NumDimensions (X_shape ctx))%nat.
Hypothesis not_mlas : on_mlas_path ep k ctx = false.
Hypothesis output_size :
  SetOutputSize env (pool_attrs_ k) (X_shape ctx) (nth 1 (X_shape ctx) 0)
                (hand_rolled_pads ep k ctx)
  = inr (od, pads1).
Hypothesis x_read : (2 + axes_read (length ks) <= length (X_shape ctx))%nat.
Hypothesis od_read : (2 + axes_read (length ks) <= length od)%nat.

Lemma hand_rolled_unsupported :
  ~ supported (length ks) ->
  Compute env ep k ctx
  = (hand_rolled_outputs ep od, Returned (unsupported_status ep (length ks))).
Proof.
  intros Hn. unfold Compute. destruct ep as [T PT| |T|T].
  - rewrite (not_mlas_is_generic _ _ _ _ _ not_mlas).
    now apply (generic_unsupported env (EP_Pool T PT) k ctx od pads1).
  - unfold MaxPoolV8_Compute, MaxPoolV8_ComputeImpl.
    simpl in not_mlas. rewrite not_mlas.
    unfold MaxPoolV8_hand_rolled. cbv zeta.
    rewrite (dilated_prologue env k ctx od pads1 _ rank_ok output_size).
    rewrite run_emit, run_emit. cbn [fst snd].
    rewrite (dilated_body_unsupported env EP_MaxPoolV8 k ctx od pads1 x_read od_read); auto.
  - unfold AveragePoolV19_Compute, dilated_Compute. cbv zeta.
    rewrite (dilated_prologue env k ctx od pads1 _ rank_ok output_size).
    rewrite run_emit. cbn [fst snd].
    rewrite (dilated_body_unsupported env (EP_AveragePoolV19 T) k ctx od pads1 x_read od_read);
      auto.
  - unfold LpPoolV18_Compute, dilated_Compute. cbv zeta.
    rewrite (dilated_prologue env k ctx od pads1 _ rank_ok output_size).
    rewrite run_emit. cbn [fst snd].
    rewrite (dilated_body_unsupported env (EP_LpPoolV18 T) k ctx od pads1 x_read od_read);
      auto.
Qed.

Lemma hand_rolled_supported :
  supported (length ks) ->
  (reads_dilations ep = true ->
   (length ks <= length (dilations (pool_attrs_ k)))%nat) ->
  0 <= total < 2 ^ size_t_bits env ->
  exists t,
    Compute env ep k ctx
    = (hand_rolled_outputs ep od ++ [EvRunLoop (to_ptrdiff_t (size_t_bits env) total) t], Returned Status_OK)
    /\ task_rank t = length ks /\ task_kernel_shape t = ks
    /\ task_family t = entry_family ep /\ task_pads t = pads1.
Proof.
  intros Hs Hd Hn. unfold Compute. destruct ep as [T PT| |T|T].
  - rewrite (not_mlas_is_generic _ _ _ _ _ not_mlas).
    now apply (generic_supported env (EP_Pool T PT) k ctx od pads1).
  - unfold MaxPoolV8_Compute, MaxPoolV8_ComputeImpl.
    simpl in not_mlas. rewrite not_mlas.
    unfold MaxPoolV8_hand_rolled. cbv zeta.
    rewrite (dilated_prologue env k ctx od pads1 _ rank_ok output_size).
    rewrite run_emit, run_emit. cbn [fst snd].
    destruct (dilated_body_supported env EP_MaxPoolV8 k ctx od pads1 x_read od_read
                MaxPoolTask (X_type ctx) (Output1_present ctx)
                "Unsupported pooling size : " Hs (Hd eq_refl) Hn) as (t & Ht & R).
    exists t. split; [| exact R].
    unfold ks, hand_rolled_kernel_shape in Ht. rewrite Ht. reflexivity.
  - unfold AveragePoolV19_Compute, dilated_Compute. cbv zeta.
    rewrite (dilated_prologue env k ctx od pads1 _ rank_ok output_size).
    rewrite run_emit. cbn [fst snd].
    destruct (dilated_body_supported env (EP_AveragePoolV19 T) k ctx od pads1 x_read od_read
                AveragePoolTask T false
                (String.append "Unsupported kernel dimension : " (to_string (length ks)))
                Hs (Hd eq_refl) Hn) as (t & Ht & R).
    exists t. split; [| exact R].
    unfold ks, hand_rolled_kernel_shape in Ht. rewrite Ht. reflexivity.
  - unfold LpPoolV18_Compute, dilated_Compute. cbv zeta.
    rewrite (dilated_prologue env k ctx od pads1 _ rank_ok output_size).
    rewrite run_emit. cbn [fst snd].
    destruct (dilated_body_supported env (EP_LpPoolV18 T) k ctx od pads1 x_read od_read
                LpPoolTask T false
                (String.append "Unsupported kernel dimension : " (to_string (length ks)))
                Hs (Hd eq_refl) Hn) as (t & Ht & R).
    exists t. split; [| exact R].
    unfold ks, hand_rolled_kernel_shape in Ht. rewrite Ht. reflexivity.
Qed.

End HandRolledEntry.

Definition attrs1 : PoolAttributes :=
  MkPoolAttributes false false 0 [2] [0; 0] [1] [1].
Definition k1 : Kernel := MkKernel attrs1 2 2 1.
Definition ctx1 : Context := MkContext [1; 1; 4] Float false.

Definition attrs_storage1 : PoolAttributes :=
  MkPoolAttributes false false 1 [2] [0; 0] [1] [1].
Definition k_storage1 : Kernel := MkKernel attrs_storage1 2 2 1.

(** C2, as stated, fails: with a [float] input, no index output and every
    dilation equal to 1, [AveragePoolV19<float>::Compute] and
    [LpPoolV18<float>::Compute] run a hand-rolled task and never call
    [MlasPool], and so does [MaxPoolV8] when [storage_order] is 1. *)
Lemma C2_counterexample :
  X_type ctx1 = Float /\ OutputDefs_size k1 = 1%nat /\ Output1_present ctx1 = false
  /\ dilations (pool_attrs_ k1) = [1] /\ dilations (pool_attrs_ k_storage1) = [1]
  /\ OutputDefs_size k_storage1 = 1%nat
  /\ mlas_calls (fst (Compute explicit_env (EP_AveragePoolV19 Float) k1 ctx1)) = []
  /\ length (runloop_calls (fst (Compute explicit_env (EP_AveragePoolV19 Float) k1 ctx1))) = 1%nat
  /\ mlas_calls (fst (Compute explicit_env (EP_LpPoolV18 Float) k1 ctx1)) = []
  /\ length (runloop_calls (fst (Compute explicit_env (EP_LpPoolV18 Float) k1 ctx1))) = 1%nat
  /\ mlas_calls (fst (Compute explicit_env EP_MaxPoolV8 k_storage1 ctx1)) = []
  /\ length (runloop_calls (fst (Compute explicit_env EP_MaxPoolV8 k_storage1 ctx1))) = 1%nat.
Proof. repeat split; vm_compute; reflexivity. Qed.

(** C2 (amended): [MlasPool] is reached only through [PoolBase::Compute],
    and an entry point goes there exactly when it is one of the [float]
    specialisations [Pool<float, MaxPool<1>>] / [Pool<float, AveragePool>],
    or [MaxPoolV8] with a [float] input, a single output definition,
    [storage_order] 0 and no dilation above 1.  In every other call, among
    them every call of [AveragePoolV19] and [LpPoolV18], no [MlasPool] call
    is made; and a call that delegates runs no hand-rolled task. *)
Theorem C2_mlas_only_behind_its_test env ep k ctx :
  (delegates_to_mlas ep k ctx ->
     Compute env ep k ctx = run (PoolBase_Compute env k ctx (mlas_kind ep k))
     /\ runloop_calls (fst (Compute env ep k ctx)) = [])
  /\ (~ delegates_to_mlas ep k ctx -> mlas_calls (fst (Compute env ep k ctx)) = [])
  /\ (mlas_calls (fst (Compute env ep k ctx)) <> [] -> delegates_to_mlas ep k ctx)
  /\ (runloop_calls (fst (Compute env ep k ctx)) <> [] -> ~ delegates_to_mlas ep k ctx).
Proof.
  pose proof (on_mlas_path_iff ep k ctx) as Hiff.
  destruct (on_mlas_path ep k ctx) eqn:Hp.
  - assert (Hd : delegates_to_mlas ep k ctx) by now apply Hiff.
    pose proof (mlas_path_no_runloop env ep k ctx Hp) as Hr.
    split; [| split; [| split]].
    + intros _. split; [now apply mlas_path_is_PoolBase | exact Hr].
    + intros Hn. contradiction.
    + intros _. exact Hd.
    + intros Hn. contradiction.
  - assert (Hd : ~ delegates_to_mlas ep k ctx).
    { intros Hd. apply Hiff in Hd. discriminate. }
    pose proof (hand_rolled_path_no_mlas env ep k ctx Hp) as Hm.
    split; [| split; [| split]].
    + intros Hn. contradiction.
    + intros _. exact Hm.
    + intros Hn. contradiction.
    + intros _. exact Hd.
Qed.

(** ** Global pooling *)

(** Two attribute records that differ at most in the window attributes
    [kernel_shape], [pads] and [strides]. *)
Definition same_but_window (a a' : PoolAttributes) : Prop :=
  global_pooling a = global_pooling a'
  /\ count_include_pad a = count_include_pad a'
  /\ storage_order a = storage_order a'
  /\ dilations a = dilations a'.

Definition out_dims (r : Exn + (list Z * list Z)) : Exn + list Z :=
  match r with inl e => inl e | inr p => inr (fst p) end.

(** What pool.cc relies on from its helpers under global pooling: the
    output size and the strides do not look at the window attributes. *)
Definition window_blind (env : Env) : Prop :=
  forall a a', global_pooling a = true -> same_but_window a a' ->
    (forall x c p, SetOutputSize env a x c p = SetOutputSize env a' x c p)
    /\ (forall x c p p',
          out_dims (SetOutputSize env a x c p) = out_dims (SetOutputSize env a' x c p'))
    /\ stride_h env a = stride_h env a'
    /\ stride_w env a = stride_w env a'
    /\ stride_d env a = stride_d env a'.

(** A task with the reference to the attribute record left out. *)
Definition forget_attrs (e : Event) : Event :=
  match e with
  | EvRunLoop n t =>
      EvRunLoop n (MkTask (task_family t) (task_rank t) (task_elem t) (I_data t)
                          (x_step t) (y_step t) (task_dilations t) (task_pooled t)
                          (task_strides t) (task_extent t) (task_kernel_shape t)
                          (task_pads t) (task_storage_order t)
                          (task_count_include_pad t) (task_p t) None)
  | _ => e
  end.

Definition with_attrs (k : Kernel) (a' : PoolAttributes) : Kernel :=
  MkKernel a' (pool_context_ k) (p_ k) (OutputDefs_size k).

Lemma PoolBase_window_blind env k a' ctx kind :
  window_blind env ->
  global_pooling (pool_attrs_ k) = true ->
  same_but_window (pool_attrs_ k) a' ->
  PoolBase_Compute env (with_attrs k a') ctx kind = PoolBase_Compute env k ctx kind.
Proof.
  intros Hb Hg Hs. destruct (Hb _ _ Hg Hs) as (_ & Ho & _).
  destruct Hs as (Hg' & _). rewrite Hg in Hg'.
  unfold PoolBase_Compute, with_attrs. cbn [pool_attrs_]. rewrite <- Hg', Hg.
  unfold ORT_RETURN_IF_NOT, at_, call_SetOutputSize.
  destruct (3 <=? NumDimensions (X_shape ctx))%nat; [| reflexivity].
  rewrite !bind_ret.
  destruct (3 <? NumDimensions (X_shape ctx) - 2)%nat; [reflexivity |].
  cbn [negb]. rewrite !bind_ret.
  destruct (nth_error (X_shape ctx) 1) as [x1|]; [| reflexivity].
  rewrite !bind_ret.
  specialize (Ho (X_shape ctx) x1 (pads (pool_attrs_ k)) (pads a')).
  destruct (SetOutputSize env (pool_attrs_ k) (X_shape ctx) x1 (pads (pool_attrs_ k)))
    as [e|[od p]];
    destruct (SetOutputSize env a' (X_shape ctx) x1 (pads a')) as [e'|[od' p']];
    simpl in Ho; try discriminate; injection Ho as <-.
  - reflexivity.
  - rewrite !bind_ret. reflexivity.
Qed.

(** Two bodies that do the same up to the attribute reference in tasks. *)
Definition similar {A} (m m' : M A) : Prop :=
  snd m' = snd m /\ map forget_attrs (fst m') = map forget_attrs (fst m).

Lemma similar_refl {A} (m : M A) : similar m m.
Proof. split; reflexivity. Qed.

Lemma similar_bind {A B} (m : M A) (f g : A -> M B) :
  (forall a, similar (f a) (g a)) -> similar (bind m f) (bind m g).
Proof.
  unfold similar, bind. intros H.
  destruct (snd m) as [a| |]; simpl; try (split; reflexivity).
  destruct (H a) as [H1 H2]. split; [exact H1 |].
  now rewrite !map_app, H2.
Qed.

Lemma similar_run (m m' : M Status) :
  similar m m' ->
  snd (run m') = snd (run m)
  /\ map forget_attrs (fst (run m')) = map forget_attrs (fst (run m)).
Proof.
  unfold similar, run. intros [H1 H2]. rewrite H1.
  destruct (snd m); simpl; auto.
Qed.

Lemma generic_window_blind env T PT k a' ctx :
  window_blind env ->
  global_pooling (pool_attrs_ k) = true ->
  same_but_window (pool_attrs_ k) a' ->
  let r := run (Pool_Compute_generic env T PT k ctx) in
  let r' := run (Pool_Compute_generic env T PT (with_attrs k a') ctx) in
  snd r' = snd r /\ map forget_attrs (fst r') = map forget_attrs (fst r).
Proof.
  intros Hb Hg Hs. destruct (Hb _ _ Hg Hs) as (Hp & _ & Hh & Hw & Hd).
  destruct Hs as (Hg' & _). rewrite Hg in Hg'.
  cbv zeta. apply similar_run.
  unfold Pool_Compute_generic, with_attrs. cbn [pool_attrs_ pool_context_].
  rewrite <- Hg', Hg, <- Hh, <- Hw, <- Hd.
  apply similar_bind; intros _.
  apply similar_bind; intros x1.
  unfold call_SetOutputSize. rewrite <- Hp.
  apply similar_bind; intros r.
  apply similar_bind; intros _.
  apply similar_bind; intros e.
  destruct (length (skipn 2 (X_shape ctx))) as [|[|[|[|n]]]];
    try apply similar_refl;
    apply similar_bind; intros n'; split; reflexivity.
Qed.

Lemma explicit_env_window_blind : window_blind explicit_env.
Proof.
  intros a a' Hg (Hg' & _). rewrite Hg in Hg'.
  unfold explicit_env, explicit_SetOutputSize, explicit_stride. cbn [SetOutputSize stride_h stride_w stride_d].
  rewrite <- Hg', Hg. repeat split.
Qed.

Definition ctx_2d : Context := MkContext [1; 1; 4; 4] Float false.

(** C4, as stated, fails: [Pool<float, AveragePool>::Compute] on a rank-4
    input has kernel dimensionality 2 on the MLAS path, yet with a
    one-element [kernel_shape] it returns a failure status and dispatches
    nothing. *)
Lemma C4_counterexample :
  (NumDimensions (X_shape ctx_2d) - 2 = 2)%nat
  /\ on_mlas_path (EP_Pool Float AveragePool) k1 ctx_2d = true
  /\ Compute explicit_env (EP_Pool Float AveragePool) k1 ctx_2d
     = ([], Returned (MkStatus FAIL
                        "kernel_shape num_dims is not compatible with X num_dims.")).
Proof. repeat split. Qed.

(** C4 (amended): every entry point returns the failure status "Input
    dimension cannot be less than 3." with no effect at all when the input
    has fewer than 3 dimensions.  With at least 3 dimensions:
    on the MLAS path, more than 3 spatial dimensions give INVALID_ARGUMENT;
    otherwise a [kernel_shape] whose size differs from the number of spatial
    dimensions gives a failure status unless pooling is global; otherwise,
    once the output size is computed, the call returns OK after allocating
    the output and, unless the output is empty, calling [MlasPool] once.
    On a hand-rolled path, once the output size is computed and the shapes
    have the axes the kernel reads, a kernel shape of size other than 1, 2, 3
    gives INVALID_ARGUMENT and runs no task, and a kernel shape of size 1, 2
    or 3 runs exactly one task of that dimensionality over N*C channels and
    returns OK, provided N*C fits [size_t] and the dilations cover the
    kernel's axes. *)
Theorem C4_dispatch env ep k ctx :
  let a := pool_attrs_ k in
  let x := X_shape ctx in
  let rank := NumDimensions x in
  let ks := hand_rolled_kernel_shape ep k ctx in
  let total := mul64 (nth 0 x 0) (nth 1 x 0) in
  ((rank < 3)%nat -> Compute env ep k ctx = too_few_dims)
  /\ ((3 <= rank)%nat -> delegates_to_mlas ep k ctx ->
      ((3 < rank - 2)%nat ->
         Compute env ep k ctx = ([], Returned unsupported_pooling_size))
      /\ ((rank - 2 <= 3)%nat -> global_pooling a = false ->
          (rank - 2)%nat <> length (kernel_shape a) ->
          Compute env ep k ctx = ([], Returned incompatible_kernel_shape))
      /\ (forall od pads1,
            (rank - 2 <= 3)%nat ->
            global_pooling a = true \/ (rank - 2)%nat = length (kernel_shape a) ->
            SetOutputSize env a x (nth 1 x 0) (pads a) = inr (od, pads1) ->
            Compute env ep k ctx
            = (EvOutput 0 od ::
                 (if Size env od =? 0 then []
                  else [mlas_event k ctx (mlas_kind ep k) od pads1]),
               Returned Status_OK)))
  /\ (forall od pads1,
        (3 <= rank)%nat -> ~ delegates_to_mlas ep k ctx ->
        SetOutputSize env a x (nth 1 x 0) (hand_rolled_pads ep k ctx) = inr (od, pads1) ->
        (2 + axes_read (length ks) <= length x)%nat ->
        (2 + axes_read (length ks) <= length od)%nat ->
        (~ supported (length ks) ->
           Compute env ep k ctx
           = (hand_rolled_outputs ep od, Returned (unsupported_status ep (length ks))))
        /\ (supported (length ks) ->
            (reads_dilations ep = true -> (length ks <= length (dilations a))%nat) ->
            0 <= total < 2 ^ size_t_bits env ->
            exists t,
              Compute env ep k ctx
              = (hand_rolled_outputs ep od ++ [EvRunLoop (to_ptrdiff_t (size_t_bits env) total) t], Returned Status_OK)
              /\ task_rank t = length ks /\ task_kernel_shape t = ks
              /\ task_family t = entry_family ep /\ task_pads t = pads1)).
Proof.
  intros a x rank ks total. split; [| split].
  - apply rank_lt_3_fails.
  - intros H3 Hd. apply on_mlas_path_iff in Hd.
    rewrite (mlas_path_is_PoolBase env ep k ctx Hd).
    split; [| split].
    + now apply PoolBase_too_many_dims.
    + now apply PoolBase_kernel_mismatch.
    + intros od pads1 Hle Hok Hs. now apply PoolBase_runs.
  - intros od pads1 H3 Hd Hs Hx Ho.
    assert (Hp : on_mlas_path ep k ctx = false).
    { destruct (on_mlas_path ep k ctx) eqn:E; auto.
      exfalso. apply Hd. now apply on_mlas_path_iff. }
    split.
    + now apply (hand_rolled_unsupported env ep k ctx od pads1).
    + now apply (hand_rolled_supported env ep k ctx od pads1).
Qed.

(** The hand-rolled clause of C4 at a 1-D average pooling call. *)
Lemma C4_dispatch_witness :
  exists t,
    Compute explicit_env (EP_AveragePoolV19 Float) k1 ctx1
    = ([EvOutput 0 [1; 1; 3]; EvRunLoop 1 t], Returned Status_OK)
    /\ task_rank t = 1%nat.
Proof.
  destruct (C4_dispatch explicit_env (EP_AveragePoolV19 Float) k1 ctx1) as (_ & _ & H).
  destruct (H [1; 1; 3] [0; 0]) as (_ & H').
  - cbv. lia.
  - cbv. tauto.
  - reflexivity.
  - cbv. lia.
  - cbv. lia.
  - destruct H' as (t & Ht & Hr & _).
    + cbv. auto.
    + intros _. cbv. lia.
    + vm_compute. split; [discriminate | reflexivity].
    + exists t. split; [exact Ht | exact Hr].
Defined.

Lemma Pool_window_blind env T PT k a' ctx :
  window_blind env ->
  global_pooling (pool_attrs_ k) = true ->
  same_but_window (pool_attrs_ k) a' ->
  let r := Compute env (EP_Pool T PT) k ctx in
  let r' := Compute env (EP_Pool T PT) (with_attrs k a') ctx in
  snd r' = snd r /\ map forget_attrs (fst r') = map forget_attrs (fst r).
Proof.
  intros Hb Hg Hs. cbv zeta. unfold Compute, Pool_Compute.
  assert (Hc : count_include_pad (pool_attrs_ (with_attrs k a'))
               = count_include_pad (pool_attrs_ k)).
  { destruct Hs as (_ & Hc & _). simpl. now rewrite Hc. }
  destruct T, PT; try (apply generic_window_blind; assumption);
    rewrite ?Hc, PoolBase_window_blind by assumption; split; reflexivity.
Qed.

Definition attrs_global : PoolAttributes :=
  MkPoolAttributes true false 0 [3; 3] [1; 1; 1; 1] [2; 2] [1; 1].
Definition k_global : Kernel := MkKernel attrs_global 2 2 1.
Definition ctx_double : Context := MkContext [2; 3; 4; 5] Double false.

(** A stand-in for the helpers that shows what [SetOutputSize] is asked:
    the output dims it answers with are the first two input dims followed
    by the pads it was given. *)
Definition pads_probe : Env :=
  MkEnv (fun _ x _ p => inr ((firstn 2 x ++ p)%list, p))
        (fun _ => 1) (fun _ => 1) (fun _ => 1) (fun _ => 1) 64.

Definition attrs_global_unpadded : PoolAttributes :=
  MkPoolAttributes true false 0 [3; 3] [0; 0; 0; 0] [2; 2] [1; 1].
Definition ctx_float : Context := MkContext [2; 3; 4; 5] Float false.

(** C9 fails as stated on the MLAS path: with [global_pooling] set and
    pads [1; 1; 1; 1], [PoolBase::Compute] computes the output size from
    the attribute's pads, not from zeros, so that with a helper that looks
    at them the pads attribute changes the result; the primary template
    does ask with zeros. *)
Lemma C9_counterexample :
  global_pooling (pool_attrs_ k_global) = true
  /\ pads (pool_attrs_ k_global) = [1; 1; 1; 1]
  /\ Compute pads_probe (EP_Pool Float MaxPool_1) k_global ctx_float
     = ([EvOutput 0 [2; 3; 1; 1; 1; 1];
         EvMlasPool MlasMaximumPooling 2 [2; 3; 4; 5] None None None [2; 3; 1; 1; 1; 1]],
        Returned Status_OK)
  /\ Compute pads_probe (EP_Pool Float MaxPool_1)
             (with_attrs k_global attrs_global_unpadded) ctx_float
     = ([EvOutput 0 [2; 3; 0; 0; 0; 0];
         EvMlasPool MlasMaximumPooling 2 [2; 3; 4; 5] None None None [2; 3; 0; 0; 0; 0]],
        Returned Status_OK)
  /\ hd (EvOutput 0 []) (fst (Compute pads_probe (EP_Pool Double MaxPool_1) k_global
                                      ctx_double))
     = EvOutput 0 [2; 3; 0; 0].
Proof. repeat split; vm_compute; reflexivity. Qed.

(** C9 (amended): with [global_pooling] set, the primary template
    [Pool<T, PoolType>::Compute] asks for the output size with all-zero
    pads, one per spatial axis, and hands its task the input's spatial dims
    (dims 2 onward) as kernel shape together with the pads the output-size
    computation returned.  [PoolBase::Compute] replaces nothing: it asks
    for the output size with the attribute's pads, and calls [MlasPool]
    with null kernel-shape, padding and stride pointers.  If the helpers
    for output size and strides do not look at the window attributes under
    global pooling, two kernels that differ only in [kernel_shape], [pads]
    and [strides] return the same status and make the same calls with the
    same arguments, except for the reference to the attribute record that
    a hand-rolled task carries. *)
Theorem C9_global_pooling env k ctx :
  global_pooling (pool_attrs_ k) = true ->
  (3 <= NumDimensions (X_shape ctx))%nat ->
  let a := pool_attrs_ k in
  let x := X_shape ctx in
  let spatial := skipn 2 x in
  let total := mul64 (nth 0 x 0) (nth 1 x 0) in
  (forall T PT od pads1,
      SetOutputSize env a x (nth 1 x 0) (repeat 0 (length spatial)) = inr (od, pads1) ->
      (length x <= length od)%nat ->
      (length spatial <= 3)%nat ->
      0 <= total < 2 ^ size_t_bits env ->
      exists t,
        run (Pool_Compute_generic env T PT k ctx)
        = ([EvOutput 0 od; EvRunLoop (to_ptrdiff_t (size_t_bits env) total) t], Returned Status_OK)
        /\ task_kernel_shape t = spatial /\ task_pads t = pads1
        /\ task_rank t = length spatial)
  /\ (forall kind od pads1,
        (length spatial <= 3)%nat ->
        SetOutputSize env a x (nth 1 x 0) (pads a) = inr (od, pads1) ->
        Size env od <> 0 ->
        run (PoolBase_Compute env k ctx kind)
        = ([EvOutput 0 od;
            EvMlasPool kind (Z.of_nat (length spatial)) x None None None od],
           Returned Status_OK))
  /\ (window_blind env ->
      forall a' T PT,
        same_but_window a a' ->
        snd (Compute env (EP_Pool T PT) (with_attrs k a') ctx)
        = snd (Compute env (EP_Pool T PT) k ctx)
        /\ map forget_attrs (fst (Compute env (EP_Pool T PT) (with_attrs k a') ctx))
           = map forget_attrs (fst (Compute env (EP_Pool T PT) k ctx))).
Proof.
  intros Hg H3 a x spatial total.
  assert (Hlen : length spatial = (length x - 2)%nat) by apply length_skipn.
  unfold NumDimensions in H3. fold x in H3.
  split; [| split].
  - intros T PT od pads1 Hs Ho Hle Hn.
    assert (Hsup : supported (length spatial)) by (unfold supported; lia).
    assert (Hax : axes_read (length spatial) = length spatial)
      by (unfold axes_read; lia).
    destruct (generic_supported env (EP_Pool T PT) k ctx od pads1) with (T := T) (PT := PT)
      as (t & Ht & Hr & Hk & _ & Hp); auto.
    + unfold hand_rolled_pads, hand_rolled_kernel_shape. rewrite Hg. exact Hs.
    + unfold hand_rolled_kernel_shape. rewrite Hg. fold x. fold spatial. lia.
    + unfold hand_rolled_kernel_shape. rewrite Hg. fold x. fold spatial. lia.
    + unfold hand_rolled_kernel_shape. now rewrite Hg.
    + unfold hand_rolled_kernel_shape in Hr, Hk. rewrite Hg in Hr, Hk.
      exists t. auto.
  - intros kind od pads1 Hle Hs Hz.
    rewrite (PoolBase_runs env k ctx kind od pads1); auto.
    + apply Z.eqb_neq in Hz. rewrite Hz. unfold mlas_event.
      rewrite Hg. unfold NumDimensions. fold x. now rewrite <- Hlen.
    + unfold NumDimensions. fold x. lia.
  - intros Hb a' T PT Hs. now apply Pool_window_blind.
Qed.

(** C9 on a double-precision global pooling call over a 4x5 image. *)
Lemma C9_global_pooling_witness :
  exists t,
    run (Pool_Compute_generic explicit_env Double AveragePool k_global ctx_double)
    = ([EvOutput 0 [2; 3; 1; 1]; EvRunLoop 6 t], Returned Status_OK)
    /\ task_kernel_shape t = [4; 5] /\ task_pads t = [0; 0].
Proof.
  destruct (C9_global_pooling explicit_env k_global ctx_double) as (H & _).
  - reflexivity.
  - cbv. lia.
  - destruct (H Double AveragePool [2; 3; 1; 1] [0; 0]) as (t & Ht & Hk & Hp & _).
    + reflexivity.
    + cbv. lia.
    + cbv. lia.
    + vm_compute. split; [discriminate | reflexivity].
    + exists t. auto.
Defined.

End PoolSpec.

(* ===================================================================== *)
(** * Properties of the per-channel fan-out *)
(* ===================================================================== *)

Module ParallelSpec.
Import Pool Parallel.

Lemma zrange_spec n j : In j (zrange n) <-> 0 <= j < n.
Proof.
  unfold zrange. rewrite in_map_iff. split.
  - intros (i & <- & Hi). apply in_seq in Hi. lia.
  - intros H. exists (Z.to_nat j). split; [lia |]. apply in_seq. lia.
Qed.

Lemma zrange_length n : length (zrange n) = Z.to_nat n.
Proof. unfold zrange. now rewrite length_map, length_seq. Qed.

Section Independence.

Variable T : Type.
Variables x_step y_step : Z.
Variable task : Buffer T -> Buffer T -> Z -> Buffer T.

(** The cells [Y_data + c * y_step .. + y_step) of channel [c]. *)
Definition in_channel (c i : Z) : bool :=
  (c * y_step <=? i) && (i <? c * y_step + y_step).

(** Two input buffers with the same [X_data + c * x_step .. + x_step). *)
Definition agree_on_slice (X X' : Buffer T) (c : Z) : Prop :=
  forall j, 0 <= j < x_step -> X (c * x_step + j) = X' (c * x_step + j).

(** What the claim says of a task: it writes only the output slice of its
    channel, and what it writes there is determined by the input slice of
    its channel. *)
Record slice_local : Prop := {
  writes_own_slice :
    forall X Y c i, in_channel c i = false -> task X Y c i = Y i;
  reads_own_slice :
    forall X X' Y Y' c i,
      agree_on_slice X X' c -> in_channel c i = true -> task X Y c i = task X' Y' c i
}.

Hypothesis local : slice_local.

Lemma agree_refl X c : agree_on_slice X X c.
Proof. intros j _. reflexivity. Qed.

Lemma channels_disjoint c1 c2 i :
  c1 <> c2 -> in_channel c1 i = true -> in_channel c2 i = false.
Proof.
  unfold in_channel. intros Hne H.
  apply andb_true_iff in H as [H1 H2]. apply Z.leb_le in H1. apply Z.ltb_lt in H2.
  apply andb_false_iff.
  destruct (Z.leb_spec (c2 * y_step) i); [| now left].
  right. apply Z.ltb_ge. nia.
Qed.

Definition same (Y Y' : Buffer T) : Prop := forall i, Y i = Y' i.

Lemma task_same X Y Y' c : same Y Y' -> same (task X Y c) (task X Y' c).
Proof.
  intros H i. destruct (in_channel c i) eqn:E.
  - apply (reads_own_slice local); [apply agree_refl | exact E].
  - rewrite !(writes_own_slice local) by exact E. apply H.
Qed.

(** Two channel tasks commute. *)
Lemma task_swap X Y c1 c2 :
  same (task X (task X Y c1) c2) (task X (task X Y c2) c1).
Proof.
  intros i. destruct (Z.eq_dec c1 c2) as [->|Hne]; [reflexivity |].
  destruct (in_channel c1 i) eqn:E1, (in_channel c2 i) eqn:E2.
  - rewrite (channels_disjoint c1 c2 i Hne E1) in E2. discriminate.
  - rewrite (writes_own_slice local _ _ c2) by exact E2.
    apply (reads_own_slice local); [apply agree_refl | exact E1].
  - rewrite (writes_own_slice local _ (task X Y c2) c1) by exact E1.
    apply (reads_own_slice local); [apply agree_refl | exact E2].
  - now rewrite !(writes_own_slice local) by assumption.
Qed.

Lemma run_channels_same X cs : forall Y Y',
  same Y Y' -> same (run_channels T task X cs Y) (run_channels T task X cs Y').
Proof.
  induction cs as [|c cs IH]; intros Y Y' H; simpl; [exact H |].
  apply IH. now apply task_same.
Qed.

(** The order of the channels does not matter. *)
Lemma run_channels_perm X cs cs' :
  Permutation cs cs' ->
  forall Y Y', same Y Y' -> same (run_channels T task X cs Y) (run_channels T task X cs' Y').
Proof.
  induction 1 as [| c cs cs' _ IH | c1 c2 cs | cs1 cs2 cs3 _ IH1 _ IH2];
    intros Y Y' H.
  - exact H.
  - simpl. apply IH. now apply task_same.
  - simpl. intros i.
    rewrite (run_channels_same X cs _ _ (task_swap X Y c2 c1) i).
    apply run_channels_same. now apply task_same, task_same.
  - intros i. rewrite (IH1 Y Y (fun _ => eq_refl) i). now apply IH2.
Qed.

Lemma TryParallelFor_flat X s : forall Y,
  TryParallelFor T task X s Y = run_channels T task X (flat_map block s) Y.
Proof.
  induction s as [|r s IH]; intros Y; simpl; [reflexivity |].
  rewrite IH. unfold run_channels. now rewrite fold_left_app.
Qed.

Lemma schedule_independent X total s Y :
  covers total s ->
  length (flat_map block s) = Z.to_nat total
  /\ forall i, TryParallelFor T task X s Y i = sequential T task X total Y i.
Proof.
  unfold covers, sequential. intros H. split.
  - now rewrite (Permutation_length H), zrange_length.
  - intros i. rewrite TryParallelFor_flat.
    now apply (run_channels_perm X _ _ H).
Qed.

(** Channels other than [c] leave the cells of [c] alone. *)
Lemma run_channels_elsewhere X c i cs : forall Y,
  in_channel c i = true -> ~ In c cs -> run_channels T task X cs Y i = Y i.
Proof.
  induction cs as [|a cs IH]; intros Y Hi Hn; simpl; [reflexivity |].
  rewrite IH by (auto; intros H; apply Hn; now right).
  apply (writes_own_slice local).
  apply (channels_disjoint c a i); [| exact Hi].
  intros ->. apply Hn. now left.
Qed.

(** After the channels [cs], a cell of a channel among them holds what the
    task of that channel wrote. *)
Lemma run_channels_cell X c i cs : forall Y,
  in_channel c i = true -> In c cs ->
  exists Y0, run_channels T task X cs Y i = task X Y0 c i.
Proof.
  induction cs as [|a cs IH]; intros Y Hi Hin; [contradiction |]. simpl.
  destruct (in_dec Z.eq_dec c cs) as [Hc|Hc]; [now apply IH |].
  destruct Hin as [->|Hin]; [| contradiction].
  exists Y. now apply (run_channels_elsewhere X c i cs).
Qed.

(** The output slice of a channel is determined by the input slice of
    that channel, whatever the schedules and the other inputs. *)
Lemma slice_determined X X' Y Y' total s s' c i :
  covers total s -> covers total s' ->
  0 <= c < total -> in_channel c i = true -> agree_on_slice X X' c ->
  TryParallelFor T task X s Y i = TryParallelFor T task X' s' Y' i.
Proof.
  intros Hs Hs' Hc Hi Ha. rewrite !TryParallelFor_flat.
  assert (In1 : In c (flat_map block s)).
  { apply (Permutation_in c (Permutation_sym Hs)), zrange_spec, Hc. }
  assert (In2 : In c (flat_map block s')).
  { apply (Permutation_in c (Permutation_sym Hs')), zrange_spec, Hc. }
  destruct (run_channels_cell X c i _ Y Hi In1) as (Y0 & ->).
  destruct (run_channels_cell X' c i _ Y' Hi In2) as (Y1 & ->).
  now apply (reads_own_slice local).
Qed.

End Independence.

Definition attrs_float : PoolAttributes :=
  MkPoolAttributes false false 0 [2] [0; 0] [1] [1].
Definition k_float : Kernel := MkKernel attrs_float 2 2 1.
Definition ctx_6_channels : Context := MkContext [2; 3; 4] Float false.



(** An example of a task that keeps to its slices: output [j] of a channel
    is twice input [j] of that channel. *)
Definition doubling (x_step y_step : Z) (X Y : Buffer Z) (c : Z) : Buffer Z :=
  fun i => if in_channel y_step c i
           then (if i - c * y_step <? x_step
                 then 2 * X (c * x_step + (i - c * y_step)) else 0)
           else Y i.

Lemma doubling_local x_step y_step : slice_local Z x_step y_step (doubling x_step y_step).
Proof.
  constructor.
  - intros X Y c i E. unfold doubling. now rewrite E.
  - intros X X' Y Y' c i Ha E. unfold doubling. rewrite E.
    destruct (i - c * y_step <? x_step) eqn:E'; [| reflexivity].
    apply Z.ltb_lt in E'. unfold in_channel in E.
    apply andb_true_iff in E as [E1 _]. apply Z.leb_le in E1.
    rewrite (Ha (i - c * y_step)) by lia. reflexivity.
Qed.


End ParallelSpec.

(* ===================================================================== *)
(** * Properties of layer_norm.cc *)
(* ===================================================================== *)

Module LayerNormSpec.
Import LayerNorm.

(** ** NormalizeAxis *)

Lemma wrap64_small z : in_int64 z -> wrap64 z = z.
Proof.
  unfold in_int64, wrap64. intros H.
  rewrite Z.mod_small by lia. lia.
Qed.

Lemma guard_false axis rank :
  0 <= rank < 2 ^ 63 -> invalid_axis_guard axis rank = false.
Proof.
  intros H. unfold invalid_axis_guard, neg64.
  rewrite wrap64_small by (unfold in_int64; lia).
  destruct (axis <? - rank) eqn:E1; [| reflexivity].
  apply Z.ltb_lt in E1. simpl.
  rewrite Z.geb_leb. apply Z.leb_gt. lia.
Qed.

(** C5, as stated, fails: an axis below [-rank] is not passed through.
    The guard lets it by, and the negative sum [axis + rank] is then
    rejected by [narrow<size_t>], on a 64-bit and on a 32-bit [size_t]. *)
Lemma C5_counterexample :
  in_int64 (-5)
  /\ invalid_axis_guard (-5) (wrap64 2) = false
  /\ NormalizeAxis 64 (-5) 2 = NarrowingFailed
  /\ NormalizeAxis 32 (-5) 2 = NarrowingFailed.
Proof. repeat split; try reflexivity; vm_compute; congruence. Qed.

(** C5 (amended): for every [int64] axis and every tensor rank below 2^63
    the guard [axis < -rank && axis >= rank] is false, so the "invalid
    axis" exception is never raised.  What reaches [narrow<size_t>] is
    [axis + rank] for a negative axis and [axis] otherwise: a non-negative
    axis that fits [size_t] is returned unchanged even when it is [>= rank],
    an axis in [-rank, 0) is returned shifted by [rank], and an axis below
    [-rank] (or beyond [size_t]) is rejected by the narrowing check only. *)
Theorem C5_guard_never_fires bits axis tensor_rank :
  in_int64 axis ->
  0 <= tensor_rank < 2 ^ 63 ->
  tensor_rank < 2 ^ bits ->
  invalid_axis_guard axis (wrap64 tensor_rank) = false
  /\ (forall msg, NormalizeAxis bits axis tensor_rank <> InvalidAxisThrown msg)
  /\ (0 <= axis < 2 ^ bits -> NormalizeAxis bits axis tensor_rank = Axis axis)
  /\ (- tensor_rank <= axis < 0 ->
      NormalizeAxis bits axis tensor_rank = Axis (axis + tensor_rank))
  /\ (axis < - tensor_rank \/ 2 ^ bits <= axis ->
      NormalizeAxis bits axis tensor_rank = NarrowingFailed).
Proof.
  intros Ha Hr Hb.
  assert (Hw : wrap64 tensor_rank = tensor_rank)
    by (apply wrap64_small; unfold in_int64; lia).
  assert (Hg : invalid_axis_guard axis (wrap64 tensor_rank) = false)
    by (rewrite Hw; now apply guard_false).
  unfold NormalizeAxis. cbv zeta. rewrite Hg, Hw.
  split; [reflexivity |]. split; [| split; [| split]].
  - intros msg. destruct (narrow_size_t _ _); discriminate.
  - intros [H0 H1]. assert (E : (axis <? 0) = false) by (apply Z.ltb_ge; lia).
    rewrite E. unfold narrow_size_t.
    apply Z.leb_le in H0. apply Z.ltb_lt in H1. now rewrite H0, H1.
  - intros [H0 H1]. assert (E : (axis <? 0) = true) by (apply Z.ltb_lt; lia).
    rewrite E. unfold add64. unfold in_int64 in Ha.
    rewrite wrap64_small by (unfold in_int64; lia).
    unfold narrow_size_t.
    assert (E0 : (0 <=? axis + tensor_rank) = true) by (apply Z.leb_le; lia).
    assert (E1 : (axis + tensor_rank <? 2 ^ bits) = true) by (apply Z.ltb_lt; lia).
    now rewrite E0, E1.
  - intros [H|H].
    + assert (E : (axis <? 0) = true) by (apply Z.ltb_lt; lia).
      rewrite E. unfold add64. unfold in_int64 in Ha.
      rewrite wrap64_small by (unfold in_int64; lia).
      unfold narrow_size_t.
      assert (E0 : (0 <=? axis + tensor_rank) = false) by (apply Z.leb_gt; lia).
      now rewrite E0.
    + assert (E : (axis <? 0) = false).
      { apply Z.ltb_ge. pose proof (Z.pow_nonneg 2 bits). lia. }
      rewrite E. unfold narrow_size_t.
      assert (E1 : (axis <? 2 ^ bits) = false) by (apply Z.ltb_ge; lia).
      rewrite E1. now rewrite andb_false_r.
Qed.

(** Axis 7 of a rank-2 tensor is out of range and still comes back as 7. *)
Lemma C5_guard_never_fires_witness :
  invalid_axis_guard 7 (wrap64 2) = false /\ NormalizeAxis 32 7 2 = Axis 7.
Proof.
  destruct (C5_guard_never_fires 32 7 2) as (Hg & _ & Hv & _).
  - unfold in_int64. lia.
  - lia.
  - lia.
  - split; [exact Hg | apply Hv; lia].
Defined.

(** ** GenerateShaderCode *)

Local Open Scope string_scope.

Lemma append_assoc (a b c : string) : (a ++ b) ++ c = a ++ (b ++ c).
Proof. induction a as [|ch a IH]; simpl; [reflexivity | now rewrite IH]. Qed.

Lemma append_empty_r (a : string) : a ++ "" = a.
Proof. induction a as [|ch a IH]; simpl; [reflexivity | now rewrite IH]. Qed.

Lemma has_char_append c a b :
  has_char c (a ++ b) = has_char c a || has_char c b.
Proof.
  induction a as [|ch a IH]; simpl; [reflexivity |].
  now rewrite IH, orb_assoc.
Qed.

Lemma contains_here pat post : contains pat (pat ++ post).
Proof. exists "", post. reflexivity. Qed.

Lemma contains_skip pat pre s : contains pat s -> contains pat (pre ++ s).
Proof.
  intros (a & b & ->). exists (pre ++ a), b. now rewrite append_assoc.
Qed.

Lemma contains_extend pat s post : contains pat s -> contains pat (s ++ post).
Proof.
  intros (a & b & ->). exists a, (b ++ post). now rewrite !append_assoc.
Qed.

Lemma contains_has_char c pat s :
  contains pat s -> has_char c pat = true -> has_char c s = true.
Proof.
  intros (a & b & ->) H.
  rewrite !has_char_append, H. now rewrite orb_true_r.
Qed.

(** The variables, and the text of the two streams, that one run of the
    generator adds. *)
Definition added_inputs (p : LayerNormProgram) : list (string * ShaderUsage) :=
  ([("x", UseUniformAndValueTypeAlias); ("scale", UseUniform)]
   ++ (if has_bias_ p then [("bias", UseUniform)] else []))%list.

Definition added_outputs (p : LayerNormProgram) : list (string * ShaderUsage) :=
  ([("y", UseUniform)]
   ++ (if has_mean_output_ p then [("mean_output", UsageNone)] else [])
   ++ (if has_inv_std_dev_output_ p then [("inv_std_dev_output", UsageNone)] else []))%list.

Definition added_body (txt : ShaderText) (p : LayerNormProgram) (components : Z) : string :=
  body_text txt p components
  ++ (if has_mean_output_ p then "mean_output[global_idx] = mean;
" else "")
  ++ (if has_inv_std_dev_output_ p then "inv_std_dev_output[global_idx] = inv_std_dev;
" else "").

Lemma GenerateShaderCode_adds txt p sh :
  let sh' := GenerateShaderCode txt p sh in
  shader_inputs sh' = (shader_inputs sh ++ added_inputs p)%list
  /\ shader_outputs sh' = (shader_outputs sh ++ added_outputs p)%list
  /\ AdditionalImplementation sh'
     = AdditionalImplementation sh ++ implementation_text p (x_NumComponents sh)
  /\ MainFunctionBody sh'
     = MainFunctionBody sh ++ added_body txt p (x_NumComponents sh)
  /\ x_NumComponents sh' = x_NumComponents sh.
Proof.
  unfold GenerateShaderCode, added_inputs, added_outputs, added_body.
  destruct p as [b f s m i]; destruct sh as [ins outs impl body n].
  destruct b, m, i; cbn [when AddInput AddOutput emit_implementation emit_body
    shader_inputs shader_outputs AdditionalImplementation MainFunctionBody
    x_NumComponents has_bias_ has_mean_output_ has_inv_std_dev_output_];
    rewrite <- ?app_assoc, ?append_assoc, ?append_empty_r; repeat split.
Qed.

Definition minus : ascii := "-"%char.

(** The helper texts carry no minus sign of their own. *)
Definition helpers_without_minus (txt : ShaderText) (components : Z) : Prop :=
  has_char minus (GuardAgainstOutOfBoundsWorkgroupSizes txt "uniforms.norm_count") = false
  /\ has_char minus (SumVector txt "mean_vector" components) = false
  /\ has_char minus (SumVector txt "mean_square_vector" components) = false.

Lemma simplified_body_without_minus txt p n :
  simplified_ p = true -> helpers_without_minus txt n ->
  has_char minus (added_body txt p n) = false.
Proof.
  intros Hs (Hg & H1 & H2). unfold added_body, body_text. rewrite Hs.
  rewrite !has_char_append, Hg, H1, H2.
  destruct (has_bias_ p), (has_mean_output_ p), (has_inv_std_dev_output_ p); reflexivity.
Qed.

Lemma full_body_subtracts_mean txt p n :
  simplified_ p = false ->
  contains " - mean * mean" (added_body txt p n)
  /\ contains " - mean) * inv_std_dev * f32scale)" (added_body txt p n).
Proof.
  intros Hs. unfold added_body, body_text. rewrite Hs. split.
  - apply contains_extend.
    repeat first [ apply contains_here | apply contains_skip ].
  - apply contains_extend.
    do 21 apply contains_skip.
    rewrite <- append_assoc.
    exact (contains_here " - mean) * inv_std_dev * f32scale)" _).
Qed.

(** [sh'] is [sh] with the given variables and text appended. *)
Definition extends (sh sh' : ShaderHelper)
    (ins outs : list (string * ShaderUsage)) (impl body : string) : Prop :=
  shader_inputs sh' = (shader_inputs sh ++ ins)%list
  /\ shader_outputs sh' = (shader_outputs sh ++ outs)%list
  /\ AdditionalImplementation sh' = AdditionalImplementation sh ++ impl
  /\ MainFunctionBody sh' = MainFunctionBody sh ++ body.

(** C8: what [GenerateShaderCode] appends to a shader (declared variables,
    additional implementation, main body) is determined by the five program
    flags and the component count of [x]: two runs with equal flags and equal
    component count append the same text, whatever the helpers held before.
    Without [simplified_] the body contains the terms " - mean * mean" and
    " - mean) * inv_std_dev * f32scale)"; with [simplified_], and helper text
    free of minus signs, the body has no minus sign at all, hence no
    " - mean". *)
Theorem C8_shader_text_determined_by_flags txt p1 p2 sh1 sh2 :
  has_bias_ p1 = has_bias_ p2 ->
  is_fp16_ p1 = is_fp16_ p2 ->
  simplified_ p1 = simplified_ p2 ->
  has_mean_output_ p1 = has_mean_output_ p2 ->
  has_inv_std_dev_output_ p1 = has_inv_std_dev_output_ p2 ->
  x_NumComponents sh1 = x_NumComponents sh2 ->
  exists ins outs impl body,
    extends sh1 (GenerateShaderCode txt p1 sh1) ins outs impl body
    /\ extends sh2 (GenerateShaderCode txt p2 sh2) ins outs impl body
    /\ (simplified_ p1 = false ->
        contains " - mean * mean" body
        /\ contains " - mean) * inv_std_dev * f32scale)" body)
    /\ (simplified_ p1 = true ->
        helpers_without_minus txt (x_NumComponents sh1) ->
        has_char minus body = false /\ ~ contains " - mean" body).
Proof.
  intros Hb Hf Hs Hm Hi Hn.
  assert (p1 = p2) as <-.
  { destruct p1, p2; simpl in *; congruence. }
  exists (added_inputs p1), (added_outputs p1),
         (implementation_text p1 (x_NumComponents sh1)),
         (added_body txt p1 (x_NumComponents sh1)).
  split; [| split; [| split]].
  - destruct (GenerateShaderCode_adds txt p1 sh1) as (A & B & C & D & _).
    repeat split; assumption.
  - destruct (GenerateShaderCode_adds txt p1 sh2) as (A & B & C & D & _).
    rewrite Hn. repeat split; assumption.
  - apply full_body_subtracts_mean.
  - intros Hsim Hh.
    pose proof (simplified_body_without_minus txt p1 _ Hsim Hh) as Hno.
    split; [exact Hno |].
    intros Hc. apply (contains_has_char minus) in Hc; [| reflexivity].
    congruence.
Qed.

Definition layer_norm_simplified : LayerNormProgram := MkProgram true false true false true.
Definition fresh_shader (components : Z) : ShaderHelper := MkShader [] [] "" "" components.
Definition used_shader (components : Z) : ShaderHelper :=
  MkShader [("a", UseUniform)] [] "alias t = f32;" "var k = 0;" components.

(** C8 on two helpers with different prior content, four-lane vectors. *)
Lemma C8_shader_text_determined_by_flags_witness :
  exists ins outs impl body,
    extends (fresh_shader 4)
            (GenerateShaderCode plain_text layer_norm_simplified (fresh_shader 4))
            ins outs impl body
    /\ extends (used_shader 4)
               (GenerateShaderCode plain_text layer_norm_simplified (used_shader 4))
               ins outs impl body
    /\ has_char minus body = false.
Proof.
  destruct (C8_shader_text_determined_by_flags plain_text
              layer_norm_simplified layer_norm_simplified
              (fresh_shader 4) (used_shader 4))
    as (ins & outs & impl & body & E1 & E2 & _ & H); try reflexivity.
  exists ins, outs, impl, body. split; [exact E1 | split; [exact E2 |]].
  apply H; [reflexivity | repeat split].
Defined.

End LayerNormSpec.

(* ===================================================================== *)
(** * Properties of api.cc *)
(* ===================================================================== *)

Module WasmApiSpec.
Import WasmApi.

(** ** The last-error state *)

(** The error code and message a status stands for. *)
Definition last_error_of (s : OrtStatusPtr) : OrtErrorCode * string :=
  match s with
  | None => (ORT_OK, EmptyString)
  | Some st => (GetErrorCode st, GetErrorMessage st)
  end.

Definition last_error (w : World) : OrtErrorCode * string :=
  (g_last_error_code w, g_last_error_message w).

Definition status_ok (s : OrtStatusPtr) : bool := is_ORT_OK (fst (last_error_of s)).

Definition all_ok (l : list OrtStatusPtr) : bool := forallb status_ok l.

Fixpoint last_checked (l : list OrtStatusPtr) : option OrtStatusPtr :=
  match l with
  | [] => None
  | [s] => Some s
  | _ :: l' => last_checked l'
  end.

(** After the statuses [new] went through [CheckStatus], the last-error
    state is that of the last of them, or unchanged when there were none. *)
Definition globals_match (new : list OrtStatusPtr) (w0 w : World) : Prop :=
  last_error w = match last_checked new with
                 | Some s => last_error_of s
                 | None => last_error w0
                 end.

Lemma last_checked_snoc l s : last_checked (l ++ [s]) = Some s.
Proof.
  induction l as [|a l IH]; [reflexivity |].
  simpl. rewrite IH. now destruct (l ++ [s]) eqn:E; [destruct l; discriminate |].
Qed.

Lemma all_ok_snoc l s : all_ok (l ++ [s]) = all_ok l && status_ok s.
Proof. unfold all_ok. rewrite forallb_app. simpl. now rewrite andb_true_r. Qed.

Lemma CheckStatus_spec s w :
  fst (CheckStatus s w) = fst (last_error_of s)
  /\ last_error (snd (CheckStatus s w)) = last_error_of s
  /\ checked (snd (CheckStatus s w)) = checked w ++ [s]
  /\ live (snd (CheckStatus s w)) = live w
  /\ auto_release (snd (CheckStatus s w)) = auto_release w
  /\ api_log (snd (CheckStatus s w)) = api_log w
  /\ g_env (snd (CheckStatus s w)) = g_env w.
Proof. destruct s as [st|]; repeat split. Qed.

(** ** Resources *)

Lemma HandleKind_eqb_refl k : HandleKind_eqb k k = true.
Proof. now destruct k. Qed.

Lemma Handle_eqb_refl h : Handle_eqb h h = true.
Proof. unfold Handle_eqb. now rewrite HandleKind_eqb_refl, Z.eqb_refl. Qed.

Lemma remove_first_skip h pre l :
  Forall (fun p => Handle_eqb h p = false) pre ->
  remove_first h (pre ++ h :: l) = pre ++ l.
Proof.
  induction 1 as [|p pre Hp _ IH]; simpl.
  - now rewrite Handle_eqb_refl.
  - now rewrite Hp, IH.
Qed.

Lemma destroy_wrappers_keeps frame : forall w,
  checked (destroy_wrappers frame w) = checked w
  /\ last_error (destroy_wrappers frame w) = last_error w
  /\ auto_release (destroy_wrappers frame w) = auto_release w.
Proof.
  induction frame as [|h frame IH]; intros w; simpl; [repeat split |].
  destruct (snd h =? nullptr); [apply IH |].
  destruct (IH (Release h w)) as (A & B & C). rewrite A, B, C. repeat split.
Qed.

Lemma destroy_wrappers_live frame : forall pre rest w,
  live w = pre ++ frame ++ rest ->
  Forall (fun h => snd h <> nullptr
                   /\ Forall (fun p => Handle_eqb h p = false) pre) frame ->
  live (destroy_wrappers frame w) = pre ++ rest.
Proof.
  induction frame as [|h frame IH]; intros pre rest w Hl Hf; simpl; [exact Hl |].
  inversion Hf as [|? ? [Hn Hp] Hf']; subst.
  apply Z.eqb_neq in Hn. rewrite Hn.
  apply IH; [| exact Hf'].
  unfold Release. simpl. rewrite Hl. simpl. now apply remove_first_skip.
Qed.


(** ** Statements of a handle-creating function *)

(** What the functions rely on from the runtime: a non-null status is an
    error, and a creating call that succeeds stores a non-null handle. *)
Definition well_behaved (runtime : nat -> ApiCall -> ApiReply) : Prop :=
  forall n c,
    (forall st, reply_status (runtime n c) = Some st -> GetErrorCode st <> ORT_OK)
    /\ (forall k, creates c = Some k -> reply_status (runtime n c) = None ->
        reply_out (runtime n c) <> nullptr).

(** The state between two statements, seen from the function's entry
    [w0]: the statuses checked so far, the wrappers registered so far, and
    nothing live beyond what the wrappers hold. *)
Record inv (w0 w : World) (new : list OrtStatusPtr) (frame : list Handle) : Prop := {
  inv_checked : checked w = checked w0 ++ new;
  inv_frame : auto_release w = frame;
  inv_live : live w = frame ++ live w0;
  inv_nonnull : Forall (fun h => snd h <> nullptr) frame;
  inv_globals : globals_match new w0 w
}.

Section Statements.

Variable runtime : nat -> ApiCall -> ApiReply.
Hypothesis contract : well_behaved runtime.

Lemma status_ok_iff_null n c :
  status_ok (reply_status (runtime n c)) = true <-> reply_status (runtime n c) = None.
Proof.
  destruct (contract n c) as [H _]. unfold status_ok.
  destruct (reply_status (runtime n c)) as [st|]; simpl.
  - specialize (H st eq_refl). destruct (GetErrorCode st); simpl; split; congruence.
  - split; reflexivity.
Qed.

(** A checked call that creates nothing extends the checked statuses by
    its status and changes nothing else the invariant speaks of. *)
Lemma checked_call_keeps c w0 w new frame :
  inv w0 w new frame ->
  creates c = None \/ reply_status (runtime (api_calls w) c) <> None ->
  inv w0 (snd (CheckStatus (reply_status (runtime (api_calls w) c))
                 (snd (call runtime c w))))
      (new ++ [reply_status (runtime (api_calls w) c)]) frame.
Proof.
  intros [Hc Hf Hl Hn Hg] Hno.
  destruct (CheckStatus_spec (reply_status (runtime (api_calls w) c))
              (snd (call runtime c w))) as (_ & E & C & L & A & _).
  assert (Hw : snd (call runtime c w) = log_call c w).
  { unfold call. simpl. destruct (creates c) as [k|]; [| reflexivity].
    destruct (reply_status (runtime (api_calls w) c)); [reflexivity |].
    destruct Hno; congruence. }
  rewrite Hw in *. simpl in C, L, A.
  constructor.
  - now rewrite C, Hc, app_assoc.
  - now rewrite A.
  - now rewrite L.
  - exact Hn.
  - unfold globals_match. now rewrite E, last_checked_snoc.
Qed.

(** A statement: from a state where every status so far was OK it either
    goes on in such a state, or leaves the function with [nullptr] after a
    status that was not OK; the wrappers stay as they are. *)
Definition stmt {A} (frame : list Handle) (m : Body Z A) : Prop :=
  forall w0 w new, inv w0 w new frame -> all_ok new = true ->
    match m w with
    | (inl _, w') => exists new', inv w0 w' new' frame /\ all_ok new' = true
    | (inr r, w') => r = nullptr /\ exists new', inv w0 w' new' frame /\ all_ok new' = false
    end.

Lemma stmt_setter frame c :
  creates c = None -> stmt frame (RETURN_NULLPTR_IF_ERROR runtime c).
Proof.
  intros Hc w0 w new Hi Hok.
  pose proof (checked_call_keeps c w0 w new frame Hi (or_introl Hc)) as Hi'.
  unfold RETURN_NULLPTR_IF_ERROR, CHECK_STATUS, seq.
  destruct (call runtime c w) as [r w1] eqn:Ec.
  assert (Er : r = runtime (api_calls w) c) by (unfold call in Ec; congruence).
  subst r. simpl in Hi'.
  destruct (CheckStatus_spec (reply_status (runtime (api_calls w) c)) w1) as (Ecode & _).
  destruct (CheckStatus (reply_status (runtime (api_calls w) c)) w1) as [e w2].
  simpl in *. subst e.
  fold (status_ok (reply_status (runtime (api_calls w) c))).
  destruct (status_ok (reply_status (runtime (api_calls w) c))) eqn:Es; simpl.
  - eexists. split; [exact Hi' |]. now rewrite all_ok_snoc, Hok, Es.
  - split; [reflexivity |]. eexists. split; [exact Hi' |].
    now rewrite all_ok_snoc, Hok, Es.
Qed.

Lemma stmt_pure {A} frame (a : A) : stmt frame (pure a).
Proof. intros w0 w new Hi Hok. simpl. eauto. Qed.

Lemma stmt_seq {A B} frame (m : Body Z A) (f : A -> Body Z B) :
  stmt frame m -> (forall a, stmt frame (f a)) -> stmt frame (seq m f).
Proof.
  intros Hm Hf w0 w new Hi Hok. unfold seq.
  specialize (Hm w0 w new Hi Hok).
  destruct (m w) as [[a|r] w']; [| exact Hm].
  destruct Hm as (new' & Hi' & Hok'). exact (Hf a w0 w' new' Hi' Hok').
Qed.

Lemma stmt_if {A} frame (b : bool) (m m' : Body Z A) :
  stmt frame m -> stmt frame m' -> stmt frame (if b then m else m').
Proof. now destruct b. Qed.

Lemma stmt_when frame b (m : Body Z Z) : stmt frame m -> stmt frame (when b m).
Proof.
  intros H. unfold when. destruct b; [| apply stmt_pure].
  apply stmt_seq; [exact H | intros; apply stmt_pure].
Qed.

(** What a function body has achieved when it is left, before its
    wrappers are destroyed: either a non-null handle of kind [kind] that no
    wrapper holds, after statuses that were all OK, or [nullptr] after a
    status that was not OK; everything else created is held by a wrapper. *)
Definition body_post (w0 : World) (kind : HandleKind) (out : (Z + Z) * World) : Prop :=
  let w := snd out in
  let r := match fst out with inl r => r | inr r => r end in
  exists new,
    checked w = checked w0 ++ new /\ globals_match new w0 w
    /\ ((r <> nullptr /\ all_ok new = true
         /\ live w = (kind, r) :: auto_release w ++ live w0
         /\ Forall (fun h => snd h <> nullptr /\ Handle_eqb h (kind, r) = false)
                   (auto_release w))
        \/ (r = nullptr /\ all_ok new = false
            /\ live w = auto_release w ++ live w0
            /\ Forall (fun h => snd h <> nullptr) (auto_release w))).

Lemma body_post_failed {A} w0 kind w new frame (res : A + Z) :
  inv w0 w new frame -> all_ok new = false ->
  match res with inl _ => False | inr r => r = nullptr end ->
  body_post w0 kind (match res with inl _ => inr nullptr | inr r => inr r end, w).
Proof.
  intros [Hc Hf Hl Hn Hg] Hok Hr. destruct res as [a|r]; [contradiction |]. subst r.
  exists new. split; [exact Hc |]. split; [exact Hg |]. right.
  simpl. rewrite Hf. auto.
Qed.

Lemma then_ {A} frame (m : Body Z A) (k : A -> Body Z Z) w0 w new kind :
  stmt frame m ->
  inv w0 w new frame -> all_ok new = true ->
  (forall a w' new', inv w0 w' new' frame -> all_ok new' = true ->
                     body_post w0 kind (k a w')) ->
  body_post w0 kind (seq m k w).
Proof.
  intros Hm Hi Hok Hk. unfold seq. specialize (Hm w0 w new Hi Hok).
  destruct (m w) as [[a|r] w'].
  - destruct Hm as (new' & Hi' & Hok'). eauto.
  - destruct Hm as (-> & new' & Hi' & Hok').
    exact (body_post_failed w0 kind w' new' frame (@inr A Z nullptr) Hi' Hok' eq_refl).
Qed.

(** The world after [CHECK_STATUS(c)]. *)
Definition after_check (c : ApiCall) (w : World) : World :=
  snd (CheckStatus (reply_status (runtime (api_calls w) c)) (snd (call runtime c w))).

Lemma run_CHECK_STATUS {R} c w :
  @CHECK_STATUS runtime R c w
  = (inl (fst (last_error_of (reply_status (runtime (api_calls w) c))),
          reply_out (runtime (api_calls w) c)),
     after_check c w).
Proof.
  unfold CHECK_STATUS, after_check.
  destruct (call runtime c w) as [r w1] eqn:Ec.
  assert (Er : r = runtime (api_calls w) c) by (unfold call in Ec; congruence).
  subst r. simpl.
  destruct (CheckStatus_spec (reply_status (runtime (api_calls w) c)) w1) as (E & _).
  destruct (CheckStatus (reply_status (runtime (api_calls w) c)) w1) as [e w2].
  simpl in *. now subst e.
Qed.

Lemma run_RETURN_NULLPTR_IF_ERROR c w :
  RETURN_NULLPTR_IF_ERROR runtime c w
  = (if status_ok (reply_status (runtime (api_calls w) c))
     then inl (reply_out (runtime (api_calls w) c)) else inr nullptr,
     after_check c w).
Proof.
  unfold RETURN_NULLPTR_IF_ERROR, seq. rewrite run_CHECK_STATUS. simpl.
  fold (status_ok (reply_status (runtime (api_calls w) c))).
  now destruct (status_ok (reply_status (runtime (api_calls w) c))).
Qed.

(** A creating call that succeeds leaves one more live handle. *)
Lemma checked_call_creates c kind' w0 w new frame :
  creates c = Some kind' ->
  reply_status (runtime (api_calls w) c) = None ->
  inv w0 w new frame ->
  let w' := after_check c w in
  let h := reply_out (runtime (api_calls w) c) in
  checked w' = checked w0 ++ new ++ [None]
  /\ auto_release w' = frame
  /\ live w' = (kind', h) :: frame ++ live w0
  /\ globals_match (new ++ [None]) w0 w'
  /\ h <> nullptr.
Proof.
  intros Hc Hnull [Hchk Hf Hl Hn Hg]. cbv zeta. unfold after_check.
  assert (Hw : snd (call runtime c w)
               = set_live ((kind', reply_out (runtime (api_calls w) c))
                             :: live (log_call c w)) (log_call c w)).
  { unfold call. simpl. now rewrite Hc, Hnull. }
  rewrite Hw, Hnull. unfold globals_match, last_error. simpl.
  rewrite last_checked_snoc, Hchk, Hf, Hl, <- app_assoc.
  repeat split.
  destruct (contract (api_calls w) c) as [_ H]. now apply (H kind').
Qed.

Lemma create_registered c kind' (k : Z -> Body Z Z) w0 w new frame kind :
  creates c = Some kind' ->
  inv w0 w new frame -> all_ok new = true ->
  (forall h w' new', inv w0 w' new' ((kind', h) :: frame) -> all_ok new' = true ->
                     body_post w0 kind (k h w')) ->
  body_post w0 kind
    (seq (RETURN_NULLPTR_IF_ERROR runtime c)
         (fun h => seq (REGISTER_AUTO_RELEASE_HANDLE kind' h) (fun _ => k h)) w).
Proof.
  intros Hc Hi Hok Hk. unfold seq. rewrite run_RETURN_NULLPTR_IF_ERROR.
  destruct (status_ok (reply_status (runtime (api_calls w) c))) eqn:Es.
  - assert (Hnull : reply_status (runtime (api_calls w) c) = None)
      by now apply status_ok_iff_null.
    destruct (checked_call_creates c kind' w0 w new frame Hc Hnull Hi)
      as (C & A & L & G & Hout).
    unfold REGISTER_AUTO_RELEASE_HANDLE.
    apply (Hk _ _ (new ++ [None])).
    + destruct Hi as [_ _ _ Hn _]. constructor; simpl.
      * exact C.
      * now rewrite A.
      * exact L.
      * now constructor.
      * exact G.
    + now rewrite all_ok_snoc, Hok.
  - assert (Hno : reply_status (runtime (api_calls w) c) <> None).
    { intros E. rewrite E in Es. discriminate. }
    pose proof (checked_call_keeps c w0 w new frame Hi (or_intror Hno)) as Hi'.
    apply (body_post_failed w0 kind _ _ frame (@inr Z Z nullptr) Hi'); [| reflexivity].
    now rewrite all_ok_snoc, Hok, Es.
Qed.

(** A function that ends by creating the handle it returns. *)
Lemma final_create c kind w0 w new frame :
  creates c = Some kind ->
  inv w0 w new frame -> all_ok new = true ->
  Forall (fun h => HandleKind_eqb (fst h) kind = false) frame ->
  body_post w0 kind
    (seq (CHECK_STATUS runtime c)
         (fun r => pure (if is_ORT_OK (fst r) then snd r else nullptr)) w).
Proof.
  intros Hc Hi Hok Hkinds. unfold seq. rewrite run_CHECK_STATUS. simpl.
  fold (status_ok (reply_status (runtime (api_calls w) c))).
  destruct (status_ok (reply_status (runtime (api_calls w) c))) eqn:Es.
  - assert (Hnull : reply_status (runtime (api_calls w) c) = None)
      by now apply status_ok_iff_null.
    destruct (checked_call_creates c kind w0 w new frame Hc Hnull Hi)
      as (C & A & L & G & Hout).
    exists (new ++ [None]). split; [exact C |]. split; [exact G |]. left.
    simpl. rewrite A. repeat split; auto.
    + now rewrite all_ok_snoc, Hok.
    + destruct Hi as [_ _ _ Hn _].
      rewrite Forall_forall in *. intros h Hin. split; [now apply Hn |].
      unfold Handle_eqb. simpl. now rewrite (Hkinds h Hin).
  - assert (Hno : reply_status (runtime (api_calls w) c) <> None).
    { intros E. rewrite E in Es. discriminate. }
    pose proof (checked_call_keeps c w0 w new frame Hi (or_intror Hno)) as Hi'.
    destruct Hi' as [C A L Hn G].
    exists (new ++ [reply_status (runtime (api_calls w) c)]).
    split; [exact C |]. split; [exact G |]. right. simpl.
    fold (after_check c w) in A, L. rewrite A.
    repeat split; auto. now rewrite all_ok_snoc, Hok, Es.
Qed.

(** A function that ends by taking its handle back from the wrapper. *)
Lemma final_unregister kind h w0 w new :
  inv w0 w new [(kind, h)] -> all_ok new = true ->
  body_post w0 kind (UNREGISTER_AUTO_RELEASE kind h w).
Proof.
  intros [C A L Hn G] Hok. exists new. unfold UNREGISTER_AUTO_RELEASE. simpl.
  rewrite A. simpl. rewrite Handle_eqb_refl.
  split; [exact C |]. split; [exact G |]. left.
  inversion Hn; subst. repeat split; auto.
Qed.

(** What a finished call has achieved, wrappers destroyed. *)
Definition fn_post (w0 : World) (kind : HandleKind) (out : Z * World) : Prop :=
  let r := fst out in
  let w := snd out in
  exists new,
    checked w = checked w0 ++ new
    /\ globals_match new w0 w
    /\ (r <> nullptr <-> all_ok new = true)
    /\ (r = nullptr -> live w = live w0)
    /\ (r <> nullptr -> live w = (kind, r) :: live w0)
    /\ auto_release w = auto_release w0.

Lemma function_post kind (body : Body Z Z) w0 :
  body_post (set_auto_release [] w0) kind (body (set_auto_release [] w0)) ->
  fn_post w0 kind (function body w0).
Proof.
  unfold function, body_post, fn_post.
  destruct (body (set_auto_release [] w0)) as [res w']. simpl.
  set (r := match res with inl r => r | inr r => r end).
  intros (new & C & G & H). exists new.
  destruct (destroy_wrappers_keeps (auto_release w') w') as (Dc & Dg & _).
  split; [now rewrite Dc |]. split.
  { unfold globals_match, last_error in *. simpl.
    unfold last_error in Dg. injection Dg as -> ->. exact G. }
  destruct H as [(Hr & Hok & Hl & Hf) | (Hr & Hok & Hl & Hf)].
  - assert (Hlive : live (destroy_wrappers (auto_release w') w') = [(kind, r)] ++ live w0).
    { apply destroy_wrappers_live; [exact Hl |].
      rewrite Forall_forall in *. intros h Hin. destruct (Hf h Hin) as [Hn He].
      split; [exact Hn |]. now constructor. }
    repeat split; auto; try tauto.
  - assert (Hlive : live (destroy_wrappers (auto_release w') w') = [] ++ live w0).
    { apply destroy_wrappers_live; [exact Hl |].
      rewrite Forall_forall in *. intros h Hin. split; [now apply Hf | constructor]. }
    repeat split; auto; try congruence.
Qed.

End Statements.


Lemma inv_start w0 : inv (set_auto_release [] w0) (set_auto_release [] w0) [] [].
Proof.
  constructor; simpl; auto.
  - now rewrite app_nil_r.
  - reflexivity.
Qed.

Lemma stmt_read {A} frame (f : World -> A) :
  stmt frame (fun w => (@inl A Z (f w), w)).
Proof. intros w0 w new Hi Hok. eauto. Qed.

Ltac stmt_solve :=
  repeat first
    [ apply stmt_pure
    | apply stmt_setter; solve [assumption | reflexivity]
    | apply stmt_when
    | apply stmt_seq; [| intros]
    | match goal with
      | |- stmt _ (match ?o with Some _ => _ | None => _ end) => destruct o
      | |- stmt _ (if ?b then _ else _) => destruct b
      end ].

(** Run one statement of a body and go on with the rest. *)
Ltac next_statement :=
  eapply then_; [ stmt_solve | eassumption | eassumption | intros ].

Section Functions.

Variable runtime : nat -> ApiCall -> ApiReply.
Variable K : Constants.
Variables EMSCRIPTEN_PTHREADS ENABLE_EXTENSION_CUSTOM_OPS : bool.
Hypothesis contract : well_behaved runtime.

Lemma OrtCreateSessionOptions_post g a m e p l sv v o w0 :
  fn_post w0 SessionOptions
    (OrtCreateSessionOptions runtime ENABLE_EXTENSION_CUSTOM_OPS g a m e p l sv v o w0).
Proof.
  unfold OrtCreateSessionOptions. apply function_post.
  apply (create_registered runtime contract CreateSessionOptions SessionOptions)
    with (new := []) (frame := []); [reflexivity | apply inv_start | reflexivity |].
  intros h w' new' Hi Hok.
  do 10 next_statement.
  eapply final_unregister; eassumption.
Qed.

Lemma OrtCreateSession_post d n o w0 :
  fn_post w0 Session (OrtCreateSession runtime K EMSCRIPTEN_PTHREADS d n o w0).
Proof.
  unfold OrtCreateSession. apply function_post.
  eapply then_ with (new := []) (frame := []);
    [ stmt_solve | apply inv_start | reflexivity | intros ].
  eapply then_; [ apply stmt_read | eassumption | eassumption | intros ].
  eapply (final_create runtime contract); [reflexivity | eassumption | assumption | constructor].
Qed.

Lemma OrtCreateRunOptions_post sv v t tag w0 :
  fn_post w0 RunOptions (OrtCreateRunOptions runtime sv v t tag w0).
Proof.
  unfold OrtCreateRunOptions. apply function_post.
  apply (create_registered runtime contract CreateRunOptions RunOptions)
    with (new := []) (frame := []); [reflexivity | apply inv_start | reflexivity |].
  intros h w' new' Hi Hok.
  do 4 next_statement.
  eapply final_unregister; eassumption.
Qed.

Lemma OrtCreateBinding_post s w0 :
  fn_post w0 IoBinding (OrtCreateBinding runtime s w0).
Proof.
  unfold OrtCreateBinding. apply function_post.
  eapply (final_create runtime contract) with (new := []) (frame := []);
    [reflexivity | apply inv_start | reflexivity | constructor].
Qed.

Lemma OrtCreateTensor_post t d n dims loc w0 :
  fn_post w0 Value (OrtCreateTensor runtime K t d n dims loc w0).
Proof.
  unfold OrtCreateTensor. apply function_post.
  destruct (unknown_data_location loc) eqn:Hloc.
  2:{ cbv zeta.
    destruct (t =? ONNX_TENSOR_ELEMENT_DATA_TYPE_STRING K).
    - eapply then_ with (new := []) (frame := []);
        [ stmt_solve | apply inv_start | reflexivity | intros allocator w1 new1 Hi1 Hok1 ].
      eapply (create_registered runtime contract); [reflexivity | eassumption | assumption |].
      intros h w2 new2 Hi2 Hok2.
      next_statement.
      eapply final_unregister; eassumption.
    - destruct (loc =? DATA_LOCATION_GPU_BUFFER); [| destruct (loc =? DATA_LOCATION_ML_TENSOR)];
        (eapply (create_registered runtime contract) with (new := []) (frame := []);
         [ reflexivity | apply inv_start | reflexivity | intros h w1 new1 Hi1 Hok1 ];
         eapply (final_create runtime contract);
         [ reflexivity | eassumption | assumption | repeat constructor ]). }
  set (msg := String.append "Invalid data location: "
                (NilZero.string_of_int (Z.to_int loc))).
  exists [CreateStatus ORT_INVALID_ARGUMENT msg]. simpl.
  split; [reflexivity |]. split; [reflexivity |]. right. auto.
Qed.

Lemma exec_post c w0 :
  fn_post w0 (returned_kind c)
    (exec runtime K EMSCRIPTEN_PTHREADS ENABLE_EXTENSION_CUSTOM_OPS c w0).
Proof.
  destruct c; simpl.
  - apply OrtCreateSessionOptions_post.
  - apply OrtCreateSession_post.
  - apply OrtCreateTensor_post.
  - apply OrtCreateRunOptions_post.
  - apply OrtCreateBinding_post.
Qed.

End Functions.

Lemma scripted_runtime_well_behaved failing : well_behaved (scripted_runtime failing).
Proof.
  intros n c. unfold scripted_runtime.
  destruct (existsb (Nat.eqb n) failing); split.
  - intros st [= <-]. discriminate.
  - discriminate.
  - discriminate.
  - intros k _ _. cbv [reply_out nullptr]. lia.
Qed.

(** ** The runtime calls of a function *)

Definition Handle_eq_dec (a b : Handle) : {a = b} + {a <> b}.
Proof.
  destruct a as [k p], b as [k' p'].
  destruct (Z.eq_dec p p') as [->|Hp]; [| right; congruence].
  destruct k, k'; first [left; reflexivity | right; discriminate].
Defined.

Definition occurrences (h : Handle) (l : list Handle) : nat := count_occ Handle_eq_dec l h.

Section Accounting.

Variable runtime : nat -> ApiCall -> ApiReply.

(** The statuses the runtime answers the calls [calls] with, the first of
    them being its call number [n]. *)
Fixpoint statuses_from (n : nat) (calls : list ApiCall) : list OrtStatusPtr :=
  match calls with
  | [] => []
  | c :: cs => reply_status (runtime n c) :: statuses_from (S n) cs
  end.

(** The handles these calls created. *)
Fixpoint created_from (n : nat) (calls : list ApiCall) : list Handle :=
  match calls with
  | [] => []
  | c :: cs =>
      match creates c, reply_status (runtime n c) with
      | Some kind, None => [(kind, reply_out (runtime n c))]
      | _, _ => []
      end ++ created_from (S n) cs
  end.

Lemma statuses_from_app a : forall n b,
  statuses_from n (a ++ b) = statuses_from n a ++ statuses_from (n + length a) b.
Proof.
  induction a as [|c a IH]; intros n b; cbn [app statuses_from length].
  - now rewrite Nat.add_0_r.
  - rewrite IH. now rewrite Nat.add_succ_r.
Qed.

Lemma created_from_app a : forall n b,
  created_from n (a ++ b) = created_from n a ++ created_from (n + length a) b.
Proof.
  induction a as [|c a IH]; intros n b; cbn [app created_from length].
  - now rewrite Nat.add_0_r.
  - rewrite IH, <- app_assoc. now rewrite Nat.add_succ_r.
Qed.

(** From [w] to [w']: the runtime calls [calls] were made, exactly their
    statuses went through [CheckStatus], in order, and no handle is live
    beyond those that were and those the calls created. *)
Definition accounts (w w' : World) : Prop :=
  exists calls,
    api_log w' = api_log w ++ calls
    /\ checked w' = checked w ++ statuses_from (api_calls w) calls
    /\ forall h, (occurrences h (live w')
                  <= occurrences h (live w)
                     + occurrences h (created_from (api_calls w) calls))%nat.

Definition accounted {R A} (m : Body R A) : Prop := forall w, accounts w (snd (m w)).

Lemma accounts_refl w w' :
  api_log w' = api_log w -> checked w' = checked w -> live w' = live w -> accounts w w'.
Proof.
  intros A C L. exists []. rewrite A, C, L, !app_nil_r.
  repeat split. intros h. cbn. lia.
Qed.

Lemma accounts_trans w1 w2 w3 : accounts w1 w2 -> accounts w2 w3 -> accounts w1 w3.
Proof.
  intros (c1 & A1 & C1 & L1) (c2 & A2 & C2 & L2).
  assert (N : api_calls w2 = (api_calls w1 + length c1)%nat).
  { unfold api_calls. now rewrite A1, length_app. }
  exists (c1 ++ c2). rewrite A2, A1, C2, C1, N, <- !app_assoc.
  rewrite statuses_from_app, created_from_app.
  repeat split. intros h. specialize (L1 h). specialize (L2 h).
  unfold occurrences in *. rewrite count_occ_app. rewrite N in L2. lia.
Qed.

Lemma accounted_pure {R A} (a : A) : accounted (@pure R A a).
Proof. intros w. now apply accounts_refl. Qed.

Lemma accounted_leave {R A} (r : R) : accounted (@leave R A r).
Proof. intros w. now apply accounts_refl. Qed.

Lemma accounted_seq {R A B} (m : Body R A) (f : A -> Body R B) :
  accounted m -> (forall a, accounted (f a)) -> accounted (seq m f).
Proof.
  intros Hm Hf w. unfold seq. specialize (Hm w).
  destruct (m w) as [[a|r] w1]; [| exact Hm].
  exact (accounts_trans w w1 _ Hm (Hf a w1)).
Qed.

Lemma accounted_CHECK_STATUS {R} c : accounted (@CHECK_STATUS runtime R c).
Proof.
  intros w. rewrite run_CHECK_STATUS. cbn [snd]. unfold after_check.
  destruct (CheckStatus_spec (reply_status (runtime (api_calls w) c))
              (snd (call runtime c w))) as (_ & _ & C & L & _ & A & _).
  exists [c]. rewrite A, C, L. cbn [statuses_from created_from].
  unfold call. cbn [snd].
  destruct (creates c) as [kind|]; [destruct (reply_status (runtime (api_calls w) c)) |];
    cbn [api_log checked live log_call set_live app]; repeat split; intros h;
    unfold occurrences; cbn [count_occ]; try lia.
  destruct (Handle_eq_dec (kind, reply_out (runtime (api_calls w) c)) h); lia.
Qed.

Lemma accounted_RETURN_NULLPTR_IF_ERROR c : accounted (RETURN_NULLPTR_IF_ERROR runtime c).
Proof.
  unfold RETURN_NULLPTR_IF_ERROR. apply accounted_seq; [apply accounted_CHECK_STATUS |].
  intros r. destruct (is_ORT_OK (fst r)); [apply accounted_pure | apply accounted_leave].
Qed.

Lemma accounted_REGISTER {R} kind var : accounted (@REGISTER_AUTO_RELEASE_HANDLE R kind var).
Proof. intros w. now apply accounts_refl. Qed.

Lemma accounted_UNREGISTER {R} kind var : accounted (@UNREGISTER_AUTO_RELEASE R kind var).
Proof. intros w. now apply accounts_refl. Qed.

Lemma accounted_read {R A} (f : World -> A) : accounted (fun w => (@inl A R (f w), w)).
Proof. intros w. now apply accounts_refl. Qed.

Lemma accounted_when b (m : Body Z Z) : accounted m -> accounted (when b m).
Proof.
  intros H. unfold when. destruct b; [| apply accounted_pure].
  apply accounted_seq; [exact H | intros; apply accounted_pure].
Qed.

Lemma occurrences_remove_first x h : forall l,
  (occurrences h (remove_first x l) <= occurrences h l)%nat.
Proof.
  unfold occurrences.
  induction l as [|y l IH]; cbn [remove_first count_occ]; [lia |].
  destruct (Handle_eqb x y); cbn [count_occ]; destruct (Handle_eq_dec y h); lia.
Qed.

Lemma destroy_wrappers_accounts frame : forall w,
  api_log (destroy_wrappers frame w) = api_log w
  /\ checked (destroy_wrappers frame w) = checked w
  /\ forall h, (occurrences h (live (destroy_wrappers frame w))
                <= occurrences h (live w))%nat.
Proof.
  induction frame as [|x frame IH]; intros w; cbn [destroy_wrappers].
  - repeat split. intros h. lia.
  - destruct (snd x =? nullptr); [apply IH |].
    destruct (IH (Release x w)) as (A & C & L). rewrite A, C.
    repeat split. intros h. specialize (L h).
    pose proof (occurrences_remove_first x h (live w)).
    cbn [Release set_live live] in L. lia.
Qed.

(** A function whose body is accounted for is accounted for. *)
Lemma accounted_function {R} (body : Body R R) w :
  accounted body -> accounts w (snd (function body w)).
Proof.
  intros Hb. unfold function. specialize (Hb (set_auto_release [] w)).
  destruct (body (set_auto_release [] w)) as [res w']. cbn [snd] in *.
  destruct Hb as (calls & A & C & L).
  destruct (destroy_wrappers_accounts (auto_release w') w') as (A' & C' & L').
  exists calls. unfold api_calls in *.
  cbn [set_auto_release api_log checked live] in *.
  rewrite A', C'. repeat split; [exact A | exact C |].
  intros h. specialize (L h). specialize (L' h). lia.
Qed.

End Accounting.

Ltac accounted_solve :=
  repeat first
    [ apply accounted_pure
    | apply accounted_leave
    | apply accounted_RETURN_NULLPTR_IF_ERROR
    | apply accounted_CHECK_STATUS
    | apply accounted_REGISTER
    | apply accounted_UNREGISTER
    | apply accounted_read
    | apply accounted_when
    | apply accounted_seq; [| intros]
    | match goal with
      | |- accounted _ (match ?o with Some _ => _ | None => _ end) => destruct o
      | |- accounted _ (if ?b then _ else _) => destruct b
      end ].

(** [OrtCreateTensor] looks at its data location before it calls the
    runtime; the other functions have no such test. *)
Definition location_accepted (c : CreateCall) : bool :=
  match c with
  | Call_OrtCreateTensor _ _ _ _ data_location =>
      negb (unknown_data_location data_location)
  | _ => true
  end.

Lemma exec_accounts runtime K pthreads custom_ops c w0 :
  location_accepted c = true ->
  accounts runtime w0 (snd (exec runtime K pthreads custom_ops c w0)).
Proof.
  intros Hacc. destruct c; cbn [exec location_accepted] in *.
  - unfold OrtCreateSessionOptions. apply accounted_function. accounted_solve.
  - unfold OrtCreateSession. apply accounted_function. accounted_solve.
  - unfold OrtCreateTensor. apply accounted_function.
    apply negb_true_iff in Hacc. rewrite Hacc. cbv zeta. accounted_solve.
  - unfold OrtCreateRunOptions. apply accounted_function. accounted_solve.
  - unfold OrtCreateBinding. apply accounted_function. accounted_solve.
Qed.

Lemma exec_refused runtime K pthreads custom_ops c w0 :
  location_accepted c = false ->
  let out := exec runtime K pthreads custom_ops c w0 in
  fst out = nullptr /\ api_log (snd out) = api_log w0 /\ live (snd out) = live w0
  /\ auto_release (snd out) = auto_release w0
  /\ g_last_error_code (snd out) = ORT_INVALID_ARGUMENT.
Proof.
  intros Hacc. destruct c; cbn [location_accepted] in Hacc; try discriminate.
  apply negb_false_iff in Hacc. cbn [exec]. unfold OrtCreateTensor, function.
  rewrite Hacc. cbn. repeat split.
Qed.

(** C6 fails as stated: with data location 3 (TEXTURE), [OrtCreateTensor]
    returns [nullptr] although it makes no runtime call at all, so that no
    runtime call it makes returns anything but ORT_OK. *)
Lemma C6_counterexample :
  let out := exec (scripted_runtime []) wasm32 false false
                  (Call_OrtCreateTensor 1 0 16 [2; 2] 3) initial_world in
  fst out = nullptr
  /\ api_log (snd out) = api_log initial_world
  /\ last_error (snd out) = (ORT_INVALID_ARGUMENT, "Invalid data location: 3"%string)
  /\ (forall n c, reply_status (scripted_runtime [] n c) = None).
Proof. repeat split. Qed.

(** C6 (amended): for each of [OrtCreateSessionOptions],
    [OrtCreateSession], [OrtCreateTensor], [OrtCreateRunOptions] and
    [OrtCreateBinding], against a runtime whose non-null statuses are
    errors and whose successful creations store non-null handles: the
    function returns a non-null handle exactly when every runtime call it
    made returned ORT_OK and, for [OrtCreateTensor], the data location is
    one of the four it accepts (any other is refused before the first
    runtime call); it returns [nullptr] otherwise.  On [nullptr] every
    resource created during the call has been released again (the live
    resources are those before the call); on success exactly the returned
    handle has been added, and it is a handle of the function's kind that
    one of these calls created; the caller's wrappers are untouched. *)
Theorem C6_handle_iff_all_ok runtime K pthreads custom_ops c w0 :
  well_behaved runtime ->
  let r := fst (exec runtime K pthreads custom_ops c w0) in
  let w := snd (exec runtime K pthreads custom_ops c w0) in
  exists calls,
    let statuses := statuses_from runtime (api_calls w0) calls in
    api_log w = api_log w0 ++ calls
    /\ (r <> nullptr <-> location_accepted c = true /\ all_ok statuses = true)
    /\ (r = nullptr <-> location_accepted c = false \/ all_ok statuses = false)
    /\ (location_accepted c = false -> calls = [])
    /\ (location_accepted c = true -> checked w = checked w0 ++ statuses)
    /\ (r = nullptr -> live w = live w0)
    /\ (r <> nullptr ->
        live w = (returned_kind c, r) :: live w0
        /\ In (returned_kind c, r) (created_from runtime (api_calls w0) calls))
    /\ auto_release w = auto_release w0.
Proof.
  intros Hc. cbv zeta.
  destruct (location_accepted c) eqn:Hacc.
  - destruct (exec_post runtime K pthreads custom_ops Hc c w0)
      as (new & C & _ & Hiff & Hnull & Hlive & Ha).
    destruct (exec_accounts runtime K pthreads custom_ops c w0 Hacc)
      as (calls & A & C' & L).
    assert (En : new = statuses_from runtime (api_calls w0) calls).
    { rewrite C in C'. now apply app_inv_head in C'. }
    subst new. exists calls.
    split; [exact A |].
    split; [rewrite Hiff; tauto |].
    split.
    { split.
      - intros Hr. right. apply not_true_is_false. intros E.
        apply Hiff in E. contradiction.
      - intros [H|H]; [discriminate |].
        destruct (Z.eq_dec (fst (exec runtime K pthreads custom_ops c w0)) nullptr)
          as [Hz|Hz]; [exact Hz |].
        apply Hiff in Hz. congruence. }
    split; [discriminate |]. split; [intros _; exact C' |].
    split; [exact Hnull |]. split; [| exact Ha].
    intros Hr. split; [now apply Hlive |].
    specialize (L (returned_kind c, fst (exec runtime K pthreads custom_ops c w0))).
    rewrite (Hlive Hr) in L. unfold occurrences in L.
    rewrite count_occ_cons_eq in L by reflexivity.
    apply (count_occ_In Handle_eq_dec). unfold gt.
    apply (Nat.add_lt_mono_l _ _
             (count_occ Handle_eq_dec (live w0)
                (returned_kind c, fst (exec runtime K pthreads custom_ops c w0)))).
    rewrite Nat.add_0_r. exact L.
  - destruct (exec_refused runtime K pthreads custom_ops c w0 Hacc)
      as (R & A & L & Ha & _).
    exists []. cbv zeta. rewrite app_nil_r.
    split; [exact A |].
    split; [split; [intros H; contradiction | intros [H _]; discriminate] |].
    split; [split; [intros _; now left | intros _; exact R] |].
    split; [reflexivity |]. split; [discriminate |].
    split; [intros _; exact L |]. split; [intros H; contradiction | exact Ha].
Qed.

(** A string tensor whose fill fails: the three calls were made, the
    result is [nullptr], and the tensor created on the way is released
    again. *)
Lemma C6_handle_iff_all_ok_witness :
  fst (exec (scripted_runtime [2%nat]) wasm32 false false
            (Call_OrtCreateTensor 8 0 16 [2; 2] 1) initial_world) = nullptr
  /\ live (snd (exec (scripted_runtime [2%nat]) wasm32 false false
                     (Call_OrtCreateTensor 8 0 16 [2; 2] 1) initial_world)) = [].
Proof.
  destruct (C6_handle_iff_all_ok (scripted_runtime [2%nat]) wasm32 false false
              (Call_OrtCreateTensor 8 0 16 [2; 2] 1) initial_world
              (scripted_runtime_well_behaved [2%nat]))
    as (calls & _ & _ & _ & _ & _ & Hl & _).
  split; [reflexivity |]. apply Hl. reflexivity.
Defined.

(** ** The last error after a call *)

(** From [w] to [w'] statuses went through [CheckStatus], and the last
    error is that of the last of them; [strict] says that there was one. *)
Definition reports (strict : bool) (w w' : World) : Prop :=
  exists new,
    checked w' = checked w ++ new
    /\ globals_match new w w'
    /\ (strict = true -> new <> []).

Lemma last_checked_app a b :
  last_checked (a ++ b)
  = match last_checked b with Some s => Some s | None => last_checked a end.
Proof.
  induction b as [|s b IH] using rev_ind.
  - now rewrite app_nil_r.
  - now rewrite app_assoc, !last_checked_snoc.
Qed.

Lemma reports_refl w w' :
  checked w' = checked w -> last_error w' = last_error w -> reports false w w'.
Proof.
  intros C L. exists []. rewrite app_nil_r.
  split; [exact C |]. split; [exact L | discriminate].
Qed.

Lemma reports_trans b1 b2 w1 w2 w3 :
  reports b1 w1 w2 -> reports b2 w2 w3 -> reports (b1 || b2) w1 w3.
Proof.
  intros (n1 & C1 & G1 & S1) (n2 & C2 & G2 & S2). exists (n1 ++ n2).
  split; [now rewrite C2, C1, app_assoc |]. split.
  - unfold globals_match in *. rewrite last_checked_app, G2.
    destruct (last_checked n2); [reflexivity | exact G1].
  - intros H. apply orb_true_iff in H. intros E. apply app_eq_nil in E as [E1 E2].
    destruct H as [H|H]; [now apply S1 | now apply S2].
Qed.

Lemma reports_weaken b w w' : reports b w w' -> reports false w w'.
Proof. intros (n & C & G & _). exists n. repeat split; auto. discriminate. Qed.

Lemma reports_CheckStatus s w : reports true w (snd (CheckStatus s w)).
Proof.
  destruct (CheckStatus_spec s w) as (_ & L & C & _).
  exists [s]. split; [exact C |]. split; [exact L | discriminate].
Qed.

(** What [reports] comes to: the last of the statuses decides the last
    error, and [OrtGetLastError] returns it. *)
Lemma reports_last w w' :
  reports true w w' ->
  exists before s,
    checked w' = checked w ++ before ++ [s]
    /\ last_error w' = last_error_of s
    /\ OrtGetLastError w'
       = (ORT_OK, fst (last_error_of s),
          if (String.length (snd (last_error_of s)) =? 0)%nat
          then None else Some (snd (last_error_of s))).
Proof.
  intros (new & C & G & Hne). specialize (Hne eq_refl).
  destruct (exists_last Hne) as (before & s & ->).
  exists before, s. split; [exact C |].
  unfold globals_match in G. rewrite last_checked_snoc in G.
  split; [exact G |].
  unfold OrtGetLastError. unfold last_error in G. rewrite <- G. reflexivity.
Qed.

(** *** The handle-creating functions *)

Section Checking.

Variable runtime : nat -> ApiCall -> ApiReply.

Definition checking (strict : bool) {R A} (m : Body R A) : Prop :=
  forall w, reports strict w (snd (m w)).

Lemma checking_weaken {R A} b (m : Body R A) : checking b m -> checking false m.
Proof. intros H w. exact (reports_weaken b _ _ (H w)). Qed.

Lemma checking_pure {R A} (a : A) : checking false (@pure R A a).
Proof. intros w. now apply reports_refl. Qed.

Lemma checking_leave {R A} (r : R) : checking false (@leave R A r).
Proof. intros w. now apply reports_refl. Qed.

Lemma checking_seq {R A B} b (m : Body R A) (f : A -> Body R B) :
  checking b m -> (forall a, checking false (f a)) -> checking b (seq m f).
Proof.
  intros Hm Hf w. unfold seq. specialize (Hm w).
  destruct (m w) as [[a|r] w1]; [| exact Hm].
  pose proof (reports_trans b false w w1 _ Hm (Hf a w1)) as H.
  now rewrite orb_false_r in H.
Qed.

Lemma checking_CHECK_STATUS {R} c : checking true (@CHECK_STATUS runtime R c).
Proof.
  intros w. rewrite run_CHECK_STATUS. cbn [snd]. unfold after_check.
  pose proof (reports_CheckStatus (reply_status (runtime (api_calls w) c))
                (snd (call runtime c w))) as (new & C & G & Hne).
  exists new. split; [| split; [| exact Hne]].
  - rewrite C. unfold call. cbn [snd].
    destruct (creates c); [destruct (reply_status _) |]; reflexivity.
  - unfold globals_match in *. rewrite G.
    destruct (last_checked new); [reflexivity |].
    unfold call. cbn [snd].
    destruct (creates c); [destruct (reply_status _) |]; reflexivity.
Qed.

Lemma checking_RETURN_NULLPTR_IF_ERROR c :
  checking true (RETURN_NULLPTR_IF_ERROR runtime c).
Proof.
  unfold RETURN_NULLPTR_IF_ERROR. apply checking_seq; [apply checking_CHECK_STATUS |].
  intros r. destruct (is_ORT_OK (fst r)); [apply checking_pure | apply checking_leave].
Qed.

Lemma checking_REGISTER {R} kind var :
  checking false (@REGISTER_AUTO_RELEASE_HANDLE R kind var).
Proof. intros w. now apply reports_refl. Qed.

Lemma checking_UNREGISTER {R} kind var :
  checking false (@UNREGISTER_AUTO_RELEASE R kind var).
Proof. intros w. now apply reports_refl. Qed.

Lemma checking_read {R A} (f : World -> A) :
  checking false (fun w => (@inl A R (f w), w)).
Proof. intros w. now apply reports_refl. Qed.

Lemma checking_when b (m : Body Z Z) : checking false m -> checking false (when b m).
Proof.
  intros H. unfold when. destruct b; [| apply checking_pure].
  apply checking_seq; [exact H | intros; apply checking_pure].
Qed.

Lemma checking_function {R} b (body : Body R R) w :
  checking b body -> reports b w (snd (function body w)).
Proof.
  intros Hb. unfold function. specialize (Hb (set_auto_release [] w)).
  destruct (body (set_auto_release [] w)) as [res w']. cbn [snd] in *.
  destruct Hb as (new & C & G & Hne).
  destruct (destroy_wrappers_keeps (auto_release w') w') as (Dc & Dg & _).
  exists new. split; [| split; [| exact Hne]].
  - cbn [set_auto_release checked] in *. now rewrite Dc.
  - unfold globals_match, last_error in *. cbn [set_auto_release g_last_error_code
      g_last_error_message] in *. unfold last_error in Dg. now rewrite Dg.
Qed.

End Checking.

Ltac checking_rest :=
  repeat first
    [ apply checking_pure
    | apply checking_leave
    | apply checking_REGISTER
    | apply checking_UNREGISTER
    | apply checking_read
    | apply checking_when
    | apply (checking_weaken true); apply checking_RETURN_NULLPTR_IF_ERROR
    | apply (checking_weaken true); apply checking_CHECK_STATUS
    | apply checking_seq; [| intros]
    | match goal with
      | |- checking _ (match ?o with Some _ => _ | None => _ end) => destruct o
      | |- checking _ (if ?b then _ else _) => destruct b
      end ].

(** A body whose first statement is a checked call. *)
Ltac checking_first :=
  first
    [ apply checking_RETURN_NULLPTR_IF_ERROR
    | apply checking_CHECK_STATUS
    | match goal with
      | |- checking _ (if ?b then _ else _) => destruct b; checking_first
      end
    | apply checking_seq; [checking_first | intros; checking_rest] ].

Lemma exec_reports runtime K pthreads custom_ops c w0 :
  reports true w0 (snd (exec runtime K pthreads custom_ops c w0)).
Proof.
  destruct c; cbn [exec].
  - unfold OrtCreateSessionOptions. apply checking_function. checking_first.
  - unfold OrtCreateSession. apply checking_function. checking_first.
  - unfold OrtCreateTensor. apply checking_function.
    destruct (unknown_data_location data_location).
    + intros w. cbn [snd].
      match goal with
      | |- context [CheckStatus ?s w] =>
          pose proof (reports_CheckStatus s w) as H; destruct (CheckStatus s w)
      end.
      exact H.
    + cbv zeta. checking_first.
  - unfold OrtCreateRunOptions. apply checking_function. checking_first.
  - unfold OrtCreateBinding. apply checking_function. checking_first.
Qed.

(** *** The other functions *)

Module Calls.
Import WasmCalls.

Section CodeChecking.

Variable runtime : nat -> Call -> Reply.
Variable K : Constants.
Variable E : Enumerations.

Definition code_checking (strict : bool) {R A} (c : Code R A) : Prop :=
  forall m, reports strict (world m) (world (snd (c m))).

Lemma code_checking_weaken {R A} b (c : Code R A) :
  code_checking b c -> code_checking false c.
Proof. intros H m. exact (reports_weaken b _ _ (H m)). Qed.

Lemma code_checking_yield {R A} (a : A) : code_checking false (@yield R A a).
Proof. intros m. now apply reports_refl. Qed.

Lemma code_checking_leave {R A} (r : R) : code_checking false (@leave_with R A r).
Proof. intros m. now apply reports_refl. Qed.

Lemma code_checking_and_then {R A B} b (c : Code R A) (f : A -> Code R B) :
  code_checking b c -> (forall a, code_checking false (f a)) ->
  code_checking b (and_then c f).
Proof.
  intros Hc Hf m. unfold and_then. specialize (Hc m).
  destruct (c m) as [[a|r] m1]; [| exact Hc].
  pose proof (reports_trans b false _ _ _ Hc (Hf a m1)) as H.
  now rewrite orb_false_r in H.
Qed.

(** A statement that never leaves and checks nothing, before a statement
    that checks. *)
Lemma code_checking_after {R A B} (c : Code R A) (f : A -> Code R B) :
  (forall m, exists a m', c m = (inl a, m') /\ reports false (world m) (world m')) ->
  (forall a, code_checking true (f a)) ->
  code_checking true (and_then c f).
Proof.
  intros Hc Hf m. unfold and_then. destruct (Hc m) as (a & m' & -> & H).
  exact (reports_trans false true _ _ _ H (Hf a m')).
Qed.

Lemma code_checking_ask {R} c : code_checking false (@ask runtime R c).
Proof. intros m. now apply reports_refl. Qed.

Lemma code_checking_effect {R} e : code_checking false (@effect R e).
Proof. intros m. now apply reports_refl. Qed.

Lemma code_checking_effects {R} l : code_checking false (@effects R l).
Proof.
  unfold effects. induction l as [|e l IH]; cbn [fold_right].
  - apply code_checking_yield.
  - apply code_checking_and_then; [apply code_checking_effect | intros _; exact IH].
Qed.

Lemma code_checking_check {R} s : code_checking true (@check R s).
Proof.
  intros m. unfold check.
  pose proof (reports_CheckStatus s (world m)) as H.
  destruct (CheckStatus s (world m)) as [e w]. exact H.
Qed.

Lemma code_checking_CHECK_STATUS {R} c : code_checking true (@CHECK_STATUS runtime R c).
Proof.
  unfold CHECK_STATUS. apply code_checking_after.
  - intros m. eexists. eexists. split; [reflexivity |]. now apply reports_refl.
  - intros r. apply code_checking_and_then; [apply code_checking_check |].
    intros e. apply code_checking_yield.
Qed.

Lemma code_checking_RETURN_ERROR_CODE_IF_ERROR c :
  code_checking true (RETURN_ERROR_CODE_IF_ERROR runtime c).
Proof.
  unfold RETURN_ERROR_CODE_IF_ERROR.
  apply code_checking_and_then; [apply code_checking_CHECK_STATUS |].
  intros r. destruct (is_ORT_OK (fst r));
    [apply code_checking_yield | apply code_checking_leave].
Qed.

Lemma code_checking_RETURN_NULLPTR_IF_ERROR c :
  code_checking true (WasmCalls.RETURN_NULLPTR_IF_ERROR runtime c).
Proof.
  unfold WasmCalls.RETURN_NULLPTR_IF_ERROR.
  apply code_checking_and_then; [apply code_checking_CHECK_STATUS |].
  intros r. destruct (is_ORT_OK (fst r));
    [apply code_checking_yield | apply code_checking_leave].
Qed.

Lemma code_checking_value_or_nullptr c : code_checking true (value_or_nullptr runtime c).
Proof.
  unfold value_or_nullptr.
  apply code_checking_and_then; [apply code_checking_CHECK_STATUS |].
  intros r. apply code_checking_yield.
Qed.

Lemma code_checking_return_status {A} code msg :
  code_checking true (@return_status A code msg).
Proof.
  unfold return_status. apply code_checking_and_then; [apply code_checking_check |].
  intros e. apply code_checking_leave.
Qed.

Lemma code_checking_REGISTER {R} r : code_checking false (@REGISTER_AUTO_RELEASE R r).
Proof. intros m. now apply reports_refl. Qed.

Lemma code_checking_UNREGISTER {R} r : code_checking false (@UNREGISTER_AUTO_RELEASE R r).
Proof. intros m. now apply reports_refl. Qed.

Lemma code_checking_set_env {R} env :
  code_checking false
    (fun m => (@inl unit R tt, set_world (set_g_env env (world m)) m)).
Proof. intros m. now apply reports_refl. Qed.

Lemma world_destroy_wrappers l : forall m,
  world (WasmCalls.destroy_wrappers l m) = world m.
Proof.
  induction l as [|r l IH]; intros m; cbn [WasmCalls.destroy_wrappers]; [reflexivity |].
  rewrite IH. now destruct (pointer_of r =? nullptr).
Qed.

Lemma code_checking_function {R} b (body : Code R R) m :
  code_checking b body -> reports b (world m) (world (snd (WasmCalls.function body m))).
Proof.
  intros Hb. unfold WasmCalls.function. specialize (Hb (set_wrappers [] m)).
  destruct (body (set_wrappers [] m)) as [res m']. cbn [snd] in *.
  cbn [set_wrappers world]. now rewrite world_destroy_wrappers.
Qed.

Lemma code_checking_call_function {R A} b (f : Machine -> A * Machine) :
  (forall m, reports b (world m) (world (snd (f m)))) ->
  code_checking b (@call_function R A f).
Proof.
  intros H m. unfold call_function. specialize (H m). now destruct (f m).
Qed.

End CodeChecking.

Ltac code_rest :=
  repeat first
    [ apply code_checking_yield
    | apply code_checking_leave
    | apply code_checking_ask
    | apply code_checking_effect
    | apply code_checking_effects
    | apply code_checking_REGISTER
    | apply code_checking_UNREGISTER
    | apply code_checking_set_env
    | apply (code_checking_weaken true); apply code_checking_check
    | apply (code_checking_weaken true); apply code_checking_CHECK_STATUS
    | apply (code_checking_weaken true); apply code_checking_RETURN_ERROR_CODE_IF_ERROR
    | apply (code_checking_weaken true); apply code_checking_RETURN_NULLPTR_IF_ERROR
    | apply (code_checking_weaken true); apply code_checking_value_or_nullptr
    | apply (code_checking_weaken true); apply code_checking_return_status
    | apply code_checking_and_then; [| intros]
    | match goal with
      | |- code_checking _ (if ?b then _ else _) => destruct b
      end ].

(** A body whose first statement checks a status. *)
Ltac code_first :=
  first
    [ apply code_checking_value_or_nullptr
    | apply code_checking_return_status
    | apply code_checking_RETURN_ERROR_CODE_IF_ERROR
    | apply code_checking_RETURN_NULLPTR_IF_ERROR
    | apply code_checking_CHECK_STATUS
    | apply code_checking_check
    | match goal with
      | |- code_checking _ (if ?b then _ else _) => destruct b; code_first
      end
    | apply code_checking_and_then; [code_first | intros; code_rest] ].

Section Functions.

Variable runtime : nat -> Call -> Reply.
Variable K : Constants.
Variable E : Enumerations.
Variable pthreads : bool.

Lemma checked_call_reports c m :
  reports true (world m) (world (snd (checked_call runtime c m))).
Proof. unfold checked_call. apply code_checking_function. code_first. Qed.

Lemma text_call_reports c m :
  reports true (world m) (world (snd (text_call runtime c m))).
Proof. unfold text_call. apply code_checking_function. code_first. Qed.

Lemma OrtGetInputOutputCount_reports session m :
  reports true (world m) (world (snd (OrtGetInputOutputCount runtime session m))).
Proof.
  unfold OrtGetInputOutputCount. apply code_checking_function. code_first.
Qed.

Lemma OrtInit_reports n l m :
  reports true (world m) (world (snd (OrtInit runtime pthreads n l m))).
Proof.
  unfold OrtInit. apply code_checking_function. destruct pthreads.
  - code_first.
  - apply code_checking_after.
    + intros m0. eexists. eexists. split; [reflexivity |]. now apply reports_refl.
    + intros r. apply code_checking_after.
      * intros m0. eexists. eexists. split; [reflexivity |]. now apply reports_refl.
      * intros _. apply code_checking_check.
Qed.

Lemma exec_code_reports f m :
  reports true (world m) (world (snd (WasmCalls.exec runtime K E pthreads f m))).
Proof.
  destruct f; cbn [WasmCalls.exec snd].
  - apply OrtInit_reports.
  - apply checked_call_reports.
  - apply checked_call_reports.
  - apply checked_call_reports.
  - apply OrtGetInputOutputCount_reports.
  - unfold OrtGetInputOutputMetadata. apply code_checking_function.
    apply code_checking_and_then;
      [apply code_checking_RETURN_ERROR_CODE_IF_ERROR | intros a].
    apply code_checking_and_then.
    + apply code_checking_call_function. intros m0.
      exact (reports_weaken true _ _ (OrtGetInputOutputCount_reports session m0)).
    + intros counts. code_rest.
  - unfold OrtGetTensorData. apply code_checking_function. code_first.
  - apply checked_call_reports.
  - apply checked_call_reports.
  - unfold OrtBindOutput. apply code_checking_function.
    destruct (negb (output =? nullptr)); [code_first |].
    destruct (unknown_output_location output_location); [code_first |].
    apply code_checking_and_then; [| intros; code_rest].
    destruct (negb (output_location =? DATA_LOCATION_GPU_BUFFER)
              && negb (output_location =? DATA_LOCATION_ML_TENSOR));
      [| destruct (output_location =? DATA_LOCATION_ML_TENSOR)];
      apply code_checking_RETURN_ERROR_CODE_IF_ERROR.
  - unfold OrtRunWithBinding. apply code_checking_function. code_first.
  - apply checked_call_reports.
Qed.

Lemma exec_other_reports f m :
  reports true (world m) (world (exec_other runtime f m)).
Proof.
  destruct f; cbn [exec_other];
    try apply checked_call_reports; try apply text_call_reports.
  - unfold OrtFree. apply code_checking_function. code_first.
  - unfold OrtTrainingLoadCheckpoint. apply code_checking_function. code_first.
  - unfold OrtTrainingCreateSession. apply code_checking_function.
    apply code_checking_after.
    + intros m0. eexists. eexists. split; [reflexivity |]. now apply reports_refl.
    + intros env. apply code_checking_value_or_nullptr.
  - unfold OrtTrainingGetModelInputOutputCount. apply code_checking_function.
    code_first.
  - unfold OrtTrainingGetModelInputOutputName. apply code_checking_function.
    code_first.
Qed.

End Functions.

End Calls.

(** After a call that went from [w0] to [w]: at least one status went
    through [CheckStatus], the last error is the code and message of the
    last of them, and that is what [OrtGetLastError] returns. *)
Definition last_status_decides (w0 w : World) : Prop :=
  exists before s,
    checked w = checked w0 ++ before ++ [s]
    /\ last_error w = last_error_of s
    /\ (s = None -> last_error w = (ORT_OK, EmptyString))
    /\ OrtGetLastError w
       = (ORT_OK, fst (last_error_of s),
          if (String.length (snd (last_error_of s)) =? 0)%nat
          then None else Some (snd (last_error_of s))).

Lemma reports_decides w0 w : reports true w0 w -> last_status_decides w0 w.
Proof.
  intros R. destruct (reports_last w0 w R) as (before & s & C & L & G).
  exists before, s. split; [exact C |]. split; [exact L |]. split; [| exact G].
  intros ->. exact L.
Qed.

(** C7: [CheckStatus] leaves ORT_OK and the empty message after a null
    status, and the code and message of the status otherwise, and returns
    that code; [OrtGetLastError] reports ORT_OK as its own result, the
    stored code, and the stored message, as a null pointer exactly when the
    message is empty.  Every function of api.cc that passes a status to
    [CheckStatus] (the five handle-creating functions, the twelve that
    return an error code, [OrtGetInputName], [OrtGetOutputName], [OrtFree],
    [OrtEndProfiling] and the training functions) passes at least one,
    and after the call the last error is the code and message of the last
    status it passed, ORT_OK and the empty message if that was a success,
    which is what [OrtGetLastError] then returns. *)
Theorem C7_last_error :
  (forall s w,
      let w' := snd (CheckStatus s w) in
      fst (CheckStatus s w) = fst (last_error_of s)
      /\ last_error w' = last_error_of s
      /\ (s = None -> last_error w' = (ORT_OK, EmptyString))
      /\ OrtGetLastError w'
         = (ORT_OK, fst (last_error_of s),
            if (String.length (snd (last_error_of s)) =? 0)%nat
            then None else Some (snd (last_error_of s))))
  /\ (forall w, exists msg,
        OrtGetLastError w = (ORT_OK, g_last_error_code w, msg)
        /\ (msg = None <-> g_last_error_message w = EmptyString)
        /\ (forall m, msg = Some m -> m = g_last_error_message w))
  /\ (forall runtime K pthreads custom_ops c w0,
        last_status_decides w0 (snd (exec runtime K pthreads custom_ops c w0)))
  /\ (forall runtime K E pthreads f m,
        last_status_decides (WasmCalls.world m)
          (WasmCalls.world (snd (WasmCalls.exec runtime K E pthreads f m))))
  /\ (forall runtime f m,
        last_status_decides (WasmCalls.world m)
          (WasmCalls.world (WasmCalls.exec_other runtime f m))).
Proof.
  split; [| split; [| split; [| split]]].
  - intros s w. cbv zeta.
    destruct s as [st|]; repeat split; intros; try discriminate; reflexivity.
  - intros w. unfold OrtGetLastError.
    destruct (g_last_error_message w) as [|ch m] eqn:E; simpl.
    + exists None. repeat split; auto. discriminate.
    + exists (Some (String ch m)). repeat split; try discriminate.
      intros m' [= <-]. reflexivity.
  - intros. apply reports_decides, exec_reports.
  - intros. apply reports_decides, Calls.exec_code_reports.
  - intros. apply reports_decides, Calls.exec_other_reports.
Qed.

(** The failing fill of a string tensor leaves its code and message. *)
Lemma C7_last_error_witness :
  last_error (snd (exec (scripted_runtime [2%nat]) wasm32 false false
                        (Call_OrtCreateTensor 8 0 16 [2; 2] 1) initial_world))
  = (ORT_FAIL, "scripted failure"%string).
Proof.
  destruct C7_last_error as (_ & _ & H & _).
  destruct (H (scripted_runtime [2%nat]) wasm32 false false
              (Call_OrtCreateTensor 8 0 16 [2; 2] 1) initial_world)
    as (before & s & C & L & _).
  vm_compute in C. apply (app_inj_tail [None; None] before) in C as [_ <-].
  exact L.
Defined.

(** ** Data locations *)

Definition known_data_location (loc : Z) : Prop :=
  loc = DATA_LOCATION_CPU \/ loc = DATA_LOCATION_CPU_PINNED
  \/ loc = DATA_LOCATION_GPU_BUFFER \/ loc = DATA_LOCATION_ML_TENSOR.

Lemma known_data_location_iff loc :
  unknown_data_location loc = false <-> known_data_location loc.
Proof.
  unfold unknown_data_location, known_data_location.
  rewrite !andb_false_iff, !negb_false_iff, !Z.eqb_eq. tauto.
Qed.

Lemma api_log_after_check runtime c w :
  api_log (after_check runtime c w) = api_log w ++ [c].
Proof.
  unfold after_check.
  destruct (CheckStatus_spec (reply_status (runtime (api_calls w) c))
              (snd (call runtime c w))) as (_ & _ & _ & _ & _ & E & _).
  rewrite E. unfold call. simpl.
  destruct (creates c); [destruct (reply_status _) |]; reflexivity.
Qed.

Lemma api_calls_after_check runtime c w :
  api_calls (after_check runtime c w) = S (api_calls w).
Proof.
  unfold api_calls. rewrite api_log_after_check, length_app. cbn [length]. lia.
Qed.

Lemma api_log_destroy_wrappers frame : forall w,
  api_log (destroy_wrappers frame w) = api_log w.
Proof.
  induction frame as [|h frame IH]; intros w; simpl; [reflexivity |].
  destruct (snd h =? nullptr); rewrite IH; reflexivity.
Qed.

Lemma api_log_set_auto_release l w : api_log (set_auto_release l w) = api_log w.
Proof. reflexivity. Qed.

Ltac log_norm :=
  cbn [fst snd];
  repeat first [ rewrite api_log_set_auto_release
               | rewrite api_log_destroy_wrappers
               | rewrite api_log_after_check ];
  rewrite <- ?app_assoc.

Section StringTensor.

Variable runtime : nat -> ApiCall -> ApiReply.
Variable K : Constants.
Variables (d n : Z) (dims : list Z) (loc : Z) (w : World).

Hypothesis known : known_data_location loc.

(** The three calls of the string branch and what the runtime answers. *)
Definition allocator_reply : ApiReply :=
  runtime (api_calls w) GetAllocatorWithDefaultOptions.

Definition create_string_tensor : ApiCall :=
  CreateTensorAsOrtValue (reply_out allocator_reply)
    (if 0 <? Z.of_nat (length dims) then Some (map wrap64 dims) else None)
    (Z.of_nat (length dims)) (ONNX_TENSOR_ELEMENT_DATA_TYPE_STRING K).

Definition tensor_reply : ApiReply := runtime (S (api_calls w)) create_string_tensor.

Definition fill_string_tensor : ApiCall :=
  FillStringTensor (reply_out tensor_reply) d (n / pointer_size K).

Definition fill_reply : ApiReply := runtime (S (S (api_calls w))) fill_string_tensor.

Lemma string_tensor_calls :
  let out := OrtCreateTensor runtime K (ONNX_TENSOR_ELEMENT_DATA_TYPE_STRING K)
                             d n dims loc w in
  api_log (snd out)
  = api_log w
    ++ (if status_ok (reply_status allocator_reply)
        then if status_ok (reply_status tensor_reply)
             then [GetAllocatorWithDefaultOptions; create_string_tensor;
                   fill_string_tensor]
             else [GetAllocatorWithDefaultOptions; create_string_tensor]
        else [GetAllocatorWithDefaultOptions])
  /\ fst out
     = (if status_ok (reply_status allocator_reply)
           && status_ok (reply_status tensor_reply)
           && status_ok (reply_status fill_reply)
        then reply_out tensor_reply else nullptr).
Proof.
  cbv zeta. unfold OrtCreateTensor, function.
  pose proof known as Hv. apply known_data_location_iff in Hv.
  rewrite Hv. cbv zeta.
  rewrite Z.eqb_refl. unfold seq.
  rewrite run_RETURN_NULLPTR_IF_ERROR.
  change (runtime (api_calls (set_auto_release [] w)) GetAllocatorWithDefaultOptions)
    with allocator_reply.
  destruct (status_ok (reply_status allocator_reply)); cbn [andb];
    [| log_norm; split; reflexivity].
  rewrite run_RETURN_NULLPTR_IF_ERROR, api_calls_after_check.
  change (api_calls (set_auto_release [] w)) with (api_calls w).
  fold create_string_tensor. fold tensor_reply.
  destruct (status_ok (reply_status tensor_reply)); cbn [andb];
    [| log_norm; split; reflexivity].
  unfold REGISTER_AUTO_RELEASE_HANDLE.
  rewrite run_RETURN_NULLPTR_IF_ERROR.
  match goal with
  | |- context [runtime (api_calls ?x) (FillStringTensor ?a ?b ?c)] =>
      replace (api_calls x) with (S (S (api_calls w)))
  end.
  2:{ unfold api_calls. cbn [set_auto_release api_log].
      rewrite !api_log_after_check, !length_app. cbn [length set_auto_release api_log].
      lia. }
  fold fill_string_tensor. fold fill_reply.
  destruct (status_ok (reply_status fill_reply)); unfold UNREGISTER_AUTO_RELEASE;
    log_norm; split; reflexivity.
Qed.

End StringTensor.

(** C10 fails as stated: a string tensor with data location 3 (TEXTURE)
    is refused like any other, before the string branch is reached; with
    location 1 the same call creates the tensor. *)
Lemma C10_counterexample :
  ONNX_TENSOR_ELEMENT_DATA_TYPE_STRING wasm32 = 8
  /\ fst (OrtCreateTensor (scripted_runtime []) wasm32 8 0 16 [2; 2] 3 initial_world)
     = nullptr
  /\ api_log (snd (OrtCreateTensor (scripted_runtime []) wasm32 8 0 16 [2; 2] 3
                                   initial_world)) = []
  /\ g_last_error_code
       (snd (OrtCreateTensor (scripted_runtime []) wasm32 8 0 16 [2; 2] 3 initial_world))
     = ORT_INVALID_ARGUMENT
  /\ fst (OrtCreateTensor (scripted_runtime []) wasm32 8 0 16 [2; 2] 1 initial_world)
     = 1001.
Proof. repeat split. Qed.

(** C10 (amended): with a [data_location] other than CPU, CPU_PINNED,
    GPU_BUFFER and ML_TENSOR, [OrtCreateTensor] returns [nullptr], leaves
    ORT_INVALID_ARGUMENT with the message "Invalid data location: <n>" as
    last error, and makes no runtime call, so no tensor is created,
    whatever the element type.  For the string element type and any of
    the four accepted locations the location has no further influence:
    the function looks the default allocator up, creates the tensor with
    it and fills it, stopping at the first of these calls that fails, and
    returns the tensor when all three succeeded and [nullptr] otherwise; no
    memory info is created. *)
Theorem C10_data_location runtime K d n dims :
  (forall t loc w,
      loc <> DATA_LOCATION_CPU -> loc <> DATA_LOCATION_CPU_PINNED ->
      loc <> DATA_LOCATION_GPU_BUFFER -> loc <> DATA_LOCATION_ML_TENSOR ->
      let out := OrtCreateTensor runtime K t d n dims loc w in
      fst out = nullptr
      /\ g_last_error_code (snd out) = ORT_INVALID_ARGUMENT
      /\ g_last_error_message (snd out)
         = String.append "Invalid data location: "
             (NilZero.string_of_int (Z.to_int loc))
      /\ api_log (snd out) = api_log w
      /\ live (snd out) = live w)
  /\ (forall loc loc' w,
        known_data_location loc -> known_data_location loc' ->
        OrtCreateTensor runtime K (ONNX_TENSOR_ELEMENT_DATA_TYPE_STRING K) d n dims loc w
        = OrtCreateTensor runtime K (ONNX_TENSOR_ELEMENT_DATA_TYPE_STRING K) d n dims loc' w)
  /\ (forall loc w,
        known_data_location loc ->
        let out := OrtCreateTensor runtime K (ONNX_TENSOR_ELEMENT_DATA_TYPE_STRING K)
                                   d n dims loc w in
        let allocator := allocator_reply runtime w in
        let create := create_string_tensor runtime K dims w in
        let tensor := tensor_reply runtime K dims w in
        let fill := fill_string_tensor runtime K d n dims w in
        let filled := fill_reply runtime K d n dims w in
        api_log (snd out)
        = api_log w
          ++ (if status_ok (reply_status allocator)
              then if status_ok (reply_status tensor)
                   then [GetAllocatorWithDefaultOptions; create; fill]
                   else [GetAllocatorWithDefaultOptions; create]
              else [GetAllocatorWithDefaultOptions])
        /\ fst out
           = (if status_ok (reply_status allocator) && status_ok (reply_status tensor)
                 && status_ok (reply_status filled)
              then reply_out tensor else nullptr)).
Proof.
  split; [| split].
  - intros t loc w H1 H2 H3 H4. cbv zeta.
    assert (Hv : unknown_data_location loc = true).
    { destruct (unknown_data_location loc) eqn:E; [reflexivity |].
      apply known_data_location_iff in E. unfold known_data_location in E. tauto. }
    unfold OrtCreateTensor, function. rewrite Hv. cbn. repeat split.
  - intros loc loc' w Hl Hl'.
    apply known_data_location_iff in Hl, Hl'.
    unfold OrtCreateTensor. rewrite Hl, Hl'. cbv zeta.
    now rewrite Z.eqb_refl.
  - intros loc w Hl. cbv zeta. now apply string_tensor_calls.
Qed.

(** Data location 3 (TEXTURE) is refused without a runtime call. *)
Lemma C10_data_location_witness :
  fst (OrtCreateTensor (scripted_runtime []) wasm32 1 0 16 [2; 2] 3 initial_world)
  = nullptr
  /\ g_last_error_code
       (snd (OrtCreateTensor (scripted_runtime []) wasm32 1 0 16 [2; 2] 3 initial_world))
     = ORT_INVALID_ARGUMENT.
Proof.
  destruct (C10_data_location (scripted_runtime []) wasm32 0 16 [2; 2]) as (H & _).
  destruct (H 1 3 initial_world) as (A & B & _); try (cbv; discriminate).
  split; [exact A | exact B].
Defined.

End WasmApiSpec.

(* ===================================================================== *)
(** * Further properties of pool.cc *)
(* ===================================================================== *)

Module PoolMore.
Import Pool PoolSpec.

(** ** Work is done once, last, and only by a call that returns OK *)

(** The events that compute pooled values. *)
Definition is_work (e : Event) : bool := is_mlas e || is_runloop e.
Definition no_work (e : Event) : bool := negb (is_work e).

(** A body that does no work, or does one piece of work as its last
    effect and then falls through with OK. *)
Definition one_work (m : M Status) : Prop :=
  filter is_work (fst m) = []
  \/ exists pre e,
       fst m = pre ++ [e] /\ filter is_work pre = [] /\ is_work e = true
       /\ snd m = Next Status_OK.

Lemma one_work_bind {A} (m : M A) (f : A -> M Status) :
  trace_all no_work m -> (forall a, one_work (f a)) -> one_work (bind m f).
Proof.
  intros Hm Hf. apply filter_nil_of_forallb in Hm.
  unfold one_work, bind. destruct (snd m) as [a| |]; simpl; auto.
  destruct (Hf a) as [H | (pre & e & E & Hp & He & Hs)].
  - left. now rewrite filter_app, Hm, H.
  - right. exists (fst m ++ pre), e. rewrite E, app_assoc, filter_app, Hm, Hp. auto.
Qed.

Lemma one_work_last e : is_work e = true -> one_work (emit e ;;; ret Status_OK).
Proof. intros He. right. exists [], e. auto. Qed.

Lemma one_work_silent (m : M Status) : fst m = [] -> one_work m.
Proof. intros E. left. now rewrite E. Qed.

Ltac work_step :=
  match goal with
  | |- one_work (bind (RunLoop _ _ _) _) => apply one_work_last; reflexivity
  | |- one_work (bind (emit (EvMlasPool _ _ _ _ _ _ _)) _) =>
      apply one_work_last; reflexivity
  | |- one_work (bind _ _) =>
      apply one_work_bind;
      [ repeat first [ apply main_loop_locals_silent | trace_step ] | intros ]
  | |- one_work (ret _) => apply one_work_silent; reflexivity
  | |- one_work (return_ _) => apply one_work_silent; reflexivity
  | |- one_work (throw _) => apply one_work_silent; reflexivity
  | |- one_work (if ?c then _ else _) => destruct c
  | |- one_work (match ?n with O => _ | S _ => _ end) => destruct n
  end.

Lemma PoolBase_one_work env k ctx kind : one_work (PoolBase_Compute env k ctx kind).
Proof. unfold PoolBase_Compute. repeat work_step. Qed.

Lemma generic_one_work env T PT k ctx : one_work (Pool_Compute_generic env T PT k ctx).
Proof. unfold Pool_Compute_generic. repeat work_step. Qed.

Lemma dilated_switch_one_work env fam T k e ks p1 hasI msg :
  one_work (dilated_switch env fam T k e ks p1 hasI msg).
Proof. unfold dilated_switch. repeat work_step. Qed.

Lemma hand_rolled_one_work env T k ctx : one_work (MaxPoolV8_hand_rolled env T k ctx).
Proof.
  unfold MaxPoolV8_hand_rolled.
  repeat first [ apply dilated_switch_one_work | work_step ].
Qed.

Lemma dilated_Compute_one_work env fam T k ctx : one_work (dilated_Compute env fam T k ctx).
Proof.
  unfold dilated_Compute.
  repeat first [ apply dilated_switch_one_work | work_step ].
Qed.

Lemma entry_one_work env ep k ctx :
  exists m, Compute env ep k ctx = run m /\ one_work m.
Proof.
  unfold Compute. eexists. split; [reflexivity |].
  destruct ep as [T PT| |T|T].
  - unfold Pool_Compute. destruct T, PT;
      first [ apply PoolBase_one_work | apply generic_one_work ].
  - unfold MaxPoolV8_Compute, MaxPoolV8_ComputeImpl.
    destruct (MaxPoolV8_uses_mlas (X_type ctx) k);
      [apply PoolBase_one_work | apply hand_rolled_one_work].
  - apply dilated_Compute_one_work.
  - apply dilated_Compute_one_work.
Qed.

(** Whatever the entry point, the helpers and the input: a call that does
    not return OK (a failure status or an abnormal exit) has run no task and
    made no [MlasPool] call; no call does more than one of these; and when
    one is done it is the last effect of the call. *)
Theorem work_only_when_OK env ep k ctx :
  let r := Compute env ep k ctx in
  (snd r <> Returned Status_OK -> filter is_work (fst r) = [])
  /\ (length (filter is_work (fst r)) <= 1)%nat
  /\ (forall pre e post,
        fst r = pre ++ e :: post -> is_work e = true -> post = []).
Proof.
  cbv zeta. destruct (entry_one_work env ep k ctx) as (m & -> & Hm).
  rewrite fst_run.
  destruct Hm as [H | (pre & e & E & Hp & He & Hs)].
  - rewrite H. split; [auto |]. split; [simpl; lia |].
    intros pre e post E He. rewrite E, filter_app in H. simpl in H. rewrite He in H.
    apply app_eq_nil in H as [_ H]. discriminate.
  - split; [| split].
    + intros Hne. exfalso. apply Hne. unfold run. now rewrite Hs.
    + rewrite E, filter_app, Hp. simpl. rewrite He. simpl. lia.
    + intros pre' e' post E' He'. rewrite E in E'.
      destruct post as [|p post _] using rev_ind; [reflexivity |].
      exfalso. change (e' :: post ++ [p]) with ((e' :: post) ++ [p]) in E'.
      rewrite app_assoc in E'. apply app_inj_tail in E' as [E' _].
      rewrite E', filter_app in Hp. simpl in Hp. rewrite He' in Hp.
      apply app_eq_nil in Hp as [_ Hp]. discriminate.
Qed.

(** ** The tasks handed to [RunLoop] *)

(** Every event of a body satisfies [P]; what a statement yields may be
    used for the statements after it. *)
Definition always {A} (P : Event -> Prop) (m : M A) : Prop := Forall P (fst m).

Lemma always_bind {A B} P (m : M A) (f : A -> M B) :
  always P m -> (forall a, snd m = Next a -> always P (f a)) -> always P (bind m f).
Proof.
  unfold always, bind. intros Hm Hf.
  destruct (snd m) as [a| |]; simpl; auto.
  apply Forall_app. split; [exact Hm | now apply Hf].
Qed.

Lemma always_silent {A} P (m : M A) : fst m = [] -> always P m.
Proof. unfold always. intros ->. constructor. Qed.

Lemma always_emit P e : P e -> always P (emit e).
Proof. unfold always. simpl. auto. Qed.

Lemma narrow_yields bits v n :
  snd (narrow bits v) = Next n -> n = v /\ 0 <= v < 2 ^ bits.
Proof.
  unfold narrow, narrow_size_t.
  destruct (0 <=? v) eqn:E1; destruct (v <? 2 ^ bits) eqn:E2; simpl;
    try discriminate.
  intros [= <-]. apply Z.leb_le in E1. apply Z.ltb_lt in E2. auto.
Qed.

(** The spatial locals are 1 on the axes the kernel shape does not have,
    and the channel count is the wrapped product of the first two dims. *)
Lemma main_loop_locals_yields x od ks e :
  snd (main_loop_locals x od ks) = Next e ->
  total_channels e = mul64 (nth 0 x 0) (nth 1 x 0)
  /\ ((1 <? length ks)%nat = false -> width e = 1 /\ pooled_width e = 1)
  /\ ((2 <? length ks)%nat = false -> depth e = 1 /\ pooled_depth e = 1).
Proof.
  unfold main_loop_locals, at_.
  destruct (nth_error x 1) as [x1|] eqn:E1; [| discriminate].
  rewrite bind_ret.
  destruct (nth_error x 2) as [x2|]; [| discriminate].
  rewrite bind_ret.
  destruct (1 <? length ks)%nat; destruct (2 <? length ks)%nat;
    repeat match goal with
           | |- context [nth_error ?l ?i] =>
               let E := fresh "E" in
               destruct (nth_error l i) eqn:E; [| discriminate]
           | |- context [bind (ret _) _] => rewrite bind_ret
           end;
    intros [= <-]; simpl;
    rewrite (nth_error_nth x 1 0 E1);
    match goal with
    | H : nth_error x 0 = Some _ |- _ => rewrite (nth_error_nth x 0 0 H)
    end; repeat split; intros; try discriminate; reflexivity.
Qed.

(** What pool.cc guarantees about a task it runs on input shape [x]. *)
Definition product (l : list Z) : Z := fold_right Z.mul 1 l.

Record task_ok (bits : Z) (x : list Z) (n : Z) (t : Task) : Prop := {
  ok_channels : n = to_ptrdiff_t bits (mul64 (nth 0 x 0) (nth 1 x 0));
  ok_fits : 0 <= mul64 (nth 0 x 0) (nth 1 x 0) < 2 ^ bits;
  ok_rank : (1 <= task_rank t <= 3)%nat;
  ok_kernel_shape : length (task_kernel_shape t) = task_rank t;
  ok_extent : length (task_extent t) = task_rank t;
  ok_pooled : length (task_pooled t) = task_rank t;
  ok_strides : length (task_strides t) = task_rank t;
  ok_dilations :
    length (task_dilations t)
    = match task_family t with PoolTask _ => 0%nat | _ => task_rank t end;
  ok_x_step : wrap64 (x_step t) = wrap64 (product (task_extent t));
  ok_y_step : wrap64 (y_step t) = wrap64 (product (task_pooled t))
}.

Definition event_ok (bits : Z) (x : list Z) (e : Event) : Prop :=
  match e with
  | EvRunLoop n t => task_ok bits x n t
  | _ => True
  end.

Lemma wrap64_congr a b : (a - b) mod 2 ^ 64 = 0 -> wrap64 a = wrap64 b.
Proof.
  unfold wrap64. intros H.
  apply Z.mod_divide in H; [| lia]. destruct H as [q H].
  replace (a + 2 ^ 63) with (b + 2 ^ 63 + q * 2 ^ 64) by lia.
  now rewrite Z.mod_add by lia.
Qed.

Lemma wrap64_defect a : exists q, wrap64 a = a + q * 2 ^ 64.
Proof.
  unfold wrap64. exists (- ((a + 2 ^ 63) / 2 ^ 64)).
  pose proof (Z.div_mod (a + 2 ^ 63) (2 ^ 64)). lia.
Qed.

Lemma wrap64_idem a : wrap64 (wrap64 a) = wrap64 a.
Proof.
  destruct (wrap64_defect a) as [q E]. apply wrap64_congr.
  rewrite E. replace (a + q * 2 ^ 64 - a) with (q * 2 ^ 64) by lia.
  apply Z.mod_mul. lia.
Qed.

Lemma wrap64_mul64 a b : wrap64 (mul64 a b) = wrap64 (a * b).
Proof. apply wrap64_idem. Qed.

Lemma wrap64_mul64_l a b c : wrap64 (mul64 (mul64 a b) c) = wrap64 (a * b * c).
Proof.
  unfold mul64 at 1. rewrite wrap64_idem.
  destruct (wrap64_defect (a * b)) as [q E]. apply wrap64_congr.
  unfold mul64. rewrite E.
  replace ((a * b + q * 2 ^ 64) * c - a * b * c) with (q * c * 2 ^ 64) by lia.
  apply Z.mod_mul. lia.
Qed.

Ltac step_sizes :=
  cbn [x_step y_step task_extent task_pooled product fold_right];
  rewrite ?wrap64_mul64_l, ?wrap64_mul64; f_equal; ring.

Ltac task_fields E :=
  constructor;
  cbn [task_rank task_kernel_shape task_extent task_pooled task_strides
       task_dilations task_family length];
  try solve [ assumption | reflexivity | lia | exact E | step_sizes | congruence
            | match goal with
              | H : total_channels _ = _ |- _ => rewrite <- H; assumption
              end ].

Lemma dilated_switch_tasks env x fam T k e ks p1 hasI msg :
  total_channels e = mul64 (nth 0 x 0) (nth 1 x 0) ->
  match fam with PoolTask _ => False | _ => True end ->
  always (event_ok (size_t_bits env) x) (dilated_switch env fam T k e ks p1 hasI msg).
Proof.
  intros Htot Hfam. unfold dilated_switch.
  destruct (length ks) as [|[|[|[|n]]]] eqn:E;
    try (apply always_silent; reflexivity);
    repeat (apply always_bind; [apply always_silent, fst_at_ | intros ? _]);
    (apply always_bind; [apply always_silent, fst_narrow | intros n' Hn]);
    apply narrow_yields in Hn as [-> Hfit];
    (apply always_bind; [| intros; apply always_silent; reflexivity]);
    apply always_emit; task_fields E;
    destruct fam; try contradiction; reflexivity.
Qed.

Lemma fst_main_loop_locals x od ks : fst (main_loop_locals x od ks) = [].
Proof.
  pose proof (main_loop_locals_silent (fun _ => false) x od ks) as H.
  unfold trace_all in H. destruct (fst (main_loop_locals x od ks)); [reflexivity |].
  discriminate.
Qed.

Lemma generic_tasks env T PT k ctx :
  always (event_ok (size_t_bits env) (X_shape ctx)) (Pool_Compute_generic env T PT k ctx).
Proof.
  unfold Pool_Compute_generic. cbv zeta.
  set (ks := if global_pooling (pool_attrs_ k)
             then skipn 2 (X_shape ctx) else kernel_shape (pool_attrs_ k)).
  apply always_bind; [apply always_silent, fst_ORT_RETURN_IF_NOT | intros _ _].
  apply always_bind; [apply always_silent, fst_at_ | intros x1 _].
  apply always_bind; [apply always_silent, fst_call_SetOutputSize | intros r _].
  apply always_bind; [apply always_emit; exact I | intros _ _].
  apply always_bind; [apply always_silent, fst_main_loop_locals | intros e He].
  apply main_loop_locals_yields in He as (Htot & Hw & Hd).
  destruct (length ks) as [|[|[|[|n]]]] eqn:E;
    try (apply always_silent; reflexivity);
    (apply always_bind; [apply always_silent, fst_narrow | intros n' Hn]);
    apply narrow_yields in Hn as [-> Hfit];
    (apply always_bind; [| intros; apply always_silent; reflexivity]);
    apply always_emit; task_fields E.
  - destruct (Hw eq_refl) as [-> ->]. destruct (Hd eq_refl) as [-> ->]. step_sizes.
  - destruct (Hw eq_refl) as [-> ->]. destruct (Hd eq_refl) as [-> ->]. step_sizes.
  - destruct (Hd eq_refl) as [-> ->]. step_sizes.
  - destruct (Hd eq_refl) as [-> ->]. step_sizes.
Qed.

Lemma dilated_tail_tasks env ctx od fam T k ks p1 hasI msg :
  match fam with PoolTask _ => False | _ => True end ->
  always (event_ok (size_t_bits env) (X_shape ctx))
    (e <- main_loop_locals (X_shape ctx) od ks ;;
     dilated_switch env fam T k e ks p1 hasI msg).
Proof.
  intros Hfam.
  apply always_bind; [apply always_silent, fst_main_loop_locals | intros e He].
  apply main_loop_locals_yields in He as (Htot & _).
  now apply dilated_switch_tasks.
Qed.

Lemma hand_rolled_tasks env T k ctx :
  always (event_ok (size_t_bits env) (X_shape ctx)) (MaxPoolV8_hand_rolled env T k ctx).
Proof.
  unfold MaxPoolV8_hand_rolled. cbv zeta.
  apply always_bind; [apply always_silent, fst_ORT_RETURN_IF_NOT | intros _ _].
  apply always_bind; [apply always_silent, fst_at_ | intros x1 _].
  apply always_bind; [apply always_silent, fst_call_SetOutputSize | intros r _].
  apply always_bind; [apply always_emit; exact I | intros _ _].
  apply always_bind; [apply always_emit; exact I | intros _ _].
  now apply dilated_tail_tasks.
Qed.

Lemma dilated_Compute_tasks env fam T k ctx :
  match fam with PoolTask _ => False | _ => True end ->
  always (event_ok (size_t_bits env) (X_shape ctx)) (dilated_Compute env fam T k ctx).
Proof.
  intros Hfam. unfold dilated_Compute. cbv zeta.
  apply always_bind; [apply always_silent, fst_ORT_RETURN_IF_NOT | intros _ _].
  apply always_bind; [apply always_silent, fst_at_ | intros x1 _].
  apply always_bind; [apply always_silent, fst_call_SetOutputSize | intros r _].
  apply always_bind; [apply always_emit; exact I | intros _ _].
  now apply dilated_tail_tasks.
Qed.

Lemma PoolBase_tasks env k ctx kind :
  always (event_ok (size_t_bits env) (X_shape ctx)) (PoolBase_Compute env k ctx kind).
Proof.
  pose proof (PoolBase_no_runloop env k ctx kind) as H.
  unfold trace_all in H. unfold always.
  rewrite forallb_forall in H. apply Forall_forall. intros e He.
  specialize (H e He). destruct e; try exact I. discriminate.
Qed.

Lemma entry_tasks env ep k ctx :
  Forall (event_ok (size_t_bits env) (X_shape ctx)) (fst (Compute env ep k ctx)).
Proof.
  unfold Compute. rewrite fst_run. destruct ep as [T PT| |T|T].
  - unfold Pool_Compute. destruct T, PT;
      first [ apply PoolBase_tasks | apply generic_tasks ].
  - unfold MaxPoolV8_Compute, MaxPoolV8_ComputeImpl.
    destruct (MaxPoolV8_uses_mlas (X_type ctx) k);
      [apply PoolBase_tasks | apply hand_rolled_tasks].
  - now apply dilated_Compute_tasks.
  - now apply dilated_Compute_tasks.
Qed.

Lemma to_ptrdiff_t_small bits v :
  0 < bits -> 0 <= v < 2 ^ (bits - 1) -> to_ptrdiff_t bits v = v.
Proof.
  intros Hb Hv. unfold to_ptrdiff_t.
  assert (E : 2 ^ bits = 2 * 2 ^ (bits - 1)).
  { replace bits with (Z.succ (bits - 1)) at 1 by lia. apply Z.pow_succ_r. lia. }
  rewrite Z.mod_small by lia. lia.
Qed.

Lemma to_ptrdiff_t_large bits v :
  0 < bits -> 2 ^ (bits - 1) <= v < 2 ^ bits -> to_ptrdiff_t bits v = v - 2 ^ bits.
Proof.
  intros Hb Hv. unfold to_ptrdiff_t.
  assert (E : 2 ^ bits = 2 * 2 ^ (bits - 1)).
  { replace bits with (Z.succ (bits - 1)) at 1 by lia. apply Z.pow_succ_r. lia. }
  replace (v + 2 ^ (bits - 1)) with (v - 2 ^ (bits - 1) + 1 * 2 ^ bits) by lia.
  rewrite Z.mod_add by lia. rewrite Z.mod_small by lia. lia.
Qed.

(** Whenever an entry point runs a task, whatever the helpers and the
    input: the 64-bit product of the first two input dims is not negative
    and fits [size_t], and the channel count [RunLoop] receives is that
    product converted to [ptrdiff_t]: the product itself when it is below
    2^(bits-1), and the negative number 2^bits less otherwise.  The task
    has 1, 2 or 3 axes, as many as its kernel shape has entries, and one
    extent, pooled size and stride per axis, and one dilation per axis
    when its struct takes dilations. *)
Theorem tasks_are_well_formed env ep k ctx n t :
  0 < size_t_bits env ->
  In (EvRunLoop n t) (fst (Compute env ep k ctx)) ->
  let channels := mul64 (nth 0 (X_shape ctx) 0) (nth 1 (X_shape ctx) 0) in
  0 <= channels < 2 ^ size_t_bits env
  /\ n = (if channels <? 2 ^ (size_t_bits env - 1)
          then channels else channels - 2 ^ size_t_bits env)
  /\ (0 <= n <-> channels < 2 ^ (size_t_bits env - 1))
  /\ (1 <= task_rank t <= 3)%nat
  /\ length (task_kernel_shape t) = task_rank t
  /\ length (task_extent t) = task_rank t
  /\ length (task_pooled t) = task_rank t
  /\ length (task_strides t) = task_rank t
  /\ length (task_dilations t)
     = match task_family t with PoolTask _ => 0%nat | _ => task_rank t end.
Proof.
  intros Hb Hin channels.
  pose proof (entry_tasks env ep k ctx) as H. rewrite Forall_forall in H.
  destruct (H _ Hin) as [Hn Hfit Hrank Hks Hext Hpool Hstr Hdil _ _].
  fold channels in Hn, Hfit.
  assert (Hcount : n = (if channels <? 2 ^ (size_t_bits env - 1)
                        then channels else channels - 2 ^ size_t_bits env)).
  { rewrite Hn. destruct (channels <? 2 ^ (size_t_bits env - 1)) eqn:E.
    - apply Z.ltb_lt in E. apply to_ptrdiff_t_small; lia.
    - apply Z.ltb_ge in E. apply to_ptrdiff_t_large; lia. }
  split; [exact Hfit |]. split; [exact Hcount |]. split.
  - rewrite Hcount. destruct (channels <? 2 ^ (size_t_bits env - 1)) eqn:E.
    + apply Z.ltb_lt in E. split; intros; lia.
    + apply Z.ltb_ge in E. split; intros; lia.
  - repeat split; auto; lia.
Qed.

(** The 1-D average pooling call of [ctx_6_channels] runs a 1-axis task
    over 6 channels. *)
Lemma tasks_are_well_formed_witness :
  exists t,
    In (EvRunLoop 6 t)
       (fst (Compute explicit_env (EP_AveragePoolV19 Float) k1 ParallelSpec.ctx_6_channels))
    /\ task_rank t = 1%nat /\ length (task_dilations t) = 1%nat.
Proof.
  eexists. split; [right; left; reflexivity |].
  match goal with
  | |- task_rank ?t = _ /\ _ =>
      destruct (tasks_are_well_formed explicit_env (EP_AveragePoolV19 Float) k1
                  ParallelSpec.ctx_6_channels 6 t)
        as (_ & _ & _ & _ & _ & _ & _ & _ & Hd);
        [reflexivity | right; left; reflexivity |]
  end.
  split; [reflexivity | exact Hd].
Defined.

(** Whenever an entry point runs a task: [x_step] is, in 64-bit
    arithmetic, the product of the task's spatial extents, and [y_step] the
    product of its pooled sizes, so that consecutive channels occupy
    consecutive slices of the input and of the output. *)
Theorem steps_are_slice_sizes env ep k ctx n t :
  In (EvRunLoop n t) (fst (Compute env ep k ctx)) ->
  wrap64 (x_step t) = wrap64 (product (task_extent t))
  /\ wrap64 (y_step t) = wrap64 (product (task_pooled t)).
Proof.
  intros Hin.
  pose proof (entry_tasks env ep k ctx) as H. rewrite Forall_forall in H.
  destruct (H _ Hin). auto.
Qed.

Definition ctx_3d : Context := MkContext [2; 3; 4; 5; 6] Double false.
Definition attrs_3d : PoolAttributes :=
  MkPoolAttributes false false 0 [2; 2; 2] [0; 0; 0; 0; 0; 0] [1; 1; 1] [1; 1; 1].

(** A 3-D Lp pooling call over a 4x5x6 volume: 120 inputs and 60 outputs
    per channel. *)
Lemma steps_are_slice_sizes_witness :
  exists n t,
    In (EvRunLoop n t)
       (fst (Compute explicit_env (EP_Pool Double LpPool) (MkKernel attrs_3d 2 2 1) ctx_3d))
    /\ x_step t = 120 /\ y_step t = 60
    /\ wrap64 (x_step t) = wrap64 (product (task_extent t)).
Proof.
  eexists. eexists. split; [right; left; reflexivity |].
  split; [reflexivity |]. split; [reflexivity |].
  match goal with
  | |- wrap64 (x_step ?t) = _ =>
      destruct (steps_are_slice_sizes explicit_env (EP_Pool Double LpPool)
                  (MkKernel attrs_3d 2 2 1) ctx_3d 6 t) as (Hx & _);
        [right; left; reflexivity | exact Hx]
  end.
Defined.

End PoolMore.

(* ===================================================================== *)
(** * Properties of the layer-norm kernel *)
(* ===================================================================== *)

Module LayerNormKernelSpec.
Import LayerNorm LayerNormKernel.

(** ** The shape of the statistics outputs *)

Lemma mean_dim_from_length i dims axis :
  length (mean_dim_from i dims axis) = length dims.
Proof.
  revert i. induction dims as [|d rest IH]; intros i; simpl; [reflexivity |].
  now rewrite IH.
Qed.

Lemma mean_dim_from_past i dims axis :
  axis <= i -> mean_dim_from i dims axis = repeat 1 (length dims).
Proof.
  revert i. induction dims as [|d rest IH]; intros i H; simpl; [reflexivity |].
  assert (E : (i <? axis) = false) by (apply Z.ltb_ge; lia).
  rewrite E, IH by lia. reflexivity.
Qed.

Lemma mean_dim_from_split i dims axis :
  0 <= i <= axis ->
  mean_dim_from i dims axis
  = firstn (Z.to_nat (axis - i)) dims
    ++ repeat 1 (length dims - Z.to_nat (axis - i)).
Proof.
  revert i. induction dims as [|d rest IH]; intros i H; simpl.
  - now rewrite firstn_nil.
  - destruct (i <? axis) eqn:E.
    + apply Z.ltb_lt in E. rewrite IH by lia.
      replace (Z.to_nat (axis - i)) with (S (Z.to_nat (axis - (i + 1)))) by lia.
      reflexivity.
    + apply Z.ltb_ge in E. replace (axis - i) with 0 by lia. simpl.
      rewrite mean_dim_from_past by lia. reflexivity.
Qed.

Lemma elements_app l1 l2 : elements (l1 ++ l2) = elements l1 * elements l2.
Proof.
  unfold elements. induction l1 as [|a l1 IH]; simpl.
  - destruct (fold_right Z.mul 1 l2); reflexivity.
  - rewrite IH. ring.
Qed.

Lemma elements_ones n : elements (repeat 1 n) = 1.
Proof.
  unfold elements. induction n as [|n IH]; [reflexivity |].
  cbn [repeat fold_right]. rewrite IH. reflexivity.
Qed.

Lemma NormalizeAxis_nonneg bits axis rank a :
  NormalizeAxis bits axis rank = Axis a -> 0 <= a < 2 ^ bits.
Proof.
  unfold NormalizeAxis. cbv zeta.
  destruct (invalid_axis_guard _ _); [discriminate |].
  unfold narrow_size_t.
  destruct (0 <=? _) eqn:E1; destruct (_ <? 2 ^ bits) eqn:E2; simpl; try discriminate.
  intros [= <-]. apply Z.leb_le in E1. apply Z.ltb_lt in E2. lia.
Qed.

Lemma narrow_uint32_some v n : narrow_uint32 v = Some n -> n = v /\ 0 <= v < 2 ^ 32.
Proof.
  unfold narrow_uint32, narrow_size_t.
  destruct (0 <=? v) eqn:E1; destruct (v <? 2 ^ 32) eqn:E2; simpl; try discriminate.
  intros [= <-]. apply Z.leb_le in E1. apply Z.ltb_lt in E2. auto.
Qed.

(** ** The course of a call *)

Section Calls.

Context {float32 : Type}.
Variable h : Helpers float32.
Variable simplified : bool.
Variable k : LayerNormKernel.LayerNorm float32.
Variable context : ComputeContext.

Local Abbreviation x_shape := (Shape (Input_0 context)).
Local Abbreviation is_fp16 :=
  (match GetElementType (Input_0 context) with
   | ONNX_TENSOR_ELEMENT_DATA_TYPE_FLOAT16 => true
   | _ => false
   end).

(** What has been checked by the time the first output is created. *)
Record validated (axis norm_count norm_size vectorized : Z) : Prop := {
  v_axis : NormalizeAxis (size_t_bits h) (axis_ k) (Z.of_nat (length x_shape)) = Axis axis;
  v_count : SizeToDimension h x_shape axis = Some norm_count;
  v_count_fits : 0 <= norm_count < 2 ^ 32;
  v_size : SizeFromDimension h x_shape axis = Some norm_size;
  v_components : GetMaxComponents h norm_size <> 0;
  v_vectorized :
    vectorized
    = wrap64 (Z.quot (wrap64 (add64 norm_size (GetMaxComponents h norm_size) - 1))
                     (GetMaxComponents h norm_size));
  v_vectorized_fits : 0 <= vectorized < 2 ^ 32;
  v_scale : Size h (Shape (Input_1 context)) = norm_size;
  v_bias : forall b, Input_2 context = Some b -> Size h (Shape b) = norm_size
}.

Definition program_of (norm_count norm_size vectorized : Z) : Program float32 :=
  build_program simplified k context is_fp16 (GetMaxComponents h norm_size)
    norm_count norm_size vectorized
    (wrap32 (norm_count + WORKGROUP_SIZE h - 1) / WORKGROUP_SIZE h).

Inductive course : list (Event float32) * Outcome -> Prop :=
| stopped o : o <> Returned Pool.Status_OK
              -> (forall s, o = Returned s -> Pool.code s = Pool.INVALID_ARGUMENT)
              -> course ([], o)
| empty_input axis nc ns v :
    validated axis nc ns v -> Size h x_shape = 0 ->
    course (output_calls x_shape (mean_dim x_shape axis), Returned Pool.Status_OK)
| no_workgroup axis nc ns v :
    validated axis nc ns v -> Size h x_shape <> 0 -> WORKGROUP_SIZE h = 0 ->
    course (output_calls x_shape (mean_dim x_shape axis), Undefined)
| program_run axis nc ns v :
    validated axis nc ns v -> Size h x_shape <> 0 -> WORKGROUP_SIZE h <> 0 ->
    course (output_calls x_shape (mean_dim x_shape axis)
              ++ [EvRunProgram (program_of nc ns v)],
            Returned (RunProgram h (program_of nc ns v))).

Lemma tail_course axis nc ns v :
  validated axis nc ns v ->
  course
    (if Size h x_shape =? 0
     then (output_calls x_shape (mean_dim x_shape axis), Returned Pool.Status_OK)
     else
       match udiv32 (wrap32 (nc + WORKGROUP_SIZE h - 1)) (WORKGROUP_SIZE h) with
       | None => (output_calls x_shape (mean_dim x_shape axis), Undefined)
       | Some groups =>
           (output_calls x_shape (mean_dim x_shape axis)
              ++ [EvRunProgram
                    (build_program simplified k context is_fp16
                       (GetMaxComponents h ns) nc ns v groups)],
            Returned
              (RunProgram h
                 (build_program simplified k context is_fp16
                    (GetMaxComponents h ns) nc ns v groups)))
       end).
Proof.
  intros V.
  destruct (Size h x_shape =? 0) eqn:E0.
  - apply Z.eqb_eq in E0. now apply (empty_input axis nc ns v).
  - apply Z.eqb_neq in E0. unfold udiv32.
    destruct (WORKGROUP_SIZE h =? 0) eqn:Ew.
    + apply Z.eqb_eq in Ew. now apply (no_workgroup axis nc ns v).
    + apply Z.eqb_neq in Ew. now apply (program_run axis nc ns v).
Qed.

Lemma ComputeInternal_course : course (ComputeInternal h simplified k context).
Proof.
  unfold ComputeInternal. cbv zeta.
  destruct (NormalizeAxis _ _ _) as [axis|msg|] eqn:Ea;
    try (apply stopped; [discriminate | intros s; discriminate]).
  destruct (SizeToDimension h x_shape axis) as [to_axis|] eqn:Et;
    try (apply stopped; [discriminate | intros s; discriminate]).
  destruct (narrow_uint32 to_axis) as [nc|] eqn:En;
    try (apply stopped; [discriminate | intros s; discriminate]).
  apply narrow_uint32_some in En as [-> Hnc].
  destruct (SizeFromDimension h x_shape axis) as [ns|] eqn:Es;
    try (apply stopped; [discriminate | intros s; discriminate]).
  unfold div64.
  destruct (GetMaxComponents h ns =? 0) eqn:Ec;
    try (apply stopped; [discriminate | intros s; discriminate]).
  apply Z.eqb_neq in Ec.
  destruct (narrow_uint32 _) as [v|] eqn:Ev;
    try (apply stopped; [discriminate | intros s; discriminate]).
  apply narrow_uint32_some in Ev as [Ev Hv].
  destruct (negb (Size h (Shape (Input_1 context)) =? ns)) eqn:E1; simpl orb; cbv iota.
  { apply stopped; [discriminate | now intros s [= <-]]. }
  apply negb_false_iff, Z.eqb_eq in E1.
  destruct (Input_2 context) as [b|] eqn:Eb.
  - destruct (negb (Size h (Shape b) =? ns)) eqn:E2.
    { apply stopped; [discriminate | now intros s [= <-]]. }
    apply negb_false_iff, Z.eqb_eq in E2.
    apply tail_course. constructor; auto; [now rewrite Ev |].
    rewrite Eb. now intros b' [= <-].
  - apply tail_course. constructor; auto; [now rewrite Ev |].
    rewrite Eb. discriminate.
Qed.

End Calls.

Arguments validated {float32} h k context axis norm_count norm_size vectorized.
Arguments program_of {float32} h simplified k context norm_count norm_size vectorized.

Section Consequences.

Context {float32 : Type}.
Variable h : Helpers float32.
Variable simplified : bool.
Variable k : LayerNormKernel.LayerNorm float32.
Variable context : ComputeContext.

Local Abbreviation x_shape := (Shape (Input_0 context)).
Local Abbreviation r := (ComputeInternal h simplified k context).

Lemma output_inv i s :
  In (EvOutput i s) (fst r) ->
  exists axis nc ns v,
    validated h k context axis nc ns v
    /\ ((i = 0%nat /\ s = x_shape)
        \/ ((i = 1%nat \/ i = 2%nat) /\ s = mean_dim x_shape axis)).
Proof.
  intros Hin. destruct (ComputeInternal_course h simplified k context)
    as [o _ _|axis nc ns v V _|axis nc ns v V _ _|axis nc ns v V _ _];
    simpl in Hin; try contradiction; exists axis, nc, ns, v; (split; [exact V |]);
    repeat match goal with
           | H : _ \/ _ |- _ => destruct H as [H|H]
           | H : EvOutput _ _ = EvOutput _ _ |- _ => injection H as <- <-
           | H : EvRunProgram _ = EvOutput _ _ |- _ => discriminate H
           | H : False |- _ => contradiction
           end; auto.
Qed.

Lemma program_inv p :
  In (EvRunProgram p) (fst r) ->
  exists axis nc ns v,
    validated h k context axis nc ns v
    /\ Size h x_shape <> 0 /\ WORKGROUP_SIZE h <> 0
    /\ p = program_of h simplified k context nc ns v
    /\ r = (output_calls x_shape (mean_dim x_shape axis) ++ [EvRunProgram p],
            Returned (RunProgram h p)).
Proof.
  intros Hin. destruct (ComputeInternal_course h simplified k context)
    as [o _ _|axis nc ns v V _|axis nc ns v V _ _|axis nc ns v V H0 Hw];
    simpl in Hin;
    repeat match goal with
           | H : _ \/ _ |- _ => destruct H as [H|H]
           | H : EvOutput _ _ = EvRunProgram _ |- _ => discriminate H
           | H : False |- _ => contradiction
           end.
  injection Hin as <-. exists axis, nc, ns, v. auto.
Qed.

End Consequences.

Definition has_bias (context : ComputeContext) : bool :=
  match Input_2 context with Some _ => true | None => false end.

Lemma program_inputs {float32} (h : Helpers float32) simplified k context nc ns v :
  inputs (program_of h simplified k context nc ns v)
  = [MkProgramTensor T_x Dependency_Type (Some (GetMaxComponents h ns));
     MkProgramTensor T_scale Dependency_Type (Some (GetMaxComponents h ns))]
    ++ (if has_bias context
        then [MkProgramTensor T_bias Dependency_Type (Some (GetMaxComponents h ns))]
        else []).
Proof.
  unfold program_of, build_program, has_bias.
  destruct (Input_2 context), (Output_present context 1), (Output_present context 2);
    reflexivity.
Qed.

Lemma program_outputs {float32} (h : Helpers float32) simplified k context nc ns v :
  outputs (program_of h simplified k context nc ns v)
  = [MkProgramTensor T_y Dependency_None (Some (GetMaxComponents h ns))]
    ++ (if Output_present context 1
        then [MkProgramTensor T_mean Dependency_None None] else [])
    ++ (if Output_present context 2
        then [MkProgramTensor T_inv_std_dev Dependency_None None] else []).
Proof.
  unfold program_of, build_program.
  destruct (Input_2 context), (Output_present context 1), (Output_present context 2);
    reflexivity.
Qed.

Lemma program_flags {float32} (h : Helpers float32) simplified k context nc ns v :
  flags (program_of h simplified k context nc ns v)
  = MkProgram (has_bias context)
      (match GetElementType (Input_0 context) with
       | ONNX_TENSOR_ELEMENT_DATA_TYPE_FLOAT16 => true
       | _ => false
       end)
      simplified (Output_present context 1) (Output_present context 2).
Proof.
  unfold program_of, build_program, has_bias.
  destruct (Input_2 context), (Output_present context 1), (Output_present context 2);
    reflexivity.
Qed.

Lemma program_uniforms {float32} (h : Helpers float32) simplified k context nc ns v :
  uniform_variables (program_of h simplified k context nc ns v)
  = [U32 nc; U32 (wrap32 ns); U32 v; F32 (epsilon_ k)].
Proof.
  unfold program_of, build_program.
  destruct (Input_2 context), (Output_present context 1), (Output_present context 2);
    reflexivity.
Qed.

Lemma program_dispatch {float32} (h : Helpers float32) simplified k context nc ns v :
  dispatch_group_size (program_of h simplified k context nc ns v)
  = wrap32 (nc + WORKGROUP_SIZE h - 1) / WORKGROUP_SIZE h.
Proof.
  unfold program_of, build_program.
  destruct (Input_2 context), (Output_present context 1), (Output_present context 2);
    reflexivity.
Qed.

(** A call on a 2x3x4 input normalised over its last axis, with a scale of
    4 entries, no bias, and the mean requested but not the inverse standard
    deviation. *)
Definition context_2x3x4 : ComputeContext :=
  MkComputeContext (MkTensor [2; 3; 4] ONNX_TENSOR_ELEMENT_DATA_TYPE_FLOAT)
                   (MkTensor [4] ONNX_TENSOR_ELEMENT_DATA_TYPE_FLOAT)
                   None (fun i => (i <=? 1)%nat).

Definition last_axis : LayerNormKernel.LayerNorm Z := MkLayerNorm Z (-1) 0.

(** No output is created before the sizes are checked: whenever a call
    creates an output, the axis was normalised, the size of scale, and of
    bias when there is one, equals the size of the input from that axis on,
    output 0 has the shape of the input and outputs 1 and 2 the shape
    [mean_dim] built from it. *)
Theorem outputs_imply_sizes_match {float32} (h : Helpers float32)
    simplified k context i s :
  let x_shape := Shape (Input_0 context) in
  In (EvOutput i s) (fst (ComputeInternal h simplified k context)) ->
  exists axis norm_size,
    NormalizeAxis (size_t_bits h) (axis_ k) (Z.of_nat (length x_shape)) = Axis axis
    /\ SizeFromDimension h x_shape axis = Some norm_size
    /\ Size h (Shape (Input_1 context)) = norm_size
    /\ (forall b, Input_2 context = Some b -> Size h (Shape b) = norm_size)
    /\ ((i = 0%nat /\ s = x_shape)
        \/ ((i = 1%nat \/ i = 2%nat) /\ s = mean_dim x_shape axis)).
Proof.
  intros x_shape Hin.
  destruct (output_inv h simplified k context i s Hin) as (axis & nc & ns & v & V & Hs).
  exists axis, ns. destruct V. auto.
Qed.

Lemma outputs_imply_sizes_match_witness :
  exists axis norm_size,
    NormalizeAxis 64 (-1) 3 = Axis axis
    /\ product_from [2; 3; 4] axis = Some norm_size
    /\ elements [4] = norm_size.
Proof.
  destruct (outputs_imply_sizes_match plain_helpers false last_axis context_2x3x4
              1%nat [2; 3; 1])
    as (axis & ns & Ha & Hs & Hz & _).
  - right. left. reflexivity.
  - exists axis, ns. auto.
Defined.

(** The statistics outputs have one entry per normalised row: whenever
    output 1 or 2 is created, its shape has the rank of the input, keeps
    the input's dims before the axis and is 1 from the axis on, so that
    its element count is the product of the dims before the axis. *)
Theorem statistics_shape {float32} (h : Helpers float32) simplified k context i s :
  let x_shape := Shape (Input_0 context) in
  In (EvOutput i s) (fst (ComputeInternal h simplified k context)) ->
  (i = 1 \/ i = 2)%nat ->
  exists axis,
    NormalizeAxis (size_t_bits h) (axis_ k) (Z.of_nat (length x_shape)) = Axis axis
    /\ length s = length x_shape
    /\ s = firstn (Z.to_nat axis) x_shape
           ++ repeat 1 (length x_shape - Z.to_nat axis)
    /\ elements s = elements (firstn (Z.to_nat axis) x_shape).
Proof.
  intros x_shape Hin Hi. subst x_shape.
  destruct (output_inv h simplified k context i s Hin)
    as (axis & nc & ns & v & V & [[-> _]|[_ ->]]); [lia |].
  exists axis. destruct V as [Ha _ _ _ _ _ _ _ _].
  pose proof (NormalizeAxis_nonneg _ _ _ _ Ha) as Hn.
  assert (E : mean_dim (Shape (Input_0 context)) axis
              = firstn (Z.to_nat axis) (Shape (Input_0 context))
                ++ repeat 1 (length (Shape (Input_0 context)) - Z.to_nat axis)).
  { unfold mean_dim. rewrite mean_dim_from_split by lia.
    now replace (axis - 0) with axis by lia. }
  split; [exact Ha |]. split; [apply mean_dim_from_length |]. split; [exact E |].
  rewrite E, elements_app, elements_ones. lia.
Qed.

Lemma statistics_shape_witness :
  exists axis,
    NormalizeAxis 64 (-1) 3 = Axis axis
    /\ [2; 3; 1] = firstn (Z.to_nat axis) [2; 3; 4] ++ repeat 1 (3 - Z.to_nat axis)
    /\ elements [2; 3; 1] = elements (firstn (Z.to_nat axis) [2; 3; 4]).
Proof.
  destruct (statistics_shape plain_helpers false last_axis context_2x3x4 2%nat [2; 3; 1])
    as (axis & Ha & _ & Hs & He).
  - right. right. left. reflexivity.
  - right. reflexivity.
  - exists axis. auto.
Defined.



(** The name each bound tensor has in the shader. *)
Definition shader_name (t : TensorRef) : string :=
  match t with
  | T_x => "x"
  | T_scale => "scale"
  | T_bias => "bias"
  | T_y => "y"
  | T_mean => "mean_output"
  | T_inv_std_dev => "inv_std_dev_output"
  end.

(** The tensors a call binds are the variables the shader declares: for
    the program handed to [RunProgram], the inputs and the outputs bound by
    [ComputeInternal] correspond one to one, in order, to the inputs and
    outputs [GenerateShaderCode] adds to a fresh helper for the program's
    flags; bias is bound exactly when input 2 exists, and the statistics
    exactly when [Output] returned a tensor for them. *)
Theorem program_matches_shader {float32} (h : Helpers float32)
    simplified k context p txt sh :
  In (EvRunProgram p) (fst (ComputeInternal h simplified k context)) ->
  shader_inputs sh = [] -> shader_outputs sh = [] ->
  let sh' := GenerateShaderCode txt (flags p) sh in
  map (fun t => shader_name (tensor t)) (inputs p) = map fst (shader_inputs sh')
  /\ map (fun t => shader_name (tensor t)) (outputs p) = map fst (shader_outputs sh')
  /\ has_bias_ (flags p) = has_bias context
  /\ has_mean_output_ (flags p) = Output_present context 1
  /\ has_inv_std_dev_output_ (flags p) = Output_present context 2
  /\ simplified_ (flags p) = simplified.
Proof.
  intros Hin Hi Ho.
  destruct (program_inv h simplified k context p Hin)
    as (axis & nc & ns & v & _ & _ & _ & -> & _).
  cbv zeta. rewrite program_inputs, program_outputs, program_flags.
  destruct sh as [ins outs impl body n]. simpl in Hi, Ho. subst ins outs.
  unfold GenerateShaderCode.
  destruct (has_bias context), (Output_present context 1), (Output_present context 2);
    cbn [when AddInput AddOutput emit_implementation emit_body
         shader_inputs shader_outputs has_bias_ has_mean_output_
         has_inv_std_dev_output_ simplified_ app map fst tensor shader_name];
    repeat split.
Qed.

Definition fresh_shader : ShaderHelper := MkShader [] [] "" "" 4.

Lemma program_matches_shader_witness :
  exists p : Program Z,
    map (fun t => shader_name (tensor t)) (inputs p) = ["x"; "scale"]%string
    /\ map fst (shader_outputs (GenerateShaderCode plain_text (flags p) fresh_shader))
       = ["y"; "mean_output"]%string.
Proof.
  match eval vm_compute in
        (fst (ComputeInternal plain_helpers false last_axis context_2x3x4)) with
  | [_; _; _; EvRunProgram ?p] =>
      exists p;
      destruct (program_matches_shader plain_helpers false last_axis context_2x3x4
                  p plain_text fresh_shader) as (Hi & Ho & _);
      [right; right; right; left; reflexivity | reflexivity | reflexivity |]
  end.
  split; [reflexivity |]. rewrite <- Ho. reflexivity.
Defined.

(** Every normalised row gets an invocation: for the program handed to
    [RunProgram], the first uniform is the row count [norm_count] (the
    product up to the axis, which fits 32 bits), and, for a positive
    workgroup size and as long as [norm_count + WORKGROUP_SIZE - 1] does
    not overflow 32 bits, the dispatch size is the least number of
    workgroups whose invocations cover the rows. *)
Theorem dispatch_covers_rows {float32} (h : Helpers float32) simplified k context p :
  In (EvRunProgram p) (fst (ComputeInternal h simplified k context)) ->
  0 < WORKGROUP_SIZE h ->
  exists axis norm_count rest,
    NormalizeAxis (size_t_bits h) (axis_ k)
                  (Z.of_nat (length (Shape (Input_0 context)))) = Axis axis
    /\ SizeToDimension h (Shape (Input_0 context)) axis = Some norm_count
    /\ uniform_variables p = U32 norm_count :: rest
    /\ 0 <= norm_count < 2 ^ 32
    /\ (norm_count + WORKGROUP_SIZE h - 1 < 2 ^ 32 ->
        norm_count <= dispatch_group_size p * WORKGROUP_SIZE h
                   < norm_count + WORKGROUP_SIZE h).
Proof.
  intros Hin Hw.
  destruct (program_inv h simplified k context p Hin)
    as (axis & nc & ns & v & V & _ & _ & -> & _).
  destruct V as [Ha Hc Hf _ _ _ _ _ _].
  exists axis, nc. eexists. rewrite program_uniforms, program_dispatch.
  split; [exact Ha |]. split; [exact Hc |]. split; [reflexivity |].
  split; [exact Hf |]. intros Hov.
  unfold wrap32. rewrite Z.mod_small by lia.
  pose proof (Z.div_mod (nc + WORKGROUP_SIZE h - 1) (WORKGROUP_SIZE h)) as D.
  pose proof (Z.mod_pos_bound (nc + WORKGROUP_SIZE h - 1) (WORKGROUP_SIZE h) Hw) as B.
  specialize (D ltac:(lia)). nia.
Qed.

(** A call on a 100x4 input normalised over its last axis. *)
Definition context_100x4 : ComputeContext :=
  MkComputeContext (MkTensor [100; 4] ONNX_TENSOR_ELEMENT_DATA_TYPE_FLOAT16)
                   (MkTensor [4] ONNX_TENSOR_ELEMENT_DATA_TYPE_FLOAT16)
                   (Some (MkTensor [4] ONNX_TENSOR_ELEMENT_DATA_TYPE_FLOAT16))
                   (fun _ => false).

Lemma dispatch_covers_rows_witness :
  exists p,
    In (EvRunProgram p) (fst (ComputeInternal plain_helpers true last_axis context_100x4))
    /\ dispatch_group_size p = 2
    /\ 100 <= dispatch_group_size p * 64 < 100 + 64.
Proof.
  match eval vm_compute in
        (fst (ComputeInternal plain_helpers true last_axis context_100x4)) with
  | [_; _; _; EvRunProgram ?p] =>
      exists p;
      destruct (dispatch_covers_rows plain_helpers true last_axis context_100x4 p)
        as (axis & nc & rest & _ & Hc & Hu & _ & Hd);
      [right; right; right; left; reflexivity | reflexivity |]
  end.
  split; [right; right; right; left; reflexivity |]. split; [reflexivity |].
  injection Hu as <- _. apply Hd. reflexivity.
Defined.

(** The vectorised loops cover a row: for the program handed to
    [RunProgram], x, scale, y (and bias) are bound with the component
    count [GetMaxComponents] chose for the row size, the uniforms are the
    row count, the row size reduced to 32 bits, the vectorised row size and
    epsilon, and, for a positive component count and a row size that is
    not negative (their sum staying within 64 bits), the vectorised row
    size is the least number of vectors that hold a row. *)
Theorem vectorized_size_covers_row {float32} (h : Helpers float32)
    simplified k context p :
  In (EvRunProgram p) (fst (ComputeInternal h simplified k context)) ->
  exists axis norm_count norm_size vectorized,
    let components := GetMaxComponents h norm_size in
    NormalizeAxis (size_t_bits h) (axis_ k)
                  (Z.of_nat (length (Shape (Input_0 context)))) = Axis axis
    /\ SizeFromDimension h (Shape (Input_0 context)) axis = Some norm_size
    /\ uniform_variables p
       = [U32 norm_count; U32 (norm_size mod 2 ^ 32); U32 vectorized; F32 (epsilon_ k)]
    /\ (forall t, In t (inputs p) -> component t = Some components)
    /\ nth_error (outputs p) 0 = Some (MkProgramTensor T_y Dependency_None (Some components))
    /\ 0 <= vectorized < 2 ^ 32
    /\ (0 < components -> 0 <= norm_size -> norm_size + components < 2 ^ 63 ->
        norm_size <= vectorized * components < norm_size + components).
Proof.
  intros Hin.
  destruct (program_inv h simplified k context p Hin)
    as (axis & nc & ns & v & V & _ & _ & -> & _).
  destruct V as [Ha _ _ Hs _ Hv Hf _ _].
  exists axis, nc, ns, v. cbv zeta.
  rewrite program_uniforms, program_inputs, program_outputs.
  split; [exact Ha |]. split; [exact Hs |]. split; [reflexivity |].
  split.
  { intros t Ht. destruct (has_bias context); simpl in Ht;
      repeat match goal with
             | H : _ \/ _ |- _ => destruct H as [H|H]
             | H : False |- _ => contradiction
             end; subst t; reflexivity. }
  split; [reflexivity |]. split; [exact Hf |].
  intros Hc Hn Hov. set (c := GetMaxComponents h ns) in *.
  assert (W1 : add64 ns c = ns + c)
    by (apply LayerNormSpec.wrap64_small; unfold in_int64; lia).
  assert (W2 : wrap64 (ns + c - 1) = ns + c - 1)
    by (apply LayerNormSpec.wrap64_small; unfold in_int64; lia).
  rewrite W1, W2 in Hv.
  rewrite Z.quot_div_nonneg in Hv by lia.
  pose proof (Z.div_mod (ns + c - 1) c ltac:(lia)) as D.
  pose proof (Z.mod_pos_bound (ns + c - 1) c Hc) as B.
  assert (Q : 0 <= (ns + c - 1) / c < 2 ^ 63).
  { split; [apply Z.div_pos; lia |].
    apply Z.le_lt_trans with (ns + c - 1); [| lia].
    apply Z.div_le_upper_bound; nia. }
  rewrite LayerNormSpec.wrap64_small in Hv by (unfold in_int64; lia).
  subst v. nia.
Qed.

(** A call on a 3x6 input normalised over its last axis: rows of 6
    entries are read as 3 vectors of 2. *)
Definition context_3x6 : ComputeContext :=
  MkComputeContext (MkTensor [3; 6] ONNX_TENSOR_ELEMENT_DATA_TYPE_FLOAT)
                   (MkTensor [6] ONNX_TENSOR_ELEMENT_DATA_TYPE_FLOAT)
                   None (fun _ => false).

Lemma vectorized_size_covers_row_witness :
  exists p vectorized,
    In (EvRunProgram p) (fst (ComputeInternal plain_helpers false last_axis context_3x6))
    /\ nth_error (uniform_variables p) 2 = Some (U32 vectorized)
    /\ 6 <= vectorized * 2 < 6 + 2.
Proof.
  match eval vm_compute in
        (fst (ComputeInternal plain_helpers false last_axis context_3x6)) with
  | [_; _; _; EvRunProgram ?p] =>
      exists p;
      destruct (vectorized_size_covers_row plain_helpers false last_axis context_3x6 p)
        as (axis & nc & ns & v & Ha & Hs & Hu & _ & _ & _ & Hc);
      [right; right; right; left; reflexivity |]
  end.
  exists v. split; [right; right; right; left; reflexivity |].
  injection Ha as <-. injection Hs as <-.
  split; [rewrite Hu; reflexivity |].
  apply Hc; cbv; congruence.
Defined.

End LayerNormKernelSpec.

(* ===================================================================== *)
(** * Properties of conv_transpose.h *)
(* ===================================================================== *)

Module ConvTransposeSpec.
Import ConvTranspose.

(** ** The copying loops *)

Lemma assign_length i x v : length (assign i x v) = length v.
Proof.
  revert i. induction v as [|y v IH]; intros [|i]; simpl; auto.
Qed.

Lemma assign_middle l x y r : assign (length l) x (l ++ y :: r) = l ++ x :: r.
Proof. induction l as [|a l IH]; simpl; [reflexivity | now rewrite IH]. Qed.

Lemma firstn_snoc (src : list Z) j :
  (j < length src)%nat -> firstn (S j) src = firstn j src ++ [nth j src 0].
Proof.
  revert j. induction src as [|a src IH]; intros j H; simpl in H; [lia |].
  destruct j as [|j]; [reflexivity |].
  change (firstn (S (S j)) (a :: src)) with (a :: firstn (S j) src).
  rewrite IH by lia. reflexivity.
Qed.

Lemma copy_steps src n j :
  (j <= length src)%nat -> (j <= n)%nat ->
  fold_left (fun local i => assign i (wrap32s (nth i src 0)) local)
            (seq 0 j) (repeat 0 n)
  = map wrap32s (firstn j src) ++ repeat 0 (n - j).
Proof.
  induction j as [|j IH]; intros Hs Hn.
  - simpl. now rewrite Nat.sub_0_r.
  - rewrite seq_S, fold_left_app, IH by lia. cbn [fold_left Nat.add].
    replace (n - j)%nat with (S (n - S j)) by lia. cbn [repeat].
    assert (L : length (map wrap32s (firstn j src)) = j)
      by (rewrite length_map, length_firstn; lia).
    rewrite <- L at 1. rewrite assign_middle.
    rewrite firstn_snoc, map_app, <- app_assoc by lia. reflexivity.
Qed.

Lemma firstn_min (src : list Z) n : firstn (Nat.min (length src) n) src = firstn n src.
Proof.
  destruct (Nat.le_ge_cases (length src) n) as [H|H].
  - rewrite Nat.min_l by lia. now rewrite !firstn_all2 by lia.
  - now rewrite Nat.min_r by lia.
Qed.

(** The loop copies the leading entries and leaves the zeros behind them. *)
Lemma copy_leading_spec src n :
  copy_leading src n (repeat 0 n)
  = map wrap32s (firstn n src) ++ repeat 0 (n - length src).
Proof.
  unfold copy_leading. rewrite copy_steps by lia. rewrite firstn_min.
  f_equal. f_equal. lia.
Qed.

Lemma push_steps src j :
  (j <= length src)%nat ->
  fold_left (fun local i => local ++ [wrap32s (nth i src 0)]) (seq 0 j) []
  = map wrap32s (firstn j src).
Proof.
  induction j as [|j IH]; intros Hs; [reflexivity |].
  rewrite seq_S, fold_left_app, IH by lia. cbn [fold_left Nat.add].
  rewrite firstn_snoc, map_app by lia. reflexivity.
Qed.

Lemma push_leading_spec src n :
  push_leading src n [] = map wrap32s (firstn n src).
Proof. unfold push_leading. rewrite push_steps by lia. now rewrite firstn_min. Qed.

Lemma copy_leading_length src n : length (copy_leading src n (repeat 0 n)) = n.
Proof.
  rewrite copy_leading_spec, length_app, length_map, length_firstn, repeat_length. lia.
Qed.

Lemma heap_read_all v n : length v = n -> heap_read v n = Some v.
Proof.
  intros <-. unfold heap_read. rewrite Nat.leb_refl. now rewrite firstn_all.
Qed.

Lemma wrap32s_small z : - 2 ^ 31 <= z < 2 ^ 31 -> wrap32s z = z.
Proof. intros H. unfold wrap32s. rewrite Z.mod_small by lia. lia. Qed.

(** ** The constructor *)

(** The [kernel_shape] local of the constructor. *)
Definition kernel_shape_of (info : OpKernelInfo) : list Z :=
  if kernel_shape_specified (attributes info)
  then match attr_kernel_shape info with Some ks => ks | None => [] end
  else [].

(** The [activation] the constructor stores, and its attributes after
    that. *)
Definition activation_of (info : OpKernelInfo) : string :=
  match attr_activation info with Some s => s | None => EmptyString end.

Definition attrs_of (info : OpKernelInfo) : ConvTransposeAttributes :=
  set_activation (activation_of info) (attributes info).

Definition channels_last_of (is_channels_last : bool) (info : OpKernelInfo) : Z :=
  if is_channels_last then 1
  else match attr_channels_last info with Some c => c | None => 0 end.

Ltac project :=
  cbn [attr_activation attr_kernel_shape attr_channels_last attributes
       auto_pad group kernel_shape_specified strides pads dilations output_padding
       output_shape activation set_activation
       conv_transpose_attrs_ w_is_const_ js_attribute js_outputPadding js_outputShape
       js_format js_dilations js_kernelShape js_pads js_strides js_autoPad js_group
       js_activation heap_range] in *.

Lemma guarded_first (l : list Z) :
  (if (0 <? length l)%nat then nth 0 l 0 else 0) = nth 0 l 0.
Proof. destruct l; reflexivity. Qed.

Lemma guarded_second (l : list Z) :
  (if (1 <? length l)%nat then nth 1 l 0 else 0) = nth 1 l 0.
Proof. destruct l as [|a [|b l]]; reflexivity. Qed.

Lemma padded_length (l : list Z) n :
  length (map wrap32s (firstn n l) ++ repeat 0 (n - length l)) = n.
Proof. rewrite length_app, length_map, length_firstn, repeat_length. lia. Qed.

Lemma constructed cl fused info k :
  ConvTranspose cl fused info = inr k ->
  let a := attrs_of info in
  let ks := kernel_shape_of info in
  let js := js_attribute k in
  conv_transpose_attrs_ k = a /\ w_is_const_ k = false
  /\ js_outputPadding js = map wrap32s (output_padding a)
  /\ js_outputShape js = map wrap32s (output_shape a)
  /\ js_format js = format_of (channels_last_of cl info)
  /\ (one_dimensional a ks = true ->
      js_dilations js = Some [wrap32s (nth 0 (dilations a) 0)]
      /\ js_kernelShape js = Some [wrap32s (nth 0 ks 0)]
      /\ js_pads js = Some [wrap32s (nth 0 (pads a) 0); wrap32s (nth 1 (pads a) 0)]
      /\ js_strides js = Some [wrap32s (nth 0 (strides a) 0)])
  /\ (one_dimensional a ks = false ->
      js_dilations js
      = Some (map wrap32s (firstn 2 (dilations a)) ++ repeat 0 (2 - length (dilations a)))
      /\ js_kernelShape js
         = (if kernel_shape_specified a
            then heap_read (map wrap32s (firstn 2 ks)) 2
            else Some [0; 0])
      /\ js_pads js
         = Some (map wrap32s (firstn 4 (pads a)) ++ repeat 0 (4 - length (pads a)))
      /\ js_strides js
         = Some (map wrap32s (firstn 2 (strides a)) ++ repeat 0 (2 - length (strides a)))).
Proof.
  destruct info as [aact aks acl [ap g spec st pd dl opd osh act0]].
  unfold ConvTranspose, kernel_shape_of, attrs_of, activation_of, channels_last_of.
  cbv zeta. project.
  assert (K : forall kshape act,
            (if one_dimensional (MkAttributes ap g spec st pd dl opd osh act) kshape
             then
               inr (MkKernel (MkAttributes ap g spec st pd dl opd osh act) false
                      (MkJsAttribute
                         (format_of (if cl then 1
                                     else match acl with Some c => c | None => 0 end))
                         (wrap32s ap)
                         (Some [wrap32s (if (0 <? length dl)%nat then nth 0 dl 0 else 0)])
                         (wrap32s g)
                         (Some [wrap32s (if spec && (0 <? length kshape)%nat
                                         then nth 0 kshape 0 else 0)])
                         (Some [wrap32s (if (0 <? length pd)%nat then nth 0 pd 0 else 0);
                                wrap32s (if (1 <? length pd)%nat then nth 1 pd 0 else 0)])
                         (Some [wrap32s (if (0 <? length st)%nat then nth 0 st 0 else 0)])
                         (map wrap32s opd) (map wrap32s osh) act))
             else
               inr (MkKernel (MkAttributes ap g spec st pd dl opd osh act) false
                      (MkJsAttribute
                         (format_of (if cl then 1
                                     else match acl with Some c => c | None => 0 end))
                         (wrap32s ap)
                         (heap_read (copy_leading dl 2 (repeat 0 2)) 2)
                         (wrap32s g)
                         (heap_read (if spec then push_leading kshape 2 []
                                     else repeat 0 2) 2)
                         (heap_read (copy_leading pd 4 (repeat 0 4)) 4)
                         (heap_read (copy_leading st 2 (repeat 0 2)) 2)
                         (map wrap32s opd) (map wrap32s osh) act)))
            = (inr k : Exn + Kernel) ->
            (spec = false -> kshape = []) ->
            conv_transpose_attrs_ k = MkAttributes ap g spec st pd dl opd osh act
            /\ w_is_const_ k = false
            /\ js_outputPadding (js_attribute k) = map wrap32s opd
            /\ js_outputShape (js_attribute k) = map wrap32s osh
            /\ js_format (js_attribute k)
               = format_of (if cl then 1 else match acl with Some c => c | None => 0 end)
            /\ (one_dimensional (MkAttributes ap g spec st pd dl opd osh act) kshape = true ->
                js_dilations (js_attribute k) = Some [wrap32s (nth 0 dl 0)]
                /\ js_kernelShape (js_attribute k) = Some [wrap32s (nth 0 kshape 0)]
                /\ js_pads (js_attribute k)
                   = Some [wrap32s (nth 0 pd 0); wrap32s (nth 1 pd 0)]
                /\ js_strides (js_attribute k) = Some [wrap32s (nth 0 st 0)])
            /\ (one_dimensional (MkAttributes ap g spec st pd dl opd osh act) kshape = false ->
                js_dilations (js_attribute k)
                = Some (map wrap32s (firstn 2 dl) ++ repeat 0 (2 - length dl))
                /\ js_kernelShape (js_attribute k)
                   = (if spec then heap_read (map wrap32s (firstn 2 kshape)) 2
                      else Some [0; 0])
                /\ js_pads (js_attribute k)
                   = Some (map wrap32s (firstn 4 pd) ++ repeat 0 (4 - length pd))
                /\ js_strides (js_attribute k)
                   = Some (map wrap32s (firstn 2 st) ++ repeat 0 (2 - length st)))).
  { intros kshape act H Hk.
    destruct (one_dimensional _ kshape) eqn:E1; injection H as <-; project;
      repeat (split; [reflexivity |]); split; intros E;
      try discriminate E.
    - rewrite !guarded_first, guarded_second.
      repeat split. destruct spec; cbn [andb].
      + now rewrite guarded_first.
      + now rewrite (Hk eq_refl).
    - rewrite !copy_leading_spec.
      repeat split; try (apply heap_read_all, padded_length).
      destruct spec; [now rewrite push_leading_spec | reflexivity]. }
  destruct fused, aact as [s|]; try discriminate;
    destruct spec; try (destruct aks as [kshape|]; try discriminate);
    intros H; apply K in H; auto; discriminate.
Qed.

Lemma one_dimensional_attrs_of info ks :
  one_dimensional (attrs_of info) ks = one_dimensional (attributes info) ks.
Proof. destruct info as [? ? ? []]. reflexivity. Qed.

(** A 2-D node: 3x3 kernel, strides 2, pads 1 and dilations 1. *)
Definition node_2d : OpKernelInfo :=
  MkInfo None (Some [3; 3]) None
         (MkAttributes 0 1 true [2; 2] [1; 1; 1; 1] [1; 1] [] [] EmptyString).

(** A 3-D node: 3x3x3 kernel, pads 1 at the start and 2 at the end of
    each axis. *)
Definition node_3d : OpKernelInfo :=
  MkInfo None (Some [3; 3; 3]) None
         (MkAttributes 0 1 true [1; 1; 1] [1; 1; 1; 2; 2; 2] [1; 1; 1] [] []
                       EmptyString).

(** The arrays handed to JavaScript have the sizes it reads: when the
    constructor returns, dilations, strides and the kernel shape have the
    same number [d] of entries, 1 in the 1-D branch and 2 otherwise, and
    pads has [2 * d]; the one exception is a kernel shape that is specified
    but empty outside the 1-D branch, where the two entries JavaScript
    reads lie beyond the vector. *)
Theorem marshalled_array_sizes cl fused info k :
  ConvTranspose cl fused info = inr k ->
  let js := js_attribute k in
  let ks := kernel_shape_of info in
  let d := if one_dimensional (attributes info) ks then 1%nat else 2%nat in
  option_map (@length Z) (js_dilations js) = Some d
  /\ option_map (@length Z) (js_strides js) = Some d
  /\ option_map (@length Z) (js_pads js) = Some (2 * d)%nat
  /\ (forall v, js_kernelShape js = Some v -> length v = d)
  /\ (js_kernelShape js = None <->
      one_dimensional (attributes info) ks = false
      /\ kernel_shape_specified (attributes info) = true /\ ks = []).
Proof.
  intros H. apply constructed in H. cbv zeta in H.
  destruct H as (_ & _ & _ & _ & _ & H1 & H2).
  rewrite one_dimensional_attrs_of in H1, H2. cbv zeta.
  assert (Es : kernel_shape_specified (attrs_of info)
               = kernel_shape_specified (attributes info))
    by (destruct info as [? ? ? []]; reflexivity).
  assert (Ed : dilations (attrs_of info) = dilations (attributes info))
    by (destruct info as [? ? ? []]; reflexivity).
  assert (Et : strides (attrs_of info) = strides (attributes info))
    by (destruct info as [? ? ? []]; reflexivity).
  destruct (one_dimensional (attributes info) (kernel_shape_of info)) eqn:E1.
  - destruct (H1 eq_refl) as (-> & -> & -> & ->). cbn [option_map length Nat.mul Nat.add].
    repeat split; try discriminate.
    + now intros v [= <-].
    + now intros (? & _).
  - destruct (H2 eq_refl) as (-> & Hk & -> & ->). cbn [option_map].
    rewrite !padded_length. rewrite Hk, Es. clear H1 H2 Hk.
    unfold one_dimensional in E1.
    destruct (kernel_shape_specified (attributes info)); cbn [andb] in *.
    + destruct (kernel_shape_of info) as [|a [|b ks]].
      * repeat split; try discriminate; reflexivity.
      * rewrite orb_true_r in E1. discriminate.
      * unfold heap_read. cbn [firstn map length Nat.leb].
        repeat split; try discriminate.
        -- now intros v [= <-].
        -- intros (_ & _ & ?). discriminate.
    + repeat split; try discriminate.
      * now intros v [= <-].
      * intros (_ & ? & _). discriminate.
Qed.

Lemma marshalled_array_sizes_witness :
  exists k,
    ConvTranspose false false node_3d = inr k
    /\ option_map (@length Z) (js_pads (js_attribute k)) = Some 4%nat
    /\ option_map (@length Z) (js_strides (js_attribute k)) = Some 2%nat.
Proof.
  match eval vm_compute in (ConvTranspose false false node_3d) with
  | inr ?k =>
      exists k;
      destruct (marshalled_array_sizes false false node_3d k) as (_ & Hs & Hp & _);
      [reflexivity | split; [reflexivity | split; [exact Hp | exact Hs]]]
  end.
Defined.

Definition fits_int32 (z : Z) : Prop := - 2 ^ 31 <= z < 2 ^ 31.

(** The attributes of a 1-D or 2-D node reach JavaScript unchanged: when
    the kernel shape is specified with [d] entries, [d] being 1 or 2,
    dilations and strides have [d] entries and pads [2 * d], and all of
    them fit 32 bits, the four arrays of the attribute object are these
    lists. *)
Theorem consistent_attributes_pass_through cl fused info k ks d :
  ConvTranspose cl fused info = inr k ->
  kernel_shape_specified (attributes info) = true ->
  attr_kernel_shape info = Some ks ->
  (d = 1 \/ d = 2)%nat ->
  length ks = d ->
  length (dilations (attributes info)) = d ->
  length (strides (attributes info)) = d ->
  length (pads (attributes info)) = (2 * d)%nat ->
  Forall fits_int32 (ks ++ dilations (attributes info)
                     ++ strides (attributes info) ++ pads (attributes info)) ->
  js_kernelShape (js_attribute k) = Some ks
  /\ js_dilations (js_attribute k) = Some (dilations (attributes info))
  /\ js_strides (js_attribute k) = Some (strides (attributes info))
  /\ js_pads (js_attribute k) = Some (pads (attributes info)).
Proof.
  intros H Hs Hk Hd Lk Ld Lt Lp Hf.
  apply constructed in H. cbv zeta in H.
  destruct H as (_ & _ & _ & _ & _ & H1 & H2).
  destruct info as [aact aks acl [ap g spec st pd dl opd osh act0]].
  unfold attrs_of, activation_of, kernel_shape_of in *. project.
  subst spec aks.
  apply Forall_app in Hf as [Fk Hf]. apply Forall_app in Hf as [Fd Hf].
  apply Forall_app in Hf as [Ft Fp].
  destruct Hd as [-> | ->].
  - destruct ks as [|k0 [|]]; try discriminate.
    destruct dl as [|d0 [|]]; try discriminate.
    destruct st as [|s0 [|]]; try discriminate.
    destruct pd as [|p0 [|p1 [|]]]; try discriminate.
    destruct (H1 eq_refl) as (-> & -> & -> & ->). cbn [nth].
    repeat match goal with
           | H : Forall _ (_ :: _) |- _ => inversion H; clear H; subst
           end.
    unfold fits_int32 in *. now rewrite !wrap32s_small by assumption.
  - destruct ks as [|k0 [|k1 [|]]]; try discriminate.
    destruct dl as [|d0 [|d1 [|]]]; try discriminate.
    destruct st as [|s0 [|s1 [|]]]; try discriminate.
    destruct pd as [|p0 [|p1 [|p2 [|p3 [|]]]]]; try discriminate.
    destruct (H2 eq_refl) as (-> & -> & -> & ->).
    unfold heap_read. cbn [firstn map length Nat.leb Nat.sub repeat app].
    repeat match goal with
           | H : Forall _ (_ :: _) |- _ => inversion H; clear H; subst
           end.
    unfold fits_int32 in *. now rewrite !wrap32s_small by assumption.
Qed.

Lemma consistent_attributes_pass_through_witness :
  exists k,
    ConvTranspose false false node_2d = inr k
    /\ js_kernelShape (js_attribute k) = Some [3; 3]
    /\ js_pads (js_attribute k) = Some [1; 1; 1; 1].
Proof.
  match eval vm_compute in (ConvTranspose false false node_2d) with
  | inr ?k =>
      exists k;
      destruct (consistent_attributes_pass_through false false node_2d k [3; 3] 2)
        as (Hk & _ & _ & Hp);
      [reflexivity | reflexivity | reflexivity | right; reflexivity
      | reflexivity | reflexivity | reflexivity | reflexivity
      | repeat constructor; unfold fits_int32; lia
      | split; [reflexivity | split; [exact Hk | exact Hp]]]
  end.
Defined.

(** Outside the 1-D branch JavaScript sees the leading entries only: of
    dilations and strides the first two and of pads the first four, each
    reduced to 32 bits, with zeros where the list is shorter; what a node
    of more than two spatial axes has beyond them is dropped, so that the
    four pads are the first four of the node's list whatever they stand
    for. *)
Theorem leading_entries_zero_padded cl fused info k :
  ConvTranspose cl fused info = inr k ->
  one_dimensional (attributes info) (kernel_shape_of info) = false ->
  let a := attributes info in
  js_dilations (js_attribute k)
  = Some (map wrap32s (firstn 2 (dilations a)) ++ repeat 0 (2 - length (dilations a)))
  /\ js_strides (js_attribute k)
     = Some (map wrap32s (firstn 2 (strides a)) ++ repeat 0 (2 - length (strides a)))
  /\ js_pads (js_attribute k)
     = Some (map wrap32s (firstn 4 (pads a)) ++ repeat 0 (4 - length (pads a)))
  /\ (kernel_shape_specified a = false -> js_kernelShape (js_attribute k) = Some [0; 0])
  /\ (kernel_shape_specified a = true -> (2 <= length (kernel_shape_of info))%nat ->
      js_kernelShape (js_attribute k)
      = Some (map wrap32s (firstn 2 (kernel_shape_of info)))).
Proof.
  intros H E1. apply constructed in H. cbv zeta in H.
  destruct H as (_ & _ & _ & _ & _ & _ & H2).
  rewrite one_dimensional_attrs_of in H2.
  destruct (H2 E1) as (Hd & Hk & Hp & Hs). clear H2.
  destruct info as [aact aks acl [ap g spec st pd dl opd osh act0]].
  unfold attrs_of, activation_of in *. project. cbv zeta. project.
  repeat split; try assumption.
  - intros ->. exact Hk.
  - intros -> Hl. rewrite Hk. apply heap_read_all.
    rewrite length_map, length_firstn. lia.
Qed.

Lemma leading_entries_zero_padded_witness :
  exists k,
    ConvTranspose false false node_3d = inr k
    /\ js_pads (js_attribute k) = Some [1; 1; 1; 2]
    /\ js_kernelShape (js_attribute k) = Some [3; 3].
Proof.
  match eval vm_compute in (ConvTranspose false false node_3d) with
  | inr ?k =>
      exists k;
      destruct (leading_entries_zero_padded false false node_3d k)
        as (_ & _ & Hp & _ & Hk);
      [reflexivity | reflexivity
      | split; [reflexivity | split; [exact Hp | apply Hk; [reflexivity | cbv; lia]]]]
  end.
Defined.

(** ** PrePack *)

(** The calls that make the weight count as constant. *)
Definition marks_constant (c : Tensor * Z) : bool :=
  (snd c =? 1) && (length (Shape (fst c)) =? 4)%nat && negb (SizeInBytes (fst c) =? 0).

Lemma PrePack_step t i k :
  PrePack t i k
  = (Pool.Status_OK, false,
     set_w_is_const (w_is_const_ k || marks_constant (t, i)) k).
Proof.
  unfold PrePack, marks_constant. cbn [fst snd].
  destruct k as [a w js].
  destruct (i =? 1); [| now rewrite orb_false_r].
  destruct (length (Shape t) =? 4)%nat; cbn [negb orb andb];
    [| now rewrite orb_false_r].
  destruct (SizeInBytes t =? 0); cbn [negb andb];
    [now rewrite orb_false_r | now rewrite orb_true_r].
Qed.

Lemma PrePack_all_state calls k :
  PrePack_all calls k
  = set_w_is_const (w_is_const_ k || existsb marks_constant calls) k.
Proof.
  unfold PrePack_all. revert k.
  induction calls as [|[t i] calls IH]; intros k.
  - destruct k. cbn. now rewrite orb_false_r.
  - cbn [fold_left existsb fst snd]. rewrite PrePack_step. cbn [snd].
    rewrite IH. destruct k. cbn [set_w_is_const w_is_const_ conv_transpose_attrs_
      js_attribute]. now rewrite orb_assoc.
Qed.

(** [PrePack] never packs and never fails, and it only ever switches
    "wIsConst" on: after any series of calls on a kernel the constructor
    built, JavaScript reads "wIsConst" as true exactly when one of the
    calls was for input 1 with a 4-D tensor that is not empty; the
    attribute object and the attributes are as the constructor left them. *)
Theorem PrePack_marks_constant_weight cl fused info k calls :
  ConvTranspose cl fused info = inr k ->
  let k' := PrePack_all calls k in
  wIsConst k' = existsb marks_constant calls
  /\ js_attribute k' = js_attribute k
  /\ conv_transpose_attrs_ k' = conv_transpose_attrs_ k
  /\ (forall t i k0, fst (PrePack t i k0) = (Pool.Status_OK, false))
  /\ (forall t i, wIsConst k' = true -> wIsConst (snd (PrePack t i k')) = true).
Proof.
  intros H. apply constructed in H. cbv zeta in H.
  destruct H as (_ & Hw & _). cbv zeta.
  rewrite PrePack_all_state, Hw. unfold wIsConst.
  cbn [set_w_is_const w_is_const_ js_attribute conv_transpose_attrs_ orb].
  repeat split.
  - intros t i k0. now rewrite PrePack_step.
  - intros t i E. rewrite PrePack_step. cbn [snd set_w_is_const w_is_const_].
    now rewrite E.
Qed.

Lemma PrePack_marks_constant_weight_witness :
  exists k,
    ConvTranspose false false node_2d = inr k
    /\ wIsConst (PrePack_all [(MkTensor [8; 4; 3; 3] 1152, 0);
                              (MkTensor [8; 4; 3; 3] 1152, 1)] k) = true
    /\ wIsConst (PrePack_all [(MkTensor [8; 4; 3] 384, 1)] k) = false.
Proof.
  match eval vm_compute in (ConvTranspose false false node_2d) with
  | inr ?k =>
      exists k;
      destruct (PrePack_marks_constant_weight false false node_2d k
                  [(MkTensor [8; 4; 3; 3] 1152, 0); (MkTensor [8; 4; 3; 3] 1152, 1)])
        as (Hw & _);
      [reflexivity | split; [reflexivity | split; [rewrite Hw; reflexivity | reflexivity]]]
  end.
Defined.

End ConvTransposeSpec.

(* ===================================================================== *)
(** * Properties of the functions of api.cc that return an error code *)
(* ===================================================================== *)

Module WasmCallsSpec.
Import WasmApi WasmCalls.
Import WasmApiSpec.

(** ** Reading a trace *)

Definition live_resource (r : Resource) : bool := negb (pointer_of r =? nullptr).

(** What a call hands to the function that the function puts behind an
    [auto_release_*] wrapper: the buffer of an [Alloc], and from a call that
    succeeded the name buffer, the array of bound values, the type info,
    the tensor type and shape info or the memory info it stored.  A null
    pointer is nothing to keep. *)
Definition registered (c : Call) (r : Reply) : list Resource :=
  let v := reply_value r in
  let kept res :=
    if status_ok (reply_status r) && live_resource res then [res] else [] in
  match c with
  | Alloc a _ => if live_resource (Buffer a v) then [Buffer a v] else []
  | SessionGetInputName _ _ a | SessionGetOutputName _ _ a
  | GetBoundOutputValues _ a => kept (Buffer a v)
  | SessionGetInputTypeInfo _ _ | SessionGetOutputTypeInfo _ _ => kept (TypeInfo v)
  | GetTensorTypeAndShape _ => kept (TensorTypeAndShapeInfo v)
  | CreateCpuMemoryInfo _ _ | CreateMemoryInfo _ _ _ _ => kept (Handle MemoryInfo v)
  | _ => []
  end.

Definition registered_in (l : list Effect) : list Resource :=
  flat_map (fun e => match e with Called c r => registered c r | _ => [] end) l.

Definition released_in (l : list Effect) : list Resource :=
  flat_map (fun e => match e with Released r => [r] | _ => [] end) l.

Definition is_output (e : Effect) : bool :=
  match e with Output _ _ _ => true | _ => false end.

Definition outputs_in (l : list Effect) : list Effect := filter is_output l.

(** The [OrtValue]s whose addresses [GetBoundOutputValues] stored in the
    array: its first [reply_count] entries, the null ones aside.  They
    belong to the caller of [GetBoundOutputValues] like the array itself,
    but no wrapper is made for them. *)
Definition bound_values (r : Reply) : list Resource :=
  filter live_resource
    (map (fun i => Handle Value (nth i (reply_items r) 0))
         (List.seq 0 (Z.to_nat (reply_count r)))).

Definition bound (c : Call) (r : Reply) : list Resource :=
  match c with
  | GetBoundOutputValues _ _ => if status_ok (reply_status r) then bound_values r else []
  | _ => []
  end.

Definition bound_in (l : list Effect) : list Resource :=
  flat_map (fun e => match e with Called c r => bound c r | _ => [] end) l.

(** Everything a call hands to the function for keeping. *)
Definition owned (c : Call) (r : Reply) : list Resource := registered c r ++ bound c r.

Definition owned_in (l : list Effect) : list Resource :=
  flat_map (fun e => match e with Called c r => owned c r | _ => [] end) l.

Lemma registered_in_app l1 l2 : registered_in (l1 ++ l2) = registered_in l1 ++ registered_in l2.
Proof. apply flat_map_app. Qed.

Lemma released_in_app l1 l2 : released_in (l1 ++ l2) = released_in l1 ++ released_in l2.
Proof. apply flat_map_app. Qed.

Lemma outputs_in_app l1 l2 : outputs_in (l1 ++ l2) = outputs_in l1 ++ outputs_in l2.
Proof. apply filter_app. Qed.

(** ** The state of a running function *)

Section Logic.

Variable runtime : nat -> Call -> Reply.
Variable K : Constants.
Variable E : Enumerations.
Variable pthreads : bool.

(** The function started in [m0]; since then the effects [new] happened,
    the statuses [chk] went through [CheckStatus], all of them fine, and
    the wrappers [ws] were registered. *)
Record running (m0 : Machine) (ws : list Resource) (m : Machine)
    (new : list Effect) (chk : list OrtStatusPtr) : Prop := {
  r_trace : trace m = trace m0 ++ new;
  r_checked : checked (world m) = checked (world m0) ++ chk;
  r_error : globals_match chk (world m0) (world m);
  r_ok : all_ok chk = true;
  r_wrappers : wrappers m = ws;
  r_live : filter live_resource ws = rev (registered_in new);
  r_released : released_in new = [];
  r_outputs : outputs_in new = []
}.

(** The body left the function with the error code [r]. *)
Definition failed (m0 : Machine) (r : OrtErrorCode) (m : Machine) : Prop :=
  exists new chk,
    trace m = trace m0 ++ new
    /\ checked (world m) = checked (world m0) ++ chk
    /\ all_ok chk = false
    /\ r <> ORT_OK
    /\ g_last_error_code (world m) = r
    /\ filter live_resource (wrappers m) = rev (registered_in new)
    /\ released_in new = []
    /\ outputs_in new = [].

(** The body returned ORT_OK, handing the resources [handed] over to the
    caller. *)
Definition succeeded (m0 : Machine) (r : OrtErrorCode) (m : Machine) : Prop :=
  exists new chk handed,
    trace m = trace m0 ++ new
    /\ checked (world m) = checked (world m0) ++ chk
    /\ all_ok chk = true /\ chk <> []
    /\ r = ORT_OK
    /\ g_last_error_code (world m) = ORT_OK
    /\ Permutation (filter live_resource (wrappers m) ++ handed) (registered_in new)
    /\ released_in new = []
    /\ Forall (fun h => exists p, In (Output p 0 (Ptr (pointer_of h))) new) handed.

Definition result_of {R} (res : R + R) : R :=
  match res with inl r => r | inr r => r end.

Definition body_post (m0 : Machine) (x : (OrtErrorCode + OrtErrorCode) * Machine) : Prop :=
  failed m0 (result_of (fst x)) (snd x) \/ succeeded m0 (result_of (fst x)) (snd x).

Lemma status_ok_code s : status_ok s = is_ORT_OK (fst (last_error_of s)).
Proof. reflexivity. Qed.

Lemma is_ORT_OK_true c : is_ORT_OK c = true <-> c = ORT_OK.
Proof. destruct c; split; intros; try discriminate; reflexivity. Qed.

Lemma is_ORT_OK_false c : is_ORT_OK c = false <-> c <> ORT_OK.
Proof. destruct c; split; intros; try discriminate; try congruence; reflexivity. Qed.

Lemma all_ok_nonempty chk : all_ok chk = false -> chk <> [].
Proof. intros H ->. discriminate. Qed.

(** [CheckStatus] on the machine. *)
Lemma run_check {R} s m :
  @check R s m
  = (inl (fst (last_error_of s)), set_world (snd (CheckStatus s (world m))) m).
Proof.
  unfold check. destruct (CheckStatus_spec s (world m)) as (H & _).
  destruct (CheckStatus s (world m)) as [e w]. simpl in *. now subst e.
Qed.

Definition reply_to (c : Call) (m : Machine) : Reply := runtime (length (trace m)) c.

Definition after_call (c : Call) (m : Machine) : Machine :=
  set_world (snd (CheckStatus (reply_status (reply_to c m)) (world m)))
            (add_effect (Called c (reply_to c m)) m).

Lemma run_checked {R} c m :
  @CHECK_STATUS runtime R c m
  = (inl (fst (last_error_of (reply_status (reply_to c m))), reply_to c m),
     after_call c m).
Proof.
  unfold CHECK_STATUS, and_then, ask. rewrite run_check. reflexivity.
Qed.

Lemma run_RETURN_ERROR_CODE_IF_ERROR c m :
  RETURN_ERROR_CODE_IF_ERROR runtime c m
  = (if status_ok (reply_status (reply_to c m))
     then inl (reply_to c m)
     else inr (fst (last_error_of (reply_status (reply_to c m)))),
     after_call c m).
Proof.
  unfold RETURN_ERROR_CODE_IF_ERROR, and_then. rewrite run_checked.
  cbn [fst snd]. rewrite status_ok_code.
  now destruct (is_ORT_OK _).
Qed.

Lemma run_effects {R} l m :
  @effects R l m = (inl tt, MkMachine (world m) (trace m ++ l) (wrappers m)).
Proof.
  unfold effects. revert m. induction l as [|e l IH]; intros m.
  - destruct m. cbn. now rewrite app_nil_r.
  - cbn [fold_right]. unfold and_then at 1, effect at 1. rewrite IH.
    cbn. now rewrite <- app_assoc.
Qed.

(** A checked status, in a running function. *)
Lemma checked_state m0 ws m new chk s w' new' :
  running m0 ws m new chk ->
  checked w' = checked (world m) ++ [s] ->
  last_error w' = last_error_of s ->
  forall m',
    world m' = w' -> trace m' = trace m ++ new' -> wrappers m' = wrappers m ->
    trace m' = trace m0 ++ new ++ new'
    /\ checked (world m') = checked (world m0) ++ chk ++ [s]
    /\ globals_match (chk ++ [s]) (world m0) (world m')
    /\ g_last_error_code (world m') = fst (last_error_of s).
Proof.
  intros [Ht Hc He Hok Hw Hl Hr Ho] C L m' -> T W.
  split; [now rewrite T, Ht, app_assoc |].
  split; [now rewrite C, Hc, app_assoc |].
  split.
  - unfold globals_match. now rewrite last_checked_snoc.
  - unfold last_error in L. now rewrite <- L.
Qed.

Variable m0 : Machine.

(** What a proof about a body aims at: a property of its outcome that
    every failure has. *)
Variable A : Type.
Variable goal : (A + OrtErrorCode) * Machine -> Prop.
Hypothesis goal_failed : forall r m, failed m0 r m -> goal (inr r, m).

(** A checked call that hands nothing over. *)
Lemma then_call c (k : Reply -> Code OrtErrorCode A) ws m new chk :
  (forall r, registered c r = []) ->
  running m0 ws m new chk ->
  (forall m' new' chk',
     running m0 ws m' new' chk' -> chk' <> [] ->
     g_last_error_code (world m') = ORT_OK ->
     new' = new ++ [Called c (reply_to c m)] ->
     status_ok (reply_status (reply_to c m)) = true ->
     goal (k (reply_to c m) m')) ->
  goal (and_then (RETURN_ERROR_CODE_IF_ERROR runtime c) k m).
Proof.
  intros Hown Hr Hk. unfold and_then. rewrite run_RETURN_ERROR_CODE_IF_ERROR.
  set (r := reply_to c m).
  destruct (CheckStatus_spec (reply_status r) (world m)) as (_ & L & C & _).
  destruct (checked_state m0 ws m new chk (reply_status r) _ [Called c r] Hr C L
              (after_call c m) eq_refl eq_refl eq_refl) as (T' & C' & G' & Code').
  destruct Hr as [Ht Hc He Hok Hw Hl Hrel Ho].
  destruct (status_ok (reply_status r)) eqn:Es.
  - apply (Hk _ (new ++ [Called c r]) (chk ++ [reply_status r])); auto.
    + constructor; auto.
      * now rewrite all_ok_snoc, Hok, Es.
      * rewrite registered_in_app. cbn. rewrite Hown, !app_nil_r. exact Hl.
      * rewrite released_in_app, Hrel. reflexivity.
      * rewrite outputs_in_app, Ho. reflexivity.
    + now destruct chk.
    + rewrite Code'. now apply is_ORT_OK_true.
  - apply goal_failed.
    exists (new ++ [Called c r]), (chk ++ [reply_status r]).
    split; [exact T' |]. split; [exact C' |].
    split; [now rewrite all_ok_snoc, Hok, Es |].
    split; [now apply is_ORT_OK_false |].
    split; [exact Code' |].
    split.
    { cbn [after_call set_world add_effect wrappers]. rewrite Hw.
      rewrite registered_in_app. cbn. rewrite Hown, !app_nil_r. exact Hl. }
    split; [rewrite released_in_app, Hrel; reflexivity |].
    rewrite outputs_in_app, Ho. reflexivity.
Qed.

(** A checked call whose result is registered for release. *)
Lemma then_acquire c (res : Reply -> Resource)
    (k : Reply -> Code OrtErrorCode A) ws m new chk :
  (forall r, registered c r
             = if status_ok (reply_status r) && live_resource (res r)
               then [res r] else []) ->
  running m0 ws m new chk ->
  (forall m' new' chk',
     running m0 (res (reply_to c m) :: ws) m' new' chk' -> chk' <> [] ->
     g_last_error_code (world m') = ORT_OK ->
     new' = new ++ [Called c (reply_to c m)] ->
     status_ok (reply_status (reply_to c m)) = true ->
     goal (k (reply_to c m) m')) ->
  goal (and_then (RETURN_ERROR_CODE_IF_ERROR runtime c)
          (fun r => and_then (REGISTER_AUTO_RELEASE (res r)) (fun _ => k r)) m).
Proof.
  intros Hown Hr Hk. unfold and_then. rewrite run_RETURN_ERROR_CODE_IF_ERROR.
  set (r := reply_to c m).
  destruct (CheckStatus_spec (reply_status r) (world m)) as (_ & L & C & _).
  destruct (checked_state m0 ws m new chk (reply_status r) _ [Called c r] Hr C L
              (after_call c m) eq_refl eq_refl eq_refl) as (T' & C' & G' & Code').
  destruct Hr as [Ht Hc He Hok Hw Hl Hrel Ho].
  destruct (status_ok (reply_status r)) eqn:Es.
  - unfold REGISTER_AUTO_RELEASE.
    apply (Hk _ (new ++ [Called c r]) (chk ++ [reply_status r])); auto.
    + constructor; auto.
      * now rewrite all_ok_snoc, Hok, Es.
      * cbn [after_call set_world set_wrappers add_effect wrappers]. now rewrite Hw.
      * rewrite registered_in_app. cbn [registered_in flat_map]. rewrite Hown, Es, app_nil_r.
        cbn [andb filter]. rewrite rev_app_distr, <- Hl. subst r.
        now destruct (live_resource (res (reply_to c m))).
      * rewrite released_in_app, Hrel. reflexivity.
      * rewrite outputs_in_app, Ho. reflexivity.
    + now destruct chk.
    + cbn [set_wrappers world]. rewrite Code'. now apply is_ORT_OK_true.
  - apply goal_failed.
    exists (new ++ [Called c r]), (chk ++ [reply_status r]).
    split; [exact T' |]. split; [exact C' |].
    split; [now rewrite all_ok_snoc, Hok, Es |].
    split; [now apply is_ORT_OK_false |].
    split; [exact Code' |].
    split.
    { cbn [after_call set_world add_effect wrappers]. rewrite Hw.
      rewrite registered_in_app. cbn [registered_in flat_map]. rewrite Hown, Es.
      cbn [andb]. rewrite !app_nil_r. exact Hl. }
    split; [rewrite released_in_app, Hrel; reflexivity |].
    rewrite outputs_in_app, Ho. reflexivity.
Qed.

(** An allocation that is registered for release. *)
Lemma then_alloc a n (k : Reply -> Code OrtErrorCode A) ws m new chk :
  running m0 ws m new chk ->
  (forall m' new',
     running m0 (Buffer a (reply_value (reply_to (Alloc a n) m)) :: ws) m' new' chk ->
     world m' = world m ->
     new' = new ++ [Called (Alloc a n) (reply_to (Alloc a n) m)] ->
     goal (k (reply_to (Alloc a n) m) m')) ->
  goal (and_then (ask runtime (Alloc a n))
          (fun r => and_then (REGISTER_AUTO_RELEASE (Buffer a (reply_value r)))
                             (fun _ => k r)) m).
Proof.
  intros Hr Hk. unfold and_then, ask, REGISTER_AUTO_RELEASE.
  fold (reply_to (Alloc a n) m). set (r := reply_to (Alloc a n) m).
  destruct Hr as [Ht Hc He Hok Hw Hl Hrel Ho].
  apply (Hk _ (new ++ [Called (Alloc a n) r])); auto.
  constructor; auto.
  - cbn. now rewrite Ht, app_assoc.
  - cbn. now rewrite Hw.
  - rewrite registered_in_app. cbn [registered_in flat_map registered]. rewrite app_nil_r.
    cbn [filter]. rewrite rev_app_distr, <- Hl. subst r.
    now destruct (live_resource (Buffer a (reply_value (reply_to (Alloc a n) m)))).
  - rewrite released_in_app, Hrel. reflexivity.
  - rewrite outputs_in_app, Ho. reflexivity.
Qed.

(** Stores into a buffer of the function's own. *)
Lemma then_wrote l (k : Code OrtErrorCode A) ws m new chk :
  running m0 ws m new chk ->
  outputs_in l = [] -> released_in l = [] -> registered_in l = [] ->
  (forall m',
     running m0 ws m' (new ++ l) chk -> world m' = world m ->
     goal (k m')) ->
  goal (and_then (effects l) (fun _ => k) m).
Proof.
  intros Hr Ho' Hr' Hw' Hk. unfold and_then. rewrite run_effects.
  destruct Hr as [Ht Hc He Hok Hw Hl Hrel Ho].
  apply Hk; auto. constructor; auto.
  - cbn. now rewrite Ht, app_assoc.
  - now rewrite registered_in_app, Hw', app_nil_r.
  - now rewrite released_in_app, Hrel, Hr'.
  - now rewrite outputs_in_app, Ho, Ho'.
Qed.

(** [return CheckStatus(CreateStatus(code, msg))] with an error code. *)
Lemma then_return_status code msg ws m new chk :
  running m0 ws m new chk -> code <> ORT_OK ->
  goal (@return_status A code msg m).
Proof.
  intros Hr Hne. unfold return_status, and_then. rewrite run_check.
  unfold leave_with. apply goal_failed.
  set (s := CreateStatus code msg).
  destruct (CheckStatus_spec s (world m)) as (_ & L & C & _).
  destruct (checked_state m0 ws m new chk s _ [] Hr C L
              (set_world (snd (CheckStatus s (world m))) m) eq_refl
              (eq_sym (app_nil_r _)) eq_refl) as (T' & C' & G' & Code').
  destruct Hr as [Ht Hc He Hok Hw Hl Hrel Ho].
  exists new, (chk ++ [s]). rewrite app_nil_r in T'.
  split; [exact T' |]. split; [exact C' |].
  split.
  { rewrite all_ok_snoc, Hok. cbn. now apply is_ORT_OK_false. }
  split; [exact Hne |]. split; [exact Code' |].
  split; [cbn; now rewrite Hw |]. auto.
Qed.

(** A statement made of statements: what is to be shown of the whole
    is shown of the part, with what follows it as the aim. *)
Definition aim_after {B} (k : B -> Code OrtErrorCode A)
    (x : (B + OrtErrorCode) * Machine) : (A + OrtErrorCode) * Machine :=
  match x with
  | (inl b, m') => k b m'
  | (inr r, m') => (inr r, m')
  end.

Lemma focus {B} (c : Code OrtErrorCode B) (k : B -> Code OrtErrorCode A) m :
  goal (aim_after k (c m)) -> goal (and_then c k m).
Proof. unfold and_then, aim_after. now destruct (c m) as [[b|r] m']. Qed.

End Logic.

Arguments running m0 ws m new chk : clear implicits.

(** The steps of a proof about a body: [HF] says that the aim holds of
    every failure, [H] is the state reached. *)
Ltac next_call :=
  match goal with
  | HF : (forall r m, failed ?m0 r m -> ?G (inr r, m)),
    H : running ?m0 _ _ _ _ |- ?G _ =>
      eapply (then_call _ m0 _ G HF);
      [ intros ?; reflexivity | exact H
      | clear H; intros ? ? ? H ? ? _ _ ]
  end.

Ltac acquire res :=
  match goal with
  | HF : (forall r m, failed ?m0 r m -> ?G (inr r, m)),
    H : running ?m0 _ _ _ _ |- ?G _ =>
      eapply (then_acquire _ m0 _ G HF _ res);
      [ intros ?; reflexivity | exact H
      | clear H; intros ? ? ? H ? ? _ _ ]
  end.

Ltac allocate :=
  match goal with
  | HF : (forall r m, failed ?m0 r m -> ?G (inr r, m)),
    H : running ?m0 _ _ _ _ |- ?G _ =>
      let W := fresh "W" in
      eapply (then_alloc _ m0 _ G);
      [ exact H
      | clear H; intros ? ? H W _;
        match goal with
        | Hg : g_last_error_code (world _) = ORT_OK |- _ => rewrite <- W in Hg
        end; clear W ]
  end.

Ltac refuse :=
  match goal with
  | HF : (forall r m, failed ?m0 r m -> ?G (inr r, m)),
    H : running ?m0 _ _ _ _ |- ?G _ =>
      eapply (then_return_status m0 _ G HF); [exact H | discriminate]
  end.

Ltac write_all Su Sr So :=
  match goal with
  | HF : (forall r m, failed ?m0 r m -> ?G (inr r, m)),
    H : running ?m0 _ _ _ _ |- ?G _ =>
      let W := fresh "W" in
      eapply (then_wrote m0 _ G); [exact H | exact Su | exact Sr | exact So |];
      clear H; intros ? H W;
      match goal with
      | Hg : g_last_error_code (world _) = ORT_OK |- _ => rewrite <- W in Hg
      end; clear W
  end.

(** Enter the statements of a compound statement. *)
Ltac part :=
  match goal with
  | HF : (forall r m, failed ?m0 r m -> ?G (inr r, m)) |- ?G (and_then ?c ?k ?m) =>
      apply (focus _ G c k m);
      let G' := fresh "G" in
      set (G' := fun x => G (aim_after _ k x));
      change (G' (c m));
      let HF' := fresh "HF" in
      assert (HF' : forall r m, failed m0 r m -> G' (inr r, m))
        by (intros ? ? ?; subst G'; cbv beta; unfold aim_after; now apply HF)
  end.

(** The machine after the last statements of a body. *)
Ltac machine :=
  unfold aim_after, and_then, ask, effect, UNREGISTER_AUTO_RELEASE, yield;
  rewrite ?run_effects;
  unfold add_effect, set_wrappers;
  cbn [world trace wrappers pointer_of fst snd];
  rewrite <- ?app_assoc.

(** ** The outcome of a function *)

Section Outcome.

Variable runtime : nat -> Call -> Reply.

Lemma failure_is_outcome m0 r m : failed m0 r m -> body_post m0 (inr r, m).
Proof. intros H. now left. Qed.

(** A body that ends in a checked call and returns its code. *)
Lemma final_call m0 c ws m new chk :
  (forall r, registered c r = []) ->
  running m0 ws m new chk ->
  body_post m0 (and_then (CHECK_STATUS runtime c) (fun r => yield (fst r)) m).
Proof.
  intros Hown Hr. unfold and_then. rewrite run_checked. unfold yield. cbn [fst].
  set (r := reply_to runtime c m).
  destruct (CheckStatus_spec (reply_status r) (world m)) as (_ & L & C & _).
  destruct (checked_state m0 ws m new chk (reply_status r) _ [Called c r] Hr C L
              (after_call runtime c m) eq_refl eq_refl eq_refl) as (T' & C' & G' & Code').
  destruct Hr as [Ht Hc He Hok Hw Hl Hrel Ho].
  assert (Hl' : filter live_resource (wrappers (after_call runtime c m))
                = rev (registered_in (new ++ [Called c r]))).
  { cbn [after_call set_world add_effect wrappers]. rewrite Hw.
    rewrite registered_in_app. cbn. rewrite Hown, !app_nil_r. exact Hl. }
  unfold body_post, failed, succeeded. cbn [fst snd result_of].
  destruct (status_ok (reply_status r)) eqn:Es.
  - right. exists (new ++ [Called c r]), (chk ++ [reply_status r]), [].
    split; [exact T' |]. split; [exact C' |].
    split; [now rewrite all_ok_snoc, Hok, Es |].
    split; [now destruct chk |].
    assert (Ec : fst (last_error_of (reply_status r)) = ORT_OK)
      by now apply is_ORT_OK_true.
    split; [exact Ec |]. split; [now rewrite Code' |].
    split.
    { rewrite app_nil_r, Hl'. apply Permutation_sym, Permutation_rev. }
    split; [rewrite released_in_app, Hrel; reflexivity |]. constructor.
  - left. exists (new ++ [Called c r]), (chk ++ [reply_status r]).
    split; [exact T' |]. split; [exact C' |].
    split; [now rewrite all_ok_snoc, Hok, Es |].
    split; [now apply is_ORT_OK_false |].
    split; [exact Code' |]. split; [exact Hl' |].
    split; [rewrite released_in_app, Hrel; reflexivity |].
    rewrite outputs_in_app, Ho. reflexivity.
Qed.

(** What holds when a function has returned [r]. *)
Definition outcome (m : Machine) (x : OrtErrorCode * Machine) : Prop :=
  exists new chk,
    trace (snd x) = trace m ++ new
    /\ checked (world (snd x)) = checked (world m) ++ chk
    /\ chk <> []
    /\ g_last_error_code (world (snd x)) = fst x
    /\ (fst x = ORT_OK <-> all_ok chk = true)
    /\ wrappers (snd x) = wrappers m
    /\ (fst x <> ORT_OK ->
        outputs_in new = [] /\ released_in new = rev (registered_in new))
    /\ (fst x = ORT_OK ->
        exists handed,
          Permutation (released_in new ++ handed) (registered_in new)
          /\ Forall (fun h => exists p, In (Output p 0 (Ptr (pointer_of h))) new) handed).

Lemma destroy_wrappers_spec ws : forall m,
  destroy_wrappers ws m
  = MkMachine (world m) (trace m ++ map Released (filter live_resource ws)) (wrappers m).
Proof.
  induction ws as [|r ws IH]; intros m; cbn [destroy_wrappers filter map].
  - destruct m. cbn. now rewrite app_nil_r.
  - unfold live_resource at 1. destruct (pointer_of r =? nullptr); cbn [negb].
    + apply IH.
    + rewrite IH. cbn. now rewrite <- app_assoc.
Qed.

Lemma released_in_map l : released_in (map Released l) = l.
Proof.
  induction l as [|r l IH]; [reflexivity |].
  cbn [map]. change (released_in (Released r :: map Released l))
    with (r :: released_in (map Released l)). now rewrite IH.
Qed.

Lemma registered_in_released l : registered_in (map Released l) = [].
Proof. induction l as [|r l IH]; [reflexivity |]. cbn. exact IH. Qed.

Lemma outputs_in_released l : outputs_in (map Released l) = [].
Proof. induction l as [|r l IH]; [reflexivity |]. cbn. exact IH. Qed.

Lemma initial_running m :
  running (set_wrappers [] m) [] (set_wrappers [] m) [] [].
Proof.
  constructor; try reflexivity.
  - cbn. now rewrite app_nil_r.
  - cbn. now rewrite app_nil_r.
Qed.

Lemma function_post_of_body (body : Code OrtErrorCode OrtErrorCode) m :
  body_post (set_wrappers [] m) (body (set_wrappers [] m)) ->
  outcome m (function body m).
Proof.
  unfold function, outcome, body_post.
  destruct (body (set_wrappers [] m)) as [res m']. cbn [fst snd].
  rewrite destroy_wrappers_spec. cbn [set_wrappers world trace wrappers].
  set (r := result_of res).
  replace (match res with inl r0 | inr r0 => r0 end) with r by now destruct res.
  intros [(new & chk & T & C & Hok & Hne & Hc & Hl & Hrel & Ho)
         |(new & chk & handed & T & C & Hok & Hn & Hr & Hc & Hp & Hrel & Hh)].
  - exists (new ++ map Released (filter live_resource (wrappers m'))), chk.
    cbn [set_wrappers trace world] in T, C.
    split; [now rewrite T, app_assoc |]. split; [exact C |].
    split; [now apply all_ok_nonempty |]. split; [exact Hc |].
    split; [split; [contradiction | intros H; rewrite H in Hok; discriminate] |].
    split; [reflexivity |].
    split.
    + intros _. rewrite outputs_in_app, Ho, outputs_in_released.
      rewrite released_in_app, Hrel, released_in_map.
      rewrite registered_in_app, registered_in_released, !app_nil_r. cbn [app]. auto.
    + intros H. contradiction.
  - exists (new ++ map Released (filter live_resource (wrappers m'))), chk.
    cbn [set_wrappers trace world] in T, C.
    split; [now rewrite T, app_assoc |]. split; [exact C |].
    split; [exact Hn |]. split; [now rewrite Hr |].
    split; [split; auto |].
    split; [reflexivity |].
    split; [intros H; contradiction |].
    intros _. exists handed.
    rewrite released_in_app, Hrel, released_in_map.
    rewrite registered_in_app, registered_in_released, app_nil_r.
    split; [exact Hp |].
    eapply Forall_impl; [| exact Hh].
    intros h (p & Hin). exists p. apply in_or_app. now left.
Qed.

(** A body that ends, after its last checked call, in stores and
    [return ORT_OK]. *)
Lemma final_stores m0 ws m new chk l ws' handed :
  running m0 ws m new chk -> chk <> [] ->
  g_last_error_code (world m) = ORT_OK ->
  released_in l = [] ->
  Permutation (filter live_resource ws' ++ handed) (registered_in new ++ registered_in l) ->
  Forall (fun h => exists p, In (Output p 0 (Ptr (pointer_of h))) (new ++ l)) handed ->
  body_post m0 (inl ORT_OK, MkMachine (world m) (trace m ++ l) ws').
Proof.
  intros [Ht Hc He Hok Hw Hl Hrel Ho] Hn Hg Hr Hp Hh.
  right. exists (new ++ l), chk, handed. cbn [fst snd result_of world trace wrappers].
  split; [now rewrite Ht, app_assoc |]. split; [exact Hc |].
  split; [exact Hok |]. split; [exact Hn |]. split; [reflexivity |].
  split; [exact Hg |].
  split; [now rewrite registered_in_app |].
  split; [now rewrite released_in_app, Hrel, Hr |]. exact Hh.
Qed.

(** [OrtInit]'s last call, which stores the environment. *)
Lemma final_env m0 c ws m new chk :
  (forall r, registered c r = []) ->
  running m0 ws m new chk ->
  body_post m0
    (and_then (ask runtime c)
       (fun r =>
          and_then (fun m => (inl tt, set_world (set_g_env (reply_value r) (world m)) m))
                   (fun _ => check (reply_status r))) m).
Proof.
  intros Hown Hr. unfold and_then, ask. rewrite run_check.
  fold (reply_to runtime c m). set (r := reply_to runtime c m).
  set (w1 := set_g_env (reply_value r) (world (add_effect (Called c r) m))).
  destruct (CheckStatus_spec (reply_status r) w1) as (_ & L & C & _).
  destruct Hr as [Ht Hc He Hok Hw Hl Hrel Ho].
  unfold body_post, failed, succeeded. cbn [fst snd result_of set_world world trace
    wrappers add_effect].
  assert (Hl' : filter live_resource (wrappers m) = rev (registered_in (new ++ [Called c r]))).
  { rewrite Hw, registered_in_app. cbn. rewrite Hown, !app_nil_r. exact Hl. }
  assert (C' : checked (snd (CheckStatus (reply_status r) w1))
               = checked (world m0) ++ chk ++ [reply_status r]).
  { rewrite C. subst w1. cbn [set_g_env checked add_effect world].
    now rewrite Hc, app_assoc. }
  assert (Code' : g_last_error_code (snd (CheckStatus (reply_status r) w1))
                  = fst (last_error_of (reply_status r))).
  { unfold last_error in L. now rewrite <- L. }
  destruct (status_ok (reply_status r)) eqn:Es.
  - right. exists (new ++ [Called c r]), (chk ++ [reply_status r]), [].
    split; [now rewrite Ht, app_assoc |]. split; [exact C' |].
    split; [now rewrite all_ok_snoc, Hok, Es |].
    split; [now destruct chk |].
    assert (Ec : fst (last_error_of (reply_status r)) = ORT_OK)
      by now apply is_ORT_OK_true.
    split; [exact Ec |]. split; [now rewrite Code' |].
    split.
    { rewrite app_nil_r, Hl'. apply Permutation_sym, Permutation_rev. }
    split; [rewrite released_in_app, Hrel; reflexivity |]. constructor.
  - left. exists (new ++ [Called c r]), (chk ++ [reply_status r]).
    split; [now rewrite Ht, app_assoc |]. split; [exact C' |].
    split; [now rewrite all_ok_snoc, Hok, Es |].
    split; [now apply is_ORT_OK_false |].
    split; [exact Code' |]. split; [exact Hl' |].
    split; [rewrite released_in_app, Hrel; reflexivity |].
    rewrite outputs_in_app, Ho. reflexivity.
Qed.

Variable K : Constants.
Variable E : Enumerations.
Variable pthreads : bool.

(** A proof about a function starts at its body, in which [Hn] and [Hg]
    say that a status has been checked and that the last one was fine. *)
Ltac begin :=
  apply function_post_of_body;
  match goal with
  | |- body_post (set_wrappers [] ?m) _ =>
      let H := fresh "H" in
      pose proof (initial_running m) as H;
      let m0 := fresh "m0" in
      set (m0 := set_wrappers [] m) in *; clearbody m0;
      pose proof (failure_is_outcome m0) as HF
  end.

Lemma checked_call_post c m :
  (forall r, registered c r = []) ->
  outcome m (checked_call runtime c m).
Proof.
  intros Hown. unfold checked_call. begin.
  eapply final_call; [exact Hown | exact H].
Qed.

Lemma OrtInit_post num_threads logging_level m :
  outcome m (OrtInit runtime pthreads num_threads logging_level m).
Proof.
  unfold OrtInit. begin.
  destruct pthreads.
  - do 3 next_call. eapply final_env; [intros ?; reflexivity | exact H].
  - eapply final_env; [intros ?; reflexivity | exact H].
Qed.

Lemma copy_outputs_only outputs output_count items :
  released_in (copy_outputs outputs output_count items) = []
  /\ registered_in (copy_outputs outputs output_count items) = [].
Proof.
  unfold copy_outputs. induction (List.seq 0 (Z.to_nat output_count)) as [|i l IH];
    [split; reflexivity |]. exact IH.
Qed.

Lemma live_of_running m0 ws m new chk :
  running m0 ws m new chk ->
  wrappers m = ws /\ registered_in new = rev (filter live_resource ws).
Proof.
  intros [_ _ _ _ Hw Hl _ _]. split; [exact Hw |].
  now rewrite Hl, rev_involutive.
Qed.

Lemma OrtRunWithBinding_post session io_binding output_count outputs run_options m :
  outcome m
    (OrtRunWithBinding runtime session io_binding output_count outputs run_options m).
Proof.
  unfold OrtRunWithBinding. begin.
  do 2 next_call.
  acquire (fun b : Reply => Buffer (reply_value (reply_to runtime
                                      GetAllocatorWithDefaultOptions m')) (reply_value b)).
  destruct (negb (reply_count _ =? output_count)); [refuse |].
  unfold and_then. rewrite run_effects. unfold yield.
  destruct (live_of_running _ _ _ _ _ H) as (Hw & Hl). rewrite Hw.
  match goal with
  | |- context [copy_outputs ?a ?b ?c] =>
      destruct (copy_outputs_only a b c) as (Hr & Ho)
  end.
  eapply (final_stores _ _ _ _ _ _ _ []); try eassumption.
  - rewrite Ho, Hl, !app_nil_r. apply Permutation_rev.
  - constructor.
Qed.

Lemma OrtBindOutput_post io_binding name output output_location m :
  outcome m
    (OrtBindOutput runtime K io_binding name output output_location m).
Proof.
  unfold OrtBindOutput. begin.
  destruct (negb (output =? nullptr)).
  { eapply final_call; [intros ?; reflexivity | exact H]. }
  destruct (unknown_output_location output_location); [refuse |].
  destruct (negb (output_location =? DATA_LOCATION_GPU_BUFFER)
            && negb (output_location =? DATA_LOCATION_ML_TENSOR));
    [| destruct (output_location =? DATA_LOCATION_ML_TENSOR)];
    (acquire (fun i : Reply => Handle MemoryInfo (reply_value i));
     eapply final_call; [intros ?; reflexivity | exact H]).
Qed.

Lemma Resource_eqb_refl r : Resource_eqb r r = true.
Proof.
  destruct r; cbn; rewrite ?Z.eqb_refl, ?HandleKind_eqb_refl; reflexivity.
Qed.

Lemma remove_wrapper_head r ws : remove_wrapper r (r :: ws) = ws.
Proof. cbn. now rewrite Resource_eqb_refl. Qed.

Lemma remove_wrapper_second r r' ws :
  remove_wrapper r (r' :: r :: ws) = if Resource_eqb r r' then r :: ws else r' :: ws.
Proof. cbn. now rewrite Resource_eqb_refl. Qed.

Lemma store_dims_only p n shape :
  outputs_in (store_dims K p n shape) = []
  /\ released_in (store_dims K p n shape) = []
  /\ registered_in (store_dims K p n shape) = [].
Proof.
  unfold store_dims. induction (List.seq 0 (Z.to_nat n)) as [|i l IH];
    [repeat split |]. exact IH.
Qed.

Lemma store_c_strs_only p o n items :
  outputs_in (store_c_strs K p o n items) = []
  /\ released_in (store_c_strs K p o n items) = []
  /\ registered_in (store_c_strs K p o n items) = [].
Proof.
  unfold store_c_strs. induction (List.seq 0 (Z.to_nat n)) as [|i l IH];
    [repeat split |]. exact IH.
Qed.

Lemma Permutation_filter {T} (f : T -> bool) l l' :
  Permutation l l' -> Permutation (filter f l) (filter f l').
Proof.
  induction 1 as [| x l l' _ IH | x y l | l l' l'' _ IH1 _ IH2]; cbn.
  - constructor.
  - destruct (f x); [now constructor | exact IH].
  - destruct (f x), (f y); try apply Permutation_refl. apply perm_swap.
  - now transitivity (filter f l').
Qed.

(** The wrappers left and the resources handed over are what was
    acquired. *)
Lemma kept_and_handed (ws' hs ws extra : list Resource) new l :
  registered_in new = rev (filter live_resource ws) ->
  registered_in l = filter live_resource extra ->
  Permutation (ws' ++ hs) (ws ++ extra) ->
  Permutation (filter live_resource ws' ++ filter live_resource hs)
              (registered_in new ++ registered_in l).
Proof.
  intros -> -> Hp. rewrite <- filter_app.
  transitivity (filter live_resource (ws ++ extra)); [now apply Permutation_filter |].
  rewrite filter_app. apply Permutation_app_tail, Permutation_rev.
Qed.

Lemma handed_outputs (l : list Effect) (hs : list (Resource * Z)) :
  Forall (fun x => In (Output (snd x) 0 (Ptr (pointer_of (fst x)))) l) hs ->
  Forall (fun h => exists p, In (Output p 0 (Ptr (pointer_of h))) l)
         (filter live_resource (map fst hs)).
Proof.
  induction 1 as [|[h p] hs Hh _ IH]; cbn [map filter fst]; [constructor |].
  destruct (live_resource h); [| exact IH].
  constructor; [| exact IH]. now exists p.
Qed.

Lemma OrtGetTensorData_post tensor data_type data dims dims_length m :
  outcome m
    (OrtGetTensorData runtime K E tensor data_type data dims dims_length m).
Proof.
  unfold OrtGetTensorData. begin.
  next_call.
  destruct (negb (reply_value _ =? ONNX_TYPE_TENSOR E)); [refuse |].
  acquire (fun i : Reply => TensorTypeAndShapeInfo (reply_value i)).
  do 2 next_call. allocate. do 2 next_call.
  match goal with
  | |- context [store_dims K ?p ?n ?sh] =>
      destruct (store_dims_only p n sh) as (Su & Sr & So)
  end.
  write_all Su Sr So. clear Su Sr So.
  part.
  destruct (reply_value _ =? ONNX_TENSOR_ELEMENT_DATA_TYPE_STRING K).
  - do 2 next_call. allocate. next_call.
    subst G. cbv beta. machine.
    destruct (live_of_running _ _ _ _ _ H) as (Hw & Hl). rewrite Hw.
    rewrite remove_wrapper_head, remove_wrapper_head.
    match goal with
    | |- context [store_c_strs K ?p ?o ?n ?it] =>
        destruct (store_c_strs_only p o n it) as (Su & Sr & So)
    end.
    match type of Hl with
    | _ = rev (filter live_resource [?a; ?b; ?c]) =>
        eapply (final_stores _ _ _ _ _ _ _
                  (filter live_resource (map fst [(a, data); (b, dims)])));
          try eassumption
    end.
    + rewrite released_in_app, Sr. reflexivity.
    + eapply (kept_and_handed _ _ _ []); [exact Hl | |].
      * rewrite registered_in_app, So. reflexivity.
      * apply Permutation_sym. cbn [map fst]. rewrite app_nil_r.
        match goal with
        | |- Permutation [?a; ?b; ?c] _ => exact (Permutation_app_comm [a; b] [c])
        end.
    + apply handed_outputs. repeat constructor; cbn [fst snd pointer_of];
        apply in_or_app; right; apply in_or_app; right; cbn [In];
        repeat (first [left; reflexivity | right]).
  - next_call.
    subst G. cbv beta. machine.
    destruct (live_of_running _ _ _ _ _ H) as (Hw & Hl). rewrite Hw.
    rewrite remove_wrapper_head.
    match type of Hl with
    | _ = rev (filter live_resource [?b; ?c]) =>
        eapply (final_stores _ _ _ _ _ _ _
                  (filter live_resource (map fst [(b, dims)])));
          try eassumption
    end.
    + reflexivity.
    + eapply (kept_and_handed _ _ _ []); [exact Hl | reflexivity |].
      cbn [map fst]. rewrite app_nil_r.
      match goal with
      | |- Permutation _ [?b; ?c] => exact (Permutation_app_comm [c] [b])
      end.
    + apply handed_outputs. repeat constructor; cbn [fst snd pointer_of].
      apply in_or_app; right. cbn [In].
      repeat (first [left; reflexivity | right]).
Qed.

(** ** OrtGetInputOutputCount and OrtGetInputOutputMetadata *)

Lemma after_call_wrappers c m :
  set_wrappers (wrappers m) (after_call runtime c (set_wrappers [] m))
  = after_call runtime c m.
Proof. reflexivity. Qed.

Lemma run_OrtGetInputOutputCount session m :
  OrtGetInputOutputCount runtime session m
  = let a := SessionGetInputCount session in
    let b := SessionGetOutputCount session in
    let ra := reply_to runtime a m in
    let m1 := after_call runtime a m in
    let rb := reply_to runtime b m1 in
    if status_ok (reply_status ra)
    then ((fst (last_error_of (reply_status rb)), reply_value ra, reply_value rb),
          after_call runtime b m1)
    else ((fst (last_error_of (reply_status ra)), reply_value ra, 0), m1).
Proof.
  cbv zeta. unfold OrtGetInputOutputCount, function, and_then.
  rewrite run_checked. cbn [fst snd]. rewrite <- status_ok_code.
  change (reply_to runtime (SessionGetInputCount session) (set_wrappers [] m))
    with (reply_to runtime (SessionGetInputCount session) m).
  destruct (status_ok (reply_status (reply_to runtime (SessionGetInputCount session) m)))
    eqn:Ea; cbn [negb].
  - rewrite run_checked. cbn [fst snd]. rewrite <- status_ok_code.
    set (m1 := after_call runtime (SessionGetInputCount session) (set_wrappers [] m)).
    change (reply_to runtime (SessionGetOutputCount session) m1)
      with (reply_to runtime (SessionGetOutputCount session)
              (after_call runtime (SessionGetInputCount session) m)).
    destruct (status_ok (reply_status (reply_to runtime (SessionGetOutputCount session)
                (after_call runtime (SessionGetInputCount session) m)))) eqn:Eb;
      cbn [negb]; unfold leave_with, yield; cbn [destroy_wrappers wrappers after_call
        set_world add_effect set_wrappers].
    + rewrite status_ok_code in Eb. apply is_ORT_OK_true in Eb. rewrite Eb. reflexivity.
    + reflexivity.
  - unfold leave_with. reflexivity.
Qed.

Lemma and_then_yield {R A} (c : Code R A) m : and_then c yield m = c m.
Proof. unfold and_then, yield. now destruct (c m) as [[a|r] m']. Qed.

(** One checked call that hands nothing over. *)
Lemma step_spec m0 c ws m new chk :
  (forall r, registered c r = []) ->
  running m0 ws m new chk ->
  if status_ok (reply_status (reply_to runtime c m))
  then exists chk',
         running m0 ws (after_call runtime c m)
                 (new ++ [Called c (reply_to runtime c m)]) chk'
         /\ chk' <> []
         /\ g_last_error_code (world (after_call runtime c m)) = ORT_OK
  else failed m0 (fst (last_error_of (reply_status (reply_to runtime c m))))
              (after_call runtime c m).
Proof.
  intros Hown Hr.
  pose (G := fun x : (Reply + OrtErrorCode) * Machine =>
               match x with
               | (inl _, m') =>
                   exists chk',
                     running m0 ws m' (new ++ [Called c (reply_to runtime c m)]) chk'
                     /\ chk' <> [] /\ g_last_error_code (world m') = ORT_OK
               | (inr e, m') => failed m0 e m'
               end).
  assert (HG : G (and_then (RETURN_ERROR_CODE_IF_ERROR runtime c) yield m)).
  { apply (then_call runtime m0 _ G (fun r m H => H) c yield ws m new chk Hown Hr).
    intros m' new' chk' H Hn Hg -> _. unfold yield. cbn. eauto. }
  rewrite and_then_yield, run_RETURN_ERROR_CODE_IF_ERROR in HG.
  now destruct (status_ok (reply_status (reply_to runtime c m))).
Qed.

Lemma then_counts {A} m0 (G : (A + OrtErrorCode) * Machine -> Prop) session
    (k : OrtErrorCode * Z * Z -> Code OrtErrorCode A) ws m new chk :
  (forall r m, failed m0 r m -> G (inr r, m)) ->
  running m0 ws m new chk ->
  (forall counts m' new' chk',
     running m0 ws m' new' chk' -> chk' <> [] ->
     g_last_error_code (world m') = ORT_OK ->
     G (k counts m')) ->
  G (and_then (call_function (OrtGetInputOutputCount runtime session))
       (fun counts =>
          if negb (is_ORT_OK (fst (fst counts)))
          then leave_with (fst (fst counts)) else k counts) m).
Proof.
  intros HF Hr Hk. unfold and_then, call_function.
  rewrite run_OrtGetInputOutputCount. cbv zeta.
  pose proof (step_spec m0 (SessionGetInputCount session) ws m new chk
                (fun _ => eq_refl) Hr) as Sa.
  destruct (status_ok (reply_status (reply_to runtime (SessionGetInputCount session) m)))
    eqn:Ea.
  - destruct Sa as (chk1 & R1 & _ & _).
    pose proof (step_spec m0 (SessionGetOutputCount session) ws _ _ chk1
                  (fun _ => eq_refl) R1) as Sb.
    cbn [fst snd]. rewrite <- status_ok_code.
    destruct (status_ok (reply_status (reply_to runtime (SessionGetOutputCount session)
                (after_call runtime (SessionGetInputCount session) m)))) eqn:Eb;
      cbn [negb].
    + destruct Sb as (chk2 & R2 & Hn & Hg). eapply Hk; eassumption.
    + unfold leave_with. now apply HF.
  - cbn [fst snd]. rewrite <- status_ok_code, Ea. cbn [negb].
    unfold leave_with. now apply HF.
Qed.

Lemma OrtGetInputOutputCount_post session m :
  outcome m
    (fst (fst (fst (OrtGetInputOutputCount runtime session m))),
     snd (OrtGetInputOutputCount runtime session m)).
Proof.
  pose proof (function_post_of_body
                (and_then (call_function (OrtGetInputOutputCount runtime session))
                   (fun counts =>
                      if negb (is_ORT_OK (fst (fst counts)))
                      then leave_with (fst (fst counts)) else yield ORT_OK)) m) as P.
  assert (B : body_post (set_wrappers [] m)
                (and_then (call_function (OrtGetInputOutputCount runtime session))
                   (fun counts =>
                      if negb (is_ORT_OK (fst (fst counts)))
                      then leave_with (fst (fst counts)) else yield ORT_OK)
                   (set_wrappers [] m))).
  { apply (then_counts (set_wrappers [] m) (body_post (set_wrappers [] m)) session
             (fun _ => yield ORT_OK) [] _ [] []);
      [apply failure_is_outcome | apply initial_running |].
    intros counts m' new' chk' H Hn Hg. unfold yield.
    destruct (live_of_running _ _ _ _ _ H) as (Hw & Hl).
    replace m' with (MkMachine (world m') (trace m' ++ []) [])
      by (destruct m'; cbn in *; now rewrite app_nil_r, Hw).
    eapply (final_stores _ _ _ _ _ [] [] []); try eassumption; try reflexivity.
    - cbn. rewrite app_nil_r, Hl. constructor.
    - constructor. }
  specialize (P B). clear B.
  unfold function, and_then, call_function in P.
  assert (W : forall x,
             OrtGetInputOutputCount runtime session (set_wrappers [] x)
             = (fst (OrtGetInputOutputCount runtime session x),
                set_wrappers [] (snd (OrtGetInputOutputCount runtime session x)))).
  { intros x. rewrite !run_OrtGetInputOutputCount. cbv zeta.
    change (reply_to runtime (SessionGetInputCount session) (set_wrappers [] x))
      with (reply_to runtime (SessionGetInputCount session) x).
    destruct (status_ok _); reflexivity. }
  rewrite W in P. clear W.
  destruct (OrtGetInputOutputCount runtime session m) as [[[e ic] oc] m'] eqn:Eq.
  cbn [fst snd] in *.
  assert (Wm : wrappers m' = wrappers m).
  { rewrite run_OrtGetInputOutputCount in Eq. cbv zeta in Eq.
    destruct (status_ok _) in Eq; injection Eq as _ _ _ <-; reflexivity. }
  assert (He : e = ORT_OK -> is_ORT_OK e = true) by (intros ->; reflexivity).
  destruct (is_ORT_OK e) eqn:Ee; cbn [negb] in P; unfold leave_with, yield in P;
    rewrite destroy_wrappers_spec in P; cbn in P; rewrite app_nil_r in P.
  - apply is_ORT_OK_true in Ee. subst e.
    destruct P as (new & chk & T & C & P). exists new, chk.
    cbn [fst snd] in *. rewrite Wm. auto.
  - destruct P as (new & chk & T & C & P). exists new, chk.
    cbn [fst snd] in *. rewrite Wm. auto.
Qed.

Lemma copy_names_only buffer params n : forall i dest,
  outputs_in (copy_names K buffer params i dest n) = []
  /\ released_in (copy_names K buffer params i dest n) = []
  /\ registered_in (copy_names K buffer params i dest n) = [].
Proof.
  induction n as [|n IH]; intros i dest; cbn [copy_names]; [repeat split |].
  destruct (0 <? str_len _); apply IH.
Qed.

Lemma copy_dims_only buffer dim_count values :
  outputs_in (copy_dims K buffer dim_count values) = []
  /\ released_in (copy_dims K buffer dim_count values) = []
  /\ registered_in (copy_dims K buffer dim_count values) = [].
Proof.
  unfold copy_dims. induction (List.seq 0 (Z.to_nat dim_count)) as [|i l IH];
    [repeat split |]. exact IH.
Qed.

Lemma write_type_info_only buffer et ti dc values params :
  outputs_in (write_type_info K buffer et ti dc values params) = []
  /\ released_in (write_type_info K buffer et ti dc values params) = []
  /\ registered_in (write_type_info K buffer et ti dc values params) = [].
Proof.
  unfold write_type_info.
  destruct (ti =? nullptr); [repeat split |].
  destruct (0 <? dc); [| repeat split].
  destruct (copy_names_only buffer params (Z.to_nat dc) 0 (8 + dc * pointer_size K * 2))
    as (A1 & A2 & A3).
  destruct (copy_dims_only buffer dc values) as (B1 & B2 & B3).
  change (outputs_in (?a :: ?b :: ?l)) with (outputs_in l).
  change (released_in (?a :: ?b :: ?l)) with (released_in l).
  change (registered_in (?a :: ?b :: ?l)) with (registered_in l).
  rewrite outputs_in_app, released_in_app, registered_in_app, A1, A2, A3, B1, B2, B3.
  repeat split.
Qed.

Ltac finish_metadata name_cstr_ptr type_info_ptr :=
  match goal with G := _ |- _ => subst G end; cbv beta; machine;
  match goal with
  | H : running ?m0 _ ?m _ _ |- body_post ?m0 (_, MkMachine (world ?m) _ _) =>
      let Hw := fresh "Hw" in
      let Hl := fresh "Hl" in
      destruct (live_of_running _ _ _ _ _ H) as (Hw & Hl); rewrite Hw;
      rewrite remove_wrapper_second; cbn [Resource_eqb];
      match goal with
      | |- context [write_type_info K ?b ?et ?ti ?dc ?vs ?ps] =>
          let Su := fresh "Su" in
          let Sr := fresh "Sr" in
          let So := fresh "So" in
          destruct (write_type_info_only b et ti dc vs ps) as (Su & Sr & So);
          match type of Hl with
          | _ = rev (filter live_resource [?t; Buffer ?a ?n]) =>
              eapply (final_stores _ _ _ _ _ _ _
                        (filter live_resource
                           (map fst [(Buffer a n, name_cstr_ptr);
                                     (Buffer a b, type_info_ptr)])));
              try eassumption;
              [ rewrite !released_in_app, Sr; reflexivity
              | eapply (kept_and_handed _ _ _ [Buffer a b]);
                [ exact Hl
                | rewrite !registered_in_app, So; cbn [registered registered_in flat_map filter app];
                  now destruct (live_resource _)
                | cbn [map fst app];
                  apply Permutation_cons; [reflexivity |]; apply Permutation_refl ]
              | apply handed_outputs; repeat constructor; cbn [fst snd pointer_of];
                apply in_or_app; right; apply in_or_app; right;
                apply in_or_app; right; cbn [app In];
                repeat (first [left; reflexivity | right]) ]
          end
      end
  end.

Ltac dimensions name_cstr_ptr type_info_ptr :=
  part;
  match goal with
  | |- context [if 0 <? ?dc then _ else _] => destruct (0 <? dc)
  end;
  [ do 2 next_call; finish_metadata name_cstr_ptr type_info_ptr
  | finish_metadata name_cstr_ptr type_info_ptr ].

Ltac tensor_info name_cstr_ptr type_info_ptr :=
  next_call; part;
  match goal with
  | |- context [if negb (?ti =? nullptr) then _ else _] =>
      destruct (negb (ti =? nullptr))
  end;
  [ do 2 next_call;
    match goal with G := _ |- _ => subst G end; cbv beta; unfold aim_after, yield;
    dimensions name_cstr_ptr type_info_ptr
  | match goal with G := _ |- _ => subst G end; cbv beta; unfold aim_after, yield;
    dimensions name_cstr_ptr type_info_ptr ].

Lemma OrtGetInputOutputMetadata_post session index name_cstr_ptr type_info_ptr m :
  outcome m
    (OrtGetInputOutputMetadata runtime K E session index name_cstr_ptr type_info_ptr m).
Proof.
  unfold OrtGetInputOutputMetadata. begin.
  next_call.
  eapply (then_counts m0 (body_post m0) session); [exact HF | exact H |].
  clear H. intros counts m2 new2 chk2 H Hn Hg.
  destruct (index >=? to_size_t K (snd (fst counts) + snd counts)); [refuse |].
  destruct (index <? snd (fst counts)).
  - acquire (fun n : Reply => Buffer (reply_value (reply_to runtime
                                        GetAllocatorWithDefaultOptions m0))
                                     (reply_value n)).
    acquire (fun t : Reply => TypeInfo (reply_value t)).
    tensor_info name_cstr_ptr type_info_ptr.
  - acquire (fun n : Reply => Buffer (reply_value (reply_to runtime
                                        GetAllocatorWithDefaultOptions m0))
                                     (reply_value n)).
    acquire (fun t : Reply => TypeInfo (reply_value t)).
    tensor_info name_cstr_ptr type_info_ptr.
Qed.

End Outcome.

(** ** Every function that reports through its return value *)

(** The functions of api.cc that return what [CheckStatus] said, with
    their arguments. *)
(** The functions that acquire resources of their own. *)
Definition acquires (f : Function) : bool :=
  match f with
  | Call_OrtGetInputOutputMetadata _ _ _ _ | Call_OrtGetTensorData _ _ _ _ _
  | Call_OrtBindOutput _ _ _ _ | Call_OrtRunWithBinding _ _ _ _ _ => true
  | _ => false
  end.

Lemma exec_outcome runtime K E pthreads f m :
  outcome m (exec runtime K E pthreads f m).
Proof.
  destruct f; cbn [exec].
  - apply OrtInit_post.
  - apply checked_call_post. now intros.
  - apply checked_call_post. now intros.
  - apply checked_call_post. now intros.
  - apply OrtGetInputOutputCount_post.
  - apply OrtGetInputOutputMetadata_post.
  - apply OrtGetTensorData_post.
  - apply checked_call_post. now intros.
  - apply checked_call_post. now intros.
  - apply OrtBindOutput_post.
  - apply OrtRunWithBinding_post.
  - apply checked_call_post. now intros.
Qed.

(** The code a function returns is the code [OrtGetLastError] reports
    after it: each of these functions routes at least one status through
    [CheckStatus], returns ORT_OK exactly when every status it checked was
    fine, and otherwise returns the code it left as the last error. *)
Theorem returned_code_is_last_error runtime K E pthreads f m :
  let r := fst (exec runtime K E pthreads f m) in
  let m' := snd (exec runtime K E pthreads f m) in
  snd (fst (OrtGetLastError (world m'))) = r
  /\ exists chk,
       checked (world m') = checked (world m) ++ chk
       /\ chk <> []
       /\ (r = ORT_OK <-> all_ok chk = true).
Proof.
  cbv zeta.
  destruct (exec_outcome runtime K E pthreads f m)
    as (new & chk & _ & C & Hn & Hc & Hiff & _).
  split; [exact Hc |]. exists chk. auto.
Qed.

(** A binding whose output count does not match: the call returns
    ORT_INVALID_ARGUMENT, which is then the last error. *)
Lemma returned_code_is_last_error_witness :
  fst (exec (canned_runtime [] 1) wasm32 tensor_types false
            (Call_OrtRunWithBinding 1 2 3 4 5) initial_machine) = ORT_INVALID_ARGUMENT
  /\ snd (fst (OrtGetLastError
                 (world (snd (exec (canned_runtime [] 1) wasm32 tensor_types false
                                   (Call_OrtRunWithBinding 1 2 3 4 5) initial_machine)))))
     = ORT_INVALID_ARGUMENT.
Proof.
  destruct (returned_code_is_last_error (canned_runtime [] 1) wasm32 tensor_types false
              (Call_OrtRunWithBinding 1 2 3 4 5) initial_machine) as (H & _).
  split; [reflexivity |]. rewrite H. reflexivity.
Defined.

(** The machine after the statements run so far. *)
Ltac compute_machine :=
  repeat progress (unfold reply_to, after_call;
                   cbn [trace set_wrappers add_effect set_world wrappers world
                        fst snd destroy_wrappers pointer_of]);
  rewrite ?length_app; cbn [length]; rewrite ?Nat.add_1_r;
  rewrite <- ?app_assoc; cbn [app].

(** ** What a function acquires *)

Lemma bound_in_app l1 l2 : bound_in (l1 ++ l2) = bound_in l1 ++ bound_in l2.
Proof. apply flat_map_app. Qed.

Lemma owned_in_app l1 l2 : owned_in (l1 ++ l2) = owned_in l1 ++ owned_in l2.
Proof. apply flat_map_app. Qed.

(** Without bound values, what is acquired is what the wrappers hold. *)
Lemma owned_in_unbound l : bound_in l = [] -> owned_in l = registered_in l.
Proof.
  induction l as [|e l IH]; [reflexivity |].
  cbn [bound_in owned_in registered_in flat_map]. intros H.
  apply app_eq_nil in H as [He Hl].
  fold (owned_in l). fold (registered_in l). rewrite (IH Hl).
  destruct e; try reflexivity. unfold owned. now rewrite He, app_nil_r.
Qed.

Definition is_call (e : Effect) : bool :=
  match e with Called _ _ => true | _ => false end.

Lemma bound_in_stores l : forallb (fun e => negb (is_call e)) l = true -> bound_in l = [].
Proof.
  induction l as [|e l IH]; [reflexivity |]. cbn [forallb].
  intros H. apply andb_true_iff in H as [He Hl].
  cbn [bound_in flat_map]. fold (bound_in l). rewrite (IH Hl).
  now destruct e.
Qed.

Section Unbound.

Variable runtime : nat -> Call -> Reply.
Variable K : Constants.
Variable E : Enumerations.

(** The effects of a statement hold no bound values. *)
Definition unbinding {R A} (c : Code R A) : Prop :=
  forall m, exists new, trace (snd (c m)) = trace m ++ new /\ bound_in new = [].

Lemma unbinding_quiet {R A} (c : Code R A) :
  (forall m, trace (snd (c m)) = trace m) -> unbinding c.
Proof. intros H m. exists []. now rewrite H, app_nil_r. Qed.

Lemma unbinding_yield {R A} (a : A) : unbinding (@yield R A a).
Proof. now apply unbinding_quiet. Qed.

Lemma unbinding_leave {R A} (r : R) : unbinding (@leave_with R A r).
Proof. now apply unbinding_quiet. Qed.

Lemma unbinding_and_then {R A B} (c : Code R A) (f : A -> Code R B) :
  unbinding c -> (forall a, unbinding (f a)) -> unbinding (and_then c f).
Proof.
  intros Hc Hf m. unfold and_then. specialize (Hc m).
  destruct (c m) as [[a|r] m1]; [| exact Hc].
  destruct Hc as (n1 & T1 & B1). destruct (Hf a m1) as (n2 & T2 & B2).
  exists (n1 ++ n2). cbn [snd] in *.
  split; [now rewrite T2, T1, app_assoc |]. now rewrite bound_in_app, B1, B2.
Qed.

Lemma unbinding_ask {R} c : (forall r, bound c r = []) -> unbinding (@ask runtime R c).
Proof.
  intros H m. exists [Called c (runtime (length (trace m)) c)].
  split; [reflexivity |]. cbn. now rewrite H.
Qed.

Lemma unbinding_effect {R} e : is_call e = false -> unbinding (@effect R e).
Proof. intros H m. exists [e]. split; [reflexivity |]. now destruct e. Qed.

Lemma unbinding_effects {R} l :
  forallb (fun e => negb (is_call e)) l = true -> unbinding (@effects R l).
Proof.
  intros H m. rewrite run_effects. exists l. split; [reflexivity |].
  now apply bound_in_stores.
Qed.

Lemma unbinding_check {R} s : unbinding (@check R s).
Proof.
  apply unbinding_quiet. intros m. unfold check.
  now destruct (CheckStatus s (world m)).
Qed.

Lemma unbinding_CHECK_STATUS {R} c :
  (forall r, bound c r = []) -> unbinding (@CHECK_STATUS runtime R c).
Proof.
  intros H. unfold CHECK_STATUS.
  apply unbinding_and_then; [now apply unbinding_ask |].
  intros r. apply unbinding_and_then; [apply unbinding_check |].
  intros e. apply unbinding_yield.
Qed.

Lemma unbinding_RETURN_ERROR_CODE_IF_ERROR c :
  (forall r, bound c r = []) -> unbinding (RETURN_ERROR_CODE_IF_ERROR runtime c).
Proof.
  intros H. unfold RETURN_ERROR_CODE_IF_ERROR.
  apply unbinding_and_then; [now apply unbinding_CHECK_STATUS |].
  intros r. destruct (is_ORT_OK (fst r)); [apply unbinding_yield | apply unbinding_leave].
Qed.

Lemma unbinding_return_status {A} code msg : unbinding (@return_status A code msg).
Proof.
  unfold return_status. apply unbinding_and_then; [apply unbinding_check |].
  intros e. apply unbinding_leave.
Qed.

Lemma unbinding_REGISTER {R} r : unbinding (@REGISTER_AUTO_RELEASE R r).
Proof. now apply unbinding_quiet. Qed.

Lemma unbinding_UNREGISTER {R} r : unbinding (@UNREGISTER_AUTO_RELEASE R r).
Proof. now apply unbinding_quiet. Qed.

Lemma bound_in_released l : bound_in (map Released l) = [].
Proof. induction l as [|r l IH]; [reflexivity | exact IH]. Qed.

Lemma unbinding_function {R} (body : Code R R) m :
  unbinding body ->
  exists new, trace (snd (function body m)) = trace m ++ new /\ bound_in new = [].
Proof.
  intros Hb. unfold function. specialize (Hb (set_wrappers [] m)).
  destruct (body (set_wrappers [] m)) as [res m']. cbn [snd] in *.
  destruct Hb as (new & T & B). rewrite destroy_wrappers_spec.
  cbn [set_wrappers trace] in *.
  exists (new ++ map Released (filter live_resource (wrappers m'))).
  split; [now rewrite T, app_assoc |].
  now rewrite bound_in_app, B, bound_in_released.
Qed.

Lemma unbinding_call_function {R A} (f : Machine -> A * Machine) :
  (forall m, exists new, trace (snd (f m)) = trace m ++ new /\ bound_in new = []) ->
  unbinding (@call_function R A f).
Proof.
  intros H m. unfold call_function. specialize (H m). now destruct (f m).
Qed.

Lemma copy_names_stores buffer params n : forall i dest,
  forallb (fun e => negb (is_call e)) (copy_names K buffer params i dest n) = true.
Proof.
  induction n as [|n IH]; intros i dest; cbn [copy_names]; [reflexivity |].
  destruct (0 <? str_len _); cbn [forallb is_call negb andb]; apply IH.
Qed.

Lemma mapped_stores {A} (f : A -> Effect) l :
  (forall a, is_call (f a) = false) ->
  forallb (fun e => negb (is_call e)) (map f l) = true.
Proof.
  intros H. induction l as [|a l IH]; [reflexivity |].
  cbn [map forallb]. now rewrite H, IH.
Qed.

Lemma write_type_info_stores_only buffer et ti dc values params :
  forallb (fun e => negb (is_call e))
          (write_type_info K buffer et ti dc values params) = true.
Proof.
  unfold write_type_info. cbn [forallb is_call negb andb].
  destruct (ti =? nullptr); [reflexivity |]. cbn [forallb is_call negb andb].
  destruct (0 <? dc); [| reflexivity].
  rewrite forallb_app, copy_names_stores. cbn [andb].
  unfold copy_dims. now apply mapped_stores.
Qed.

End Unbound.

Ltac unbinding_solve :=
  repeat first
    [ apply unbinding_yield
    | apply unbinding_leave
    | apply unbinding_REGISTER
    | apply unbinding_UNREGISTER
    | apply unbinding_return_status
    | apply unbinding_check
    | apply unbinding_RETURN_ERROR_CODE_IF_ERROR; intros ?; reflexivity
    | apply unbinding_CHECK_STATUS; intros ?; reflexivity
    | apply unbinding_ask; intros ?; reflexivity
    | apply unbinding_effect; reflexivity
    | apply unbinding_effects;
      first [ apply write_type_info_stores_only
            | apply mapped_stores; intros ?; reflexivity ]
    | apply unbinding_and_then; [| intros]
    | match goal with
      | |- unbinding (if ?b then _ else _) => destruct b
      end ].

Section Acquired.

Variable runtime : nat -> Call -> Reply.
Variable K : Constants.
Variable E : Enumerations.
Variable pthreads : bool.

Lemma OrtGetInputOutputCount_unbound session m :
  exists new,
    trace (snd (OrtGetInputOutputCount runtime session m)) = trace m ++ new
    /\ bound_in new = [].
Proof.
  unfold OrtGetInputOutputCount. apply unbinding_function. unbinding_solve.
Qed.

(** Of the functions that acquire resources, only [OrtRunWithBinding] comes
    by bound values. *)
Definition binds (f : Function) : bool :=
  match f with Call_OrtRunWithBinding _ _ _ _ _ => true | _ => false end.

Lemma exec_unbound f m :
  acquires f = true -> binds f = false ->
  exists new,
    trace (snd (exec runtime K E pthreads f m)) = trace m ++ new /\ bound_in new = [].
Proof.
  intros Ha Hb. destruct f; try discriminate; cbn [exec].
  - unfold OrtGetInputOutputMetadata. apply unbinding_function.
    apply unbinding_and_then;
      [apply unbinding_RETURN_ERROR_CODE_IF_ERROR; intros ?; reflexivity | intros a].
    apply unbinding_and_then.
    + apply unbinding_call_function. apply OrtGetInputOutputCount_unbound.
    + intros counts. unbinding_solve.
  - unfold OrtGetTensorData. apply unbinding_function. unbinding_solve.
  - unfold OrtBindOutput. apply unbinding_function. unbinding_solve.
Qed.

(** What [OrtRunWithBinding] does, case by case. *)
Lemma OrtRunWithBinding_trace session io_binding output_count outputs run_options m :
  let n := length (trace m) in
  let run := RunWithBinding session run_options io_binding in
  let ran := runtime n run in
  let looked_up := runtime (S n) GetAllocatorWithDefaultOptions in
  let allocator := reply_value looked_up in
  let get := GetBoundOutputValues io_binding allocator in
  let got := runtime (S (S n)) get in
  let release := if reply_value got =? nullptr then []
                 else [Released (Buffer allocator (reply_value got))] in
  let r := fst (OrtRunWithBinding runtime session io_binding output_count outputs
                                  run_options m) in
  let m' := snd (OrtRunWithBinding runtime session io_binding output_count outputs
                                   run_options m) in
  if status_ok (reply_status ran)
  then if status_ok (reply_status looked_up)
       then if status_ok (reply_status got)
            then if reply_count got =? output_count
                 then r = ORT_OK
                      /\ trace m'
                         = trace m
                           ++ [Called run ran;
                               Called GetAllocatorWithDefaultOptions looked_up;
                               Called get got]
                           ++ copy_outputs outputs output_count (reply_items got)
                           ++ release
                 else r = ORT_INVALID_ARGUMENT
                      /\ trace m'
                         = trace m
                           ++ [Called run ran;
                               Called GetAllocatorWithDefaultOptions looked_up;
                               Called get got]
                           ++ release
            else r <> ORT_OK
                 /\ trace m'
                    = trace m
                      ++ [Called run ran; Called GetAllocatorWithDefaultOptions looked_up;
                          Called get got]
       else r <> ORT_OK
            /\ trace m'
               = trace m ++ [Called run ran; Called GetAllocatorWithDefaultOptions looked_up]
  else r <> ORT_OK /\ trace m' = trace m ++ [Called run ran].
Proof.
  cbv zeta.
  unfold OrtRunWithBinding, function, and_then, REGISTER_AUTO_RELEASE.
  rewrite run_RETURN_ERROR_CODE_IF_ERROR.
  change (reply_to runtime (RunWithBinding session run_options io_binding)
            (set_wrappers [] m))
    with (runtime (length (trace m)) (RunWithBinding session run_options io_binding)).
  destruct (status_ok (reply_status (runtime (length (trace m))
              (RunWithBinding session run_options io_binding)))) eqn:H1.
  2:{ cbn [fst snd]. split.
      - rewrite status_ok_code in H1. now apply is_ORT_OK_false.
      - compute_machine. reflexivity. }
  rewrite run_RETURN_ERROR_CODE_IF_ERROR.
  match goal with
  | |- context [reply_to runtime GetAllocatorWithDefaultOptions ?x] =>
      replace (reply_to runtime GetAllocatorWithDefaultOptions x)
        with (runtime (S (length (trace m))) GetAllocatorWithDefaultOptions)
        by (unfold reply_to; compute_machine; reflexivity)
  end.
  destruct (status_ok (reply_status (runtime (S (length (trace m)))
              GetAllocatorWithDefaultOptions))) eqn:H2.
  2:{ cbn [fst snd]. split.
      - rewrite status_ok_code in H2. now apply is_ORT_OK_false.
      - compute_machine. reflexivity. }
  rewrite run_RETURN_ERROR_CODE_IF_ERROR.
  set (allocator := reply_value (runtime (S (length (trace m)))
                                   GetAllocatorWithDefaultOptions)) in *.
  match goal with
  | |- context [reply_to runtime (GetBoundOutputValues io_binding allocator) ?x] =>
      replace (reply_to runtime (GetBoundOutputValues io_binding allocator) x)
        with (runtime (S (S (length (trace m))))
                      (GetBoundOutputValues io_binding allocator))
        by (unfold reply_to; compute_machine; reflexivity)
  end.
  destruct (status_ok (reply_status (runtime (S (S (length (trace m))))
              (GetBoundOutputValues io_binding allocator)))) eqn:H3.
  2:{ cbn [fst snd]. split.
      - rewrite status_ok_code in H3. now apply is_ORT_OK_false.
      - compute_machine. reflexivity. }
  set (got := runtime (S (S (length (trace m))))
                      (GetBoundOutputValues io_binding allocator)) in *.
  destruct (reply_count got =? output_count); cbn [negb].
  - rewrite run_effects. unfold yield.
    destruct (reply_value got =? nullptr) eqn:En;
      cbn [fst snd destroy_wrappers wrappers set_wrappers pointer_of]; rewrite En;
      compute_machine; fold allocator; fold got;
      rewrite ?app_nil_r; split; reflexivity.
  - unfold return_status, and_then, leave_with. rewrite run_check.
    destruct (reply_value got =? nullptr) eqn:En;
      cbn [fst snd destroy_wrappers wrappers set_wrappers set_world pointer_of];
      rewrite En; compute_machine; fold allocator; fold got;
      repeat split.
Qed.

Lemma copy_outputs_quiet outputs output_count items :
  registered_in (copy_outputs outputs output_count items) = []
  /\ bound_in (copy_outputs outputs output_count items) = []
  /\ released_in (copy_outputs outputs output_count items) = []
  /\ outputs_in (copy_outputs outputs output_count items)
     = copy_outputs outputs output_count items.
Proof.
  unfold copy_outputs. induction (List.seq 0 (Z.to_nat output_count)) as [|i l IH];
    [repeat split |].
  destruct IH as (A & B & C & D). repeat split; auto.
  cbn [map outputs_in filter is_output]. fold (outputs_in (map (fun i0 =>
    Output outputs (Z.of_nat i0) (Ptr (nth i0 items 0))) l)). now rewrite D.
Qed.

(** Every bound value, when their number is the number of outputs, is
    among the values stored through [outputs]. *)
Lemma bound_values_copied outputs (got : Reply) :
  Forall (fun h => exists i,
            In (Output outputs i (Ptr (pointer_of h)))
               (copy_outputs outputs (reply_count got) (reply_items got)))
         (bound_values got).
Proof.
  unfold bound_values, copy_outputs. apply Forall_forall. intros h Hin.
  apply filter_In in Hin as [Hin _]. apply in_map_iff in Hin as (i & <- & Hi).
  exists (Z.of_nat i). apply in_map_iff. exists i. split; [reflexivity | exact Hi].
Qed.

End Acquired.

Arguments binds f : simpl never.

(** A failing call leaves nothing behind, with one exception: when one of
    the functions that acquire resources returns an error, it has stored
    nothing through the pointers its caller passed, and every buffer and
    handle it acquired has been released again, the latest first, except
    bound values.  Those only [OrtRunWithBinding] comes by; when it returns
    an error after it got them (the output count does not match), it frees
    the array but neither releases the values in it nor hands them over. *)
Theorem failure_releases_everything runtime K E pthreads f m :
  acquires f = true ->
  fst (exec runtime K E pthreads f m) <> ORT_OK ->
  exists new,
    trace (snd (exec runtime K E pthreads f m)) = trace m ++ new
    /\ outputs_in new = []
    /\ owned_in new = rev (released_in new) ++ bound_in new
    /\ (binds f = false -> bound_in new = [])
    /\ Forall (fun h => ~ In h (released_in new)) (bound_in new)
    /\ wrappers (snd (exec runtime K E pthreads f m)) = wrappers m.
Proof.
  intros Ha Hr. destruct (binds f) eqn:Hb.
  - destruct f; try discriminate. cbn [exec] in *.
    pose proof (OrtRunWithBinding_trace runtime session io_binding output_count outputs
                  run_options m) as H. cbv zeta in H.
    destruct (exec_outcome runtime K E pthreads
                (Call_OrtRunWithBinding session io_binding output_count outputs
                   run_options) m)
      as (new0 & _ & _ & _ & _ & _ & _ & W & _). cbn [exec] in W.
    set (ran := runtime (length (trace m))
                        (RunWithBinding session run_options io_binding)) in *.
    set (looked_up := runtime (S (length (trace m))) GetAllocatorWithDefaultOptions) in *.
    set (got := runtime (S (S (length (trace m))))
                        (GetBoundOutputValues io_binding (reply_value looked_up))) in *.
    destruct (status_ok (reply_status ran)) eqn:H1;
      [destruct (status_ok (reply_status looked_up)) eqn:H2;
       [destruct (status_ok (reply_status got)) eqn:H3;
        [destruct (reply_count got =? output_count) |] |] |];
      destruct H as (R & T); try contradiction.
    + eexists. split; [exact T |].
      unfold owned_in, bound_in, released_in, owned, registered, bound. cbn [flat_map app].
      rewrite H3. cbn [andb]. unfold live_resource at 1. cbn [pointer_of].
      destruct (reply_value got =? nullptr) eqn:En; cbn [negb flat_map app rev outputs_in
        filter is_output]; rewrite ?app_nil_r;
        (split; [reflexivity |]); (split; [reflexivity |]);
        (split; [discriminate |]); (split; [| exact W]).
      * apply Forall_forall. intros h _ [].
      * apply Forall_forall. intros h Hin [<-|[]].
        unfold bound_values in Hin. apply filter_In in Hin as [Hin _].
        apply in_map_iff in Hin as (i & Hi & _). discriminate.
    + eexists. split; [exact T |].
      unfold owned_in, bound_in, released_in, owned, registered, bound. cbn [flat_map app].
      rewrite H3. cbn [andb app rev].
      split; [reflexivity |]. split; [reflexivity |]. split; [discriminate |].
      split; [constructor | exact W].
    + eexists. split; [exact T |].
      split; [reflexivity |]. split; [reflexivity |]. split; [discriminate |].
      split; [constructor | exact W].
    + eexists. split; [exact T |].
      split; [reflexivity |]. split; [reflexivity |]. split; [discriminate |].
      split; [constructor | exact W].
  - destruct (exec_outcome runtime K E pthreads f m)
      as (new & chk & T & _ & _ & _ & _ & W & Hf & _).
    destruct (Hf Hr) as (Ho & Hrel).
    destruct (exec_unbound runtime K E pthreads f m Ha Hb) as (new' & T' & B).
    assert (new' = new) by (rewrite T in T'; now apply app_inv_head in T').
    subst new'. exists new.
    split; [exact T |]. split; [exact Ho |].
    split; [now rewrite B, app_nil_r, (owned_in_unbound _ B), Hrel, rev_involutive |].
    split; [intros _; exact B |]. split; [rewrite B; constructor | exact W].
Qed.

(** Reading a string tensor whose content cannot be fetched: both buffers
    and the shape info are released, the latest first. *)
Lemma failure_releases_everything_witness :
  exists new,
    trace (snd (exec (canned_runtime [12%nat] 8) wasm32 tensor_types false
                     (Call_OrtGetTensorData 1 2 3 4 5) initial_machine)) = new
    /\ released_in new
       = [Buffer 1003 1011; Buffer 1003 1004; TensorTypeAndShapeInfo 1001]
    /\ owned_in new
       = [TensorTypeAndShapeInfo 1001; Buffer 1003 1004; Buffer 1003 1011]
    /\ outputs_in new = [].
Proof.
  destruct (failure_releases_everything (canned_runtime [12%nat] 8) wasm32 tensor_types
              false (Call_OrtGetTensorData 1 2 3 4 5) initial_machine)
    as (new & T & Ho & Hr & Hb & _).
  - reflexivity.
  - vm_compute. discriminate.
  - exists new. cbn [initial_machine trace app] in T. split; [exact T |].
    split; [rewrite <- T; vm_compute; reflexivity |].
    split; [| exact Ho].
    rewrite Hr, (Hb eq_refl), app_nil_r, <- T. vm_compute. reflexivity.
Defined.

(** A successful call accounts for what it acquired: when one of the
    functions that acquire resources returns ORT_OK, every buffer and
    handle it acquired, the bound values of [OrtRunWithBinding] among
    them, has either been released or been handed to the caller, its
    pointer stored through one of the caller's pointers. *)
Theorem success_hands_over_or_releases runtime K E pthreads f m :
  acquires f = true ->
  fst (exec runtime K E pthreads f m) = ORT_OK ->
  exists new handed,
    trace (snd (exec runtime K E pthreads f m)) = trace m ++ new
    /\ Permutation (released_in new ++ handed) (owned_in new)
    /\ Forall (fun h => exists p i, In (Output p i (Ptr (pointer_of h))) new) handed
    /\ (binds f = false ->
        Forall (fun h => exists p, In (Output p 0 (Ptr (pointer_of h))) new) handed)
    /\ (binds f = true -> handed = bound_in new).
Proof.
  intros Ha Hr. destruct (binds f) eqn:Hb.
  - destruct f; try discriminate. cbn [exec] in *.
    pose proof (OrtRunWithBinding_trace runtime session io_binding output_count outputs
                  run_options m) as H. cbv zeta in H.
    set (ran := runtime (length (trace m))
                        (RunWithBinding session run_options io_binding)) in *.
    set (looked_up := runtime (S (length (trace m))) GetAllocatorWithDefaultOptions) in *.
    set (got := runtime (S (S (length (trace m))))
                        (GetBoundOutputValues io_binding (reply_value looked_up))) in *.
    destruct (status_ok (reply_status ran)) eqn:H1;
      [destruct (status_ok (reply_status looked_up)) eqn:H2;
       [destruct (status_ok (reply_status got)) eqn:H3;
        [destruct (reply_count got =? output_count) eqn:Hc |] |] |];
      destruct H as (R & T); try congruence.
    apply Z.eqb_eq in Hc.
    destruct (copy_outputs_quiet outputs output_count (reply_items got))
      as (Qr & Qb & Ql & _).
    eexists. exists (bound_values got). split; [exact T |].
    assert (Eo : owned_in
                   ([Called (RunWithBinding session run_options io_binding) ran;
                     Called GetAllocatorWithDefaultOptions looked_up;
                     Called (GetBoundOutputValues io_binding (reply_value looked_up)) got]
                    ++ copy_outputs outputs output_count (reply_items got)
                    ++ (if reply_value got =? nullptr then []
                        else [Released (Buffer (reply_value looked_up)
                                               (reply_value got))]))
                 = (if reply_value got =? nullptr then []
                    else [Buffer (reply_value looked_up) (reply_value got)])
                   ++ bound_values got).
    { rewrite !owned_in_app, (owned_in_unbound _ Qb), Qr.
      unfold owned_in, owned, registered, bound. cbn [flat_map app].
      rewrite H3. cbn [andb]. unfold live_resource at 1. cbn [pointer_of].
      destruct (reply_value got =? nullptr); cbn [negb app]; now rewrite ?app_nil_r. }
    assert (Er : released_in
                   ([Called (RunWithBinding session run_options io_binding) ran;
                     Called GetAllocatorWithDefaultOptions looked_up;
                     Called (GetBoundOutputValues io_binding (reply_value looked_up)) got]
                    ++ copy_outputs outputs output_count (reply_items got)
                    ++ (if reply_value got =? nullptr then []
                        else [Released (Buffer (reply_value looked_up)
                                               (reply_value got))]))
                 = (if reply_value got =? nullptr then []
                    else [Buffer (reply_value looked_up) (reply_value got)])).
    { rewrite !released_in_app, Ql.
      destruct (reply_value got =? nullptr); reflexivity. }
    assert (Eb : bound_in
                   ([Called (RunWithBinding session run_options io_binding) ran;
                     Called GetAllocatorWithDefaultOptions looked_up;
                     Called (GetBoundOutputValues io_binding (reply_value looked_up)) got]
                    ++ copy_outputs outputs output_count (reply_items got)
                    ++ (if reply_value got =? nullptr then []
                        else [Released (Buffer (reply_value looked_up)
                                               (reply_value got))]))
                 = bound_values got).
    { rewrite !bound_in_app, Qb. unfold bound_in, bound. cbn [flat_map app].
      rewrite H3. destruct (reply_value got =? nullptr); now rewrite ?app_nil_r. }
    rewrite Eo, Er, Eb.
    split; [apply Permutation_refl |].
    split; [| split; [discriminate | reflexivity]].
    pose proof (bound_values_copied outputs got) as Hv. rewrite Hc in Hv.
    eapply Forall_impl; [| exact Hv].
    intros h (i & Hin). exists outputs, i.
    apply in_or_app. right. apply in_or_app. now left.
  - destruct (exec_outcome runtime K E pthreads f m)
      as (new & chk & T & _ & _ & _ & _ & _ & _ & Hs).
    destruct (Hs Hr) as (handed & Hp & Hh).
    destruct (exec_unbound runtime K E pthreads f m Ha Hb) as (new' & T' & B).
    assert (new' = new) by (rewrite T in T'; now apply app_inv_head in T').
    subst new'. exists new, handed.
    split; [exact T |]. split; [now rewrite (owned_in_unbound _ B) |].
    split; [| split; [intros _; exact Hh | discriminate]].
    eapply Forall_impl; [| exact Hh]. intros h (p & Hin). now exists p, 0.
Qed.

(** Running with a binding of two outputs: the array is freed, the two
    bound values go to the caller. *)
Lemma success_hands_over_or_releases_witness :
  exists new handed,
    trace (snd (exec (canned_runtime [] 1) wasm32 tensor_types false
                     (Call_OrtRunWithBinding 1 2 2 4 5) initial_machine)) = new
    /\ released_in new = [Buffer 1001 1002]
    /\ handed = [Handle Value 2001; Handle Value 2002]
    /\ Permutation (released_in new ++ handed) (owned_in new).
Proof.
  destruct (success_hands_over_or_releases (canned_runtime [] 1) wasm32 tensor_types false
              (Call_OrtRunWithBinding 1 2 2 4 5) initial_machine)
    as (new & handed & T & Hp & _ & _ & Hb).
  - reflexivity.
  - reflexivity.
  - exists new, handed. cbn [initial_machine trace app] in T. split; [exact T |].
    split; [rewrite <- T; vm_compute; reflexivity |].
    split; [rewrite (Hb eq_refl), <- T; vm_compute; reflexivity | exact Hp].
Defined.

(** ** OrtFree *)

(** [OrtFree] always returns ORT_OK: it frees the pointer when the
    default allocator could be looked up, and when the lookup failed it
    frees nothing and still returns ORT_OK, the failure being visible only
    as the last error. *)
Theorem OrtFree_always_OK runtime ptr m :
  let reply := runtime (length (trace m)) GetAllocatorWithDefaultOptions in
  let m' := snd (OrtFree runtime ptr m) in
  fst (OrtFree runtime ptr m) = ORT_OK
  /\ trace m'
     = trace m ++ Called GetAllocatorWithDefaultOptions reply
         :: (if status_ok (reply_status reply)
             then [Released (Buffer (reply_value reply) ptr)] else [])
  /\ last_error (world m') = last_error_of (reply_status reply)
  /\ wrappers m' = wrappers m.
Proof.
  cbv zeta. unfold OrtFree, function, and_then. rewrite run_checked.
  cbn [fst snd]. rewrite <- status_ok_code.
  change (reply_to runtime GetAllocatorWithDefaultOptions (set_wrappers [] m))
    with (runtime (length (trace m)) GetAllocatorWithDefaultOptions).
  set (reply := runtime (length (trace m)) GetAllocatorWithDefaultOptions).
  destruct (CheckStatus_spec (reply_status reply) (world m)) as (_ & L & _).
  destruct (status_ok (reply_status reply));
    unfold effect, yield; cbn [fst snd destroy_wrappers wrappers after_call set_world
      add_effect set_wrappers trace world];
    fold reply; rewrite <- ?app_assoc; repeat split; exact L.
Qed.

(** ** OrtBindOutput *)

Definition known_output_locations : list Z :=
  [DATA_LOCATION_NONE; DATA_LOCATION_CPU; DATA_LOCATION_CPU_PINNED;
   DATA_LOCATION_GPU_BUFFER; DATA_LOCATION_ML_TENSOR].

(** The call that creates the memory info for an output location. *)
Definition memory_info_for (K : Constants) (output_location : Z) : Call :=
  if output_location =? DATA_LOCATION_GPU_BUFFER
  then CreateMemoryInfo "WebGPU_Buffer" (OrtDeviceAllocator K) 0 (OrtMemTypeDefault K)
  else if output_location =? DATA_LOCATION_ML_TENSOR
  then CreateMemoryInfo "WebNN_Tensor" (OrtDeviceAllocator K) 0 (OrtMemTypeDefault K)
  else CreateCpuMemoryInfo (OrtDeviceAllocator K) (OrtMemTypeDefault K).

Lemma unknown_output_location_iff loc :
  unknown_output_location loc = false <-> In loc known_output_locations.
Proof.
  unfold unknown_output_location, known_output_locations,
    DATA_LOCATION_NONE, DATA_LOCATION_CPU, DATA_LOCATION_CPU_PINNED,
    DATA_LOCATION_GPU_BUFFER, DATA_LOCATION_ML_TENSOR.
  cbn [In]. split.
  - intros H.
    destruct (loc =? 0) eqn:E0; [apply Z.eqb_eq in E0; auto |].
    destruct (loc =? 1) eqn:E1; [apply Z.eqb_eq in E1; auto |].
    destruct (loc =? 2) eqn:E2; [apply Z.eqb_eq in E2; auto |].
    destruct (loc =? 4) eqn:E4; [apply Z.eqb_eq in E4; auto 6 |].
    destruct (loc =? 5) eqn:E5; [apply Z.eqb_eq in E5; auto 6 |].
    discriminate.
  - intros [<-|[<-|[<-|[<-|[<-|[]]]]]]; reflexivity.
Qed.

(** [OrtBindOutput] by case.  With a pre-allocated output it makes the one
    call [BindOutput] and the location is not looked at.  Without one, a
    location other than none, cpu, cpu-pinned, gpu-buffer and ml-tensor is
    refused with ORT_INVALID_ARGUMENT before any runtime call; otherwise
    the memory info is created for the location (the CPU one for none,
    cpu and cpu-pinned, "WebGPU_Buffer" for gpu-buffer, "WebNN_Tensor" for
    ml-tensor), the output is bound to it when that succeeded, and the
    memory info is released before the function returns. *)
Theorem OrtBindOutput_by_location runtime K io_binding name output output_location m :
  let r := fst (OrtBindOutput runtime K io_binding name output output_location m) in
  let m' := snd (OrtBindOutput runtime K io_binding name output output_location m) in
  let n := length (trace m) in
  (output <> nullptr ->
   trace m' = trace m ++ [Called (BindOutput io_binding name output)
                                 (runtime n (BindOutput io_binding name output))]
   /\ r = fst (last_error_of
                 (reply_status (runtime n (BindOutput io_binding name output)))))
  /\ (output = nullptr -> ~ In output_location known_output_locations ->
      r = ORT_INVALID_ARGUMENT /\ trace m' = trace m
      /\ g_last_error_message (world m')
         = invalid_location_message output_location name)
  /\ (output = nullptr -> In output_location known_output_locations ->
      let create := memory_info_for K output_location in
      let created := runtime n create in
      let memory_info := reply_value created in
      let bind := BindOutputToDevice io_binding name memory_info in
      let bound := runtime (S n) bind in
      if status_ok (reply_status created)
      then trace m'
           = trace m ++ [Called create created; Called bind bound]
               ++ (if memory_info =? nullptr then []
                   else [Released (Handle MemoryInfo memory_info)])
           /\ r = fst (last_error_of (reply_status bound))
      else trace m' = trace m ++ [Called create created]
           /\ r = fst (last_error_of (reply_status created))).
Proof.
  cbv zeta. unfold OrtBindOutput, function.
  split; [| split].
  - intros Hn. apply Z.eqb_neq in Hn. rewrite Hn. cbn [negb].
    unfold and_then. rewrite run_checked. unfold yield.
    cbn [fst snd destroy_wrappers wrappers after_call set_world add_effect
         set_wrappers trace world]. split; reflexivity.
  - intros -> Hl. rewrite Z.eqb_refl. cbn [negb].
    assert (Hu : unknown_output_location output_location = true).
    { destruct (unknown_output_location output_location) eqn:Eu; [reflexivity |].
      exfalso. now apply Hl, unknown_output_location_iff. }
    rewrite Hu. unfold return_status, and_then, leave_with. rewrite run_check.
    cbn [fst snd destroy_wrappers wrappers set_world set_wrappers trace world].
    repeat split.
  - intros -> Hl. rewrite Z.eqb_refl. cbn [negb].
    apply unknown_output_location_iff in Hl. rewrite Hl.
    assert (Hc : forall k : Reply -> Code OrtErrorCode OrtErrorCode,
              and_then
                (if negb (output_location =? DATA_LOCATION_GPU_BUFFER)
                    && negb (output_location =? DATA_LOCATION_ML_TENSOR)
                 then RETURN_ERROR_CODE_IF_ERROR runtime
                        (CreateCpuMemoryInfo (OrtDeviceAllocator K) (OrtMemTypeDefault K))
                 else if output_location =? DATA_LOCATION_ML_TENSOR
                 then RETURN_ERROR_CODE_IF_ERROR runtime
                        (CreateMemoryInfo "WebNN_Tensor" (OrtDeviceAllocator K) 0
                                          (OrtMemTypeDefault K))
                 else RETURN_ERROR_CODE_IF_ERROR runtime
                        (CreateMemoryInfo "WebGPU_Buffer" (OrtDeviceAllocator K) 0
                                          (OrtMemTypeDefault K))) k
              = and_then (RETURN_ERROR_CODE_IF_ERROR runtime
                            (memory_info_for K output_location)) k).
    { intros k. unfold memory_info_for.
      destruct (output_location =? DATA_LOCATION_GPU_BUFFER) eqn:Eg;
        destruct (output_location =? DATA_LOCATION_ML_TENSOR) eqn:Em;
        cbn [negb andb]; try reflexivity.
      apply Z.eqb_eq in Eg, Em. rewrite Eg in Em. discriminate. }
    rewrite Hc. clear Hc.
    unfold and_then, REGISTER_AUTO_RELEASE. rewrite run_RETURN_ERROR_CODE_IF_ERROR.
    change (reply_to runtime (memory_info_for K output_location) (set_wrappers [] m))
      with (runtime (length (trace m)) (memory_info_for K output_location)).
    set (created := runtime (length (trace m)) (memory_info_for K output_location)).
    destruct (status_ok (reply_status created)).
    + rewrite run_checked. unfold yield.
      cbn [fst snd destroy_wrappers wrappers after_call set_world add_effect
           set_wrappers trace world pointer_of].
      destruct (reply_value created =? nullptr);
        repeat progress (unfold reply_to, after_call;
                         cbn [trace set_wrappers add_effect set_world wrappers world]);
        rewrite ?length_app; cbn [length]; rewrite ?Nat.add_1_r; fold created;
        rewrite <- ?app_assoc; cbn [app]; split; reflexivity.
    + cbn [fst snd destroy_wrappers wrappers after_call set_world add_effect
           set_wrappers trace world]. split; reflexivity.
Qed.

(** An output in a texture is refused; an output as an ML tensor is bound
    through a "WebNN_Tensor" memory info, which is released again. *)
Lemma OrtBindOutput_by_location_witness :
  fst (OrtBindOutput (canned_runtime [] 1) wasm32 7 "out" 0 3 initial_machine)
  = ORT_INVALID_ARGUMENT
  /\ trace (snd (OrtBindOutput (canned_runtime [] 1) wasm32 7 "out" 0 5 initial_machine))
     = [Called (CreateMemoryInfo "WebNN_Tensor" 0 0 0)
               (canned_runtime [] 1 0 (CreateMemoryInfo "WebNN_Tensor" 0 0 0));
        Called (BindOutputToDevice 7 "out" 1000)
               (canned_runtime [] 1 1 (BindOutputToDevice 7 "out" 1000));
        Released (Handle MemoryInfo 1000)].
Proof.
  split.
  - destruct (OrtBindOutput_by_location (canned_runtime [] 1) wasm32 7 "out" 0 3
                initial_machine) as (_ & H & _).
    apply H; [reflexivity |]. cbv. intuition discriminate.
  - destruct (OrtBindOutput_by_location (canned_runtime [] 1) wasm32 7 "out" 0 5
                initial_machine) as (_ & _ & H).
    specialize (H eq_refl). cbv zeta in H.
    assert (L : In 5 known_output_locations) by (cbv; tauto).
    specialize (H L). vm_compute in H. destruct H as [H _]. vm_compute. exact H.
Defined.

(** ** OrtRunWithBinding *)

(** When the run and the two lookups succeed, [OrtRunWithBinding] compares
    the number of bound values with [output_count]: when they differ it
    returns ORT_INVALID_ARGUMENT and stores nothing; when they agree it
    stores the bound values, in order, into [outputs] and returns ORT_OK.
    Either way the array the runtime allocated for them is freed. *)
Theorem OrtRunWithBinding_copies_bound_values runtime session io_binding output_count
    outputs run_options m :
  let n := length (trace m) in
  let run := RunWithBinding session run_options io_binding in
  let ran := runtime n run in
  let looked_up := runtime (S n) GetAllocatorWithDefaultOptions in
  let allocator := reply_value looked_up in
  let get := GetBoundOutputValues io_binding allocator in
  let bound := runtime (S (S n)) get in
  let calls := [Called run ran; Called GetAllocatorWithDefaultOptions looked_up;
                Called get bound] in
  let release := if reply_value bound =? nullptr then []
                 else [Released (Buffer allocator (reply_value bound))] in
  let r := fst (OrtRunWithBinding runtime session io_binding output_count outputs
                                  run_options m) in
  let m' := snd (OrtRunWithBinding runtime session io_binding output_count outputs
                                   run_options m) in
  status_ok (reply_status ran) = true ->
  status_ok (reply_status looked_up) = true ->
  status_ok (reply_status bound) = true ->
  if reply_count bound =? output_count
  then r = ORT_OK
       /\ trace m'
          = trace m ++ calls
              ++ map (fun i => Output outputs (Z.of_nat i)
                                      (Ptr (nth i (reply_items bound) 0)))
                     (List.seq 0 (Z.to_nat output_count))
              ++ release
  else r = ORT_INVALID_ARGUMENT
       /\ trace m' = trace m ++ calls ++ release
       /\ g_last_error_message (world m')
          = "Output count is inconsistent with IO Binding output data."%string.
Proof.
  cbv zeta. intros H1 H2 H3.
  unfold OrtRunWithBinding, function, and_then, REGISTER_AUTO_RELEASE.
  rewrite run_RETURN_ERROR_CODE_IF_ERROR.
  change (reply_to runtime (RunWithBinding session run_options io_binding)
            (set_wrappers [] m))
    with (runtime (length (trace m)) (RunWithBinding session run_options io_binding)).
  rewrite H1.
  rewrite run_RETURN_ERROR_CODE_IF_ERROR.
  match goal with
  | |- context [reply_to runtime GetAllocatorWithDefaultOptions ?x] =>
      replace (reply_to runtime GetAllocatorWithDefaultOptions x)
        with (runtime (S (length (trace m))) GetAllocatorWithDefaultOptions)
        by (unfold reply_to; compute_machine; reflexivity)
  end.
  rewrite H2.
  rewrite run_RETURN_ERROR_CODE_IF_ERROR.
  set (allocator := reply_value (runtime (S (length (trace m)))
                                   GetAllocatorWithDefaultOptions)) in *.
  match goal with
  | |- context [reply_to runtime (GetBoundOutputValues io_binding allocator) ?x] =>
      replace (reply_to runtime (GetBoundOutputValues io_binding allocator) x)
        with (runtime (S (S (length (trace m))))
                      (GetBoundOutputValues io_binding allocator))
        by (unfold reply_to; compute_machine; reflexivity)
  end.
  rewrite H3.
  set (bound := runtime (S (S (length (trace m))))
                        (GetBoundOutputValues io_binding allocator)).
  destruct (reply_count bound =? output_count); cbn [negb].
  - rewrite run_effects. unfold yield, copy_outputs.
    destruct (reply_value bound =? nullptr) eqn:En;
      cbn [fst snd destroy_wrappers wrappers set_wrappers pointer_of]; rewrite En;
      compute_machine; fold allocator; fold bound;
      rewrite ?app_nil_r; split; reflexivity.
  - unfold return_status, and_then, leave_with. rewrite run_check.
    destruct (reply_value bound =? nullptr) eqn:En;
      cbn [fst snd destroy_wrappers wrappers set_wrappers set_world pointer_of];
      rewrite En; compute_machine; fold allocator; fold bound;
      repeat split.
Qed.

(** Two bound values, asked for as two outputs. *)
Lemma OrtRunWithBinding_copies_bound_values_witness :
  outputs_in (trace (snd (OrtRunWithBinding (canned_runtime [] 1) 1 2 2 4000 5
                                            initial_machine)))
  = [Output 4000 0 (Ptr 2001); Output 4000 1 (Ptr 2002)]
  /\ released_in (trace (snd (OrtRunWithBinding (canned_runtime [] 1) 1 2 2 4000 5
                                                initial_machine)))
     = [Buffer 1001 1002].
Proof.
  pose proof (OrtRunWithBinding_copies_bound_values (canned_runtime [] 1) 1 2 2 4000 5
                initial_machine eq_refl eq_refl eq_refl) as H.
  vm_compute in H. destruct H as [_ H]. split; vm_compute; reflexivity.
Defined.

(** ** The layout of the buffers handed to the caller *)

Definition cell_size (K : Constants) (c : Cell) : Z :=
  match c with
  | I32 _ | U32 _ => 4
  | SizeT _ | Ptr _ => pointer_size K
  | Chars s => Z.of_nat (String.length s) + 1
  | Char _ => 1
  end.

(** 1 when the byte [x] lies in [[a, b)], 0 otherwise. *)
Definition within (a b x : Z) : nat := if (a <=? x) && (x <? b) then 1%nat else 0%nat.

(** The number of stores of [l] into [buffer] that write the byte at
    offset [x]. *)
Definition writes_to (K : Constants) (buffer x : Z) (l : list Effect) : nat :=
  length (filter (fun e => match e with
                           | Wrote b off c =>
                               (b =? buffer) && (off <=? x) && (x <? off + cell_size K c)
                           | _ => false
                           end) l).

Lemma writes_to_app K b x l1 l2 :
  writes_to K b x (l1 ++ l2) = (writes_to K b x l1 + writes_to K b x l2)%nat.
Proof. unfold writes_to. now rewrite filter_app, length_app. Qed.

Lemma writes_to_wrote K b x off c l :
  writes_to K b x (Wrote b off c :: l)
  = (within off (off + cell_size K c) x + writes_to K b x l)%nat.
Proof.
  unfold writes_to, within. cbn [filter]. rewrite Z.eqb_refl. cbn [andb].
  now destruct ((off <=? x) && (x <? off + cell_size K c)).
Qed.

Lemma within_adjacent a b c x :
  a <= b -> b <= c -> (within a b x + within b c x)%nat = within a c x.
Proof.
  intros H1 H2. unfold within.
  destruct (a <=? x) eqn:E1, (x <? b) eqn:E2, (b <=? x) eqn:E3, (x <? c) eqn:E4;
    cbn [andb]; try reflexivity; exfalso;
    rewrite ?Z.leb_le, ?Z.leb_gt, ?Z.ltb_lt, ?Z.ltb_ge in *; lia.
Qed.

Lemma within_empty a x : within a a x = 0%nat.
Proof.
  unfold within. destruct (a <=? x) eqn:E1, (x <? a) eqn:E2; cbn [andb]; try reflexivity.
  rewrite Z.leb_le in E1. rewrite Z.ltb_lt in E2. lia.
Qed.

(** The bytes of the names of the dimensions [i, i + n). *)
Fixpoint names_size (params : list (option string)) (i : nat) (n : nat) : Z :=
  match n with
  | O => 0
  | S n' => str_len (nth i params None) + names_size params (S i) n'
  end.

Lemma str_len_nonneg name : 0 <= str_len name.
Proof.
  unfold str_len. destruct name as [s|]; [| lia].
  destruct (0 <? String.length s)%nat; lia.
Qed.

Lemma names_size_nonneg params n : forall i, 0 <= names_size params i n.
Proof.
  induction n as [|n IH]; intros i; cbn [names_size]; [lia |].
  pose proof (str_len_nonneg (nth i params None)). specialize (IH (S i)). lia.
Qed.

Lemma str_len_chars K name :
  0 < str_len name -> cell_size K (Chars (text_of_name name)) = str_len name.
Proof.
  unfold str_len, text_of_name, cell_size. destruct name as [s|]; [| lia].
  destruct (0 <? String.length s)%nat; lia.
Qed.

Section Layout.

Variable K : Constants.
Hypothesis pointer_positive : 0 < pointer_size K.

Local Abbreviation P := (pointer_size K).

(** The name loop writes the pointer slots [i, i + n) and, behind
    [dest], the names of these dimensions, each byte once. *)
Lemma copy_names_writes buffer params x n : forall i dest,
  writes_to K buffer x (copy_names K buffer params (Z.of_nat i) dest n)
  = (within (8 + Z.of_nat i * P) (8 + Z.of_nat (i + n) * P) x
     + within dest (dest + names_size params i n) x)%nat.
Proof.
  induction n as [|n IH]; intros i dest; cbn [copy_names names_size].
  - rewrite Nat.add_0_r, Z.add_0_r, !within_empty. reflexivity.
  - rewrite Nat2Z.id.
    pose proof (str_len_nonneg (nth i params None)) as Hs.
    pose proof (names_size_nonneg params n (S i)) as Hn.
    replace (Z.of_nat i + 1) with (Z.of_nat (S i)) by lia.
    destruct (0 <? str_len (nth i params None)) eqn:E.
    + apply Z.ltb_lt in E.
      rewrite !writes_to_wrote, IH, (str_len_chars K _ E). cbn [cell_size].
      replace (8 + Z.of_nat i * P + P) with (8 + Z.of_nat (S i) * P) by lia.
      replace (i + S n)%nat with (S i + n)%nat by lia.
      rewrite <- (within_adjacent (8 + Z.of_nat i * P) (8 + Z.of_nat (S i) * P)
                    (8 + Z.of_nat (S i + n) * P) x) by nia.
      rewrite <- (within_adjacent dest (dest + str_len (nth i params None))
                    (dest + (str_len (nth i params None) + names_size params (S i) n)) x)
        by lia.
      rewrite Z.add_assoc. lia.
    + apply Z.ltb_ge in E. assert (E0 : str_len (nth i params None) = 0) by lia.
      rewrite writes_to_wrote, IH, E0. cbn [cell_size].
      replace (8 + Z.of_nat i * P + P) with (8 + Z.of_nat (S i) * P) by lia.
      replace (i + S n)%nat with (S i + n)%nat by lia.
      rewrite <- (within_adjacent (8 + Z.of_nat i * P) (8 + Z.of_nat (S i) * P)
                    (8 + Z.of_nat (S i + n) * P) x) by nia.
      cbn [Z.add]. lia.
Qed.

(** A loop that stores [n] pointer-sized entries from offset [base] on
    writes each byte of [[base, base + n * P)] once. *)
Lemma slots_write buffer x base (cell : nat -> Cell) n :
  (forall i, cell_size K (cell i) = P) -> forall i,
  writes_to K buffer x
    (map (fun j => Wrote buffer (base + Z.of_nat j * P) (cell j)) (List.seq i n))
  = within (base + Z.of_nat i * P) (base + Z.of_nat (i + n) * P) x.
Proof.
  intros Hc. induction n as [|n IH]; intros i; cbn [List.seq map].
  - rewrite Nat.add_0_r, within_empty. reflexivity.
  - rewrite writes_to_wrote, IH, Hc.
    replace (base + Z.of_nat i * P + P) with (base + Z.of_nat (S i) * P) by lia.
    replace (i + S n)%nat with (S i + n)%nat by lia.
    apply within_adjacent; nia.
Qed.

Lemma copy_dims_writes buffer dim_count values x :
  0 <= dim_count ->
  writes_to K buffer x (copy_dims K buffer dim_count values)
  = within (8 + dim_count * P) (8 + dim_count * P + dim_count * P) x.
Proof.
  intros Hd. unfold copy_dims.
  rewrite (slots_write buffer x (8 + dim_count * P)
             (fun i => SizeT (to_size_t K (nth i values 0)))) by reflexivity.
  cbn [Nat.add]. rewrite Z2Nat.id by lia. f_equal. cbn [Z.of_nat]. lia.
Qed.

(** The size of the type info of a tensor with [dim_count] dimensions
    named [params]; without tensor info it is 4. *)
Definition type_info_bytes (tensor_info dim_count : Z) (params : list (option string))
    : Z :=
  if tensor_info =? nullptr then 4
  else 8 + dim_count * (P * 2) + names_size params 0 (Z.to_nat dim_count).

(** The stores into the type info buffer write each of its bytes once and
    nothing beyond it. *)
Lemma write_type_info_fills buffer et ti dc values params x :
  0 <= dc ->
  writes_to K buffer x (write_type_info K buffer et ti dc values params)
  = within 0 (type_info_bytes ti dc params) x.
Proof.
  intros Hd. unfold write_type_info, type_info_bytes.
  rewrite writes_to_wrote. cbn [cell_size].
  destruct (ti =? nullptr) eqn:Et.
  - cbn. now rewrite Nat.add_0_r.
  - rewrite writes_to_wrote. cbn [cell_size].
    pose proof (names_size_nonneg params (Z.to_nat dc) 0) as Hn.
    destruct (0 <? dc) eqn:E0.
    + apply Z.ltb_lt in E0.
      rewrite writes_to_app, (copy_names_writes buffer params x (Z.to_nat dc) 0),
        copy_dims_writes by lia.
      cbn [Nat.add Z.of_nat]. rewrite Z2Nat.id by lia.
      replace (8 + 0 * P) with 8 by lia.
      rewrite <- (within_adjacent 0 4 (8 + dc * (P * 2) + names_size params 0 (Z.to_nat dc)) x)
        by nia.
      rewrite <- (within_adjacent 4 8 (8 + dc * (P * 2) + names_size params 0 (Z.to_nat dc)) x)
        by nia.
      rewrite <- (within_adjacent 8 (8 + dc * P)
                    (8 + dc * (P * 2) + names_size params 0 (Z.to_nat dc)) x) by nia.
      rewrite <- (within_adjacent (8 + dc * P) (8 + dc * P + dc * P)
                    (8 + dc * (P * 2) + names_size params 0 (Z.to_nat dc)) x) by nia.
      replace (8 + dc * P + dc * P) with (8 + dc * P * 2) by lia.
      replace (8 + dc * (P * 2)) with (8 + dc * P * 2) by lia.
      change (0 + 4) with 4. change (4 + 4) with 8. lia.
    + apply Z.ltb_ge in E0. assert (dc = 0) by lia. subst dc.
      cbn [Z.to_nat names_size writes_to filter length].
      replace (8 + 0 * (P * 2) + 0) with 8 by lia.
      rewrite Nat.add_0_r. change (0 + 4) with 4. change (4 + 4) with 8.
      apply within_adjacent; lia.
Qed.

(** The size [OrtGetInputOutputMetadata] asks [Alloc] for. *)
Definition type_info_size (tensor_info dim_count : Z) (params : list (option string))
    : Z :=
  if tensor_info =? nullptr then 4
  else
    let size := to_size_t K (8 + dim_count * (P * 2)) in
    if 0 <? dim_count
    then to_size_t K (size + str_len_total K dim_count params) else size.

Lemma str_len_total_steps params n : forall i acc,
  0 <= acc -> acc + names_size params i n < 2 ^ size_t_bits K ->
  fold_left (fun total j => to_size_t K (total + str_len (nth j params None)))
            (List.seq i n) acc
  = acc + names_size params i n.
Proof.
  induction n as [|n IH]; intros i acc Ha Hb; cbn [List.seq fold_left names_size].
  - lia.
  - pose proof (str_len_nonneg (nth i params None)) as Hs.
    pose proof (names_size_nonneg params n (S i)) as Hn.
    cbn [names_size] in Hb.
    unfold to_size_t at 2. rewrite Z.mod_small by lia.
    rewrite IH by lia. lia.
Qed.

(** Unless the size overflows [size_t], the buffer is allocated with the
    size the stores fill. *)
Lemma type_info_size_exact ti dc params :
  0 <= dc ->
  type_info_bytes ti dc params < 2 ^ size_t_bits K ->
  type_info_size ti dc params = type_info_bytes ti dc params.
Proof.
  intros Hd. unfold type_info_size, type_info_bytes.
  destruct (ti =? nullptr); [reflexivity |]. intros Hb.
  pose proof (names_size_nonneg params (Z.to_nat dc) 0) as Hn.
  cbv zeta. unfold to_size_t at 2. unfold to_size_t at 2.
  rewrite (Z.mod_small (8 + dc * (P * 2))) by nia.
  destruct (0 <? dc) eqn:E0.
  - unfold str_len_total. rewrite str_len_total_steps by lia.
    unfold to_size_t. rewrite Z.mod_small by nia. lia.
  - apply Z.ltb_ge in E0. assert (dc = 0) by lia. subst dc. cbn. lia.
Qed.

End Layout.

Lemma writes_to_released K b x l : writes_to K b x (map Released l) = 0%nat.
Proof. unfold writes_to. induction l as [|r l IH]; [reflexivity | exact IH]. Qed.

Lemma function_result (body : Code OrtErrorCode OrtErrorCode) m :
  fst (function body m) = result_of (fst (body (set_wrappers [] m)))
  /\ trace (snd (function body m))
     = trace (snd (body (set_wrappers [] m)))
       ++ map Released (filter live_resource (wrappers (snd (body (set_wrappers [] m))))).
Proof.
  unfold function. destruct (body (set_wrappers [] m)) as [res m'].
  cbn [fst snd]. rewrite destroy_wrappers_spec. cbn [set_wrappers trace].
  split; [now destruct res | reflexivity].
Qed.

Section Buffers.

Variable runtime : nat -> Call -> Reply.
Variable K : Constants.
Variable E : Enumerations.

Hypothesis pointer_positive : 0 < pointer_size K.

(** What a successful [OrtGetInputOutputMetadata] leaves at the end of the
    trace of its body. *)
Definition metadata_written (name_cstr_ptr type_info_ptr : Z)
    (x : (OrtErrorCode + OrtErrorCode) * Machine) : Prop :=
  result_of (fst x) = ORT_OK ->
  exists pre allocator size reply element_type tensor_info dim_count dim_values
         dim_params name_cstr,
    trace (snd x)
    = pre
      ++ Called (Alloc allocator size) reply
         :: write_type_info K (reply_value reply) element_type tensor_info dim_count
                            dim_values dim_params
      ++ [Output name_cstr_ptr 0 (Ptr name_cstr);
          Output type_info_ptr 0 (Ptr (reply_value reply))]
    /\ size = type_info_size K tensor_info dim_count dim_params
    /\ 0 <= dim_count.

Lemma metadata_written_failed name_cstr_ptr type_info_ptr m0 r m :
  failed m0 r m -> metadata_written name_cstr_ptr type_info_ptr (inr r, m).
Proof. intros (new & chk & _ & _ & _ & Hne & _) Hr. contradiction. Qed.

Hypothesis counts_are_sizes :
  forall n info, 0 <= reply_value (runtime n (GetDimensionsCount info)).

Ltac metadata_end Et :=
  match goal with G := _ |- _ => subst G end; cbv beta; machine;
  unfold metadata_written; cbn [fst snd result_of trace];
  intros _; do 10 eexists; split; [cbn [app]; reflexivity |];
  split; [unfold type_info_size; rewrite Et | unfold reply_to; auto with zarith].

Ltac metadata_stores :=
  next_call; part;
  match goal with
  | |- context [if negb (?ti =? nullptr) then _ else _] =>
      let Et := fresh "Et" in
      destruct (ti =? nullptr) eqn:Et; cbn [negb];
      [ match goal with G := _ |- _ => subst G end; cbv beta;
        unfold aim_after, yield; cbn [fst snd];
        part; change (0 <? 0) with false; cbv iota;
        metadata_end Et; reflexivity
      | do 2 next_call;
        match goal with G := _ |- _ => subst G end; cbv beta;
        unfold aim_after, yield; cbn [fst snd];
        part;
        match goal with
        | |- context [if 0 <? ?dc then _ else _] =>
            let E0 := fresh "E0" in
            destruct (0 <? dc) eqn:E0;
            [ do 2 next_call; metadata_end Et; rewrite E0; reflexivity
            | metadata_end Et; rewrite E0; reflexivity ]
        end ]
  end.

Lemma OrtGetInputOutputMetadata_written session index name_cstr_ptr type_info_ptr m :
  let x := OrtGetInputOutputMetadata runtime K E session index name_cstr_ptr
             type_info_ptr m in
  fst x = ORT_OK ->
  exists pre allocator reply element_type tensor_info dim_count dim_values dim_params
         name_cstr post,
    trace (snd x)
    = pre
      ++ Called (Alloc allocator (type_info_size K tensor_info dim_count dim_params)) reply
         :: write_type_info K (reply_value reply) element_type tensor_info dim_count
                            dim_values dim_params
      ++ Output name_cstr_ptr 0 (Ptr name_cstr)
         :: Output type_info_ptr 0 (Ptr (reply_value reply))
         :: map Released post
    /\ 0 <= dim_count.
Proof.
  unfold OrtGetInputOutputMetadata.
  match goal with
  | |- context [function ?b m] =>
      destruct (function_result b m) as (Hr & Ht);
      assert (B : metadata_written name_cstr_ptr type_info_ptr (b (set_wrappers [] m)))
  end.
  { clear Hr Ht. pose proof (initial_running m) as H.
    set (m0 := set_wrappers [] m) in *. clearbody m0.
    pose proof (metadata_written_failed name_cstr_ptr type_info_ptr m0) as HF.
    next_call.
    eapply (then_counts runtime m0 (metadata_written name_cstr_ptr type_info_ptr) session);
      [exact HF | exact H |].
    clear H. intros counts m2 new2 chk2 H Hn Hg.
    destruct (index >=? to_size_t K (snd (fst counts) + snd counts)); [refuse |].
    destruct (index <? snd (fst counts)).
    - acquire (fun n : Reply => Buffer (reply_value (reply_to runtime
                                        GetAllocatorWithDefaultOptions m0))
                                     (reply_value n)).
      acquire (fun t : Reply => TypeInfo (reply_value t)).
      metadata_stores.
    - acquire (fun n : Reply => Buffer (reply_value (reply_to runtime
                                        GetAllocatorWithDefaultOptions m0))
                                     (reply_value n)).
      acquire (fun t : Reply => TypeInfo (reply_value t)).
      metadata_stores. }
  cbv zeta. intros Hok. rewrite Hr in Hok.
  destruct (B Hok) as (pre & a & size & reply & et & ti & dc & vs & ps & name & T & -> & D).
  exists pre, a, reply, et, ti, dc, vs, ps, name.
  eexists. rewrite Ht, T. split; [| exact D].
  rewrite <- !app_assoc. cbn [app]. rewrite <- app_assoc. reflexivity.
Qed.

Lemma write_type_info_stores buffer et ti dc values params :
  Forall (fun e => exists offset cell, e = Wrote buffer offset cell)
         (write_type_info K buffer et ti dc values params).
Proof.
  assert (N : forall n i dest,
             Forall (fun e => exists offset cell, e = Wrote buffer offset cell)
                    (copy_names K buffer params i dest n)).
  { induction n as [|n IH]; intros i dest; cbn [copy_names]; [constructor |].
    destruct (0 <? str_len _); repeat (constructor; eauto). }
  unfold write_type_info. constructor; [eauto |].
  destruct (ti =? nullptr); [constructor |]. constructor; [eauto |].
  destruct (0 <? dc); [| constructor].
  apply Forall_app. split; [apply N |].
  unfold copy_dims. apply Forall_forall. intros e He.
  apply in_map_iff in He. destruct He as (i & <- & _). eauto.
Qed.

(** The type info that [OrtGetInputOutputMetadata] hands to its caller: the
    function allocates one buffer, stores into it and nowhere else, writes
    each of the first [bytes] bytes of the buffer once and none behind
    them, and, unless the size overflows [size_t], [bytes] is the size it
    allocated. *)
Theorem type_info_buffer_is_filled session index name_cstr_ptr type_info_ptr m :
  let x := OrtGetInputOutputMetadata runtime K E session index name_cstr_ptr
             type_info_ptr m in
  fst x = ORT_OK ->
  exists pre allocator size reply stores post bytes,
    trace (snd x) = pre ++ Called (Alloc allocator size) reply :: stores ++ post
    /\ In (Output type_info_ptr 0 (Ptr (reply_value reply))) post
    /\ (forall buffer offset, writes_to K buffer offset post = 0%nat)
    /\ Forall (fun e => exists offset cell, e = Wrote (reply_value reply) offset cell)
              stores
    /\ (forall offset,
          writes_to K (reply_value reply) offset stores = within 0 bytes offset)
    /\ 4 <= bytes
    /\ (bytes < 2 ^ size_t_bits K -> size = bytes).
Proof.
  cbv zeta. intros Hok.
  destruct (OrtGetInputOutputMetadata_written session index name_cstr_ptr type_info_ptr
              m Hok)
    as (pre & a & reply & et & ti & dc & vs & ps & name & post & T & D).
  exists pre, a, (type_info_size K ti dc ps), reply,
    (write_type_info K (reply_value reply) et ti dc vs ps),
    (Output name_cstr_ptr 0 (Ptr name)
     :: Output type_info_ptr 0 (Ptr (reply_value reply)) :: map Released post),
    (type_info_bytes K ti dc ps).
  split; [exact T |].
  split; [right; left; reflexivity |].
  split; [intros b x; apply (writes_to_released K b x post) |].
  split; [apply write_type_info_stores |].
  split; [intros x; now apply write_type_info_fills |].
  split.
  - unfold type_info_bytes. destruct (ti =? nullptr); [lia |].
    pose proof (names_size_nonneg ps (Z.to_nat dc) 0). nia.
  - now apply type_info_size_exact.
Qed.

End Buffers.

(** The type info of the first input of a session whose tensors have two
    dimensions, the first of them named: 8 bytes of header, two name
    slots, two values and the two bytes of the name. *)
Lemma type_info_buffer_is_filled_witness :
  exists pre allocator size reply stores post bytes,
    trace (snd (OrtGetInputOutputMetadata (canned_runtime [] 1) wasm32 tensor_types
                  1 0 2 3 initial_machine))
    = pre ++ Called (Alloc allocator size) reply :: stores ++ post
    /\ In (Output 3 0 (Ptr (reply_value reply))) post
    /\ (forall buffer offset, writes_to wasm32 buffer offset post = 0%nat)
    /\ Forall (fun e => exists offset cell, e = Wrote (reply_value reply) offset cell)
              stores
    /\ (forall offset,
          writes_to wasm32 (reply_value reply) offset stores = within 0 bytes offset)
    /\ 4 <= bytes
    /\ (bytes < 2 ^ size_t_bits wasm32 -> size = bytes).
Proof.
  apply (type_info_buffer_is_filled (canned_runtime [] 1) wasm32 tensor_types).
  - reflexivity.
  - intros n info. unfold canned_runtime. cbn. lia.
  - reflexivity.
Defined.

End WasmCallsSpec.
